(* ===== verification/_CoqProject ===== *)
-Q . S2P
Prelude.v
GoErrors.v
Prog.v
GoTime.v
Strconv.v
Infohash.v
FilePath.v
Bytes.v
Json.v
Url.v
Segments.v
Info.v
Magnet.v
Bencode.v
BencodeFacts.v
BencodeTypes.v
BencodeFuel.v
BencodeAssign.v
BencodeTheorems.v
BencodeEncode.v
MetaInfo.v
MetaInfoFacts.v
MetaInfoTheorems.v
MetaInfoRoundtrip.v
InfoTheorems.v
InfoV2.v
Progress.v
ProgressFacts.v
ProgressTheorems.v
FileProgress.v
Merkle.v
Iplist.v
Disk.v
MapCompletion.v
FileIo.v
FileIoSpec.v
FileIoFacts.v
FileStorage.v
StorageFacts.v
StorageMarks.v
StorageSafety.v
StorageOpen.v
StorageClient.v
StorageTheorems.v
MagnetFacts.v
Sqlite.v
World.v
Database.v
Pieces.v
Engine.v
Service.v
Spec.v
Backend.v
ServiceFacts.v
Sample.v
ServiceTheorems.v
MagnetTheorems.v
Sync.v
PieceCache.v
ServerStorage.v
DataPaths.v
Listing.v
Http.v
Api.v
ApiFacts.v
JsonIndent.v
HttpClient.v
Cli.v
Ui.v
Server.v
HttpSample.v
Remote.v
RemoteTheorems.v
ApiTheorems.v
UiTheorems.v
ServerTheorems.v
CliTheorems.v
PeerProtocol.v
PeerTheorems.v
