(* ===== verification/Prelude.v ===== *)
(** * A verification development for the torrents server (dsb-labs/torrents)

    The program is a BitTorrent server: a process that keeps a table of the
    torrents a user manages, has a torrent client download them, and is driven
    by a JSON API, a web interface and a command line. This library models it
    from the commands down to the tables, and those parts of the torrent
    library, whose copy the repository carries under licenses/, that torrents
    are read, named, divided and stored by. Paths are relative to src/.

    ** The parts and how they interact

    - Service (internal/server/service/torrent.go) orchestrates an engine, a
      torrent repository and the cache of a piece repository through
      interfaces; [Service.v], one definition per method.
    - Engine (internal/server/torrent/engine.go) keeps the torrents of the
      client by info hash; [Engine.v].
    - TorrentRepository and PieceRepository (internal/server/database) execute
      SQL; [Database.v], [Pieces.v], over the tables of [Sqlite.v], with
      timestamps as text ([GoTime.v]).
    - [World.v] is everything below: the tables, the mutex and map of the piece
      cache, the torrent objects of the client, the files, the log and the
      clock. What the environment decides is a schedule of the world: a
      statement about every world is one about every behaviour of the
      database, the network and the context.
    - API and web interface (internal/server/api, internal/server/ui) are
      handlers in front of any service; [Api.v], [Ui.v] with the views' helpers, over
      [Http.v], [Json.v], [Url.v].
    - The client library (pkg/client) and the commands (cmd/, main.go) are the
      other end of the wire; [HttpClient.v], [Cli.v], [JsonIndent.v].
    - The process (internal/server/server.go, config.go): start, serving and
      shutdown; [Server.v].
    - Torrent library: magnet links ([Magnet.v]; metainfo/magnet-v2.go), info
      hashes ([Infohash.v]), the info dictionary, its files and pieces
      ([Info.v]), locating extents in files ([Segments.v]), the encoding of
      torrent files ([Bencode.v]; bencode/, with the numbers of [Strconv.v]) and
      its decoder into variables of Go types ([BencodeTypes.v]: what the code
      finds out by reflection is a [gtype]) and encoder of such variables
      ([BencodeEncode.v], of an [etype]), torrent files, read ([MetaInfo.v];
      metainfo/metainfo.go, spec.go) and written ([MetaInfoRoundtrip.v]), the wire
      protocol between peers ([PeerProtocol.v]), and chunks, requests and how
      far a torrent is ([Progress.v]; torrent.go, piece.go, file.go, misc.go),
      the hashes of files in v2 torrents ([Merkle.v]; merkle/), and lists of
      addresses to block ([Iplist.v]; iplist/).
    - Storage of the torrent library (licenses/github.com/anacrolix/torrent/
      storage): [FileStorage.v] has opening a torrent, reading, writing, hashing
      and marking its pieces, over the file access of [FileIo.v], which is
      classic or maps files into memory; below are the files of [Disk.v] and a
      piece completion, an interface that [MapCompletion.v] and, in
      [ServerStorage.v], the server's piece repository implement.
      [FilePath.v] has where files are placed.

    Code with effects is a program over the calls it makes ([Prog.v]): a tree
    of calls with a continuation each, that is run against a handler. A
    component's calls are an inductive type (baseE, svcE, tsE, httpE, cliE, ioE, osE); the
    calls of the service are interpreted by the engine and the repositories
    ([wiring]). A Go error is a value ([GoErrors.v]), a panic the other result
    of a run. A string is its bytes, an [int64] a [Z] with its wrap-around where
    it can be reached.

    ** The groups of theorems

    - The service against its specification: [Spec.v] says what each call of
      the service's interfaces may answer and change, [Backend.v] proves that
      the repositories and the engine implement it on every world, and
      [ServiceFacts.v] and [ServiceTheorems.v] prove what each method does on
      every branch, from the specification alone.
    - [Sync.v]: the engine tracks exactly the torrents that are managed and not
      paused, after every sequence of successful operations and after [Restore]
      on a new process. [DataPaths.v]: which files [Remove] deletes.
      [Listing.v]: the order of a listing. [PieceCache.v]: the cache and the
      table agree in every interleaving of concurrent calls, without deadlock.
    - [MagnetTheorems.v]: magnets are read back, unless they have a name too
      many, what is added is what the magnet says, and which magnets make the
      client panic.
    - [Remote.v], [RemoteTheorems.v], [ApiTheorems.v], [CliTheorems.v],
      [UiTheorems.v]: a method of the client library or a command, run against
      the server, is the operation of the service, whatever the service is; every
      request is answered; JSON preserves torrents; the pages act through the
      service.
    - [ServerTheorems.v]: the process closes what it opened and stops.
    - [InfoTheorems.v], [InfoV2.v]: pieces tile the files of a torrent; [Segments.v]:
      an extent is located as its overlap with every file; [PeerTheorems.v]:
      messages are read back, nothing is read past a message, handshakes agree.
      [BencodeFacts.v], [BencodeTheorems.v]: encoder and decoder of bencode are
      inverse to each other, and the decoder ends. [BencodeFuel.v],
      [BencodeAssign.v]: decoding into a variable ends, values
      that are kept as they are are single values, and what is decoded is what
      a reference definition, [assign], makes of the value and the type.
    - [MetaInfoFacts.v], [MetaInfoTheorems.v]: loading a torrent file ends, what is
      hashed is a part of the file, and a file is loaded as what its entries
      say, as it is described there; [ServiceTheorems.AddFile_adds] is
      about the files as they are. [MetaInfoRoundtrip.v]: what is written is read.
    - [ProgressFacts.v], [ProgressTheorems.v]: requests tile a torrent, what is
      reported counts the bytes that are there, and changes keep it so.
      [FileProgress.v]: what is reported of a file, which is less than what is
      there when a piece is not complete. It ends with a torrent.
      [Merkle.v]: however data is written, its hash is the root over its blocks.
      [Iplist.v]: the range found is the one with the address, in a list and in
      a packed list.
    - The storage: [FileIoSpec.v] says what file access may do to the names and
      contents of files, [FileIoFacts.v] proves it of both implementations, and
      from the specification alone follow what reading and writing do
      ([StorageFacts.v]), hashing and marking ([StorageMarks.v]), that the
      names of the files say what is complete ([StorageSafety.v]), opening
      ([StorageOpen.v]) and any sequence of operations of a client
      ([StorageClient.v]). [StorageTheorems.v] puts them together on a machine,
      [ServerStorage.v] relates them to the database, and
      [StorageTheorems.limits] runs the code where it falls short. [Prog.v] has
      the rules.
    - [Sample.v] and [HttpSample.v] are environments in which the hypotheses
      hold; the lemmas that end in [_witness] apply the theorems there.

    ** Hypotheses

    [EmptinessLaws]: which values the encoder leaves out. [BitmapLaws]: counting,
    flipping and visiting a bitmap. [EnvLaws]: SHA-1 has 20 bytes, and net/url and the multihash library return
    errors of their own. [HttpLaws]: what a
    multipart writer wrote, the reader reads. [Faults] says whether statements
    or the client may fail at all; the theorems without it in a premise hold
    when they do. Theorems about text in JSON speak of the text as JSON carries
    it (bytes that are not UTF-8 are replaced). The theorems about the storage
    assume that no two files of the torrent have the same name, with or without
    ".part" ([storable]), that no system call fails ([inv]; the operations
    themselves are modelled for any fault), and that the client writes only to
    pieces that are not complete and marks as complete only what it has
    ([allowed]). Those about a client speak of a torrent that is opened where
    none of its files are ([opened]) and used from then on; opening it again over
    its files goes by names and sizes ([reopening_goes_by_names]), after which
    complete pieces can lose their bytes ([limits.reopening_loses_complete_pieces],
    [limits.reopening_cuts_a_finished_file]). [HolesLaws] and [SectionWriter]: what seeking data in a file and
    the library's writer to a section do. Recording a piece may fail at any
    time.

    ** Bounds and fuel

    Recursion is structural except for: the JSON scanner, whose fuel is twice
    the length of the text and two more (each step consumes a byte or opens a
    value) and whose nesting is bounded by 10000 as in encoding/json; base 32,
    eight characters a round ([base32.decode_fuel]); the decoder of bencode,
    one more than there are bytes, as every call but the last reads one
    ([BencodeFacts.parse_total]), and two more for the decoder into variables
    ([BencodeFuel.Unmarshal_into_ends]); the directories of a file tree, one more than
    it has bytes, as a directory is shorter than the one it is in; the binary search, at most
    the number of segments ([binary_search_spec]); [ChoosePieceLength], 64
    rounds for 64 bits ([ChoosePieceLength_good]); and the loop of [humanBytes],
    seven rounds for an int64; and the loop that reads a file, one round more
    than bytes are asked for, as each round reads a byte or ends it; the root of
    a layer of hashes, one more than there are, as each layer has half as many
    ([Root_tree]), and the padding of a layer, as many rounds as hashes. Offsets in torrents are [int64]; their theorems
    hold up to 2 ^ 61 bytes ([max_size]), where nothing wraps around.

    ** Not modelled, and why

    - Generated templates, static files, mocks and tests. The views are
      parameters of the handlers.
    - cobra, toml, ozzo-validation, multihash and the multipart reader are
      parameters with their documented behaviour; so are the general layout
      parser of package time and what net/url says of an authority.
    - SQLite is its tables and the statements executed on them; migrations are
      the tables they leave.
    - The torrent client beyond registration, info, verification, progress and
      dropping: swarms, trackers, webseeds, piece requests, the DHT.
    - Below the server, how much of a file is complete is a parameter
      ([file_completed]; [FileProgress.v] has how the client counts it), and so is
      whether the storage opens: when it does not, adding fails as the
      environment decides. Progress of torrents with pieces aligned to files,
      priorities, readers; magnets made of torrent files.
      The client also finds a torrent by the short form of a v2 hash; a magnet
      with both kinds of hash is added by its v1 hash here.
    - In the storage: the locks, reference counts and shared handles of open
      files, and goroutines that use one torrent at the same time; a system
      call is a step of its own, but an operation runs to its end. Log messages
      and counters. Backends other than files, which the server does not use.
    - [Restore] starts a goroutine per torrent; here they run one after the
      other, in the order of the rows, and the database serialises them.
    - Goroutines otherwise: the piece cache and the two goroutines of the
      serving phase are interleaved, the handlers of requests are not. *)

From Stdlib Require Import ZArith Lia Ascii String.
From stdpp Require Import base gmap strings list fin_maps sorting.

(** ** Results

    A Go function that returns [(T, error)] is a function into [result error T];
    the error type is a parameter here because the errors of the program are
    declared in [GoErrors]. *)

Inductive outcome (E A : Type) : Type :=
| Ok (a : A)
| Err (e : E).
Arguments Ok {E A} a.
Arguments Err {E A} e.

Definition outcome_map {E A B : Type} (f : A -> B) (r : outcome E A) : outcome E B :=
  match r with
  | Ok a => Ok (f a)
  | Err e => Err e
  end.

Definition outcome_bind {E A B : Type} (r : outcome E A) (f : A -> outcome E B) : outcome E B :=
  match r with
  | Ok a => f a
  | Err e => Err e
  end.

Declare Scope outcome_scope.
Delimit Scope outcome_scope with outcome.
Notation "'try' x <- r ;; k" := (outcome_bind r (fun x => k))
  (at level 100, x name, r at next level, right associativity) : outcome_scope.

Definition is_ok {E A : Type} (r : outcome E A) : bool :=
  match r with
  | Ok _ => true
  | Err _ => false
  end.

(** ** The tactics and the hint database of the development *)

Create HintDb torrents.

(** Destruct the scrutinee of the first [match] of the goal or of a hypothesis. *)
Ltac case_first :=
  match goal with
  | |- context [match ?x with _ => _ end] => destruct x eqn:?
  | H : context [match ?x with _ => _ end] |- _ => destruct x eqn:?
  end.

(** Open every conjunction, existential and pair equation of the context. *)
Ltac crush :=
  repeat match goal with
         | H : _ /\ _ |- _ => destruct H
         | H : exists _, _ |- _ => destruct H
         | H : (_, _) = (_, _) |- _ => injection H; clear H; intros; subst
         | H : Ok _ = Ok _ |- _ => injection H; clear H; intros; subst
         | H : Err _ = Err _ |- _ => injection H; clear H; intros; subst
         | H : Some _ = Some _ |- _ => injection H; clear H; intros; subst
         | H : Ok _ = Err _ |- _ => discriminate H
         | H : Err _ = Ok _ |- _ => discriminate H
         | H : Some _ = None |- _ => discriminate H
         | H : None = Some _ |- _ => discriminate H
         end.

(** ** Byte strings

    A Go [string] is a sequence of bytes, here a [string] of [ascii]. *)

Local Open Scope string_scope.

Lemma str_app_nil_l (s : string) : "" ++ s = s.
Proof. reflexivity. Qed.

Lemma str_app_cons (c : ascii) (s t : string) : String c s ++ t = String c (s ++ t).
Proof. reflexivity. Qed.

#[export] Hint Rewrite str_app_nil_l str_app_cons : strings.

Lemma str_app_nil_r (s : string) : s ++ "" = s.
Proof. induction s as [|c s IH]; [done|]. by rewrite str_app_cons, IH. Qed.

Lemma str_app_assoc (a b c : string) : a ++ (b ++ c) = (a ++ b) ++ c.
Proof. induction a as [|x a IH]; [done|]. by rewrite !str_app_cons, IH. Qed.

Lemma str_length_app (a b : string) :
  String.length (a ++ b) = (String.length a + String.length b)%nat.
Proof. induction a as [|x a IH]; [done|]. rewrite str_app_cons; simpl. by rewrite IH. Qed.

Lemma str_app_inj_l (a b c : string) : a ++ b = a ++ c -> b = c.
Proof.
  induction a as [|x a IH]; rewrite ?str_app_cons; intros H; [done|]. injection H. auto.
Qed.

Lemma substring_all (s : string) n : n = String.length s -> String.substring 0 n s = s.
Proof. intros ->. induction s as [|c s IH]; [done|]. simpl. by rewrite IH. Qed.

(** The comparison of two byte strings by [memcmp], the order of SQLite's
    default BINARY collation (and of Go's [<] on strings). *)
Fixpoint str_leb (a b : string) : bool :=
  match a, b with
  | "", _ => true
  | String _ _, "" => false
  | String x a', String y b' =>
      match N.compare (N_of_ascii x) (N_of_ascii y) with
      | Lt => true
      | Gt => false
      | Eq => str_leb a' b'
      end
  end.

Lemma str_leb_refl (a : string) : str_leb a a = true.
Proof. induction a as [|x a IH]; simpl; [done|]. by rewrite N.compare_refl. Qed.

Lemma str_leb_total (a b : string) : str_leb a b = true \/ str_leb b a = true.
Proof.
  revert b; induction a as [|x a IH]; intros [|y b]; simpl; auto.
  rewrite (N.compare_antisym (N_of_ascii x) (N_of_ascii y)).
  destruct (N.compare (N_of_ascii x) (N_of_ascii y)); simpl; auto.
Qed.

Lemma str_leb_trans (a b c : string) :
  str_leb a b = true -> str_leb b c = true -> str_leb a c = true.
Proof.
  revert b c; induction a as [|x a IH]; intros [|y b] [|z c]; simpl; try done.
  destruct (N.compare_spec (N_of_ascii x) (N_of_ascii y)) as [E1|L1|G1];
    destruct (N.compare_spec (N_of_ascii y) (N_of_ascii z)) as [E2|L2|G2];
    intros; try done;
    destruct (N.compare_spec (N_of_ascii x) (N_of_ascii z)); try lia; eauto.
Qed.

(** Does the string start with [p] ([strings.HasPrefix])? *)
Fixpoint has_prefix (p s : string) : bool :=
  match p, s with
  | "", _ => true
  | String x p', String y s' => if decide (x = y) then has_prefix p' s' else false
  | String _ _, "" => false
  end.

Lemma has_prefix_app (p s : string) : has_prefix p (p ++ s) = true.
Proof.
  induction p as [|x p IH]; [done|]. rewrite str_app_cons. simpl. by rewrite decide_True.
Qed.

(** ** Sorting with a boolean order

    [isort] is the stable insertion sort: of two equal keys the one that comes
    first in the list stays first. *)

Section isort.
Context {A : Type} (leb : A -> A -> bool).

Fixpoint insert_by (x : A) (l : list A) : list A :=
  match l with
  | [] => [x]
  | y :: l' => if leb x y then x :: l else y :: insert_by x l'
  end.

Fixpoint isort (l : list A) : list A :=
  match l with
  | [] => []
  | x :: l' => insert_by x (isort l')
  end.

Lemma insert_by_Permutation x l : insert_by x l ≡ₚ x :: l.
Proof.
  induction l as [|y l IH]; simpl; [done|].
  destruct (leb x y); [done|]. rewrite IH. constructor.
Qed.

Lemma isort_Permutation l : isort l ≡ₚ l.
Proof. induction l as [|x l IH]; simpl; [done|]. by rewrite insert_by_Permutation, IH. Qed.

Context (leb_total : forall x y, leb x y = true \/ leb y x = true).

Lemma insert_by_sorted x l :
  Sorted (fun a b => leb a b = true) l ->
  Sorted (fun a b => leb a b = true) (insert_by x l).
Proof.
  induction l as [|y l IH]; simpl; intros Hs; [by repeat constructor|].
  destruct (leb x y) eqn:E; [by constructor; [|constructor]|].
  apply Sorted_inv in Hs as [Hs Hd].
  assert (leb y x = true) by (destruct (leb_total x y); congruence).
  constructor; [by apply IH|].
  destruct l as [|z l]; simpl; [by constructor|].
  destruct (leb x z); constructor; [done|]. by inversion Hd.
Qed.

Lemma isort_sorted l : Sorted (fun a b => leb a b = true) (isort l).
Proof. induction l as [|x l IH]; simpl; [constructor|]. by apply insert_by_sorted. Qed.
End isort.
