(* ===== verification/GoErrors.v ===== *)
(** * Go error values

    [error] is the type of the errors the program builds and inspects: package
    level sentinels ([errors.New]), the wrapping of [fmt.Errorf] with [%w],
    [errors.Join], the driver's [*sqlite.Error] and the API's [ErrorResponse].
    [error_is] is [errors.Is] against a sentinel, and [as_sqlite] and [as_api]
    are the two uses of [errors.As]. *)

From S2P Require Import Prelude.
From Stdlib Require Import ZArith Lia Ascii String.
From stdpp Require Import base gmap strings list.

Local Open Scope string_scope.

Inductive sentinel : Type :=
| DbErrTorrentNotFound        (* database.ErrTorrentNotFound *)
| DbErrTorrentAlreadyExists   (* database.ErrTorrentAlreadyExists *)
| EngErrNotFound              (* torrent.ErrNotFound *)
| EngErrInvalidFile           (* torrent.ErrInvalidFile *)
| SvcErrTorrentNotFound       (* service.ErrTorrentNotFound *)
| SvcErrTorrentAlreadyExists  (* service.ErrTorrentAlreadyExists *)
| SvcErrInvalidTorrentFile    (* service.ErrInvalidTorrentFile *)
| UiErrMissingMagnet          (* ui.errMissingMagnet *)
| UiErrMissingFile            (* ui.errMissingFile *)
| SqlErrNoRows                (* sql.ErrNoRows *)
| HttpErrServerClosed         (* http.ErrServerClosed *)
| MigrateErrNoChange          (* migrate.ErrNoChange *)
| CtxCanceled                 (* context.Canceled *)
| CtxDeadlineExceeded         (* context.DeadlineExceeded *)
| FsErrNotExist               (* fs.ErrNotExist *)
| FsErrPermission             (* fs.ErrPermission *)
| FsErrInvalid                (* fs.ErrInvalid, os.ErrInvalid *)
| IoEOF                       (* io.EOF *)
| IoErrShortWrite.            (* io.ErrShortWrite *)

#[global] Instance sentinel_eq_dec : EqDecision sentinel.
Proof. solve_decision. Defined.

Definition sentinel_text (s : sentinel) : string :=
  match s with
  | DbErrTorrentNotFound | EngErrNotFound | SvcErrTorrentNotFound => "torrent not found"
  | DbErrTorrentAlreadyExists | SvcErrTorrentAlreadyExists => "torrent already exists"
  | EngErrInvalidFile | SvcErrInvalidTorrentFile => "invalid torrent file"
  | UiErrMissingMagnet => "missing magnet"
  | UiErrMissingFile => "missing file"
  | SqlErrNoRows => "sql: no rows in result set"
  | HttpErrServerClosed => "http: Server closed"
  | MigrateErrNoChange => "no change"
  | CtxCanceled => "context canceled"
  | CtxDeadlineExceeded => "context deadline exceeded"
  | FsErrNotExist => "file does not exist"
  | FsErrPermission => "permission denied"
  | FsErrInvalid => "invalid argument"
  | IoEOF => "EOF"
  | IoErrShortWrite => "short write"
  end.

Inductive error : Type :=
| ESentinel (s : sentinel)
| ESqlite (code : Z) (msg : string)
| EApi (status : Z) (msg : string)
| EOpaque (msg : string)
| EWrap (pre : string) (inner : error) (post : string)
| EJoin (errs : list error).

Notation result := (outcome error).

Definition newline : string := String "010"%char "".

(** ** [%q]: [strconv.Quote]. Characters outside ASCII are printed as they are. *)

Definition dquote : ascii := "034"%char.
Definition backslash : ascii := "\"%char.

Definition lower_hex (n : N) : ascii :=
  if (n <? 10)%N then ascii_of_N (48 + n) else ascii_of_N (87 + n).

Definition escape_char (c : ascii) (s : string) : string :=
  let n := N_of_ascii c in
  if decide (c = dquote \/ c = backslash) then String backslash (String c s)
  else if (n =? 7)%N then String backslash (String "a" s)
  else if (n =? 8)%N then String backslash (String "b" s)
  else if (n =? 9)%N then String backslash (String "t" s)
  else if (n =? 10)%N then String backslash (String "n" s)
  else if (n =? 11)%N then String backslash (String "v" s)
  else if (n =? 12)%N then String backslash (String "f" s)
  else if (n =? 13)%N then String backslash (String "r" s)
  else if ((n <? 32) || (n =? 127))%N then
    String backslash (String "x" (String (lower_hex (n / 16)) (String (lower_hex (n mod 16)) s)))
  else String c s.

Fixpoint escape (s : string) : string :=
  match s with
  | "" => String dquote ""
  | String c s' => escape_char c (escape s')
  end.

Definition quote (s : string) : string := String dquote (escape s).

(** [err.Error()]. [errors.Join] separates the messages by newlines. *)
Fixpoint error_text (e : error) : string :=
  match e with
  | ESentinel s => sentinel_text s
  | ESqlite _ m | EApi _ m | EOpaque m => m
  | EWrap pre e' post => pre ++ error_text e' ++ post
  | EJoin es => String.concat newline (map error_text es)
  end.

(** [errors.Is(e, s)] for a sentinel [s]. *)
Fixpoint error_is (e : error) (s : sentinel) : bool :=
  match e with
  | ESentinel s' => bool_decide (s' = s)
  | ESqlite _ _ | EApi _ _ | EOpaque _ => false
  | EWrap _ e' _ => error_is e' s
  | EJoin es => existsb (fun e' => error_is e' s) es
  end.

(** The first value of a list of searches. *)
Fixpoint first_some {A B : Type} (f : A -> option B) (l : list A) : option B :=
  match l with
  | [] => None
  | x :: l' => match f x with Some b => Some b | None => first_some f l' end
  end.

(** [errors.As(err, &sqliteErr)]: the code of the driver's error. *)
Fixpoint as_sqlite (e : error) : option Z :=
  match e with
  | ESqlite code _ => Some code
  | ESentinel _ | EApi _ _ | EOpaque _ => None
  | EWrap _ e' _ => as_sqlite e'
  | EJoin es => first_some as_sqlite es
  end.

(** [errors.As(err, &apiErr)]: the API's error response. *)
Fixpoint as_api (e : error) : option (Z * string) :=
  match e with
  | EApi st m => Some (st, m)
  | ESentinel _ | ESqlite _ _ | EOpaque _ => None
  | EWrap _ e' _ => as_api e'
  | EJoin es => first_some as_api es
  end.

(** The sentinels of the repository's own packages. *)
Definition app_sentinel (s : sentinel) : bool :=
  match s with
  | DbErrTorrentNotFound | DbErrTorrentAlreadyExists | EngErrNotFound | EngErrInvalidFile
  | SvcErrTorrentNotFound | SvcErrTorrentAlreadyExists | SvcErrInvalidTorrentFile
  | UiErrMissingMagnet | UiErrMissingFile => true
  | _ => false
  end.

(** The errors of an ended context. *)
Definition ctx_sentinel (s : sentinel) : bool :=
  match s with CtxCanceled | CtxDeadlineExceeded => true | _ => false end.

(** An error none of the program's sentinels is in: what the code outside the
    repository (driver, operating system, torrent client, context) returns. *)
Definition foreign (e : error) : Prop :=
  forall s, app_sentinel s = true -> error_is e s = false.

Lemma foreign_opaque m : foreign (EOpaque m).
Proof. by intros s _. Qed.

Lemma foreign_sqlite c m : foreign (ESqlite c m).
Proof. by intros s _. Qed.

Lemma foreign_wrap pre e post : foreign e -> foreign (EWrap pre e post).
Proof. intros H s Hs. by apply H. Qed.

Lemma foreign_ctx s : ctx_sentinel s = true -> foreign (ESentinel s).
Proof. intros Hs s' Hs'. simpl. apply bool_decide_eq_false. by intros ->; destruct s'. Qed.

#[export] Hint Resolve foreign_opaque foreign_sqlite foreign_wrap foreign_ctx : torrents.
