(* ===== verification/Prog.v ===== *)
(** * Effectful programs

    The Go code calls interfaces and the standard library in a fixed order and
    branches on their results. [prog E A] is such a program: a tree of calls
    [e : E B], each continued by a function of its answer; [Try] runs a program
    and continues with its value or its panic (Go's [recover]). [run] executes
    a program against a handler that answers the calls from a state, [exec]
    executes it against a relational specification of the calls, [interp]
    replaces every call by a program over lower-level calls, and [pool_step]
    interleaves several programs (goroutines) one call at a time. *)

From S2P Require Import Prelude.
From Stdlib Require Import ZArith Lia String.
From stdpp Require Import base gmap strings list relations.

(** The answer of a call or the end of a program: a value, or a panic. *)
Inductive res (A : Type) : Type :=
| Val (a : A)
| Panicked (msg : string).
Arguments Val {A} a.
Arguments Panicked {A} msg.

Inductive prog (E : Type -> Type) (A : Type) : Type :=
| Ret (a : A)
| Vis {B : Type} (e : E B) (k : B -> prog E A)
| Try {B : Type} (p : prog E B) (k : res B -> prog E A).
Arguments Ret {E A} a.
Arguments Vis {E A B} e k.
Arguments Try {E A B} p k.

Fixpoint pbind {E A B} (p : prog E A) (f : A -> prog E B) : prog E B :=
  match p with
  | Ret a => f a
  | Vis e k => Vis e (fun b => pbind (k b) f)
  | Try q k => Try q (fun r => pbind (k r) f)
  end.

Definition call {E B} (e : E B) : prog E B := Vis e Ret.

Declare Scope prog_scope.
Delimit Scope prog_scope with prog.
Bind Scope prog_scope with prog.
Notation "x <- p ;; q" := (pbind p (fun x => q))
  (at level 100, p at next level, right associativity) : prog_scope.
Notation "p ;; q" := (pbind p (fun _ => q))
  (at level 100, right associativity) : prog_scope.
Local Open Scope prog_scope.

(** [for _, x := range l { ... }] with a body that has no result. *)
Fixpoint for_each {E X} (l : list X) (body : X -> prog E unit) : prog E unit :=
  match l with
  | [] => Ret tt
  | x :: l' => body x;; for_each l' body
  end.

(** ** Execution against a handler *)

Definition handler (E : Type -> Type) (S : Type) : Type := forall B, E B -> S -> res B * S.

Fixpoint run {E S A} (h : handler E S) (p : prog E A) (s : S) : res A * S :=
  match p with
  | Ret a => (Val a, s)
  | Vis e k =>
      match h _ e s with
      | (Val b, s') => run h (k b) s'
      | (Panicked m, s') => (Panicked m, s')
      end
  | Try q k => let '(r, s') := run h q s in run h (k r) s'
  end.

Lemma run_bind {E S A B} (h : handler E S) (p : prog E A) (f : A -> prog E B) (s : S) :
  run h (pbind p f) s =
  match run h p s with
  | (Val a, s') => run h (f a) s'
  | (Panicked m, s') => (Panicked m, s')
  end.
Proof.
  revert s; induction p as [A a|A B' e k IH|A B' q IHq k IH]; intros s; simpl; [done|..].
  - destruct (h _ e s) as [[b|m] s']; [apply IH|done].
  - destruct (run h q s) as [r s']. apply IH.
Qed.

(** ** Execution against a specification of the calls *)

(** What a call may answer and how it may change the state. *)
Definition callspec (E : Type -> Type) (V : Type) : Type :=
  forall B, E B -> V -> res B -> V -> Prop.

Fixpoint exec {E V A} (R : callspec E V) (p : prog E A) (v : V) (r : res A) (v' : V) : Prop :=
  match p with
  | Ret a => r = Val a /\ v' = v
  | Vis e k =>
      (exists b v1, R _ e v (Val b) v1 /\ exec R (k b) v1 r v') \/
      (exists m, R _ e v (Panicked m) v' /\ r = Panicked m)
  | Try q k => exists rq v1, exec R q v rq v1 /\ exec R (k rq) v1 r v'
  end.

Lemma exec_bind_val {E V A B} (R : callspec E V) (p : prog E A) (f : A -> prog E B) v r v' :
  exec R (pbind p f) v r v' ->
  (exists a v1, exec R p v (Val a) v1 /\ exec R (f a) v1 r v') \/
  (exists m, exec R p v (Panicked m) v' /\ r = Panicked m).
Proof.
  revert v; induction p as [A a|A B' e k IH|A B' q IHq k IH]; intros v; simpl.
  - eauto 10.
  - intros [(c & v1 & HR & H)|(m & HR & ->)].
    + apply IH in H as [(a & v2 & H1 & H2)|(m & H & ->)]; [left|right]; eauto 10.
    + right; eauto 10.
  - intros (rq & v1 & Hq & H).
    apply IH in H as [(a & v2 & H1 & H2)|(m & H & ->)]; [left|right]; eauto 10.
Qed.

(** ** A weakest precondition over the specification *)

Definition wp {E V A} (R : callspec E V) (p : prog E A) (v : V) (Q : res A -> V -> Prop) : Prop :=
  forall r v', exec R p v r v' -> Q r v'.

Lemma wp_ret {E V A} (R : callspec E V) (a : A) v (Q : res A -> V -> Prop) :
  Q (Val a) v -> wp R (Ret a) v Q.
Proof. by intros HQ r v' [-> ->]. Qed.

Lemma wp_vis {E V A B} (R : callspec E V) (e : E B) (k : B -> prog E A) v (Q : res A -> V -> Prop) :
  (forall r v1, R B e v r v1 ->
     match r with Val b => wp R (k b) v1 Q | Panicked m => Q (Panicked m) v1 end) ->
  wp R (Vis e k) v Q.
Proof.
  intros H r v' [(b & v1 & HR & Hex)|(m & HR & ->)].
  - by apply (H _ _ HR).
  - by apply (H _ _ HR).
Qed.

Lemma wp_bind {E V A B} (R : callspec E V) (p : prog E A) (f : A -> prog E B) v (Q : res B -> V -> Prop) :
  wp R p v (fun r v1 => match r with Val a => wp R (f a) v1 Q | Panicked m => Q (Panicked m) v1 end) ->
  wp R (pbind p f) v Q.
Proof.
  intros H r v' Hex. apply exec_bind_val in Hex as [(a & v1 & H1 & H2)|(m & H1 & ->)].
  - by apply (H _ _ H1).
  - by apply (H _ _ H1).
Qed.

Lemma wp_mono {E V A} (R : callspec E V) (p : prog E A) v (P Q : res A -> V -> Prop) :
  wp R p v P -> (forall r v', P r v' -> Q r v') -> wp R p v Q.
Proof. intros H HPQ r v' Hex. apply HPQ. by apply H. Qed.

(** [h] implements [R] on the states that satisfy [I]: it answers every call as
    the specification of the abstract state [view s] allows, and preserves [I]. *)
Definition implements {E S V} (h : handler E S) (I : S -> Prop) (view : S -> V)
    (R : callspec E V) : Prop :=
  forall B (e : E B) s, I s ->
    let '(r, s') := h B e s in I s' /\ R B e (view s) r (view s').

Lemma run_refines {E S V A} (h : handler E S) I (view : S -> V) (R : callspec E V) :
  implements h I view R ->
  forall (p : prog E A) s r s', I s -> run h p s = (r, s') ->
  I s' /\ exec R p (view s) r (view s').
Proof.
  intros Himp p. induction p as [A a|A B e k IH|A B q IHq k IH]; intros s r s' HI Hrun; simpl in *.
  - injection Hrun as <- <-. done.
  - specialize (Himp B e s HI). destruct (h B e s) as [[b|m] s1]; destruct Himp as [HI1 HR].
    + destruct (IH b s1 r s' HI1 Hrun) as [HI' Hex]. eauto 10.
    + injection Hrun as <- <-. eauto 10.
  - destruct (run h q s) as [rq s1] eqn:Hq.
    destruct (IHq s rq s1 HI Hq) as [HI1 Hexq].
    destruct (IH rq s1 r s' HI1 Hrun) as [HI' Hex]. eauto 10.
Qed.

(** A reflexive and transitive relation every call respects relates the states
    before and after every program. *)
Lemma run_rel {E S A} (h : handler E S) (Rel : S -> S -> Prop) :
  (forall s, Rel s s) -> (forall s1 s2 s3, Rel s1 s2 -> Rel s2 s3 -> Rel s1 s3) ->
  (forall B (e : E B) s, Rel s (snd (h B e s))) ->
  forall (p : prog E A) s, Rel s (snd (run h p s)).
Proof.
  intros Hrefl Htrans H p. induction p as [A a|A B e k IH|A B q IHq k IH]; intros s; simpl; [done|..].
  - specialize (H B e s). destruct (h B e s) as [[b|m] s1]; [|done].
    eapply Htrans; [exact H|apply IH].
  - specialize (IHq s). destruct (run h q s) as [rq s1]. eapply Htrans; [exact IHq|apply IH].
Qed.

(** An invariant every call preserves is preserved by every program. *)
Lemma run_invariant {E S A} (h : handler E S) (I : S -> Prop) :
  (forall B (e : E B) s, I s -> I (snd (h B e s))) ->
  forall (p : prog E A) s, I s -> I (snd (run h p s)).
Proof. intros H p s. apply (run_rel h (fun s s' => I s -> I s')); auto. Qed.

(** ** Layers *)

Fixpoint interp {E F A} (g : forall B, E B -> prog F B) (p : prog E A) : prog F A :=
  match p with
  | Ret a => Ret a
  | Vis e k => pbind (g _ e) (fun b => interp g (k b))
  | Try q k => Try (interp g q) (fun r => interp g (k r))
  end.

(** Running the interpretation is running the program with the handler that
    runs every call's interpretation. *)
Lemma run_interp {E F S A} (h : handler F S) (g : forall B, E B -> prog F B) (p : prog E A) s :
  run h (interp g p) s = run (fun B e => run h (g B e)) p s.
Proof.
  revert s; induction p as [A a|A B e k IH|A B q IHq k IH]; intros s; simpl; [done|..].
  - rewrite run_bind. destruct (run h (g B e) s) as [[b|m] s']; [apply IH|done].
  - rewrite IHq. destruct (run _ q s) as [r s']. apply IH.
Qed.

(** ** Goroutines

    A pool of programs that share a state. A step picks one of them and
    performs its next call; [enabled] says when a call may proceed (a lock that
    is held by another goroutine blocks). A goroutine that panics is dead. *)

Section pool.
Context {E : Type -> Type} {S A : Type}.
Context (h : handler E S) (enabled : forall B, E B -> S -> Prop).

Inductive thread : Type :=
| Running (p : prog E A)
| Dead (msg : string).

Definition resume {B} (k : B -> prog E A) (r : res B) : thread :=
  match r with
  | Val b => Running (k b)
  | Panicked m => Dead m
  end.

Inductive pool_step : list thread * S -> list thread * S -> Prop :=
| pool_call (l r : list thread) B (e : E B) (k : B -> prog E A) s :
    enabled B e s ->
    pool_step (l ++ Running (Vis e k) :: r, s)
              (l ++ resume k (fst (h B e s)) :: r, snd (h B e s)).

(** A property of the shared state that every call preserves holds in every
    interleaving of every number of goroutines. *)
Lemma pool_invariant (I : S -> Prop) :
  (forall B (e : E B) s, I s -> I (snd (h B e s))) ->
  forall c c', rtc pool_step c c' -> I (snd c) -> I (snd c').
Proof.
  intros HI c c'. induction 1 as [|c1 c2 c3 Hstep _ IH]; [done|].
  intros H. apply IH. destruct Hstep; simpl in *. by apply HI.
Qed.
End pool.
Arguments thread E A : clear implicits.

(** ** Total correctness of programs over specified calls

    A call is specified by what has to hold before it and what may be assumed
    of its answer: a predicate transformer. [wpt] extends it to programs;
    [wpt_run] makes it a statement about runs against every handler that keeps
    an invariant and satisfies the specification. In contrast to [exec] of
    [Prog.v] a call may have a precondition. *)

Local Open Scope prog_scope.

Definition spec (E : Type -> Type) (V : Type) : Type :=
  forall B, E B -> V -> (res B -> V -> Prop) -> Prop.

Class SpecMono {E V} (R : spec E V) : Prop :=
  spec_mono : forall B (e : E B) v (P Q : res B -> V -> Prop),
    (forall r v', P r v' -> Q r v') -> R B e v P -> R B e v Q.

(** What is left to do after a value; a panic ends the program. *)
Definition after_value {B A V} (k : B -> (res A -> V -> Prop) -> V -> Prop) (Q : res A -> V -> Prop)
    (r : res B) (v : V) : Prop :=
  match r with
  | Val b => k b Q v
  | Panicked m => Q (Panicked m) v
  end.

Fixpoint wpt {E V A} (R : spec E V) (p : prog E A) (Q : res A -> V -> Prop) (v : V) {struct p} : Prop :=
  match p with
  | Ret a => Q (Val a) v
  | Vis e k => R _ e v (after_value (fun b => wpt R (k b)) Q)
  | Try q k => wpt R q (fun r v1 => wpt R (k r) Q v1) v
  end.

Section rules.
Context {E : Type -> Type} {V : Type} (R : spec E V) {Hmono : SpecMono R}.

Lemma wpt_mono {A} (p : prog E A) v (P Q : res A -> V -> Prop) :
  (forall r v', P r v' -> Q r v') -> wpt R p P v -> wpt R p Q v.
Proof.
  revert v P Q. induction p as [A a|A B e k IH|A B q IHq k IH]; intros v P Q H; cbn [wpt]; [apply H|..].
  - apply Hmono. intros [b|m] v'; cbn [after_value]; [by apply IH|apply H].
  - apply IHq. intros r v'. by apply IH.
Qed.

Lemma wpt_bind {A B} (p : prog E A) (f : A -> prog E B) v (Q : res B -> V -> Prop) :
  wpt R p (after_value (fun a => wpt R (f a)) Q) v -> wpt R (pbind p f) Q v.
Proof.
  revert v. induction p as [A a|A B' e k IH|A B' q IHq k IH]; intros v; cbn [wpt pbind]; [done|..].
  - apply Hmono. intros [b|m] v'; cbn [after_value]; [apply IH|done].
  - apply wpt_mono. intros r v'. apply IH.
Qed.

(** The rule for a sequence in which the first part does not panic. *)
Lemma wpt_seq {A B} (p : prog E A) (f : A -> prog E B) v (P : A -> V -> Prop) (Q : res B -> V -> Prop) :
  wpt R p (fun r v1 => exists a, r = Val a /\ P a v1) v ->
  (forall a v1, P a v1 -> wpt R (f a) Q v1) -> wpt R (pbind p f) Q v.
Proof.
  intros Hp Hf. apply wpt_bind. eapply wpt_mono; [|exact Hp]. intros r v1 (a & -> & HP). by apply Hf.
Qed.

Lemma wpt_call {B} (e : E B) v (Q : res B -> V -> Prop) :
  R B e v Q -> wpt R (call e) Q v.
Proof. cbn. apply Hmono. by intros [b|m] v'. Qed.

(** The handler [h] keeps [I] and satisfies [R] of the states' views. *)
Definition satisfies {S} (h : handler E S) (I : S -> Prop) (view : S -> V) : Prop :=
  forall B (e : E B) s Q, I s -> R B e (view s) Q ->
    I (snd (h B e s)) /\ Q (fst (h B e s)) (view (snd (h B e s))).

Lemma wpt_run {S A} (h : handler E S) I (view : S -> V) (p : prog E A) s (Q : res A -> V -> Prop) :
  satisfies h I view -> I s -> wpt R p Q (view s) ->
  I (snd (run h p s)) /\ Q (fst (run h p s)) (view (snd (run h p s))).
Proof.
  intros Hh. revert s Q. induction p as [A a|A B e k IH|A B q IHq k IH]; intros s Q HI Hw; cbn [wpt run] in *.
  - done.
  - destruct (Hh _ _ _ _ HI Hw) as [HI' HQ]. destruct (h B e s) as [[b|m] s1]; cbn [fst snd after_value] in *.
    + by apply IH.
    + done.
  - destruct (IHq s _ HI Hw) as [HI' HQ]. destruct (run h q s) as [r s1]. cbn [fst snd] in *. by apply IH.
Qed.
End rules.
