(* ===== verification/GoTime.v ===== *)
(** * Timestamps

    The server stamps rows with [formatTime(time.Now())] and reads them back
    with [parseTimestamps] (internal/server/database/database.go). A
    [time.Time] is a UTC calendar instant with nanoseconds: the program only
    creates, formats, parses and orders times. The layout is
    [time.RFC3339Nano], which drops the trailing zeros of the fraction; the
    model of [time.Parse] is its strict RFC 3339 grammar with the zone "Z", the
    only form [formatTime] writes, and every other string goes to [fallback],
    the part of the standard library's general layout parser the program never
    needs for its own rows. *)

From S2P Require Import Prelude GoErrors.
From Stdlib Require Import ZArith Lia Ascii String.
From stdpp Require Import base gmap strings list pretty.

Local Open Scope Z_scope.

Record time : Type := mkTime {
  t_year : Z;
  t_month : Z;
  t_day : Z;
  t_hour : Z;
  t_min : Z;
  t_sec : Z;
  t_nsec : Z;
}.

#[global] Instance time_eq_dec : EqDecision time.
Proof. solve_decision. Defined.

Definition is_leap (y : Z) : bool :=
  (y mod 4 =? 0) && (negb (y mod 100 =? 0) || (y mod 400 =? 0)).

Definition days_in (m y : Z) : Z :=
  if m =? 2 then (if is_leap y then 29 else 28)
  else if (m =? 4) || (m =? 6) || (m =? 9) || (m =? 11) then 30 else 31.

(** The instants the layout can express: years of four digits. *)
Definition valid_time (t : time) : Prop :=
  0 <= t_year t <= 9999 /\ 1 <= t_month t <= 12 /\
  1 <= t_day t <= days_in (t_month t) (t_year t) /\
  0 <= t_hour t <= 23 /\ 0 <= t_min t <= 59 /\ 0 <= t_sec t <= 59 /\
  0 <= t_nsec t < 1000000000.

#[global] Instance valid_time_dec t : Decision (valid_time t).
Proof. unfold valid_time. apply _. Defined.

(** The zero value of [time.Time]. *)
Definition zero_time : time := mkTime 1 1 1 0 0 0 0.

(** ** Digits *)

Definition digit (n : Z) : ascii := ascii_of_N (Z.to_N (48 + n)).
Definition digit_val (c : ascii) : Z := Z.of_N (N_of_ascii c) - 48.
Definition is_digit (c : ascii) : bool := (0 <=? digit_val c) && (digit_val c <=? 9).

Definition pad2 (n : Z) (s : string) : string :=
  String (digit (n / 10)) (String (digit (n mod 10)) s).
Definition pad4 (n : Z) (s : string) : string := pad2 (n / 100) (pad2 (n mod 100) s).

(** The [k] lowest decimal digits of [n]. *)
Fixpoint digits_fixed (k : nat) (n : Z) : string :=
  match k with
  | O => ""
  | S k' => String (digit (n / 10 ^ Z.of_nat k' mod 10)) (digits_fixed k' n)
  end.

(** Drop the trailing zeros. *)
Fixpoint trim0 (s : string) : string :=
  match s with
  | "" => ""
  | String c s' =>
      match trim0 s' with
      | "" => if decide (c = "0"%char) then "" else String c ""
      | t => String c t
      end
  end.

(** ** Formatting: [t.UTC().Format(time.RFC3339Nano)] *)

Definition year_text (y : Z) (s : string) : string :=
  if (0 <=? y) && (y <=? 9999) then pad4 y s else pretty y +:+ s.

Definition frac_text (ns : Z) (s : string) : string :=
  if ns =? 0 then s else String "." (trim0 (digits_fixed 9 ns)) +:+ s.

Definition clock_text (t : time) (s : string) : string :=
  pad2 (t_hour t) (String ":" (pad2 (t_min t) (String ":" (pad2 (t_sec t) s)))).

Definition date_text (t : time) (s : string) : string :=
  year_text (t_year t) (String "-" (pad2 (t_month t) (String "-" (pad2 (t_day t) s)))).

Definition formatTime (t : time) : string :=
  date_text t (String "T" (clock_text t (frac_text (t_nsec t) "Z"))).

(** ** Parsing: [time.Parse(time.RFC3339Nano, s)] *)

Definition parse_uint2 (a b : ascii) (lo hi : Z) : option Z :=
  if is_digit a && is_digit b then
    let x := digit_val a * 10 + digit_val b in
    if (lo <=? x) && (x <=? hi) then Some x else None
  else None.

Definition parse_year (a b c d : ascii) : option Z :=
  if is_digit a && is_digit b && is_digit c && is_digit d then
    Some (((digit_val a * 10 + digit_val b) * 10 + digit_val c) * 10 + digit_val d)
  else None.

(** Split the leading decimal digits off. *)
Fixpoint span_digits (s : string) : string * string :=
  match s with
  | "" => ("", "")
  | String c s' =>
      if is_digit c then let '(d, r) := span_digits s' in (String c d, r) else ("", s)
  end.

(** The value of the first [k] digits as the [k] digits after the point. *)
Fixpoint frac_val (k : nat) (s : string) : Z :=
  match k, s with
  | S k', String c s' => digit_val c * 10 ^ Z.of_nat k' + frac_val k' s'
  | _, _ => 0
  end.

Definition parse_frac (s : string) : Z * string :=
  match s with
  | String c (String d s') =>
      if bool_decide (c = "."%char) && is_digit d then
        let '(ds, r) := span_digits (String d s') in (frac_val 9 ds, r)
      else (0, s)
  | _ => (0, s)
  end.

Definition parse_clock (h1 h2 m1 m2 s1 s2 : ascii) : option (Z * Z * Z) :=
  match parse_uint2 h1 h2 0 23, parse_uint2 m1 m2 0 59, parse_uint2 s1 s2 0 59 with
  | Some h, Some m, Some s => Some (h, m, s)
  | _, _, _ => None
  end.

Definition parse_date (y1 y2 y3 y4 m1 m2 d1 d2 : ascii) : option (Z * Z * Z) :=
  match parse_year y1 y2 y3 y4, parse_uint2 m1 m2 1 12 with
  | Some y, Some m =>
      match parse_uint2 d1 d2 1 (days_in m y) with
      | Some d => Some (y, m, d)
      | None => None
      end
  | _, _ => None
  end.

Definition parse_rfc3339 (s : string) : option time :=
  match s with
  | String y1 (String y2 (String y3 (String y4 (String "-" (String m1 (String m2
      (String "-" (String d1 (String d2 (String "T" (String h1 (String h2
      (String ":" (String n1 (String n2 (String ":" (String s1 (String s2 rest))))))))))))))))))
    =>
      match parse_date y1 y2 y3 y4 m1 m2 d1 d2, parse_clock h1 h2 n1 n2 s1 s2 with
      | Some (y, mo, d), Some (h, mi, se) =>
          let '(ns, zone) := parse_frac rest in
          if bool_decide (zone = "Z") then Some (mkTime y mo d h mi se ns) else None
      | _, _ => None
      end
  | _ => None
  end.

Section parse.
(** The general layout parser of package time, tried when the strict grammar
    does not accept the string. *)
Variable fallback : string -> result time.

Definition time_parse (s : string) : result time :=
  match parse_rfc3339 s with
  | Some t => Ok t
  | None => fallback s
  end.

Definition parseTimestamps (createdAt updatedAt : string) : result (time * time) :=
  match time_parse createdAt with
  | Err e => Err (EWrap "failed to parse created_at: " e "")
  | Ok created =>
      match time_parse updatedAt with
      | Err e => Err (EWrap "failed to parse updated_at: " e "")
      | Ok updated => Ok (created, updated)
      end
  end.
End parse.

(** ** The order of instants *)

Definition day_key (t : time) : Z := (t_year t * 13 + t_month t) * 32 + t_day t.
Definition sec_key (t : time) : Z :=
  ((day_key t * 24 + t_hour t) * 60 + t_min t) * 60 + t_sec t.
Definition time_key (t : time) : Z := sec_key t * 1000000000 + t_nsec t.

(** [a.Before(b)] *)
Definition before (a b : time) : bool := time_key a <? time_key b.

(** ** Digit lemmas *)

Lemma digit_cases n : 0 <= n <= 9 ->
  0 = n \/ 1 = n \/ 2 = n \/ 3 = n \/ 4 = n \/ 5 = n \/ 6 = n \/ 7 = n \/ 8 = n \/ 9 = n.
Proof. lia. Qed.

Ltac digit_case n :=
  let H := fresh in
  assert (H : 0 <= n <= 9) by lia;
  apply digit_cases in H as [<-|[<-|[<-|[<-|[<-|[<-|[<-|[<-|[<-| <-]]]]]]]]].

Lemma digit_val_digit n : 0 <= n <= 9 -> digit_val (digit n) = n.
Proof. intros H. by digit_case n. Qed.

Lemma is_digit_digit n : 0 <= n <= 9 -> is_digit (digit n) = true.
Proof. intros H. by digit_case n. Qed.

Lemma digit_zero n : 0 <= n <= 9 -> digit n = "0"%char -> n = 0.
Proof. intros H E. apply (f_equal digit_val) in E. rewrite digit_val_digit in E; done. Qed.

Lemma mod10_range n : 0 <= n mod 10 <= 9.
Proof. pose proof (Z.mod_pos_bound n 10). lia. Qed.

Lemma div_range n d k : 0 < d -> 0 <= n < d * (k + 1) -> 0 <= n / d <= k.
Proof.
  intros Hd Hn. split; [apply Z.div_pos; lia|].
  assert (n / d < k + 1) by (apply Z.div_lt_upper_bound; lia). lia.
Qed.

Lemma parse_uint2_pad n lo hi :
  0 <= lo -> hi <= 99 -> lo <= n <= hi ->
  parse_uint2 (digit (n / 10)) (digit (n mod 10)) lo hi = Some n.
Proof.
  intros Hlo Hhi Hn. unfold parse_uint2.
  assert (0 <= n / 10 <= 9) by (apply div_range; lia).
  pose proof (mod10_range n).
  rewrite !is_digit_digit, !digit_val_digit by lia; simpl.
  replace (n / 10 * 10 + n mod 10) with n by (pose proof (Z.div_mod n 10); lia).
  destruct (Z.leb_spec lo n); [|lia]. by destruct (Z.leb_spec n hi); [|lia].
Qed.

Lemma parse_year_pad n :
  0 <= n <= 9999 ->
  parse_year (digit (n / 100 / 10)) (digit (n / 100 mod 10))
    (digit (n mod 100 / 10)) (digit (n mod 100 mod 10)) = Some n.
Proof.
  intros Hn. unfold parse_year.
  assert (0 <= n / 100 <= 99) by (apply div_range; lia).
  assert (0 <= n / 100 / 10 <= 9) by (apply div_range; lia).
  pose proof (Z.mod_pos_bound n 100).
  assert (0 <= n mod 100 / 10 <= 9)
    by (apply div_range; lia).
  pose proof (mod10_range (n / 100)). pose proof (mod10_range (n mod 100)).
  rewrite !is_digit_digit, !digit_val_digit by lia; simpl. f_equal.
  pose proof (Z.div_mod n 100). pose proof (Z.div_mod (n / 100) 10).
  pose proof (Z.div_mod (n mod 100) 10). lia.
Qed.

(** ** The fraction *)

Lemma frac_val_nil k : frac_val k "" = 0.
Proof. by destruct k. Qed.

Lemma trim0_cons c s :
  (trim0 (String c s) = "" /\ c = "0"%char /\ trim0 s = "") \/
  trim0 (String c s) = String c (trim0 s).
Proof. simpl. destruct (trim0 s); [case_decide|]; auto. Qed.

Lemma frac_val_trim0 k s : frac_val k (trim0 s) = frac_val k s.
Proof.
  revert k; induction s as [|c s IH]; intros k; [done|].
  destruct (trim0_cons c s) as [(E & -> & E')|E]; rewrite E; destruct k as [|k]; try done.
  - cbn -[Z.pow]. rewrite <-IH, E', frac_val_nil. done.
  - cbn -[Z.pow trim0]. by rewrite IH.
Qed.

Lemma frac_val_digits k n : frac_val k (digits_fixed k n) = n mod 10 ^ Z.of_nat k.
Proof.
  induction k as [|k IH]; [by rewrite Z.mod_1_r|].
  cbn -[Z.pow Z.of_nat]. rewrite IH, digit_val_digit by apply mod10_range.
  rewrite Nat2Z.inj_succ, Z.pow_succ_r, Z.mul_comm by lia.
  rewrite (Z.mul_comm 10), Z.rem_mul_r by (try apply Z.pow_nonzero; lia). lia.
Qed.

Fixpoint all_digits (s : string) : bool :=
  match s with "" => true | String c s' => is_digit c && all_digits s' end.

Lemma all_digits_fixed k n : all_digits (digits_fixed k n) = true.
Proof.
  induction k as [|k IH]; [done|]. simpl.
  rewrite is_digit_digit by apply mod10_range. done.
Qed.

Lemma all_digits_trim0 s : all_digits s = true -> all_digits (trim0 s) = true.
Proof.
  induction s as [|c s IH]; [done|]. intros H.
  destruct (trim0_cons c s) as [(E & _)|E]; rewrite E; [done|].
  simpl in *. apply andb_true_iff in H as [-> H]. auto.
Qed.

Lemma span_digits_app s c r :
  all_digits s = true -> is_digit c = false ->
  span_digits (s +:+ String c r) = (s, String c r).
Proof.
  intros H Hc. induction s as [|d s IH].
  - rewrite str_app_nil_l. simpl. by rewrite Hc.
  - simpl in H. apply andb_true_iff in H as [Hd H].
    rewrite str_app_cons. simpl. by rewrite Hd, IH.
Qed.

Lemma parse_frac_text ns :
  0 <= ns < 1000000000 -> parse_frac (frac_text ns "Z") = (ns, "Z").
Proof.
  intros Hns. unfold frac_text. destruct (Z.eqb_spec ns 0) as [->|Hnz]; [done|].
  pose proof (frac_val_trim0 9 (digits_fixed 9 ns)) as Hval.
  rewrite frac_val_digits, Z.mod_small in Hval by (simpl; lia).
  pose proof (all_digits_trim0 _ (all_digits_fixed 9 ns)) as Hdig.
  destruct (trim0 (digits_fixed 9 ns)) as [|d t]; [rewrite frac_val_nil in Hval; lia|].
  rewrite str_app_cons. unfold parse_frac.
  rewrite (str_app_cons d). cbn [all_digits] in Hdig.
  pose proof (proj1 (andb_true_iff _ _) Hdig) as [Hd _].
  rewrite bool_decide_true, Hd by done. cbn [andb].
  rewrite <-str_app_cons, span_digits_app by done. by rewrite Hval.
Qed.

(** ** Round trip *)

Lemma parse_rfc3339_format t : valid_time t -> parse_rfc3339 (formatTime t) = Some t.
Proof.
  destruct t as [y mo d h mi s ns]. intros (Hy & Hm & Hd & Hh & Hmi & Hs & Hns); simpl in *.
  unfold formatTime, date_text, clock_text, year_text; cbn [t_year t_month t_day t_hour t_min t_sec t_nsec].
  destruct (Z.leb_spec 0 y); [|lia]. destruct (Z.leb_spec y 9999); [|lia].
  assert (days_in mo y <= 31) by (unfold days_in; repeat case_match; lia).
  cbn [andb]. unfold pad4, pad2, parse_rfc3339, parse_date, parse_clock.
  rewrite parse_year_pad, !parse_uint2_pad by lia. by rewrite parse_frac_text.
Qed.

(** A timestamp the repository writes is read back as the same instant:
    [parseTimestamps] of two texts made by [formatTime] returns the two
    instants, whatever the rest of the layout parser does. *)
Theorem parseTimestamps_formatTime fallback created updated :
  valid_time created -> valid_time updated ->
  parseTimestamps fallback (formatTime created) (formatTime updated) = Ok (created, updated).
Proof.
  intros Hc Hu. unfold parseTimestamps, time_parse.
  by rewrite !parse_rfc3339_format.
Qed.

Lemma parseTimestamps_formatTime_witness :
  parseTimestamps (fun s => Err (EOpaque s)) (formatTime (mkTime 2024 2 29 23 59 59 120030000))
    (formatTime (mkTime 2026 1 1 0 0 0 0))
  = Ok (mkTime 2024 2 29 23 59 59 120030000, mkTime 2026 1 1 0 0 0 0).
Proof. apply (parseTimestamps_formatTime (fun s => Err (EOpaque s))); vm_compute; intuition discriminate. Defined.

(** ** The order of the texts

    SQLite orders the rows by the text of [created_at]. The texts are ordered
    as the instants down to the second; below it they are not, because the
    trailing zeros of the fraction are dropped. *)

Lemma str_leb_cons c s t : str_leb (String c s) (String c t) = str_leb s t.
Proof. simpl. by rewrite N.compare_refl. Qed.

Lemma str_leb_digit_lt m n s t :
  0 <= m <= 9 -> 0 <= n <= 9 -> m < n ->
  str_leb (String (digit n) s) (String (digit m) t) = false.
Proof. intros Hm Hn Hlt. digit_case m; digit_case n; first [lia|reflexivity]. Qed.

Definition text_lt (s t : string) : Prop := str_leb t s = false.

Lemma text_lt_le s t : text_lt s t -> str_leb s t = true.
Proof. unfold text_lt. destruct (str_leb_total s t); congruence. Qed.

Lemma text_lt_cons c s t : text_lt s t -> text_lt (String c s) (String c t).
Proof. unfold text_lt. by rewrite str_leb_cons. Qed.

Lemma text_lt_pad2 m n s t :
  0 <= m <= 99 -> 0 <= n <= 99 -> (m < n \/ m = n /\ text_lt s t) ->
  text_lt (pad2 m s) (pad2 n t).
Proof.
  intros Hm Hn Hlt. unfold pad2.
  pose proof (div_range m 10 9). pose proof (div_range n 10 9).
  pose proof (mod10_range m). pose proof (mod10_range n).
  pose proof (Z.div_mod m 10). pose proof (Z.div_mod n 10).
  destruct Hlt as [Hlt|[-> Hlt]]; [|by do 2 apply text_lt_cons].
  destruct (decide (m / 10 = n / 10)) as [E|E].
  - rewrite E. apply text_lt_cons. apply str_leb_digit_lt; lia.
  - apply str_leb_digit_lt; lia.
Qed.

Lemma text_lt_pad4 m n s t :
  0 <= m <= 9999 -> 0 <= n <= 9999 -> (m < n \/ m = n /\ text_lt s t) ->
  text_lt (pad4 m s) (pad4 n t).
Proof.
  intros Hm Hn Hlt. unfold pad4.
  pose proof (div_range m 100 99). pose proof (div_range n 100 99).
  pose proof (Z.mod_pos_bound m 100). pose proof (Z.mod_pos_bound n 100).
  pose proof (Z.div_mod m 100). pose proof (Z.div_mod n 100).
  apply text_lt_pad2; [lia..|].
  destruct (decide (m / 100 = n / 100)) as [E|E]; [right|left]; [split; [done|]|lia].
  apply text_lt_pad2; [lia..|].
  destruct Hlt as [Hlt|[-> Hlt]]; [left|right]; [lia|done].
Qed.

Lemma text_lt_clock a b s t :
  valid_time a -> valid_time b ->
  (t_hour a * 60 + t_min a) * 60 + t_sec a < (t_hour b * 60 + t_min b) * 60 + t_sec b ->
  text_lt (clock_text a s) (clock_text b t).
Proof.
  intros (_ & _ & _ & Ha) (_ & _ & _ & Hb) Hlt. unfold clock_text.
  apply text_lt_pad2; [lia..|].
  destruct (decide (t_hour a = t_hour b)); [right; split; [done|]|left; lia].
  apply text_lt_cons, text_lt_pad2; [lia..|].
  destruct (decide (t_min a = t_min b)); [right; split; [done|]|left; lia].
  apply text_lt_cons, text_lt_pad2; [lia..|left; lia].
Qed.

Lemma text_lt_date a b s t :
  valid_time a -> valid_time b ->
  (day_key a < day_key b \/ day_key a = day_key b /\ text_lt s t) ->
  text_lt (date_text a s) (date_text b t).
Proof.
  intros (Hay & Ham & Had & _) (Hby & Hbm & Hbd & _) Hlt.
  assert (forall m y, days_in m y <= 31) as Hdays
    by (intros m y; unfold days_in; repeat case_match; lia).
  pose proof (Hdays (t_month a) (t_year a)). pose proof (Hdays (t_month b) (t_year b)).
  unfold date_text, year_text, day_key in *.
  repeat match goal with |- context [?x <=? ?y] => destruct (Z.leb_spec x y); [|lia] end.
  cbn [andb]. apply text_lt_pad4; [lia..|].
  destruct (decide (t_year a = t_year b)); [right; split; [done|]|left; lia].
  apply text_lt_cons, text_lt_pad2; [lia..|].
  destruct (decide (t_month a = t_month b)); [right; split; [done|]|left; lia].
  apply text_lt_cons, text_lt_pad2; [lia..|].
  destruct (decide (t_day a = t_day b)); [right; split; [done|]|left; lia].
  destruct Hlt as [|[_ Hlt]]; [lia|done].
Qed.

Lemma formatTime_sec_order a b :
  valid_time a -> valid_time b -> sec_key a < sec_key b ->
  text_lt (formatTime a) (formatTime b).
Proof.
  intros Ha Hb Hlt. unfold formatTime. apply text_lt_date; [done..|].
  pose proof Ha as (_ & _ & _ & ? & ? & ? & _). pose proof Hb as (_ & _ & _ & ? & ? & ? & _).
  unfold sec_key in Hlt.
  destruct (decide (day_key a = day_key b)) as [E|E]; [right; split; [done|]|left; lia].
  apply text_lt_cons, text_lt_clock; [done..|lia].
Qed.
