(* ===== verification/Strconv.v ===== *)
(** * Integers as text

    [strconv.AppendInt], [strconv.ParseInt] and [strconv.ParseUint] to base 10
    and 64 bits, with their two errors, and [SetString] and [String] of
    [big.Int], as the decoders of the program use them. *)

From S2P Require Import Prelude GoErrors GoTime.
From Stdlib Require Import ZArith Lia Ascii String DecimalString DecimalZ DecimalPos DecimalFacts.
From stdpp Require Import base strings list.

Local Open Scope Z_scope.

(** The digits of an integer, as [strconv.AppendInt] writes them. *)
Definition int_text (z : Z) : string := NilZero.string_of_int (Z.to_int z).

Module strconv.

Inductive NumError : Type := ErrSyntax | ErrRange.

Definition maxUint64 : Z := 18446744073709551615.
Definition minInt64 : Z := -9223372036854775808.
Definition maxInt64 : Z := 9223372036854775807.

(** The loop of [ParseUint] after [n]; the range is checked digit by digit. *)
Fixpoint parse_digits (s : string) (n : Z) : outcome NumError Z :=
  match s with
  | "" => Ok n
  | String c s' =>
      if negb (is_digit c) then Err ErrSyntax
      else if maxUint64 / 10 + 1 <=? n then Err ErrRange
      else
        let n1 := n * 10 + digit_val c in
        if maxUint64 <? n1 then Err ErrRange else parse_digits s' n1
  end.

Definition ParseUint (s : string) : outcome NumError Z :=
  match s with "" => Err ErrSyntax | _ => parse_digits s 0 end.

Definition plus : ascii := "+".
Definition minus : ascii := "-".

(** The sign of a number, and its digits. *)
Definition split_sign (s : string) : bool * string :=
  match s with
  | String c s' =>
      if decide (c = plus) then (false, s') else if decide (c = minus) then (true, s') else (false, s)
  | "" => (false, "")
  end.

Definition ParseInt (s : string) : outcome NumError Z :=
  match s with
  | "" => Err ErrSyntax
  | _ =>
      let '(neg, s') := split_sign s in
      match ParseUint s' with
      | Err e => Err e
      | Ok un =>
          if negb neg && (maxInt64 <? un) then Err ErrRange
          else if neg && (- minInt64 <? un) then Err ErrRange
          else Ok (if neg then - un else un)
      end
  end.

(** The value of the digits [s] behind the number [n]. *)
Fixpoint digits_value (s : string) (n : Z) : Z :=
  match s with "" => n | String c s' => digits_value s' (n * 10 + digit_val c) end.

(** [SetString] of [big.Int] to base 10. *)
Definition big_SetString (s : string) : option Z :=
  let '(neg, s') := split_sign s in
  match s' with
  | "" => None
  | _ => if all_digits s' then Some (if neg then - digits_value s' 0 else digits_value s' 0) else None
  end.

(** The message of an [*strconv.NumError]. *)
Definition num_error (fn s : string) (e : NumError) : string :=
  ("strconv." +:+ fn +:+ ": parsing " +:+ quote s +:+ ": " +:+
           match e with ErrSyntax => "invalid syntax" | ErrRange => "value out of range" end).

(** ** Facts *)

Lemma digit_val_bound c : is_digit c = true -> 0 <= digit_val c <= 9.
Proof. unfold is_digit. intros [H1%Z.leb_le H2%Z.leb_le]%andb_true_iff. lia. Qed.

Lemma digits_value_ge s n : all_digits s = true -> 0 <= n -> n <= digits_value s n.
Proof.
  revert n. induction s as [|c s IH]; intros n Hd Hn; cbn [digits_value all_digits] in *; [lia|].
  apply andb_true_iff in Hd as [Hc Hd]. pose proof (digit_val_bound c Hc). specialize (IH (n * 10 + digit_val c) Hd). lia.
Qed.

Lemma parse_digits_ok s n r : parse_digits s n = Ok r -> all_digits s = true /\ r = digits_value s n.
Proof.
  revert n. induction s as [|c s IH]; intros n; cbn [parse_digits all_digits digits_value]; [by intros [= ->]|].
  destruct (is_digit c); cbn [negb andb]; [|done]. destruct (_ <=? _); [done|]. destruct (_ <? _); [done|]. apply IH.
Qed.

Lemma parse_digits_spec s n : all_digits s = true -> 0 <= n <= maxUint64 ->
  parse_digits s n = if digits_value s n <=? maxUint64 then Ok (digits_value s n) else Err ErrRange.
Proof.
  revert n. induction s as [|c s IH]; intros n Hd Hn; cbn [parse_digits all_digits digits_value] in *.
  { by rewrite (proj2 (Z.leb_le _ _)) by lia. }
  apply andb_true_iff in Hd as [Hc Hd]. rewrite Hc. cbn [negb]. pose proof (digit_val_bound c Hc).
  pose proof (digits_value_ge s (n * 10 + digit_val c) Hd ltac:(lia)) as Hge. unfold maxUint64 in *.
  change (18446744073709551615 / 10 + 1) with 1844674407370955162.
  destruct (Z.leb_spec 1844674407370955162 n) as [H1|H1].
  - by rewrite (proj2 (Z.leb_gt _ _)) by lia.
  - destruct (Z.ltb_spec 18446744073709551615 (n * 10 + digit_val c)) as [H2|H2].
    + by rewrite (proj2 (Z.leb_gt _ _)) by lia.
    + apply IH; [done|lia].
Qed.

(** The text of the decimal library. *)
Lemma uint_text u : all_digits (NilEmpty.string_of_uint u) = true.
Proof. induction u as [|u IH|u IH|u IH|u IH|u IH|u IH|u IH|u IH|u IH|u IH]; simpl; by rewrite ?IH. Qed.

Lemma uint_value_acc u p : digits_value (NilEmpty.string_of_uint u) (Z.pos p) = Z.pos (Pos.of_uint_acc u p).
Proof.
  revert p. induction u as [|u IH|u IH|u IH|u IH|u IH|u IH|u IH|u IH|u IH|u IH]; intros p; [done|..];
    cbn [NilEmpty.string_of_uint digits_value Pos.of_uint_acc]; rewrite <-IH; f_equal; unfold digit_val; cbn; lia.
Qed.

Lemma uint_value u : digits_value (NilEmpty.string_of_uint u) 0 = Z.of_uint u.
Proof.
  unfold Z.of_uint. induction u as [|u IH|u IH|u IH|u IH|u IH|u IH|u IH|u IH|u IH|u IH]; [done|exact IH|..];
    cbn [NilEmpty.string_of_uint digits_value Pos.of_uint Z.of_N]; rewrite <-uint_value_acc; f_equal.
Qed.

(** Digits are the text of the decimal library. *)
Lemma digits_uint s : all_digits s = true -> exists u, s = NilEmpty.string_of_uint u.
Proof.
  induction s as [|c s IH]; cbn [all_digits]; intros Hd; [by exists Decimal.Nil|].
  apply andb_true_iff in Hd as [Hc Hd]. destruct (IH Hd) as [u ->].
  destruct c as [[] [] [] [] [] [] [] []]; try discriminate Hc;
    first [by exists (Decimal.D0 u)|by exists (Decimal.D1 u)|by exists (Decimal.D2 u)|by exists (Decimal.D3 u)|
           by exists (Decimal.D4 u)|by exists (Decimal.D5 u)|by exists (Decimal.D6 u)|by exists (Decimal.D7 u)|
           by exists (Decimal.D8 u)|by exists (Decimal.D9 u)].
Qed.

(** ** Numerals without leading zeros *)

Definition nonzero_head (u : Decimal.uint) : Prop := Decimal.nzhead u = u /\ u <> Decimal.Nil.

Lemma text_of_uint u : nonzero_head u -> int_text (Z.of_uint u) = NilEmpty.string_of_uint u.
Proof.
  intros [Hn Hne]. unfold int_text. change (Z.of_uint u) with (Z.of_int (Decimal.Pos u)). rewrite DecimalZ.to_of.
  cbn [Decimal.norm NilZero.string_of_int]. unfold Decimal.unorm. rewrite Hn. by destruct u.
Qed.

Lemma text_of_neg_uint u : nonzero_head u -> int_text (- Z.of_uint u) = String minus (NilEmpty.string_of_uint u).
Proof.
  intros [Hn Hne]. unfold int_text. change (- Z.of_uint u) with (Z.of_int (Decimal.Neg u)). rewrite DecimalZ.to_of.
  cbn [Decimal.norm NilZero.string_of_int]. rewrite Hn. by destruct u.
Qed.

Lemma nonzero_head_digit c s u : String c s = NilEmpty.string_of_uint u -> digit_val c <> 0 -> nonzero_head u.
Proof. intros Hs Hc. split; destruct u; try done; injection Hs as -> _; by destruct Hc. Qed.

(** What the decimal library writes. *)
Lemma to_uint_head p d : Pos.to_uint p <> Decimal.D0 d.
Proof.
  pose proof (DecimalPos.Unsigned.to_of (Pos.to_uint p)) as E.
  rewrite DecimalPos.Unsigned.of_to in E. simpl in E. intros Ed.
  destruct (Decimal.nzhead (Pos.to_uint p)) as [|u|u|u|u|u|u|u|u|u|u] eqn:En;
    pose proof E as E'; unfold Decimal.unorm in E'; rewrite En in E'; try congruence.
  - by apply (DecimalPos.Unsigned.to_uint_nonzero p).
  - by apply (nzhead_nonzero _ _ En).
Qed.

Lemma int_text_shape z : z <> 0 -> exists u, nonzero_head u /\
  (0 < z /\ Z.of_uint u = z /\ int_text z = NilEmpty.string_of_uint u \/
   z < 0 /\ Z.of_uint u = - z /\ int_text z = String minus (NilEmpty.string_of_uint u)).
Proof.
  assert (forall p, nonzero_head (Pos.to_uint p)) as Hh.
  { intros p. pose proof (to_uint_head p) as Hh. pose proof (DecimalPos.Unsigned.to_uint_nonnil p) as Hn.
    split; [|done]. destruct (Pos.to_uint p); try done. by destruct (Hh u). }
  assert (forall p, Z.of_uint (Pos.to_uint p) = Z.pos p) as Hv by (intros p; unfold Z.of_uint; by rewrite DecimalPos.Unsigned.of_to).
  intros Hz. destruct z as [|p|p]; [done|..]; exists (Pos.to_uint p); (split; [done|]).
  - left. rewrite Hv. split_and!; [lia|done|]. rewrite <-(Hv p). by apply text_of_uint.
  - right. rewrite Hv. split_and!; [lia|done|]. change (Z.neg p) with (- Z.pos p). rewrite <-(Hv p). by apply text_of_neg_uint.
Qed.

Lemma nonzero_head_text u : nonzero_head u -> exists c s, NilEmpty.string_of_uint u = String c s /\ is_digit c = true /\ digit_val c <> 0 /\
  c <> plus /\ c <> minus.
Proof.
  intros [Hn Hne]. destruct u; try done; [|do 2 eexists; by split_and!..].
  pose proof (nzhead_nonzero (Decimal.D0 u) u). congruence.
Qed.

Lemma ParseUint_digits s : s <> "" -> all_digits s = true ->
  ParseUint s = if digits_value s 0 <=? maxUint64 then Ok (digits_value s 0) else Err ErrRange.
Proof. intros Hs Hd. unfold ParseUint. destruct s; [done|]. by apply parse_digits_spec. Qed.

Lemma ParseUint_ok s r : ParseUint s = Ok r -> s <> "" /\ all_digits s = true /\ r = digits_value s 0.
Proof. unfold ParseUint. destruct s as [|c s]; [done|]. intros Hr. by apply parse_digits_ok in Hr as [? ?]. Qed.

(** A number that was written is read, by one or the other reader. *)
Lemma ParseInt_text z : ParseInt (int_text z) = if (minInt64 <=? z) && (z <=? maxInt64) then Ok z else Err ErrRange.
Proof.
  destruct (decide (z = 0)) as [->|Hz]; [done|]. destruct (int_text_shape z Hz) as (u & Hu & Hcase).
  pose proof (uint_text u) as Hd. pose proof (uint_value u) as Hv.
  destruct (nonzero_head_text u Hu) as (c & s & Hs & _ & _ & Hp & Hm). rewrite Hs in Hd, Hv.
  destruct Hcase as [(Hlt & Hz' & ->)|(Hlt & Hz' & ->)]; rewrite Hs; unfold ParseInt, split_sign;
    rewrite ?(decide_False (P := c = plus)), ?(decide_False (P := c = minus)) by done; cbn [negb andb].
  - rewrite ParseUint_digits, Hv, Hz' by done. unfold minInt64, maxInt64, maxUint64.
    rewrite (proj2 (Z.leb_le _ z)) by lia. cbn [andb].
    destruct (Z.leb_spec z 18446744073709551615), (Z.leb_spec z 9223372036854775807); try lia; [|..|done].
    + by rewrite (proj2 (Z.ltb_ge _ _)) by lia.
    + by rewrite (proj2 (Z.ltb_lt _ _)) by lia.
  - rewrite (decide_True (P := minus = minus)) by done. rewrite decide_False by done. rewrite ParseUint_digits, Hv, Hz' by done.
    unfold minInt64, maxInt64, maxUint64. rewrite (proj2 (Z.leb_le z _)), andb_true_r by lia. cbn [negb andb].
    destruct (Z.leb_spec (- z) 18446744073709551615), (Z.leb_spec (-9223372036854775808) z); try lia; [..|done].
    + rewrite (proj2 (Z.ltb_ge _ _)) by lia. f_equal. lia.
    + by rewrite (proj2 (Z.ltb_lt _ _)) by lia.
Qed.

Lemma big_SetString_text z : big_SetString (int_text z) = Some z.
Proof.
  destruct (decide (z = 0)) as [->|Hz]; [done|]. destruct (int_text_shape z Hz) as (u & Hu & Hcase).
  pose proof (uint_text u) as Hd. pose proof (uint_value u) as Hv.
  destruct (nonzero_head_text u Hu) as (c & s & Hs & _ & _ & Hp & Hm). rewrite Hs in Hd, Hv.
  destruct Hcase as [(Hlt & Hz' & ->)|(Hlt & Hz' & ->)]; rewrite Hs; unfold big_SetString, split_sign;
    rewrite ?(decide_False (P := c = plus)), ?(decide_False (P := c = minus)) by done.
  - by rewrite Hd, Hv, Hz'.
  - rewrite (decide_True (P := minus = minus)) by done. rewrite decide_False by done. rewrite Hd, Hv, Hz'. f_equal. lia.
Qed.

(** A numeral without leading zeros, as the decoder of bencode checks it. *)
Definition plain_numeral (s : string) : bool :=
  match s with
  | "" | String _ "" => true
  | String c s' =>
      match (if decide (c = minus) then s' else s) with
      | String d _ => (1 <=? digit_val d) && (digit_val d <=? 9)
      | "" => false
      end
  end.

Lemma plain_text s : all_digits s = true -> s <> "" -> plain_numeral s = true -> int_text (digits_value s 0) = s.
Proof.
  intros Hd Hs Hp. destruct (digits_uint s Hd) as [u Hu]. rewrite Hu, uint_value. destruct s as [|c s]; [done|].
  destruct (decide (digit_val c = 0)) as [Hz|Hz]; [|by apply text_of_uint, (nonzero_head_digit c s)].
  destruct s as [|d s].
  - destruct u as [|u|u|u|u|u|u|u|u|u|u]; try discriminate Hu; injection Hu as -> Hu; try discriminate Hz. by destruct u.
  - exfalso. cbn [plain_numeral] in Hp. cbn [all_digits] in Hd. destruct (decide (c = minus)) as [->|]; [done|].
    apply andb_true_iff in Hp as [Hp _]. apply Z.leb_le in Hp. lia.
Qed.

Lemma plain_neg_text s : all_digits s = true -> s <> "" -> plain_numeral (String minus s) = true ->
  int_text (- digits_value s 0) = String minus s.
Proof.
  intros Hd Hs Hp. destruct (digits_uint s Hd) as [u Hu]. rewrite Hu, uint_value. destruct s as [|c s]; [done|].
  apply text_of_neg_uint, (nonzero_head_digit c s); [done|]. cbn [plain_numeral] in Hp.
  rewrite (decide_True (P := minus = minus)) in Hp by done. apply andb_true_iff in Hp as [Hp _]. apply Z.leb_le in Hp. lia.
Qed.

(** What is read of a plain numeral is written as the numeral. *)
Lemma ParseInt_plain s z : plain_numeral s = true -> (ParseInt s = Ok z \/ big_SetString s = Some z) -> int_text z = s.
Proof.
  intros Hp Hz. assert (exists neg s', split_sign s = (neg, s') /\ all_digits s' = true /\ s' <> "" /\
    z = if neg then - digits_value s' 0 else digits_value s' 0) as (neg & s' & Hs & Hd & Hne & ->).
  { destruct Hz as [Hz|Hz].
    - unfold ParseInt in Hz. destruct s as [|c s0]; [done|]. destruct (split_sign (String c s0)) as [neg s'].
      destruct (ParseUint s') as [r|] eqn:Er; [|done]. apply ParseUint_ok in Er as (Hne & Hd & ->).
      destruct (negb neg && _); [done|]. destruct (neg && _); [done|]. injection Hz as <-. by exists neg, s'.
    - unfold big_SetString in Hz. destruct (split_sign s) as [neg [|d s']]; [done|].
      destruct (all_digits (String d s')) eqn:Hd; [|done]. injection Hz as <-. by exists neg, (String d s'). }
  unfold split_sign in Hs. destruct s as [|c s]; [by injection Hs as <- <-|].
  destruct (decide (c = plus)) as [->|Hnp]; [injection Hs as <- <-|destruct (decide (c = minus)) as [->|Hnm]; injection Hs as <- <-].
  - exfalso. destruct s as [|d s]; [done|]. cbn [plain_numeral] in Hp. rewrite decide_False in Hp by done. discriminate Hp.
  - by apply plain_neg_text.
  - by apply plain_text.
Qed.

(** What is written is a plain numeral, of digits after a minus sign. *)
Lemma plain_int_text z : plain_numeral (int_text z) = true.
Proof.
  destruct (decide (z = 0)) as [->|Hz]; [done|]. destruct (int_text_shape z Hz) as (u & Hu & Hcase).
  destruct (nonzero_head_text u Hu) as (c & s & Hs & Hd & Hnz & Hp & Hm). pose proof (digit_val_bound c Hd).
  assert ((1 <=? digit_val c) && (digit_val c <=? 9) = true) as Hc by (apply andb_true_iff; rewrite !Z.leb_le; lia).
  destruct Hcase as [(_ & _ & ->)|(_ & _ & ->)]; rewrite Hs.
  - cbn [plain_numeral]. destruct s; [done|]. by rewrite decide_False.
  - cbn [plain_numeral]. by rewrite (decide_True (P := minus = minus)).
Qed.

Fixpoint absent (c : ascii) (s : string) : bool :=
  match s with "" => true | String x s' => negb (bool_decide (x = c)) && absent c s' end.

Lemma digits_absent c s : is_digit c = false -> all_digits s = true -> absent c s = true.
Proof.
  intros Hc. induction s as [|x s IH]; cbn [all_digits absent]; [done|]. intros [Hx Hs]%andb_true_iff.
  rewrite (IH Hs), bool_decide_eq_false_2; [done|]. intros ->. congruence.
Qed.

Lemma int_text_absent c z : is_digit c = false -> c <> minus -> absent c (int_text z) = true.
Proof.
  intros Hc Hm. destruct (decide (z = 0)) as [->|Hz]; [by apply digits_absent|].
  destruct (int_text_shape z Hz) as (u & _ & [(_ & _ & ->)|(_ & _ & ->)]); pose proof (digits_absent c _ Hc (uint_text u)) as Ha; [done|].
  cbn [absent]. by rewrite Ha, bool_decide_eq_false_2 by done.
Qed.

(** A number that is not negative starts with a digit. *)
Lemma int_text_digit z : 0 <= z -> exists c s, int_text z = String c s /\ is_digit c = true.
Proof.
  intros Hz. destruct (decide (z = 0)) as [->|Hne]; [by do 2 eexists|].
  destruct (int_text_shape z Hne) as (u & Hu & [(_ & _ & ->)|(? & _)]); [|lia].
  destruct (nonzero_head_text u Hu) as (c & s & -> & Hd & _). by exists c, s.
Qed.

Lemma int_text_nonneg z c s : int_text z = String c s -> is_digit c = true -> 0 <= z.
Proof.
  intros Hz Hc. destruct (decide (z = 0)) as [->|Hne]; [done|].
  destruct (int_text_shape z Hne) as (u & _ & [(? & _)|(_ & _ & Ht)]); [lia|].
  rewrite Ht in Hz. by injection Hz as <- _.
Qed.
End strconv.
