(* ===== verification/Infohash.v ===== *)
(** * Info hashes

    [infohash.T] is a 20-byte hash (src/licenses/github.com/anacrolix/torrent/
    types/infohash/infohash.go, the copy of the torrent library the repository
    carries); the server names torrents by its hexadecimal text. A hash is the
    string of its bytes. [HexString] writes lower case, [FromHexString] accepts
    both cases: the asymmetry matters to every component that compares texts. *)

From S2P Require Import Prelude GoErrors.
From Stdlib Require Import ZArith Lia Ascii String.
From stdpp Require Import base gmap strings list pretty.

Local Open Scope Z_scope.

Module infohash.

Notation T := string (only parsing).

Definition Size : nat := 20.

Definition valid (h : T) : Prop := String.length h = Size.

Definition hex_digit (n : Z) : ascii :=
  if n <? 10 then ascii_of_N (Z.to_N (48 + n)) else ascii_of_N (Z.to_N (87 + n)).

Definition byte_val (c : ascii) : Z := Z.of_N (N_of_ascii c).

(** The zero value, which stands for no hash. *)
Definition zero : T := string_of_list_ascii (repeat "000"%char Size).
Definition IsZero (t : T) : bool := bool_decide (t = zero).

(** [encoding/hex]'s value of a character. *)
Definition hex_val (c : ascii) : option Z :=
  let n := byte_val c in
  if (48 <=? n) && (n <=? 57) then Some (n - 48)
  else if (97 <=? n) && (n <=? 102) then Some (n - 87)
  else if (65 <=? n) && (n <=? 70) then Some (n - 55)
  else None.

(** [fmt.Sprintf("%x", t[:])] *)
Fixpoint HexString (t : T) : string :=
  match t with
  | "" => ""
  | String c t' =>
      String (hex_digit (byte_val c / 16)) (String (hex_digit (byte_val c mod 16)) (HexString t'))
  end.

Definition invalid_byte (c : ascii) : error :=
  EOpaque ("encoding/hex: invalid byte: " +:+ String c "").

(** [hex.Decode] of the characters of [s], two per byte. *)
Fixpoint hex_decode (s : string) : result T :=
  match s with
  | "" => Ok ""
  | String c "" =>
      match hex_val c with
      | None => Err (invalid_byte c)
      | Some _ => Err (EOpaque "encoding/hex: odd length hex string")
      end
  | String a (String b s') =>
      match hex_val a with
      | None => Err (invalid_byte a)
      | Some x =>
          match hex_val b with
          | None => Err (invalid_byte b)
          | Some y => outcome_map (String (ascii_of_N (Z.to_N (x * 16 + y)))) (hex_decode s')
          end
      end
  end.

Definition FromHexString (s : string) : result T :=
  if bool_decide (String.length s = (2 * Size)%nat) then hex_decode s
  else Err (EOpaque ("hash hex string has bad length: " +:+ pretty (String.length s))).

(** ASCII lower case. *)
Definition lower (c : ascii) : ascii :=
  let n := byte_val c in
  if (65 <=? n) && (n <=? 90) then ascii_of_N (Z.to_N (n + 32)) else c.

Fixpoint lower_all (s : string) : string :=
  match s with "" => "" | String c s' => String (lower c) (lower_all s') end.

(** ** Facts on digits, decided on the 256 characters *)

Definition all_ascii (P : ascii -> bool) : bool :=
  forallb (fun n => P (ascii_of_nat n)) (seq 0 256).

Lemma all_ascii_spec P c : all_ascii P = true -> P c = true.
Proof.
  intros H. unfold all_ascii in H. rewrite forallb_forall in H.
  rewrite <-(ascii_nat_embedding c). apply H. apply in_seq.
  pose proof (nat_ascii_bounded c). lia.
Qed.

Lemma byte_val_range c : 0 <= byte_val c <= 255.
Proof.
  pose proof (all_ascii_spec (fun c => (0 <=? byte_val c) && (byte_val c <=? 255)) c eq_refl) as H.
  simpl in H. lia.
Qed.

Definition hex_digits_check (c : ascii) : bool :=
  bool_decide (hex_val (hex_digit (byte_val c / 16)) = Some (byte_val c / 16)) &&
  bool_decide (hex_val (hex_digit (byte_val c mod 16)) = Some (byte_val c mod 16)) &&
  bool_decide (ascii_of_N (Z.to_N (byte_val c / 16 * 16 + byte_val c mod 16)) = c).

Lemma hex_digits_val c :
  hex_val (hex_digit (byte_val c / 16)) = Some (byte_val c / 16) /\
  hex_val (hex_digit (byte_val c mod 16)) = Some (byte_val c mod 16) /\
  ascii_of_N (Z.to_N (byte_val c / 16 * 16 + byte_val c mod 16)) = c.
Proof.
  assert (all_ascii hex_digits_check = true) as Hall by (vm_compute; reflexivity).
  pose proof (all_ascii_spec hex_digits_check c Hall) as H. unfold hex_digits_check in H.
  apply andb_true_iff in H as [H H3]. apply andb_true_iff in H as [H1 H2].
  apply bool_decide_eq_true in H1, H2, H3. exact (conj H1 (conj H2 H3)).
Qed.

Definition hex_val_check (c : ascii) : bool :=
  match hex_val c with
  | Some x => (0 <=? x) && (x <=? 15) && bool_decide (hex_digit x = lower c)
  | None => true
  end.

Lemma hex_val_range c x : hex_val c = Some x -> 0 <= x <= 15 /\ hex_digit x = lower c.
Proof.
  intros Hx. assert (all_ascii hex_val_check = true) as Hall by (vm_compute; reflexivity).
  pose proof (all_ascii_spec hex_val_check c Hall) as H. unfold hex_val_check in H.
  rewrite Hx in H. apply andb_true_iff in H as [H H1]. apply bool_decide_eq_true in H1.
  split; [lia|done].
Qed.

Lemma byte_val_of_pair x y :
  0 <= x <= 15 -> 0 <= y <= 15 -> byte_val (ascii_of_N (Z.to_N (x * 16 + y))) = x * 16 + y.
Proof. intros Hx Hy. unfold byte_val. rewrite N_ascii_embedding; lia. Qed.

(** ** Encoding and decoding *)

Lemma length_HexString t : String.length (HexString t) = (2 * String.length t)%nat.
Proof. induction t as [|c t IH]; [done|]. simpl in *. lia. Qed.

Lemma hex_decode_HexString t : hex_decode (HexString t) = Ok t.
Proof.
  induction t as [|c t IH]; [done|]. cbn [HexString hex_decode].
  destruct (hex_digits_val c) as (-> & -> & E). by rewrite IH, E.
Qed.

Lemma hex_decode_ok s t : hex_decode s = Ok t ->
  HexString t = lower_all s /\ String.length s = (2 * String.length t)%nat.
Proof.
  revert t. induction s as [s IH] using (induction_ltof1 _ String.length).
  intros t H. destruct s as [|a [|b s]]; cbn [hex_decode] in H.
  - injection H as <-. done.
  - by destruct (hex_val a).
  - destruct (hex_val a) as [x|] eqn:Ha; [|done].
    destruct (hex_val b) as [y|] eqn:Hb; [|done].
    destruct (hex_decode s) as [t'|] eqn:Hs; [|done]. injection H as <-.
    destruct (IH s) with (t := t') as [IH1 IH2]; [unfold ltof; simpl; lia|done|].
    apply hex_val_range in Ha as [Hx Ea], Hb as [Hy Eb].
    cbn [HexString lower_all]. rewrite <-Ea, <-Eb, byte_val_of_pair by done.
    rewrite Z.div_add_l, (Z.div_small y), Z.add_0_r by lia.
    rewrite Z.add_comm, Z_mod_plus_full, Z.mod_small by lia.
    simpl. rewrite IH1. split; [done|]. simpl in IH2. lia.
Qed.

Lemma FromHexString_HexString t : valid t -> FromHexString (HexString t) = Ok t.
Proof.
  intros H. unfold FromHexString. rewrite bool_decide_true.
  - apply hex_decode_HexString.
  - rewrite length_HexString, H. done.
Qed.

Lemma FromHexString_ok s t :
  FromHexString s = Ok t -> valid t /\ HexString t = lower_all s.
Proof.
  unfold FromHexString. case_bool_decide as E; [|done].
  intros H. apply hex_decode_ok in H as [H1 H2]. split; [|done]. unfold valid, Size in *. lia.
Qed.

Lemma HexString_inj t u : HexString t = HexString u -> t = u.
Proof.
  intros H. apply (f_equal hex_decode) in H. rewrite !hex_decode_HexString in H.
  by injection H.
Qed.

(** A text is canonical when it is the text of the hash it denotes: 40
    hexadecimal digits in lower case. *)
Definition canonical (s : string) : Prop := exists t, valid t /\ s = HexString t.

Lemma canonical_FromHexString s : canonical s <-> exists t, FromHexString s = Ok t /\ HexString t = s.
Proof.
  split.
  - intros (t & Hv & ->). exists t. by rewrite FromHexString_HexString.
  - intros (t & H & <-). exists t. split; [|done]. by apply FromHexString_ok in H as [H _].
Qed.

End infohash.

#[export] Hint Resolve infohash.FromHexString_HexString : torrents.
