(* ===== verification/FilePath.v ===== *)
(** * Paths and the file system

    The standard library's [path.Clean] and [path.Join] (the same functions as
    [filepath.Clean] and [filepath.Join] on Unix), which the server uses to
    place the data of a torrent on disk, the server's start-up uses to place
    the database, and the client library uses to build request paths; and the
    part of the file system [os.RemoveAll] changes. *)

From S2P Require Import Prelude GoErrors.
From Stdlib Require Import Ascii String ZArith Lia.
From stdpp Require Import base gmap strings list.

Module path.

Definition sep : ascii := "/"%char.

(** [strings.Split(s, "/")]: the components, never an empty list. *)
Fixpoint split (s : string) : list string :=
  match s with
  | "" => [""]
  | String c s' =>
      if decide (c = sep) then "" :: split s'
      else match split s' with
           | x :: l => String c x :: l
           | [] => [String c ""]
           end
  end.

(** [strings.Join(l, "/")] *)
Fixpoint join (l : list string) : string :=
  match l with
  | [] => ""
  | [x] => x
  | x :: l' => x +:+ String sep (join l')
  end.

Definition rooted (p : string) : bool :=
  match p with
  | String c _ => bool_decide (c = sep)
  | "" => false
  end.

(** One component of the path against the components kept so far, the last one
    first. *)
Definition clean_step (r : bool) (stack : list string) (c : string) : list string :=
  if decide (c = "" \/ c = ".") then stack
  else if decide (c = "..") then
    match stack with
    | [] => if r then [] else [".."]
    | top :: rest => if decide (top = "..") then ".." :: stack else rest
    end
  else c :: stack.

(** The components of the cleaned path. *)
Definition comps (p : string) : list string :=
  rev (fold_left (clean_step (rooted p)) (split p) []).

Definition render (r : bool) (cs : list string) : string :=
  if r then String sep (join cs)
  else match cs with [] => "." | _ => join cs end.

Definition Clean (p : string) : string := render (rooted p) (comps p).

Fixpoint Join (elem : list string) : string :=
  match elem with
  | [] => ""
  | "" :: elem' => Join elem'
  | _ => Clean (join elem)
  end.

(** ** Facts *)

Lemma split_not_nil s : split s <> [].
Proof. destruct s as [|c s]; simpl; [done|]. case_decide; [done|]. by destruct (split s). Qed.

Lemma split_sep a b : split (a +:+ String sep b) = split a ++ split b.
Proof.
  induction a as [|c a IH].
  - by rewrite str_app_nil_l.
  - rewrite str_app_cons. cbn [split]. rewrite IH.
    destruct (decide (c = sep)); [done|].
    destruct (split a) as [|x l] eqn:E; [|done]. by apply split_not_nil in E.
Qed.

Fixpoint no_sep (s : string) : bool :=
  match s with "" => true | String c s' => bool_decide (c <> sep) && no_sep s' end.

Lemma split_no_sep s : no_sep s = true -> split s = [s].
Proof.
  induction s as [|c s IH]; [done|]. cbn [no_sep split]. intros H.
  apply andb_true_iff in H as [Hc H]. apply bool_decide_eq_true in Hc.
  rewrite decide_False by done. by rewrite IH.
Qed.

(** A name that is one ordinary component. *)
Definition plain_name (n : string) : bool :=
  no_sep n && bool_decide (n <> "" /\ n <> "." /\ n <> "..").

Lemma rooted_app a b : a <> "" -> rooted (a +:+ b) = rooted a.
Proof. by destruct a. Qed.

Lemma comps_app_sep d p :
  d <> "" ->
  comps (d +:+ String sep p) =
  rev (fold_left (clean_step (rooted d)) (split p) (rev (comps d))).
Proof.
  intros Hd. unfold comps. rewrite rooted_app, split_sep, fold_left_app, rev_involutive by done.
  done.
Qed.

Lemma comps_child d n :
  d <> "" -> plain_name n = true -> comps (d +:+ String sep n) = comps d ++ [n].
Proof.
  intros Hd Hn. unfold plain_name in Hn.
  apply andb_true_iff in Hn as [Hs Hn]. apply bool_decide_eq_true in Hn as (H1 & H2 & H3).
  rewrite comps_app_sep, split_no_sep by done. cbn [fold_left]. unfold clean_step.
  rewrite decide_False by tauto. rewrite decide_False by done.
  simpl. by rewrite rev_involutive.
Qed.

(** ** A cleaned path is clean

    The stack of kept components: none is empty or ".", and ".." occurs only at
    the bottom of a path that is not rooted. *)
Fixpoint normal (r : bool) (stack : list string) : Prop :=
  match stack with
  | [] => True
  | c :: st =>
      normal r st /\ no_sep c = true /\ c <> "" /\ c <> "." /\
      (c = ".." -> r = false /\ match st with [] => True | d :: _ => d = ".." end)
  end.

Lemma split_components s : Forall (fun c => no_sep c = true) (split s).
Proof.
  induction s as [|c s IH]; simpl; [by repeat constructor|].
  case_decide as Hc; [by constructor|].
  pose proof (split_not_nil s). destruct (split s) as [|x l]; [done|].
  apply Forall_cons in IH as [Hx Hl]. constructor; [|done].
  simpl. by rewrite bool_decide_true.
Qed.

Lemma clean_step_normal r st c : normal r st -> no_sep c = true -> normal r (clean_step r st c).
Proof.
  intros Hn Hc. unfold clean_step. case_decide as H1; [done|]. case_decide as H2.
  - subst c. destruct st as [|d st]; [by destruct r|]. case_decide as H3; [|by destruct Hn].
    split; [done|]. split_and!; [done..|]. intros _. destruct Hn as (_ & _ & _ & _ & Hd).
    by destruct (Hd H3).
  - simpl. tauto.
Qed.

Lemma fold_clean_normal r l st :
  normal r st -> Forall (fun c => no_sep c = true) l -> normal r (fold_left (clean_step r) l st).
Proof.
  intros Hn Hl. revert st Hn. induction Hl as [|c l Hc Hl IH]; intros st Hn; simpl; [done|].
  apply IH. by apply clean_step_normal.
Qed.

Lemma clean_step_id r st c : normal r (c :: st) -> clean_step r st c = c :: st.
Proof.
  intros (Hst & _ & H1 & H2 & H3). unfold clean_step.
  rewrite decide_False by tauto. case_decide as Hc; [|done].
  subst c. destruct (H3 eq_refl) as [-> Hd]. destruct st as [|d st]; [done|]. by rewrite decide_True.
Qed.

Lemma fold_clean_id r l st :
  normal r (rev l ++ st) -> fold_left (clean_step r) l st = rev l ++ st.
Proof.
  revert st. induction l as [|c l IH]; intros st Hn; [done|]. simpl in *.
  rewrite <-app_assoc in *. simpl in *.
  assert (normal r (c :: st)) as Hc.
  { clear IH. induction (rev l) as [|d k IHk]; [done|]. apply IHk. by destruct Hn. }
  rewrite clean_step_id by done. by apply IH.
Qed.

Lemma split_join l : l <> [] -> Forall (fun c => no_sep c = true) l -> split (join l) = l.
Proof.
  intros Hne Hl. induction Hl as [|c l Hc Hl IH]; [done|].
  destruct l as [|d l]; [by apply split_no_sep|].
  change (join (c :: d :: l)) with (c +:+ String sep (join (d :: l))).
  rewrite split_sep, IH, split_no_sep by done. done.
Qed.

Lemma normal_components r st : normal r st -> Forall (fun c => no_sep c = true /\ c <> "") st.
Proof. induction st as [|c st IH]; [constructor|]. intros (H & ? & ? & _). constructor; auto. Qed.

Lemma rooted_join l : Forall (fun c => no_sep c = true /\ c <> "") l -> rooted (join l) = false.
Proof.
  intros Hl. destruct Hl as [|c l [Hc Hne] _]; [done|].
  assert (rooted c = false) as Hr.
  { destruct c as [|x c]; [done|]. simpl in *. apply andb_true_iff in Hc as [Hx _].
    apply bool_decide_eq_true in Hx. by apply bool_decide_eq_false. }
  destruct l as [|d l]; [done|].
  change (join (c :: d :: l)) with (c +:+ String sep (join (d :: l))). by rewrite rooted_app.
Qed.

(** What [Clean] returns names the same place. *)
Lemma loc_render r cs : normal r (rev cs) -> rooted (render r cs) = r /\ comps (render r cs) = cs.
Proof.
  intros Hn. pose proof (normal_components _ _ Hn) as Hc. apply Forall_rev in Hc.
  rewrite rev_involutive in Hc.
  assert (Forall (fun c => no_sep c = true) cs) as Hs by (eapply Forall_impl; [exact Hc|by intros ? []]).
  assert (Hfold : rev (fold_left (clean_step r) cs []) = cs).
  { rewrite fold_clean_id; rewrite app_nil_r; [apply rev_involutive|done]. }
  destruct r; unfold render.
  - split; [done|]. unfold comps. change (rooted (String sep (join cs))) with true.
    change (split (String sep (join cs))) with ("" :: split (join cs)).
    destruct cs as [|c cs]; [done|]. rewrite split_join by done. exact Hfold.
  - destruct cs as [|c cs]; [done|]. rewrite rooted_join by done. split; [done|].
    unfold comps. rewrite rooted_join, split_join by done. exact Hfold.
Qed.

Lemma comps_normal p : normal (rooted p) (rev (comps p)).
Proof.
  unfold comps. rewrite rev_involutive. apply fold_clean_normal; [done|apply split_components].
Qed.

(** The cleaned path is rooted exactly when the path is, and has the same
    components. *)
Lemma loc_Clean p : rooted (Clean p) = rooted p /\ comps (Clean p) = comps p.
Proof. apply loc_render, comps_normal. Qed.

Lemma Clean_idempotent p : Clean (Clean p) = Clean p.
Proof. unfold Clean at 1. destruct (loc_Clean p) as [-> ->]. done. Qed.

(** The last component of a cleaned path is never ".", unless it is all of it. *)
Lemma last_Clean p : last (split (Clean p)) = Some "." -> Clean p = ".".
Proof.
  unfold Clean, render. pose proof (comps_normal p) as Hn. pose proof (normal_components _ _ Hn) as Hc.
  apply Forall_rev in Hc. rewrite rev_involutive in Hc.
  assert (Forall (fun c => no_sep c = true) (comps p)) as Hs by (eapply Forall_impl; [exact Hc|by intros ? []]).
  assert (Hlast : last (comps p) <> Some ".").
  { rewrite <-(rev_involutive (comps p)). destruct (rev (comps p)) as [|c st]; [done|].
    simpl. rewrite last_snoc. intros [= ->]. by destruct Hn as (_ & _ & _ & ? & _). }
  destruct (rooted p).
  - change (split (String sep (join (comps p)))) with ("" :: split (join (comps p))).
    destruct (comps p) as [|c cs] eqn:E; [done|]. rewrite split_join by done. intros Hl.
    destruct Hlast. rewrite <-Hl. by rewrite last_cons_cons.
  - destruct (comps p) as [|c cs] eqn:E; [done|]. rewrite split_join by done. done.
Qed.

(** ** Files

    A file is named by the rootedness and the components of its cleaned path. *)

Definition loc (p : string) : bool * list string := (rooted p, comps p).

Definition under (base f : bool * list string) : Prop :=
  fst base = fst f /\ exists rest, snd f = snd base ++ rest.

#[export] Instance under_dec base f : Decision (under base f).
Proof.
  destruct base as [r b], f as [r' cs]. unfold under; simpl.
  destruct (decide (r = r')) as [->|Hr]; [|right; tauto].
  destruct (decide (b = take (List.length b) cs)) as [E|E].
  - left. split; [done|]. exists (drop (List.length b) cs). rewrite E at 1. by rewrite take_drop.
  - right. intros [_ [rest ->]]. by rewrite take_app_length in E.
Defined.

Abbreviation fs := (gset (bool * list string)).

Definition ends_with_dot (p : string) : bool :=
  bool_decide (p = ".") || bool_decide (last (split p) = Some "." /\ p <> ".").

(** [os.RemoveAll]: the path and everything below it. A path that ends in the
    component "." is refused by the operating system's interface. *)
Definition remove_all (p : string) (files : fs) : result unit * fs :=
  if decide (p = "") then (Ok tt, files)
  else if ends_with_dot p then (Err (EOpaque ("RemoveAll " +:+ p +:+ ": invalid argument")), files)
  else (Ok tt, filter (fun f => ~ under (loc p) f) files).

(** [filepath.Join(dir, name)] of a directory and an ordinary name. *)
Lemma loc_Join_child d n :
  d <> "" -> plain_name n = true -> loc (Join [d; n]) = (rooted d, comps d ++ [n]).
Proof.
  intros Hd Hn. unfold loc.
  assert (Join [d; n] = Clean (d +:+ String sep n)) as -> by by destruct d.
  destruct (loc_Clean (d +:+ String sep n)) as [-> ->]. by rewrite rooted_app, comps_child.
Qed.

Lemma Join_not_empty d n : d <> "" -> Join [d; n] <> "".
Proof.
  intros Hd. assert (Join [d; n] = Clean (d +:+ String sep n)) as -> by by destruct d.
  unfold Clean, render. destruct (rooted _); [done|].
  pose proof (comps_normal (d +:+ String sep n)) as Hn. apply normal_components in Hn.
  destruct (comps _) as [|c cs] eqn:E; [done|]. apply Forall_rev in Hn. rewrite rev_involutive in Hn.
  apply Forall_cons in Hn as [[_ Hc] _]. destruct c as [|x c]; [done|]. by destruct cs.
Qed.

(** Removing a child of a directory removes what is below it and nothing else. *)
Lemma remove_all_child d n files :
  d <> "" -> plain_name n = true ->
  remove_all (Join [d; n]) files =
  (Ok tt, filter (fun f => ~ under (rooted d, comps d ++ [n]) f) files).
Proof.
  intros Hd Hn. unfold remove_all. rewrite decide_False by by apply Join_not_empty.
  rewrite loc_Join_child by done.
  destruct (ends_with_dot (Join [d; n])) eqn:E; [|done].
  assert (Join [d; n] = Clean (d +:+ String sep n)) as Hj by by destruct d.
  assert (Clean (d +:+ String sep n) = ".") as Hdot.
  { rewrite <-Hj. unfold ends_with_dot in E. apply orb_true_iff in E as [E|E];
      apply bool_decide_eq_true in E; [done|]. destruct E as [E _]. rewrite Hj in *. by apply last_Clean. }
  destruct (loc_Clean (d +:+ String sep n)) as [_ Hc]. rewrite Hdot, comps_child in Hc by done.
  by destruct (comps d).
Qed.

End path.

(** ** Where the files of a torrent are placed

    The paths the file storage of the torrent client gives to the files of a
    torrent, and which torrents it refuses for them (src/licenses/github.com/
    anacrolix/torrent/storage/file-client.go and file-paths.go). *)

Local Open Scope Z_scope.

Module storage.

(** [filepath.Rel] on the components of two cleaned paths. *)
Fixpoint rel_comps (base targ : list string) : option (list string) :=
  match base, targ with
  | b :: base', t :: targ' =>
      if decide (b = t) then rel_comps base' targ'
      else if decide (b = "..") then None
      else Some (repeat ".." (List.length base) ++ targ)
  | b :: _, [] => if decide (b = "..") then None else Some (repeat ".." (List.length base))
  | [], _ => Some targ
  end.

Definition Rel (base targ : string) : option (list string) :=
  if Bool.eqb (path.rooted base) (path.rooted targ)
  then rel_comps (path.comps base) (path.comps targ) else None.

Definition isSubFilepath (base sub : string) : bool :=
  match Rel base sub with
  | None => false
  | Some rel => match rel with c :: _ => negb (bool_decide (c = "..")) | [] => true end
  end.

Definition NoName : string := "-".

(** The storage's own file path maker. *)
Definition FilePathMaker (name : string) (file : list string) : string :=
  path.Join ((if decide (name = NoName) then [] else [name]) ++ file).

Definition defaultPathMaker (baseDir : string) : string := baseDir.

(** The part of [OpenTorrent] that places the files: their paths, or [None]
    when one of them escapes the directory. *)
Fixpoint file_paths (dir name : string) (files : list (list string)) : option (list string) :=
  match files with
  | [] => Some []
  | f :: files' =>
      let filePath := path.Join [dir; FilePathMaker name f] in
      if isSubFilepath dir filePath then
        match file_paths dir name files' with Some l => Some (filePath :: l) | None => None end
      else None
  end.

Definition OpenTorrent (baseDir name : string) (files : list (list string)) : option (list string) :=
  file_paths (defaultPathMaker baseDir) name files.

End storage.
