(* ===== verification/Bytes.v ===== *)
(** * Bytes

    Sequences of bytes of binary formats, the big-endian integers of
    [encoding/binary], and the packing of bits into bytes. *)

From S2P Require Import Prelude.
From Stdlib Require Import ZArith Lia Ascii.
From stdpp Require Import base gmap list.

Local Open Scope Z_scope.

Definition byte_of (c : ascii) : Z := Z.of_N (N_of_ascii c).
Definition of_byte (n : Z) : ascii := ascii_of_N (Z.to_N n).

Lemma byte_of_range c : 0 <= byte_of c < 256.
Proof. unfold byte_of. pose proof (N_ascii_bounded c). lia. Qed.

Lemma byte_of_of_byte n : 0 <= n < 256 -> byte_of (of_byte n) = n.
Proof. intros H. unfold byte_of, of_byte. rewrite N_ascii_embedding by lia. lia. Qed.

Lemma of_byte_byte_of c : of_byte (byte_of c) = c.
Proof. unfold byte_of, of_byte. by rewrite N2Z.id, ascii_N_embedding. Qed.

Lemma byte_of_inj c d : byte_of c = byte_of d -> c = d.
Proof. intros E. by rewrite <- (of_byte_byte_of c), E, of_byte_byte_of. Qed.

(** ** Big-endian integers *)

(** [n] bytes of [z], the most significant first. *)
Fixpoint be (n : nat) (z : Z) : list ascii :=
  match n with
  | O => []
  | S m => be m (z / 256) ++ [of_byte (z mod 256)]
  end.

Definition of_be (l : list ascii) : Z := fold_left (fun n c => n * 256 + byte_of c) l 0.

Lemma be_length n z : length (be n z) = n.
Proof. revert z. induction n as [|n IH]; intros z; [done|]. cbn [be]. rewrite length_app, IH. simpl. lia. Qed.

Lemma of_be_snoc l c : of_be (l ++ [c]) = of_be l * 256 + byte_of c.
Proof. unfold of_be. by rewrite fold_left_app. Qed.

Lemma of_be_be n z : 0 <= z < 256 ^ Z.of_nat n -> of_be (be n z) = z.
Proof.
  revert z. induction n as [|n IH]; intros z Hz; [change (256 ^ Z.of_nat 0) with 1 in Hz; change (0 = z); lia|].
  cbn [be]. rewrite of_be_snoc, byte_of_of_byte by (apply Z.mod_pos_bound; lia).
  replace (256 ^ Z.of_nat (S n)) with (256 * 256 ^ Z.of_nat n) in Hz by (rewrite Nat2Z.inj_succ, Z.pow_succ_r; lia).
  rewrite IH; [|split; [apply Z.div_pos; lia|apply Z.div_lt_upper_bound; lia]].
  rewrite Z.mul_comm. symmetry. apply Z.div_mod. lia.
Qed.

Lemma of_be_range l : 0 <= of_be l < 256 ^ Z.of_nat (length l).
Proof.
  induction l as [|c l IH] using rev_ind; [done|]. rewrite of_be_snoc, length_app. pose proof (byte_of_range c).
  change (length [c]) with 1%nat. rewrite Nat.add_1_r, Nat2Z.inj_succ, Z.pow_succ_r by lia. lia.
Qed.

Lemma be_of_be l : be (length l) (of_be l) = l.
Proof.
  induction l as [|c l IH] using rev_ind; [done|]. rewrite length_app, Nat.add_1_r. cbn [be].
  rewrite of_be_snoc. pose proof (byte_of_range c).
  replace ((of_be l * 256 + byte_of c) / 256) with (of_be l)
    by (rewrite Z.add_comm, Z.div_add by lia; rewrite Z.div_small by lia; lia).
  replace ((of_be l * 256 + byte_of c) mod 256) with (byte_of c)
    by (rewrite Z.add_comm, Z.mod_add by lia; by rewrite Z.mod_small by lia).
  by rewrite IH, of_byte_byte_of.
Qed.

Lemma be_of_be_n n l : length l = n -> be n (of_be l) = l.
Proof. intros <-. apply be_of_be. Qed.

(** ** Bits *)

(** The bits of a byte and of a sequence, the most significant first. *)
Definition bit (l : list ascii) (j : nat) : bool :=
  match l !! (j / 8)%nat with
  | Some c => Z.testbit (byte_of c) (7 - Z.of_nat (j mod 8))
  | None => false
  end.

Lemma bytes_ext l1 l2 : length l1 = length l2 -> (forall j, bit l1 j = bit l2 j) -> l1 = l2.
Proof.
  intros Hlen H. apply list_eq. intros i.
  destruct (l1 !! i) as [c|] eqn:E1; destruct (l2 !! i) as [d|] eqn:E2.
  - f_equal. apply byte_of_inj. apply Z.bits_inj'. intros n Hn.
    destruct (decide (n < 8)) as [Hn8|Hn8].
    + specialize (H (8 * i + (7 - Z.to_nat n))%nat). unfold bit in H.
      rewrite (Nat.mul_comm 8 i), Nat.div_add_l, Nat.div_small, Nat.add_0_r, E1, E2 in H by lia.
      rewrite (Nat.add_comm (i * 8)), Nat.Div0.mod_add, Nat.mod_small in H by lia.
      by replace (7 - Z.of_nat (7 - Z.to_nat n)) with n in H by lia.
    + pose proof (byte_of_range c). pose proof (byte_of_range d).
      assert (forall x, 0 <= x < 256 -> Z.testbit x n = false) as Hb.
      { intros x Hx. destruct (decide (x = 0)) as [->|]; [apply Z.bits_0|].
        apply Z.bits_above_log2; [lia|]. apply Z.log2_lt_pow2; [lia|].
        pose proof (Z.pow_le_mono_r 2 8 n ltac:(lia) ltac:(lia)). change (2 ^ 8) with 256 in *. lia. }
      by rewrite !Hb.
  - apply lookup_lt_Some in E1. apply lookup_ge_None in E2. lia.
  - apply lookup_ge_None in E1. apply lookup_lt_Some in E2. lia.
  - done.
Qed.

Lemma byte_land_one b i : 0 <= i -> (Z.land (Z.shiftr b i) 1 =? 1) = Z.testbit b i.
Proof.
  intros Hi. change 1 with (Z.ones 1). rewrite Z.land_ones by lia. change (2 ^ 1) with 2.
  rewrite Zmod_odd, <- Z.bit0_odd, Z.shiftr_spec, Z.add_0_l by lia.
  by destruct (Z.testbit b i).
Qed.
