(* ===== verification/Json.v ===== *)
(** * encoding/json

    The standard library's JSON as far as the API and the client library use
    it. As in the library, reading is done in two steps: the scanner [parse]
    checks the syntax of one value and keeps numbers and strings as the
    literals of the text, and a literal is interpreted ([unquote], [int64_of])
    when it is stored in a Go variable. [print] writes a value;
    [parse (print v)] is [v] ([parse_print]) and [unquote (escape s)] is [s] up
    to the bytes that are not UTF-8 ([unquote_escape]). *)

From S2P Require Import Prelude GoErrors GoTime Strconv.
From Stdlib Require Import ZArith Lia Ascii String.
From Stdlib Require Import DecimalString DecimalZ DecimalFacts.
From stdpp Require Import base gmap strings list.

Local Open Scope Z_scope.

Module json.

Inductive value : Type :=
| Null
| Bool (b : bool)
| Number (literal : string)
| Str (literal : string)      (* between the quotes *)
| Array (l : list value)
| Object (l : list (string * value)).

(** ** UTF-8

    [utf8.DecodeRune]: which bytes may start and continue a rune. *)

Definition byte (c : ascii) : Z := Z.of_N (N_of_ascii c).
Definition char (n : Z) : ascii := ascii_of_N (Z.to_N n).
Definition between (lo hi n : Z) : bool := (lo <=? n) && (n <=? hi).

Definition cont (c : ascii) : bool := between 128 191 (byte c).
Definition two (a b : ascii) : bool := between 194 223 (byte a) && cont b.
Definition three (a b c : ascii) : bool :=
  cont c &&
  (((byte a =? 224) && between 160 191 (byte b)) ||
   ((byte a =? 237) && between 128 159 (byte b)) ||
   ((between 225 236 (byte a) || between 238 239 (byte a)) && cont b)).
Definition four (a b c d : ascii) : bool :=
  cont c && cont d &&
  (((byte a =? 240) && between 144 191 (byte b)) ||
   (between 241 243 (byte a) && cont b) ||
   ((byte a =? 244) && between 128 143 (byte b))).

(** [utf8.ValidString] *)
Fixpoint utf8_valid (s : string) : bool :=
  match s with
  | "" => true
  | String a s1 =>
      if byte a <? 128 then utf8_valid s1
      else match s1 with
      | String b s2 =>
          if two a b then utf8_valid s2
          else match s2 with
          | String c s3 =>
              if three a b c then utf8_valid s3
              else match s3 with
              | String d s4 => four a b c d && utf8_valid s4
              | "" => false
              end
          | "" => false
          end
      | "" => false
      end
  end.

Definition replacement (s : string) : string :=
  String (char 239) (String (char 191) (String (char 189) s)).

(** [strings.ToValidUTF8] with the replacement character for every invalid byte *)
Fixpoint sanitize (s : string) : string :=
  match s with
  | "" => ""
  | String a s1 =>
      if byte a <? 128 then String a (sanitize s1)
      else match s1 with
      | String b s2 =>
          if two a b then String a (String b (sanitize s2))
          else match s2 with
          | String c s3 =>
              if three a b c then String a (String b (String c (sanitize s3)))
              else match s3 with
              | String d s4 =>
                  if four a b c d then String a (String b (String c (String d (sanitize s4))))
                  else replacement (sanitize s1)
              | "" => replacement (sanitize s1)
              end
          | "" => replacement (sanitize s1)
          end
      | "" => replacement (sanitize s1)
      end
  end.

(** [utf8.AppendRune] of a code point that is not a surrogate *)
Definition utf8_append (r : Z) (s : string) : string :=
  if r <? 128 then String (char r) s
  else if r <? 2048 then String (char (192 + r / 64)) (String (char (128 + r mod 64)) s)
  else if r <? 65536 then
    String (char (224 + r / 4096)) (String (char (128 + r / 64 mod 64)) (String (char (128 + r mod 64)) s))
  else
    String (char (240 + r / 262144)) (String (char (128 + r / 4096 mod 64))
      (String (char (128 + r / 64 mod 64)) (String (char (128 + r mod 64)) s))).

(** ** Strings *)

Definition quot : ascii := "034"%char.
Definition bslash : ascii := "\"%char.

Definition hex (n : Z) : ascii := if n <? 10 then char (48 + n) else char (87 + n).

(** [appendString] with HTML escaping, a byte below 128. *)
Definition escape_byte (c : ascii) (s : string) : string :=
  let n := byte c in
  if (n =? 34) || (n =? 92) then String bslash (String c s)
  else if n =? 8 then String bslash (String "b" s)
  else if n =? 12 then String bslash (String "f" s)
  else if n =? 10 then String bslash (String "n" s)
  else if n =? 13 then String bslash (String "r" s)
  else if n =? 9 then String bslash (String "t" s)
  else if (n <? 32) || (n =? 60) || (n =? 62) || (n =? 38) then
    String bslash (String "u" (String "0" (String "0" (String (hex (n / 16)) (String (hex (n mod 16)) s)))))
  else String c s.

(** An invalid byte is written as the escaped replacement character. *)
Definition escape_bad (t : string) : string :=
  String bslash (String "u" (String "f" (String "f" (String "f" (String "d" t))))).

(** A rune of three bytes: the line and paragraph separators are escaped. *)
Definition escape_three (a b c : ascii) (t : string) : string :=
  if (byte a =? 226) && (byte b =? 128) && ((byte c =? 168) || (byte c =? 169))
  then String bslash (String "u" (String "2" (String "0" (String "2" (String (hex (byte c - 160)) t)))))
  else String a (String b (String c t)).

(** The literal of a string. *)
Fixpoint escape (s : string) : string :=
  match s with
  | "" => ""
  | String a s1 =>
      if byte a <? 128 then escape_byte a (escape s1)
      else match s1 with
      | String b s2 =>
          if two a b then String a (String b (escape s2))
          else match s2 with
          | String c s3 =>
              if three a b c then escape_three a b c (escape s3)
              else match s3 with
              | String d s4 =>
                  if four a b c d then String a (String b (String c (String d (escape s4))))
                  else escape_bad (escape s1)
              | "" => escape_bad (escape s1)
              end
          | "" => escape_bad (escape s1)
          end
      | "" => escape_bad (escape s1)
      end
  end.

Definition hex_val (c : ascii) : option Z :=
  let n := byte c in
  if between 48 57 n then Some (n - 48)
  else if between 97 102 n then Some (n - 87)
  else if between 65 70 n then Some (n - 55)
  else None.

(** [getu4] after the escape *)
Definition hex4 (a b c d : ascii) : option Z :=
  match hex_val a, hex_val b, hex_val c, hex_val d with
  | Some x, Some y, Some z, Some w => Some (x * 4096 + y * 256 + z * 16 + w)
  | _, _, _, _ => None
  end.

Definition surrogate (r : Z) : bool := between 55296 57343 r.

(** [utf16.DecodeRune] *)
Definition pair (r1 r2 : Z) : option Z :=
  if between 55296 56319 r1 && between 56320 57343 r2
  then Some ((r1 - 55296) * 1024 + (r2 - 56320) + 65536) else None.

Definition simple_escape (c : ascii) : option ascii :=
  let n := byte c in
  if (n =? 34) || (n =? 92) || (n =? 47) then Some c
  else if n =? 98 then Some (char 8)
  else if n =? 102 then Some (char 12)
  else if n =? 110 then Some (char 10)
  else if n =? 114 then Some (char 13)
  else if n =? 116 then Some (char 9)
  else None.

(** The scanner's string states: the literal up to the closing quote and what
    follows it. *)
Definition on_fst (f : string -> string) (r : option (string * string)) : option (string * string) :=
  match r with Some (t, rest) => Some (f t, rest) | None => None end.

Fixpoint scan_string (s : string) : option (string * string) :=
  match s with
  | "" => None
  | String a s1 =>
      if byte a =? 34 then Some ("", s1)
      else if byte a =? 92 then
        match s1 with
        | String e s2 =>
            if byte e =? 117 then
              match s2 with
              | String h1 (String h2 (String h3 (String h4 s3))) =>
                  match hex4 h1 h2 h3 h4 with
                  | Some _ => on_fst (fun t => String a (String e (String h1 (String h2 (String h3 (String h4 t))))))
                                     (scan_string s3)
                  | None => None
                  end
              | _ => None
              end
            else match simple_escape e with
                 | Some _ => on_fst (fun t => String a (String e t)) (scan_string s2)
                 | None => None
                 end
        | "" => None
        end
      else if byte a <? 32 then None
      else on_fst (String a) (scan_string s1)
  end.

(** [unquoteBytes]: the string of a literal. Invalid UTF-8 and lone surrogates
    become U+FFFD. *)
Fixpoint unquote (s : string) : option string :=
  match s with
  | "" => Some ""
  | String a s1 =>
      if byte a =? 92 then
        match s1 with
        | String e s2 =>
            if byte e =? 117 then
              match s2 with
              | String h1 (String h2 (String h3 (String h4 s3))) =>
                  match hex4 h1 h2 h3 h4 with
                  | None => None
                  | Some r =>
                      if surrogate r then
                        match s3 with
                        | String b1 (String u1 (String g1 (String g2 (String g3 (String g4 s4))))) =>
                            match (if (byte b1 =? 92) && (byte u1 =? 117) then hex4 g1 g2 g3 g4 else None)
                                  ≫= pair r with
                            | Some x => utf8_append x <$> unquote s4
                            | None => replacement <$> unquote s3
                            end
                        | _ => replacement <$> unquote s3
                        end
                      else utf8_append r <$> unquote s3
                  end
              | _ => None
              end
            else match simple_escape e with
                 | Some c => String c <$> unquote s2
                 | None => None
                 end
        | "" => None
        end
      else if (byte a =? 34) || (byte a <? 32) then None
      else if byte a <? 128 then String a <$> unquote s1
      else match s1 with
      | String b s2 =>
          if two a b then (fun t => String a (String b t)) <$> unquote s2
          else match s2 with
          | String c s3 =>
              if three a b c then (fun t => String a (String b (String c t))) <$> unquote s3
              else match s3 with
              | String d s4 =>
                  if four a b c d then (fun t => String a (String b (String c (String d t)))) <$> unquote s4
                  else replacement <$> unquote s1
              | "" => replacement <$> unquote s1
              end
          | "" => replacement <$> unquote s1
          end
      | "" => replacement <$> unquote s1
      end
  end.

(** *** Reading a written string *)

Lemma unquote_escape_byte c t :
  (byte c <? 128) = true -> unquote (escape_byte c t) = String c <$> unquote t.
Proof.
  destruct c as [[] [] [] [] [] [] [] []]; intros H; try discriminate H; reflexivity.
Qed.

Lemma scan_escape_byte c t :
  (byte c <? 128) = true -> scan_string (escape_byte c t) = on_fst (escape_byte c) (scan_string t).
Proof.
  destruct c as [[] [] [] [] [] [] [] []]; intros H; try discriminate H; reflexivity.
Qed.

(** The shapes [escape] distinguishes. *)
Lemma escape_ind (P : string -> Prop) :
  P "" ->
  (forall a s, (byte a <? 128) = true -> P s -> P (String a s)) ->
  (forall a b s, (byte a <? 128) = false -> two a b = true -> P s -> P (String a (String b s))) ->
  (forall a b c s, (byte a <? 128) = false -> two a b = false -> three a b c = true ->
     P s -> P (String a (String b (String c s)))) ->
  (forall a b c d s, (byte a <? 128) = false -> two a b = false -> three a b c = false ->
     four a b c d = true -> P s -> P (String a (String b (String c (String d s))))) ->
  (forall a s, (byte a <? 128) = false -> escape (String a s) = escape_bad (escape s) ->
     sanitize (String a s) = replacement (sanitize s) -> utf8_valid (String a s) = false ->
     P s -> P (String a s)) ->
  forall s, P s.
Proof.
  intros H0 H1 H2 H3 H4 Hb s.
  remember (String.length s) as n eqn:Hn. revert s Hn.
  induction (lt_wf n) as [n _ IH]. intros s ->.
  assert (IHl : forall t, (String.length t < String.length s)%nat -> P t) by (intros t Ht; by apply (IH _ Ht)).
  clear IH. destruct s as [|a s1]; [done|]. simpl in IHl.
  destruct (byte a <? 128) eqn:Ea; [apply H1; [done|]; apply IHl; lia|].
  destruct s1 as [|b s2]; [apply Hb; simpl; rewrite ?Ea; auto|].
  destruct (two a b) eqn:E2; [apply H2; [done..|]; apply IHl; simpl; lia|].
  destruct s2 as [|c s3].
  { apply Hb; [done|simpl; by rewrite Ea, E2..|apply IHl; simpl; lia]. }
  destruct (three a b c) eqn:E3; [apply H3; [done..|]; apply IHl; simpl; lia|].
  destruct s3 as [|d s4].
  { apply Hb; [done|simpl; by rewrite Ea, E2, E3..|apply IHl; simpl; lia]. }
  destruct (four a b c d) eqn:E4; [apply H4; [done..|]; apply IHl; simpl; lia|].
  apply Hb; [done|simpl; by rewrite Ea, E2, E3, E4..|apply IHl; simpl; lia].
Qed.

Lemma high_byte a : (byte a <? 128) = false ->
  (byte a =? 34) = false /\ (byte a =? 92) = false /\ (byte a <? 32) = false.
Proof. rewrite Z.ltb_ge, !Z.eqb_neq, Z.ltb_ge. lia. Qed.

Lemma byte_inj a n : byte a = n -> a = char n.
Proof. intros <-. unfold char, byte. by rewrite N2Z.id, ascii_N_embedding. Qed.

Lemma cont_high b : cont b = true -> (byte b <? 128) = false.
Proof. unfold cont, between. rewrite andb_true_iff, !Z.leb_le, Z.ltb_ge. lia. Qed.

(** The continuation bytes of a rune. *)
Lemma two_cont a b : two a b = true -> cont b = true.
Proof. unfold two. by intros [? ?]%andb_true_iff. Qed.

Lemma three_cont a b c : three a b c = true -> cont b = true /\ cont c = true.
Proof.
  unfold three, cont, between.
  rewrite !andb_true_iff, !orb_true_iff, !andb_true_iff, !Z.eqb_eq, !Z.leb_le. lia.
Qed.

Lemma four_cont a b c d : four a b c d = true -> cont b = true /\ cont c = true /\ cont d = true.
Proof.
  unfold four, cont, between.
  rewrite !andb_true_iff, !orb_true_iff, !andb_true_iff, !Z.eqb_eq, !Z.leb_le. lia.
Qed.

Lemma unquote_three a b c t :
  (byte a <? 128) = false -> two a b = false -> three a b c = true ->
  unquote (escape_three a b c t) = (fun u => String a (String b (String c u))) <$> unquote t.
Proof.
  intros Ha H2 H3. unfold escape_three.
  destruct ((byte a =? 226) && (byte b =? 128) && _) eqn:E.
  - apply andb_true_iff in E as [[Ea Eb]%andb_true_iff Ec].
    apply Z.eqb_eq, byte_inj in Ea as ->. apply Z.eqb_eq, byte_inj in Eb as ->.
    by apply orb_true_iff in Ec as [Ec|Ec]; apply Z.eqb_eq, byte_inj in Ec as ->.
  - destruct (high_byte a Ha) as (E1 & E2 & E3'). cbn [unquote]. by rewrite E1, E2, E3', Ha, H2, H3.
Qed.

(** Text is read back as it was written, up to the bytes that are not UTF-8. *)
Lemma unquote_escape s : unquote (escape s) = Some (sanitize s).
Proof.
  induction s as [|a s Ha IH|a b s Ha H2 IH|a b c s Ha H2 H3 IH|a b c d s Ha H2 H3 H4 IH|a s Ha He Hz _ IH]
    using escape_ind; [done|..].
  - simpl in *. rewrite Ha in *. rewrite unquote_escape_byte by done. by rewrite IH.
  - simpl escape. simpl sanitize. rewrite Ha, H2.
    destruct (high_byte a Ha) as (E1 & E2 & E3). cbn [unquote]. rewrite E1, E2, E3, Ha, H2. by rewrite IH.
  - simpl escape. simpl sanitize. rewrite Ha, H2, H3. rewrite unquote_three by done. by rewrite IH.
  - simpl escape. simpl sanitize. rewrite Ha, H2, H3, H4.
    destruct (high_byte a Ha) as (E1 & E2 & E3). cbn [unquote]. rewrite E1, E2, E3, Ha, H2, H3, H4. by rewrite IH.
  - rewrite He, Hz. change (unquote (escape_bad (escape s))) with (replacement <$> unquote (escape s)).
    by rewrite IH.
Qed.

Lemma sanitize_valid s : utf8_valid s = true -> sanitize s = s.
Proof.
  induction s as [|a s Ha IH|a b s Ha H2 IH|a b c s Ha H2 H3 IH|a b c d s Ha H2 H3 H4 IH|a s Ha _ _ Hv IH]
    using escape_ind; [done|..|congruence]; intros Hs.
  - simpl in *. rewrite Ha in *. by rewrite IH.
  - simpl in *. rewrite Ha, H2 in *. by rewrite IH.
  - simpl in *. rewrite Ha, H2, H3 in *. by rewrite IH.
  - simpl in *. rewrite Ha, H2, H3, H4 in *. by rewrite IH.
Qed.

Lemma sanitize_nil s : sanitize s = "" -> s = "".
Proof.
  destruct s as [|a s]; [done|]. simpl. intros H. exfalso. revert H.
  by repeat (case_match; try discriminate).
Qed.

(** The scanner passes over bytes outside ASCII. *)
Lemma scan_high a t : (byte a <? 128) = false -> scan_string (String a t) = on_fst (String a) (scan_string t).
Proof. intros (E1 & E2 & E3)%high_byte. cbn [scan_string]. by rewrite E1, E2, E3. Qed.

Lemma scan_three a b c t :
  (byte a <? 128) = false -> three a b c = true ->
  scan_string (escape_three a b c t) = on_fst (escape_three a b c) (scan_string t).
Proof.
  intros Ha H3. unfold escape_three.
  destruct ((byte a =? 226) && (byte b =? 128) && _) eqn:E.
  - apply andb_true_iff in E as [_ Ec].
    by apply orb_true_iff in Ec as [Ec|Ec]; apply Z.eqb_eq, byte_inj in Ec as ->.
  - apply three_cont in H3 as [Hb Hc]. rewrite !scan_high by auto using cont_high.
    by destruct (scan_string t) as [[]|].
Qed.

(** A written literal ends at the quote written after it. *)
Lemma scan_escape s rest : scan_string (escape s +:+ String quot rest) = Some (escape s, rest).
Proof.
  induction s as [|a s Ha IH|a b s Ha H2 IH|a b c s Ha H2 H3 IH|a b c d s Ha H2 H3 H4 IH|a s Ha He _ _ IH]
    using escape_ind; [done|..].
  - assert (forall u, escape_byte a u +:+ String quot rest = escape_byte a (u +:+ String quot rest)) as Eb.
    { intros u. unfold escape_byte. repeat case_match; by rewrite !str_app_cons. }
    simpl escape. rewrite Ha, Eb, scan_escape_byte by done. by rewrite IH.
  - simpl escape. rewrite Ha, H2, !str_app_cons, !scan_high by eauto using cont_high, two_cont. by rewrite IH.
  - assert (forall u, escape_three a b c u +:+ String quot rest = escape_three a b c (u +:+ String quot rest)) as Eb.
    { intros u. unfold escape_three. case_match; by rewrite !str_app_cons. }
    simpl escape. rewrite Ha, H2, H3, Eb, scan_three by done. by rewrite IH.
  - simpl escape. rewrite Ha, H2, H3, H4, !str_app_cons.
    destruct (four_cont _ _ _ _ H4) as (? & ? & ?). rewrite !scan_high by auto using cont_high. by rewrite IH.
  - rewrite He. unfold escape_bad. rewrite !str_app_cons. 
    change (on_fst (fun t => escape_bad t) (scan_string (escape s +:+ String quot rest)) = Some (escape_bad (escape s), rest)).
    by rewrite IH.
Qed.

(** ** Numbers *)

Definition in_int64 (z : Z) : bool := between (-9223372036854775808) 9223372036854775807 z.

(** [strconv.ParseInt] of a literal with base 10 and 64 bits. *)
Definition int64_of (literal : string) : option Z :=
  match NilZero.int_of_string literal with
  | Some i => if in_int64 (Z.of_int i) then Some (Z.of_int i) else None
  | None => None
  end.

(** At least one digit. *)
Definition scan_digits (s : string) : option (string * string) :=
  match span_digits s with
  | ("", _) => None
  | p => Some p
  end.

Definition scan_int (s : string) : option (string * string) :=
  match s with
  | String c r => if byte c =? 48 then Some ("0", r) else scan_digits s
  | "" => None
  end.

Definition scan_frac (s : string) : option (string * string) :=
  match s with
  | String c r => if byte c =? 46 then on_fst (String c) (scan_digits r) else Some ("", s)
  | "" => Some ("", s)
  end.

Definition scan_exp (s : string) : option (string * string) :=
  match s with
  | String c r =>
      if (byte c =? 101) || (byte c =? 69) then
        match r with
        | String d r' =>
            if (byte d =? 43) || (byte d =? 45) then on_fst (fun t => String c (String d t)) (scan_digits r')
            else on_fst (String c) (scan_digits r)
        | "" => None
        end
      else Some ("", s)
  | "" => Some ("", s)
  end.

Definition scan_number (s : string) : option (string * string) :=
  let '(sign, s0) :=
    match s with
    | String c r => if byte c =? 45 then ("-", r) else ("", s)
    | "" => ("", s)
    end in
  '(i, s1) ← scan_int s0;
  '(f, s2) ← scan_frac s1;
  '(e, s3) ← scan_exp s2;
  Some (sign +:+ i +:+ f +:+ e, s3).

(** ** Values *)

Definition quoted (literal : string) : string := String quot (literal +:+ String quot "").

Fixpoint print (v : value) : string :=
  match v with
  | Null => "null"
  | Bool true => "true"
  | Bool false => "false"
  | Number n => n
  | Str s => quoted s
  | Array l => "[" +:+ String.concat "," (map print l) +:+ "]"
  | Object l => "{" +:+ String.concat "," (map (fun m => quoted (fst m) +:+ ":" +:+ print (snd m)) l) +:+ "}"
  end.

(** [json.Encoder.Encode] of a value: the text and a newline. *)
Definition encode (v : value) : string := print v +:+ newline.

Definition is_space (c : ascii) : bool :=
  (byte c =? 32) || (byte c =? 9) || (byte c =? 10) || (byte c =? 13).

Fixpoint skip_ws (s : string) : string :=
  match s with
  | String c r => if is_space c then skip_ws r else s
  | "" => ""
  end.

(** The text after the word [w]. *)
Fixpoint after_word (w s : string) : option string :=
  match w, s with
  | "", _ => Some s
  | String a w', String b s' => if byte a =? byte b then after_word w' s' else None
  | String _ _, "" => None
  end.

Definition max_depth : N := 10000.

(** The scanner: a value that starts in [s], inside [d] open arrays and
    objects. Each call consumes fuel; [fuel_for] is always enough. *)
Fixpoint parse_value (fuel : nat) (d : N) (s : string) {struct fuel} : option (value * string) :=
  match fuel with
  | O => None
  | S f =>
      match skip_ws s with
      | "" => None
      | String c r =>
          if byte c =? 34 then '(lit, r') ← scan_string r; Some (Str lit, r')
          else if byte c =? 91 then
            if (max_depth <=? d)%N then None
            else match after_word "]" (skip_ws r) with
                 | Some r' => Some (Array [], r')
                 | None => '(l, r') ← parse_elems f (d + 1) r; Some (Array l, r')
                 end
          else if byte c =? 123 then
            if (max_depth <=? d)%N then None
            else match after_word "}" (skip_ws r) with
                 | Some r' => Some (Object [], r')
                 | None => '(l, r') ← parse_members f (d + 1) r; Some (Object l, r')
                 end
          else if byte c =? 116 then r' ← after_word "rue" r; Some (Bool true, r')
          else if byte c =? 102 then r' ← after_word "alse" r; Some (Bool false, r')
          else if byte c =? 110 then r' ← after_word "ull" r; Some (Null, r')
          else '(lit, r') ← scan_number (String c r); Some (Number lit, r')
      end
  end
with parse_elems (fuel : nat) (d : N) (s : string) {struct fuel} : option (list value * string) :=
  match fuel with
  | O => None
  | S f =>
      '(v, r) ← parse_value f d s;
      match after_word "," (skip_ws r) with
      | Some r' => '(l, r'') ← parse_elems f d r'; Some (v :: l, r'')
      | None => r' ← after_word "]" (skip_ws r); Some ([v], r')
      end
  end
with parse_members (fuel : nat) (d : N) (s : string) {struct fuel} : option (list (string * value) * string) :=
  match fuel with
  | O => None
  | S f =>
      r1 ← after_word (String quot "") (skip_ws s);
      '(k, r2) ← scan_string r1;
      r3 ← after_word ":" (skip_ws r2);
      '(v, r) ← parse_value f d r3;
      match after_word "," (skip_ws r) with
      | Some r' => '(l, r'') ← parse_members f d r'; Some ((k, v) :: l, r'')
      | None => r' ← after_word "}" (skip_ws r); Some ([(k, v)], r')
      end
  end.

Definition fuel_for (s : string) : nat := 2 * String.length s + 2.

(** [json.Decoder]'s [readValue]: the first value of a stream. *)
Definition parse (s : string) : option value := fst <$> parse_value (fuel_for s) 0 s.

(** *** Reading a written value *)

Lemma on_fst_Some f r t rest : on_fst f r = Some (t, rest) -> exists t', r = Some (t', rest) /\ t = f t'.
Proof. destruct r as [[]|]; simpl; [|done]. intros [= <- <-]. eauto. Qed.

Lemma scan_string_app s raw r t :
  scan_string s = Some (raw, r) -> scan_string (s +:+ t) = Some (raw, r +:+ t).
Proof.
  revert raw r. remember (String.length s) as n eqn:Hn. revert s Hn.
  induction (lt_wf n) as [n _ IH]. intros s -> raw r.
  assert (IHl : forall u raw r, (String.length u < String.length s)%nat -> scan_string u = Some (raw, r) ->
    scan_string (u +:+ t) = Some (raw, r +:+ t)) by (intros u ?? Hu; by apply (IH _ Hu)).
  clear IH. destruct s as [|a s1]; [done|]. rewrite str_app_cons. cbn [scan_string]. simpl in IHl.
  destruct (byte a =? 34). { by intros [= <- <-]. }
  destruct (byte a =? 92).
  - destruct s1 as [|e s2]; [done|]. rewrite str_app_cons. destruct (byte e =? 117).
    + destruct s2 as [|h1 [|h2 [|h3 [|h4 s3]]]]; try done. rewrite !str_app_cons.
      destruct (hex4 h1 h2 h3 h4); [|done]. intros (t' & Ht & ->)%on_fst_Some.
      by rewrite (IHl s3 t' r) by (simpl; done || lia).
    + destruct (simple_escape e); [|done]. intros (t' & Ht & ->)%on_fst_Some.
      by rewrite (IHl s2 t' r) by (simpl; done || lia).
  - destruct (byte a <? 32); [done|]. intros (t' & Ht & ->)%on_fst_Some.
    by rewrite (IHl s1 t' r) by (simpl; done || lia).
Qed.

(** What may follow a number. *)
Definition stops (s : string) : bool :=
  match s with
  | "" => true
  | String c _ => (byte c =? 44) || (byte c =? 93) || (byte c =? 125) || (byte c =? 10)
  end.

Lemma stops_spec c s : stops (String c s) = true ->
  is_digit c = false /\ (byte c =? 46) = false /\ ((byte c =? 101) || (byte c =? 69)) = false.
Proof.
  unfold stops, is_digit, digit_val. fold (byte c).
  rewrite !orb_true_iff, !Z.eqb_eq, andb_false_iff, orb_false_iff, !Z.eqb_neq, !Z.leb_gt. lia.
Qed.

Lemma span_digits_stop s ds r t : span_digits s = (ds, r) -> stops t = true ->
  span_digits (s +:+ t) = (ds, r +:+ t).
Proof.
  intros H Ht. revert ds r H. induction s as [|c s IH]; intros ds r; simpl.
  - intros [= <- <-]. destruct t as [|c t]; [done|]. rewrite str_app_nil_l. simpl.
    by destruct (stops_spec _ _ Ht) as (-> & _).
  - rewrite ?str_app_cons. simpl. destruct (is_digit c).
    + destruct (span_digits s) as [d' r']. intros [= <- <-]. by rewrite (IH d' r').
    + intros [= <- <-]. by rewrite ?str_app_cons.
Qed.

Lemma scan_digits_stop s ds r t : scan_digits s = Some (ds, r) -> stops t = true ->
  scan_digits (s +:+ t) = Some (ds, r +:+ t).
Proof.
  unfold scan_digits. destruct (span_digits s) as [d' r'] eqn:E. intros H Ht.
  rewrite (span_digits_stop _ _ _ _ E Ht). destruct d'; [done|]. by injection H as <- <-.
Qed.

Lemma scan_int_stop s x r t : scan_int s = Some (x, r) -> stops t = true ->
  scan_int (s +:+ t) = Some (x, r +:+ t).
Proof.
  destruct s as [|c s]; [done|]. rewrite ?str_app_cons. simpl.
  destruct (byte c =? 48); [by intros [= <- <-]|]. intros H Ht. by apply (scan_digits_stop (String c s)).
Qed.

Lemma scan_frac_stop s x r t : scan_frac s = Some (x, r) -> stops t = true ->
  scan_frac (s +:+ t) = Some (x, r +:+ t).
Proof.
  destruct s as [|c s]; simpl.
  - intros [= <- <-] Ht. rewrite !str_app_nil_l. destruct t as [|c t]; [done|]. simpl.
    by destruct (stops_spec _ _ Ht) as (_ & -> & _).
  - rewrite ?str_app_cons. simpl. destruct (byte c =? 46).
    + intros (y & Hy & ->)%on_fst_Some Ht. by rewrite (scan_digits_stop _ _ _ _ Hy Ht).
    + by intros [= <- <-].
Qed.

Lemma scan_exp_stop s x r t : scan_exp s = Some (x, r) -> stops t = true ->
  scan_exp (s +:+ t) = Some (x, r +:+ t).
Proof.
  destruct s as [|c s]; simpl.
  - intros [= <- <-] Ht. rewrite !str_app_nil_l. destruct t as [|c t]; [done|]. simpl.
    by destruct (stops_spec _ _ Ht) as (_ & _ & ->).
  - rewrite ?str_app_cons. simpl. destruct ((byte c =? 101) || (byte c =? 69)); [|by intros [= <- <-]].
    destruct s as [|d s]; [done|]. rewrite ?str_app_cons. destruct ((byte d =? 43) || (byte d =? 45));
      intros (y & Hy & ->)%on_fst_Some Ht.
    + by rewrite (scan_digits_stop _ _ _ _ Hy Ht).
    + by rewrite <- str_app_cons, (scan_digits_stop _ _ _ _ Hy Ht).
Qed.

Definition split_sign (s : string) : string * string :=
  match s with
  | String c r => if byte c =? 45 then ("-", r) else ("", s)
  | "" => ("", s)
  end.

Lemma scan_number_stop s x r t : scan_number s = Some (x, r) -> stops t = true ->
  scan_number (s +:+ t) = Some (x, r +:+ t).
Proof.
  unfold scan_number. fold (split_sign s) (split_sign (s +:+ t)). intros H Ht.
  destruct s as [|c s]; [done|]. rewrite str_app_cons.
  assert (split_sign (String c (s +:+ t)) =
    (fst (split_sign (String c s)), snd (split_sign (String c s)) +:+ t)) as ->
    by (simpl; by destruct (byte c =? 45)).
  destruct (split_sign (String c s)) as [sign s0]. simpl.
  destruct (scan_int s0) as [[i s1]|] eqn:E1; [|done]. simpl in H.
  destruct (scan_frac s1) as [[f s2]|] eqn:E2; [|done]. simpl in H.
  destruct (scan_exp s2) as [[e s3]|] eqn:E3; [|done]. simpl in H. injection H as <- <-.
  rewrite (scan_int_stop _ _ _ _ E1 Ht). simpl. rewrite (scan_frac_stop _ _ _ _ E2 Ht). simpl.
  by rewrite (scan_exp_stop _ _ _ _ E3 Ht).
Qed.

(** The values whose literals are literals. *)
Definition valid_string (lit : string) : bool :=
  bool_decide (scan_string (lit +:+ String quot "") = Some (lit, "")).
Definition valid_number (lit : string) : bool := bool_decide (scan_number lit = Some (lit, "")).

Fixpoint wf (v : value) : bool :=
  match v with
  | Null | Bool _ => true
  | Number n => valid_number n
  | Str s => valid_string s
  | Array l => forallb wf l
  | Object l => forallb (fun m => valid_string (fst m) && wf (snd m)) l
  end.

Fixpoint depth (v : value) : N :=
  match v with
  | Array l => 1 + fold_right N.max 0%N (map depth l)
  | Object l => 1 + fold_right N.max 0%N (map (fun m => depth (snd m)) l)
  | _ => 0
  end.

Lemma valid_escape s : valid_string (escape s) = true.
Proof. apply bool_decide_eq_true, scan_escape. Qed.

Section value_ind.
Context (P : value -> Prop)
  (HNull : P Null) (HBool : forall b, P (Bool b)) (HNumber : forall n, P (Number n))
  (HStr : forall s, P (Str s)) (HArray : forall l, Forall P l -> P (Array l))
  (HObject : forall l, Forall (fun m => P (snd m)) l -> P (Object l)).

Fixpoint value_nested_ind (v : value) : P v :=
  match v with
  | Null => HNull
  | Bool b => HBool b
  | Number n => HNumber n
  | Str s => HStr s
  | Array l => HArray l ((fix go l : Forall P l :=
      match l with [] => Forall_nil_2 _ | x :: l' => Forall_cons_2 _ _ _ (value_nested_ind x) (go l') end) l)
  | Object l => HObject l ((fix go l : Forall (fun m => P (snd m)) l :=
      match l with [] => Forall_nil_2 _ | m :: l' => Forall_cons_2 _ _ _ (value_nested_ind (snd m)) (go l') end) l)
  end.
End value_ind.

Lemma after_word_app w s : after_word w (w +:+ s) = Some s.
Proof.
  induction w as [|c w IH]; [by rewrite str_app_nil_l; destruct s|].
  rewrite str_app_cons. simpl. by rewrite Z.eqb_refl.
Qed.

(** The bytes a value may start with. *)
Definition starts_number (c : ascii) : bool := (byte c =? 45) || between 48 57 (byte c).

Lemma digit_byte c : is_digit c = between 48 57 (byte c).
Proof.
  unfold is_digit, digit_val, between. fold (byte c). apply eq_true_iff_eq.
  rewrite !andb_true_iff, !Z.leb_le. lia.
Qed.

Lemma valid_number_head n : valid_number n = true -> exists c r, n = String c r /\ starts_number c = true.
Proof.
  intros H%bool_decide_eq_true. destruct n as [|c r]; [done|]. exists c, r. split; [done|].
  unfold starts_number. rewrite <- digit_byte.
  unfold scan_number in H. destruct (byte c =? 45); [done|].
  unfold scan_int in H. destruct (byte c =? 48) eqn:E.
  - apply Z.eqb_eq, byte_inj in E as ->. done.
  - unfold scan_digits in H. simpl in H. by destruct (is_digit c).
Qed.

Lemma starts_number_facts c : starts_number c = true ->
  is_space c = false /\ (byte c =? 34) = false /\ (byte c =? 91) = false /\ (byte c =? 123) = false /\
  (byte c =? 116) = false /\ (byte c =? 102) = false /\ (byte c =? 110) = false /\ (byte c =? 93) = false.
Proof.
  unfold starts_number, between, is_space.
  rewrite !orb_true_iff, !orb_false_iff, andb_true_iff, !Z.eqb_eq, !Z.eqb_neq, !Z.leb_le. lia.
Qed.

Lemma print_head v : wf v = true ->
  exists c r, print v = String c r /\ is_space c = false /\ (byte c =? 93) = false.
Proof.
  destruct v as [|[]|n|s|l|l]; intros H; try (by do 2 eexists).
  destruct (valid_number_head n H) as (c & r & -> & Hc). exists c, r.
  by destruct (starts_number_facts c Hc) as (? & ? & ? & ? & ? & ? & ? & ?).
Qed.

Lemma concat_cons (sep x : string) l :
  String.concat sep (x :: l) = match l with [] => x | _ => x +:+ sep +:+ String.concat sep l end.
Proof. by destruct l. Qed.

Definition print_member (m : string * value) : string := quoted (fst m) +:+ ":" +:+ print (snd m).

(** Fuel: two units per byte of the value, one more for a list of elements. *)
Definition reads (v : value) : Prop :=
  forall f d rest, (2 * String.length (print v) <= f)%nat -> (d + depth v <= max_depth)%N ->
  stops rest = true -> parse_value f d (print v +:+ rest) = Some (v, rest).

Lemma reads_elems l f d rest :
  l <> [] -> Forall reads l ->
  (2 * String.length (String.concat "," (map print l) +:+ "]") + 1 <= f)%nat ->
  (d + fold_right N.max 0%N (map depth l) <= max_depth)%N ->
  parse_elems f d (String.concat "," (map print l) +:+ "]" +:+ rest) = Some (l, rest).
Proof.
  intros Hne Hl. revert f. induction Hl as [|v l Hv Hl IH]; [done|]. intros f Hf Hd.
  destruct f as [|f]; [lia|]. cbn [map fold_right] in *. rewrite concat_cons in *.
  rewrite str_length_app in Hf. cbn [parse_elems]. destruct l as [|v' l]; cbn [map] in *.
  - rewrite (Hv f d ("]" +:+ rest)); [|simpl in Hf; lia|simpl in Hd; lia|done].
    cbn [mbind option_bind]. rewrite str_app_cons, str_app_nil_l. done.
  - rewrite !str_length_app in Hf. cbn [String.length] in Hf.
    rewrite <- !str_app_assoc. rewrite (Hv f d); [|lia|lia|done]. cbn [mbind option_bind].
    rewrite (str_app_cons "," ""). cbn [skip_ws is_space]. rewrite str_app_nil_l.
    change (after_word "," _) with (Some (String.concat "," (print v' :: map print l) +:+ "]" +:+ rest)).
    cbn [mbind option_bind]. rewrite IH; [done|done| |lia].
    rewrite str_length_app. cbn [String.length]. lia.
Qed.

Lemma valid_string_scan lit rest : valid_string lit = true ->
  scan_string (lit +:+ String quot rest) = Some (lit, rest).
Proof.
  intros H%bool_decide_eq_true. apply (scan_string_app _ _ _ rest) in H.
  by rewrite <- str_app_assoc in H.
Qed.

Lemma reads_members l f d rest :
  l <> [] -> Forall (fun m => reads (snd m)) l -> forallb (fun m => valid_string (fst m)) l = true ->
  (2 * String.length (String.concat "," (map print_member l) +:+ "}") + 1 <= f)%nat ->
  (d + fold_right N.max 0%N (map (fun m => depth (snd m)) l) <= max_depth)%N ->
  parse_members f d (String.concat "," (map print_member l) +:+ "}" +:+ rest) = Some (l, rest).
Proof.
  intros Hne Hl. revert f. induction Hl as [|[k v] l Hv Hl IH]; [done|]. intros f Hs Hf Hd.
  destruct f as [|f]; [lia|]. cbn [map fold_right forallb fst snd] in *. rewrite concat_cons in *.
  apply andb_true_iff in Hs as [Hk Hs].
  assert (forall t, print_member (k, v) +:+ t =
    String quot (k +:+ String quot (String ":" (print v +:+ t)))) as Hm.
  { intros t. unfold print_member, quoted. cbn [fst snd].
    by rewrite !str_app_cons, <- !str_app_assoc, !str_app_cons. }
  assert (String.length (print v) + 3 <= String.length (print_member (k, v)))%nat as Hlen.
  { unfold print_member, quoted. cbn [fst snd]. rewrite !str_app_cons. cbn [String.length].
    rewrite !str_length_app. cbn [String.length]. rewrite str_app_nil_l. lia. }
  rewrite str_length_app in Hf. cbn [parse_members]. destruct l as [|[k' v'] l]; cbn [map] in *.
  - rewrite Hm. change (skip_ws (String quot ?x)) with (String quot x).
    change (after_word _ (String quot ?x)) with (Some x). cbn [mbind option_bind].
    rewrite valid_string_scan by done. cbn [mbind option_bind].
    change (after_word _ (skip_ws (String ":" ?x))) with (Some x). cbn [mbind option_bind].
    rewrite (Hv f d ("}" +:+ rest)); [|cbn [snd]; lia|cbn [snd]; lia|done].
    cbn [mbind option_bind]. by rewrite str_app_cons, str_app_nil_l.
  - rewrite !str_length_app in Hf. cbn [String.length] in Hf. rewrite <- !str_app_assoc.
    rewrite Hm. change (skip_ws (String quot ?x)) with (String quot x).
    change (after_word _ (String quot ?x)) with (Some x). cbn [mbind option_bind].
    rewrite valid_string_scan by done. cbn [mbind option_bind].
    change (after_word _ (skip_ws (String ":" ?x))) with (Some x). cbn [mbind option_bind].
    rewrite (Hv f d); [|cbn [snd]; lia|cbn [snd]; lia|done]. cbn [mbind option_bind].
    rewrite (str_app_cons "," ""). rewrite str_app_nil_l.
    change (after_word "," (skip_ws (String "," ?x))) with (Some x).
    cbn [mbind option_bind]. rewrite IH; [done|done|done| |lia].
    rewrite str_length_app. cbn [String.length]. lia.
Qed.

Lemma forallb_Forall_imp {A} (p : A -> bool) (P : A -> Prop) l :
  Forall (fun x => p x = true -> P x) l -> forallb p l = true -> Forall P l.
Proof. induction 1 as [|x l Hx _ IH]; simpl; [constructor|]. intros [? ?]%andb_true_iff. constructor; auto. Qed.

Lemma after_word_miss w c s : (forall r, w <> String c r) -> w <> "" -> after_word w (String c s) = None.
Proof.
  intros H Hne. destruct w as [|x w]; [done|]. simpl. destruct (byte x =? byte c) eqn:E; [|done].
  apply Z.eqb_eq, byte_inj in E. unfold char, byte in E. rewrite N2Z.id, ascii_N_embedding in E.
  subst. by destruct (H w).
Qed.

Lemma print_member_head m : exists r, print_member m = String quot r.
Proof. unfold print_member, quoted. rewrite str_app_cons. by eexists. Qed.

Lemma reads_Array l : Forall reads l -> forallb wf l = true -> reads (Array l).
Proof.
  intros IH Hwf f d rest Hf Hd Hr.
  destruct f as [|f]; [simpl in Hf; lia|]. cbn [print wf depth] in *.
  rewrite <- !str_app_assoc, str_app_cons, str_app_nil_l.
  cbn [parse_value]. change (skip_ws (String "[" ?x)) with (String "[" x). cbn iota beta.
  change (byte "[" =? 34) with false. change (byte "[" =? 91) with true. cbn iota.
  rewrite (proj2 (N.leb_gt max_depth d)) by lia.
  destruct l as [|v l]; [by cbn; destruct rest|].
  assert (exists c r, String.concat "," (map print (v :: l)) +:+ "]" +:+ rest = String c r /\
    is_space c = false /\ (byte c =? 93) = false) as (c & r & Ec & Hsp & H93).
  { cbn [forallb] in Hwf. apply andb_true_iff in Hwf as [Hv _].
    destruct (print_head v Hv) as (c & r & Ec & ? & ?). exists c.
    cbn [map]. rewrite concat_cons. destruct (map print l); rewrite Ec, <- ?str_app_assoc, !str_app_cons; eauto. }
  rewrite Ec at 1. cbn [skip_ws]. rewrite Hsp, after_word_miss; [|intros ? [= <- _]; done|done].
  rewrite reads_elems; [done..| |lia].
  rewrite !str_length_app in *. cbn [String.length] in *. lia.
Qed.

Lemma reads_Object l :
  Forall (fun m => reads (snd m)) l ->
  forallb (fun m => valid_string (fst m) && wf (snd m)) l = true -> reads (Object l).
Proof.
  intros IH Hwf f d rest Hf Hd Hr.
  destruct f as [|f]; [simpl in Hf; lia|]. cbn [print wf depth] in *.
  rewrite <- !str_app_assoc, str_app_cons, str_app_nil_l.
  cbn [parse_value]. change (skip_ws (String "{" ?x)) with (String "{" x). cbn iota beta.
  change (byte "{" =? 34) with false. change (byte "{" =? 91) with false.
  change (byte "{" =? 123) with true. cbn iota.
  rewrite (proj2 (N.leb_gt max_depth d)) by lia.
  destruct l as [|m l]; [by cbn; destruct rest|]. fold print_member.
  assert (exists r, String.concat "," (map print_member (m :: l)) +:+ "}" +:+ rest = String quot r) as (r & Ec).
  { cbn [map]. rewrite concat_cons. destruct (print_member_head m) as [r ->].
    destruct (map print_member l); rewrite <- ?str_app_assoc, !str_app_cons; by eexists. }
  rewrite Ec at 1. cbn [skip_ws]. change (is_space quot) with false. cbn iota.
  change (after_word "}" (String quot r)) with (@None string). cbn iota.
  rewrite reads_members; [done..| | |lia].
  + apply forallb_forall. intros x Hx. rewrite forallb_forall in Hwf. by apply Hwf, andb_true_iff in Hx as [? _].
  + fold print_member in Hf. rewrite !str_length_app in *. cbn [String.length] in *. lia.
Qed.

Lemma wf_reads v : wf v = true -> reads v.
Proof.
  induction v as [|b|n|s|l IH|l IH] using value_nested_ind; intros Hwf f d rest Hf Hd Hr.
  - destruct f as [|f]; [simpl in Hf; lia|]. cbn. destruct rest; done.
  - destruct f as [|f]; [destruct b; simpl in Hf; lia|]. destruct b; cbn; destruct rest; done.
  - pose proof (valid_number_head n Hwf) as (c & r & -> & Hc).
    destruct f as [|f]; [simpl in Hf; lia|].
    destruct (starts_number_facts c Hc) as (E0 & E1 & E2 & E3 & E4 & E5 & E6 & _).
    apply bool_decide_eq_true in Hwf. apply (scan_number_stop _ _ _ rest) in Hwf; [|done].
    cbn [print]. rewrite str_app_cons in *. cbn [parse_value skip_ws]. rewrite E0, E1, E2, E3, E4, E5, E6.
    rewrite Hwf. by rewrite str_app_nil_l.
  - destruct f as [|f]; [simpl in Hf; lia|]. cbn [print]. unfold quoted.
    rewrite str_app_cons, <- str_app_assoc, str_app_cons, str_app_nil_l.
    cbn [parse_value]. change (skip_ws (String quot ?x)) with (String quot x). cbn iota beta.
    change (byte quot =? 34) with true. cbn iota. by rewrite valid_string_scan.
  - apply reads_Array; [|done|done..]. by apply (forallb_Forall_imp wf).
  - apply reads_Object; [|done|done..].
    apply (forallb_Forall_imp (fun m => valid_string (fst m) && wf (snd m))); [|done].
    eapply Forall_impl; [exact IH|]. intros x Hx [_ ?]%andb_true_iff. auto.
Qed.

(** What is written is read back, whatever follows it. *)
Lemma parse_print v rest :
  wf v = true -> (depth v <= max_depth)%N -> stops rest = true -> parse (print v +:+ rest) = Some v.
Proof.
  intros Hwf Hd Hr. unfold parse. rewrite (wf_reads v Hwf); [done| |by rewrite N.add_0_l|done].
  unfold fuel_for. rewrite str_length_app. lia.
Qed.

(** *** The fuel

    Every call of the scanner consumes a byte or calls another one that does,
    so [fuel_for] is never used up: more fuel does not change the answer. *)

Lemma skip_ws_length s : (String.length (skip_ws s) <= String.length s)%nat.
Proof. induction s as [|c s IH]; simpl; [done|]. destruct (is_space c); simpl; lia. Qed.

Lemma after_word_length w s r : after_word w s = Some r -> (String.length r + String.length w <= String.length s)%nat.
Proof.
  revert s. induction w as [|c w IH]; intros s; simpl.
  - destruct s; intros [= <-]; simpl; lia.
  - destruct s as [|d s]; [done|]. destruct (byte c =? byte d); [|done]. intros H%IH. simpl. lia.
Qed.

Lemma scan_string_length s t r : scan_string s = Some (t, r) -> (String.length r < String.length s)%nat.
Proof.
  revert t r. remember (String.length s) as n eqn:Hn. revert s Hn.
  induction (lt_wf n) as [n _ IH]. intros s -> t r.
  assert (IHl : forall u t r, (String.length u < String.length s)%nat -> scan_string u = Some (t, r) ->
    (String.length r < String.length u)%nat) by (intros u ?? Hu; by apply (IH _ Hu)).
  clear IH. destruct s as [|a s1]; [done|]. cbn [scan_string]. simpl in IHl. simpl String.length.
  destruct (byte a =? 34). { intros [= <- <-]. lia. }
  destruct (byte a =? 92).
  - destruct s1 as [|e s2]; [done|]. destruct (byte e =? 117).
    + destruct s2 as [|h1 [|h2 [|h3 [|h4 s3]]]]; try done.
      destruct (hex4 h1 h2 h3 h4); [|done]. intros (t' & Ht%IHl & ->)%on_fst_Some; simpl in *; lia.
    + destruct (simple_escape e); [|done]. intros (t' & Ht%IHl & ->)%on_fst_Some; simpl in *; lia.
  - destruct (byte a <? 32); [done|]. intros (t' & Ht%IHl & ->)%on_fst_Some; simpl in *; lia.
Qed.

Lemma span_digits_length s a r : span_digits s = (a, r) -> (String.length a + String.length r = String.length s)%nat.
Proof.
  revert a r. induction s as [|c s IH]; intros a r; simpl; [by intros [= <- <-]|].
  destruct (is_digit c); [|by intros [= <- <-]].
  destruct (span_digits s) as [d' r']. intros [= <- <-]. simpl. by rewrite (IH d' r').
Qed.

Lemma scan_digits_length s t r : scan_digits s = Some (t, r) -> (String.length r < String.length s)%nat.
Proof.
  unfold scan_digits. destruct (span_digits s) as [a b] eqn:E. apply span_digits_length in E.
  destruct a; [done|]. intros [= <- <-]. simpl in E. lia.
Qed.

Lemma scan_number_length s t r : scan_number s = Some (t, r) -> (String.length r < String.length s)%nat.
Proof.
  unfold scan_number. fold (split_sign s).
  assert (String.length (snd (split_sign s)) <= String.length s)%nat as H0.
  { unfold split_sign. destruct s as [|c s]; [done|]. destruct (byte c =? 45); simpl; lia. }
  destruct (split_sign s) as [sign s0]. simpl in H0.
  destruct (scan_int s0) as [[i s1]|] eqn:E1; [|done]. simpl.
  destruct (scan_frac s1) as [[f s2]|] eqn:E2; [|done]. simpl.
  destruct (scan_exp s2) as [[e s3]|] eqn:E3; [|done]. simpl. intros [= <- <-].
  assert (String.length s1 < String.length s0)%nat.
  { destruct s0 as [|c s0]; [done|]. simpl in E1. destruct (byte c =? 48).
    - injection E1 as <- <-. simpl. lia.
    - by apply scan_digits_length in E1. }
  assert (String.length s2 <= String.length s1)%nat.
  { destruct s1 as [|c s1]; simpl in E2; [by injection E2 as <- <-|].
    destruct (byte c =? 46); [|by injection E2 as <- <-].
    apply on_fst_Some in E2 as (? & ?%scan_digits_length & _). simpl. lia. }
  assert (String.length s3 <= String.length s2)%nat; [|lia].
  destruct s2 as [|c s2]; simpl in E3; [by injection E3 as <- <-|].
  destruct ((byte c =? 101) || (byte c =? 69)); [|by injection E3 as <- <-].
  destruct s2 as [|d s2]; [done|].
  destruct ((byte d =? 43) || (byte d =? 45)); apply on_fst_Some in E3 as (? & ?%scan_digits_length & _);
    simpl in *; lia.
Qed.

Lemma bind_Some {A B} (x : option A) (f : A -> option B) b :
  x ≫= f = Some b -> exists a, x = Some a /\ f a = Some b.
Proof. destruct x; simpl; [eauto|done]. Qed.

Lemma bind_ext {A B} (x : option A) (f g : A -> option B) :
  (forall a, x = Some a -> f a = g a) -> x ≫= f = x ≫= g.
Proof. destruct x; simpl; auto. Qed.

(** What a list of elements leaves is what its closing bracket is followed by. *)
Lemma separator_length c close r t :
  after_word (String c "") (skip_ws r) = Some t \/ after_word (String close "") (skip_ws r) = Some t ->
  (String.length t < String.length r)%nat.
Proof.
  pose proof (skip_ws_length r). by intros [H'|H']; apply after_word_length in H'; simpl in H'; lia.
Qed.

Ltac shrink_facts :=
  repeat match goal with
  | H : after_word _ _ = Some _ |- _ => apply after_word_length in H; simpl in H
  | H : scan_string _ = Some _ |- _ => apply scan_string_length in H
  | H : scan_number _ = Some _ |- _ => apply scan_number_length in H
  end.

Lemma parse_shrinks f :
  (forall d s v r, parse_value f d s = Some (v, r) -> (String.length r < String.length s)%nat) /\
  (forall d s v r, parse_elems f d s = Some (v, r) -> (String.length r < String.length s)%nat) /\
  (forall d s v r, parse_members f d s = Some (v, r) -> (String.length r < String.length s)%nat).
Proof.
  induction f as [|f (IHv & IHe & IHm)]; [done|]. split_and!; intros d s v r;
    cbn [parse_value parse_elems parse_members].
  - pose proof (skip_ws_length s) as Hs. destruct (skip_ws s) as [|c t]; [done|]. simpl in Hs.
    pose proof (skip_ws_length t) as Ht.
    destruct (byte c =? 34). { intros ([l u] & H & [= <- <-])%bind_Some. shrink_facts. lia. }
    destruct (byte c =? 91).
    { destruct (_ <=? d)%N; [done|]. destruct (after_word "]" _) eqn:E.
      - intros [= <- <-]. shrink_facts. lia.
      - intros ([l u] & H & [= <- <-])%bind_Some. apply IHe in H. lia. }
    destruct (byte c =? 123).
    { destruct (_ <=? d)%N; [done|]. destruct (after_word "}" _) eqn:E.
      - intros [= <- <-]. shrink_facts. lia.
      - intros ([l u] & H & [= <- <-])%bind_Some. apply IHm in H. lia. }
    destruct (byte c =? 116). { intros (u & H & [= <- <-])%bind_Some. shrink_facts. lia. }
    destruct (byte c =? 102). { intros (u & H & [= <- <-])%bind_Some. shrink_facts. lia. }
    destruct (byte c =? 110). { intros (u & H & [= <- <-])%bind_Some. shrink_facts. lia. }
    intros ([l u] & H & [= <- <-])%bind_Some. shrink_facts. simpl in H. lia.
  - intros ([x t] & H%IHv & H2)%bind_Some. pose proof (skip_ws_length t).
    destruct (after_word "," _) eqn:E.
    + apply bind_Some in H2 as ([l u] & H2%IHe & [= <- <-]). shrink_facts. lia.
    + apply bind_Some in H2 as (u & H2 & [= <- <-]). shrink_facts. lia.
  - intros (r1 & H1 & H2)%bind_Some. apply bind_Some in H2 as ([k r2] & H2 & H3).
    apply bind_Some in H3 as (r3 & H3 & H4). apply bind_Some in H4 as ([x t] & H4%IHv & H5).
    pose proof (skip_ws_length s). pose proof (skip_ws_length r2). pose proof (skip_ws_length t).
    destruct (after_word "," _) eqn:E.
    + apply bind_Some in H5 as ([l u] & H5%IHm & [= <- <-]). shrink_facts. lia.
    + apply bind_Some in H5 as (u & H5 & [= <- <-]). shrink_facts. lia.
Qed.

Lemma parse_fuel f : forall f',
  (forall d s, (2 * String.length s + 1 <= f)%nat -> (2 * String.length s + 1 <= f')%nat ->
     parse_value f d s = parse_value f' d s) /\
  (forall d s, (2 * String.length s + 2 <= f)%nat -> (2 * String.length s + 2 <= f')%nat ->
     parse_elems f d s = parse_elems f' d s) /\
  (forall d s, (2 * String.length s + 2 <= f)%nat -> (2 * String.length s + 2 <= f')%nat ->
     parse_members f d s = parse_members f' d s).
Proof.
  induction f as [|f IH]; intros f'; [split_and!; intros; lia|].
  destruct f' as [|f']; [split_and!; intros; lia|]. destruct (IH f') as (IHv & IHe & IHm).
  destruct (parse_shrinks f) as (Sv & _ & _). split_and!; intros d s Hf Hf';
    cbn [parse_value parse_elems parse_members].
  - pose proof (skip_ws_length s) as Hs. destruct (skip_ws s) as [|c t]; [done|]. simpl in Hs.
    rewrite IHe, IHm by lia. done.
  - rewrite <- IHv by lia. apply bind_ext. intros [x t] H%Sv. pose proof (skip_ws_length t).
    destruct (after_word "," _) eqn:E; [|done]. shrink_facts. by rewrite IHe by lia.
  - apply bind_ext. intros r1 H1. apply bind_ext. intros [k r2] H2. apply bind_ext. intros r3 H3.
    pose proof (skip_ws_length s). pose proof (skip_ws_length r2). shrink_facts.
    rewrite <- IHv by lia. apply bind_ext. intros [x t] H4%Sv. pose proof (skip_ws_length t).
    destruct (after_word "," _) eqn:E; [|done]. shrink_facts. by rewrite IHm by lia.
Qed.

(** No input runs out of fuel. *)
Lemma parse_enough s f : (fuel_for s <= f)%nat -> parse s = fst <$> parse_value f 0 s.
Proof.
  intros H. unfold parse. destruct (parse_fuel (fuel_for s) f) as (Hv & _).
  rewrite Hv; [done|unfold fuel_for; lia|unfold fuel_for in H; lia].
Qed.

(** *** Integers *)


Lemma int64_of_text z : in_int64 z = true -> int64_of (int_text z) = Some z.
Proof.
  intros H. unfold int64_of, int_text.
  rewrite NilZero.isi.
  - by rewrite DecimalZ.of_to, H.
  - destruct z; simpl; try done. intros [= E]. by apply DecimalPos.Unsigned.to_uint_nonnil in E.
  - destruct z; simpl; try done. intros [= E]. by apply DecimalPos.Unsigned.to_uint_nonnil in E.
Qed.

Lemma span_digits_uint d : span_digits (NilEmpty.string_of_uint d) = (NilEmpty.string_of_uint d, "").
Proof. induction d as [|d IH|d IH|d IH|d IH|d IH|d IH|d IH|d IH|d IH|d IH]; simpl; by rewrite ?IH. Qed.

Lemma scan_int_pos p : scan_int (NilZero.string_of_uint (Pos.to_uint p)) =
  Some (NilZero.string_of_uint (Pos.to_uint p), "").
Proof.
  pose proof (strconv.to_uint_head p) as Hh. pose proof (DecimalPos.Unsigned.to_uint_nonnil p) as Hn.
  destruct (Pos.to_uint p) as [|d|d|d|d|d|d|d|d|d|d]; [done|by destruct (Hh d)|..];
    unfold scan_int, scan_digits; simpl; by rewrite span_digits_uint.
Qed.

(** An integer is written as a number of the grammar. *)
Lemma valid_int_text z : valid_number (int_text z) = true.
Proof.
  apply bool_decide_eq_true. unfold int_text. destruct z as [|p|p]; [done|..]; simpl.
  - assert (split_sign (NilZero.string_of_uint (Pos.to_uint p)) = ("", NilZero.string_of_uint (Pos.to_uint p))) as E.
    { pose proof (DecimalPos.Unsigned.to_uint_nonnil p). by destruct (Pos.to_uint p). }
    unfold scan_number. fold (split_sign (NilZero.string_of_uint (Pos.to_uint p))).
    rewrite E, scan_int_pos. simpl. by rewrite str_app_nil_l, !str_app_nil_r.
  - unfold scan_number. change (byte "-" =? 45) with true. cbn iota beta.
    rewrite scan_int_pos. simpl. by rewrite !str_app_nil_r, str_app_cons, str_app_nil_l.
Qed.

(** ** Text without escapes *)

Definition plain (c : ascii) : bool :=
  between 32 127 (byte c) &&
  negb ((byte c =? 34) || (byte c =? 92) || (byte c =? 60) || (byte c =? 62) || (byte c =? 38)).

Fixpoint all_plain (s : string) : bool :=
  match s with
  | "" => true
  | String c s' => plain c && all_plain s'
  end.

Lemma escape_plain s : all_plain s = true -> escape s = s.
Proof.
  induction s as [|c s IH]; [done|]. cbn [all_plain]. intros [Hc Hs]%andb_true_iff.
  cbn [escape]. rewrite IH by done.
  destruct c as [[] [] [] [] [] [] [] []]; try discriminate Hc; reflexivity.
Qed.

Lemma plain_utf8 s : all_plain s = true -> utf8_valid s = true.
Proof.
  induction s as [|c s IH]; [done|]. cbn [all_plain utf8_valid]. intros [Hc Hs]%andb_true_iff.
  rewrite (proj2 (Z.ltb_lt _ _)); [auto|].
  unfold plain, between in Hc. rewrite !andb_true_iff, !Z.leb_le in Hc. lia.
Qed.

Lemma all_plain_app s t : all_plain (s +:+ t) = all_plain s && all_plain t.
Proof. induction s as [|c s IH]; [done|]. rewrite str_app_cons. simpl. by rewrite IH, andb_assoc. Qed.

Lemma plain_digit n : 0 <= n <= 9 -> plain (digit n) = true.
Proof. intros H. by digit_case n. Qed.

Lemma plain_all_digits s : all_digits s = true -> all_plain s = true.
Proof.
  induction s as [|c s IH]; [done|]. simpl. intros [Hc Hs]%andb_true_iff. rewrite IH, andb_true_r by done.
  rewrite digit_byte in Hc. unfold plain, between in *. rewrite !andb_true_iff, negb_true_iff, !orb_false_iff, !Z.leb_le, !Z.eqb_neq in *. lia.
Qed.

Lemma plain_pad2 n s : 0 <= n <= 99 -> all_plain s = true -> all_plain (pad2 n s) = true.
Proof.
  intros Hn Hs. unfold pad2. cbn [all_plain].
  rewrite !plain_digit, Hs; [done|apply mod10_range|apply div_range; lia].
Qed.

Lemma plain_frac ns s : all_plain s = true -> all_plain (frac_text ns s) = true.
Proof.
  intros Hs. unfold frac_text. destruct (ns =? 0); [done|]. rewrite str_app_cons. cbn [all_plain].
  rewrite all_plain_app, Hs, plain_all_digits; [done|]. apply all_digits_trim0, all_digits_fixed.
Qed.

Lemma formatTime_plain t : valid_time t -> all_plain (formatTime t) = true.
Proof.
  intros (Hy & Hm & Hd & Hh & Hi & Hs & Hn).
  assert (forall m y, days_in m y <= 31) as Hdays by (intros m y; unfold days_in; repeat case_match; lia).
  pose proof (Hdays (t_month t) (t_year t)).
  assert (forall c s, plain c = true -> all_plain s = true -> all_plain (String c s) = true) as Hc
    by (intros c s E1 E2; simpl; by rewrite E1, E2).
  unfold formatTime, date_text, year_text, clock_text.
  rewrite (proj2 (Z.leb_le 0 _)), (proj2 (Z.leb_le _ 9999)) by lia. cbn [andb]. unfold pad4.
  pose proof (Z.mod_pos_bound (t_year t) 100).
  assert (0 <= t_year t / 100 <= 99) by (apply div_range; lia).
  repeat first [apply plain_pad2; [lia|]|apply Hc; [done|]]. by apply plain_frac.
Qed.

(** ** Storing a value in a Go variable

    [setter T] is the decoding of a value into a variable of type [T]: the new
    contents, and whether a type error was met. [null] is no value at all: it
    leaves the variable. After a type error the decoder goes on with the rest
    of the document; the caller sees the error. *)

Definition setter (T : Type) : Type := value -> T -> T * bool.

Definition set_string : setter string := fun v s =>
  match v with
  | Null => (s, false)
  | Str lit => match unquote lit with Some t => (t, false) | None => (s, true) end
  | _ => (s, true)
  end.

Definition set_bool : setter bool := fun v b =>
  match v with
  | Null => (b, false)
  | Bool x => (x, false)
  | _ => (b, true)
  end.

Definition set_int64 : setter Z := fun v n =>
  match v with
  | Null => (n, false)
  | Number lit => match int64_of lit with Some x => (x, false) | None => (n, true) end
  | _ => (n, true)
  end.

(** [time.Time.UnmarshalJSON] parses the literal itself. *)
Definition set_time (fallback : string -> result time) : setter time := fun v t =>
  match v with
  | Null => (t, false)
  | Str lit => match time_parse fallback lit with Ok x => (x, false) | Err _ => (zero_time, true) end
  | _ => (t, true)
  end.

(** A slice: the elements are stored over those that are there. *)
Fixpoint set_elems {A} (zero : A) (st : setter A) (vs : list value) (old : list A) : list A * bool :=
  match vs with
  | [] => ([], false)
  | v :: vs' =>
      let '(x, e) := st v (match old with [] => zero | y :: _ => y end) in
      let '(xs, e') := set_elems zero st vs' (tail old) in
      (x :: xs, e || e')
  end.

Definition set_list {A} (zero : A) (st : setter A) : setter (list A) := fun v l =>
  match v with
  | Null => ([], false)
  | Array vs => set_elems zero st vs l
  | _ => (l, true)
  end.

(** [foldName]: the names a field is matched with when none is equal. *)
Fixpoint fold_name (s : string) : string :=
  match s with
  | String a s1 =>
      if between 97 122 (byte a) then String (char (byte a - 32)) (fold_name s1)
      else match s1 with
      | String b s2 =>
          if (byte a =? 197) && (byte b =? 191) then String "S" (fold_name s2)   (* long s *)
          else match s2 with
          | String c s3 =>
              if (byte a =? 226) && (byte b =? 132) && (byte c =? 170) then String "K" (fold_name s3) (* Kelvin *)
              else String a (fold_name s1)
          | "" => String a (fold_name s1)
          end
      | "" => String a ""
      end
  | "" => ""
  end.

(** The fields of a struct: the name of each and how it is stored. *)
Definition fields (T : Type) : Type := list (string * setter T).

Definition field {T A} (get : T -> A) (set : A -> T -> T) (st : setter A) : setter T := fun v t =>
  let '(x, e) := st v (get t) in (set x t, e).

Definition find_field {T} (fs : fields T) (key : string) : option (setter T) :=
  match find (fun f => bool_decide (fst f = key)) fs with
  | Some f => Some (snd f)
  | None => snd <$> find (fun f => bool_decide (fold_name (fst f) = fold_name key)) fs
  end.

(** A member that is no field is skipped. *)
Definition set_member {T} (fs : fields T) (lit : string) (v : value) (t : T) : T * bool :=
  match unquote lit ≫= find_field fs with
  | Some st => st v t
  | None => (t, false)
  end.

(** The members in the order of the text. *)
Fixpoint set_members {T} (fs : fields T) (l : list (string * value)) (t : T) : T * bool :=
  match l with
  | [] => (t, false)
  | (lit, v) :: l' =>
      let '(t1, e) := set_member fs lit v t in
      let '(t2, e') := set_members fs l' t1 in
      (t2, e || e')
  end.

Definition set_struct {T} (fs : fields T) : setter T := fun v t =>
  match v with
  | Null => (t, false)
  | Object l => set_members fs l t
  | _ => (t, true)
  end.

(** [json.NewDecoder(r).Decode(&t)]: the variable and whether there is an error. *)
Definition decode {T} (st : setter T) (text : string) (zero : T) : T * bool :=
  match parse text with
  | None => (zero, true)
  | Some v => st v zero
  end.

(** ** The values of Go variables *)

Definition of_string (s : string) : value := Str (escape s).
Definition of_int (z : Z) : value := Number (int_text z).
Definition of_time (t : time) : value := Str (formatTime t).

(** A member, left out when [omitempty] says so. *)
Definition member (name : string) (v : value) : list (string * value) := [(escape name, v)].
Definition omit_if (empty : bool) (m : list (string * value)) : list (string * value) :=
  if empty then [] else m.

Lemma set_string_of s old : set_string (of_string s) old = (sanitize s, false).
Proof. unfold set_string, of_string. by rewrite unquote_escape. Qed.

Lemma set_int64_of z old : in_int64 z = true -> set_int64 (of_int z) old = (z, false).
Proof. intros H. unfold set_int64, of_int. by rewrite int64_of_text. Qed.

Lemma set_time_of fb t old : valid_time t -> set_time fb (of_time t) old = (t, false).
Proof. intros H. unfold set_time, of_time, time_parse. by rewrite parse_rfc3339_format. Qed.

Lemma set_members_app {T} (fs : fields T) l1 l2 t :
  set_members fs (l1 ++ l2) t =
  let '(t1, e1) := set_members fs l1 t in
  let '(t2, e2) := set_members fs l2 t1 in (t2, e1 || e2).
Proof.
  revert t. induction l1 as [|[k v] l1 IH]; intros t; simpl.
  - by destruct (set_members fs l2 t).
  - destruct (set_member fs k v t) as [t1 e]. rewrite IH. destruct (set_members fs l1 t1) as [t2 e1]. destruct (set_members fs l2 t2) as [t3 e2].
    by rewrite orb_assoc.
Qed.

(** A written member is stored in its field. *)
Lemma set_members_member {T} (fs : fields T) name st v t :
  utf8_valid name = true -> find_field fs name = Some st ->
  set_members fs (member name v) t = st v t.
Proof.
  intros Hn Hf. simpl. unfold set_member. rewrite unquote_escape, sanitize_valid by done. simpl. rewrite Hf.
  destruct (st v t) as [t1 e]. by rewrite orb_false_r.
Qed.

Lemma valid_time_string t : valid_time t -> wf (of_time t) = true.
Proof. intros H. unfold of_time. rewrite <- (escape_plain (formatTime t)); [apply valid_escape|by apply formatTime_plain]. Qed.

Lemma valid_of_string s : wf (of_string s) = true.
Proof. apply valid_escape. Qed.

Lemma valid_of_int z : wf (of_int z) = true.
Proof. apply valid_int_text. Qed.

(** A written value is decoded as the setter stores it. *)
Lemma decode_encode {T} (st : setter T) v (zero : T) :
  wf v = true -> (depth v <= max_depth)%N -> decode st (encode v) zero = st v zero.
Proof. intros Hwf Hd. unfold decode, encode. by rewrite parse_print. Qed.

End json.

#[export] Hint Resolve json.valid_of_string json.valid_of_int json.valid_time_string json.valid_escape : torrents.
