(* ===== verification/Url.v ===== *)
(** * net/url

    URLs and query strings as far as the server and the magnet parser read and
    write them: [Parse] up to the scheme and the raw query, query strings as
    pairs in order ([ParseQuery]) and as a map ([Query], [Values]), and the
    encoding of a map ([Encode]). What an authority must look like is left to
    a parameter, because no URL of the program has one. [Query_Encode]: a map
    that was encoded is read back. *)

From S2P Require Import Prelude GoErrors Infohash Json.
From Stdlib Require Import ZArith Lia Ascii String.
From stdpp Require Import base gmap strings list.

Local Open Scope Z_scope.

(** What [net/url] says of the authority of a URL with a scheme. *)
Class UrlEnv : Type := {
  parse_authority : string -> string -> option error;
}.

(** Every byte of a string. *)
Fixpoint all_chars (P : ascii -> bool) (s : string) : bool :=
  match s with
  | "" => true
  | String c r => P c && all_chars P r
  end.

Lemma all_chars_app P a b : all_chars P (a +:+ b) = all_chars P a && all_chars P b.
Proof. induction a as [|c a IH]; [done|]. rewrite str_app_cons. simpl. by rewrite IH, andb_assoc. Qed.

Lemma all_chars_impl P Q s : (forall c, P c = true -> Q c = true) -> all_chars P s = true -> all_chars Q s = true.
Proof.
  intros H. induction s as [|c s IH]; [done|]. simpl. intros [Hc Hs]%andb_true_iff.
  by rewrite H, IH.
Qed.

Lemma all_chars_concat P sep l :
  all_chars P sep = true -> Forall (fun s => all_chars P s = true) l -> all_chars P (String.concat sep l) = true.
Proof.
  intros Hsep. induction 1 as [|s l Hs Hl IH]; [done|]. destruct l as [|s' l]; [done|].
  change (all_chars P (s +:+ sep +:+ String.concat sep (s' :: l)) = true).
  by rewrite !all_chars_app, Hs, Hsep, IH.
Qed.

(** [String.concat] of a list that is not empty. *)
Lemma str_concat_cons sep s l : l <> [] -> String.concat sep (s :: l) = s +:+ sep +:+ String.concat sep l.
Proof. by destruct l. Qed.

Module url.

(** [strings.Cut] at the first byte [sep]. *)
Fixpoint cut (sep : ascii) (s : string) : string * string * bool :=
  match s with
  | "" => ("", "", false)
  | String c r =>
      if decide (c = sep) then ("", r, true)
      else let '(a, b, found) := cut sep r in (String c a, b, found)
  end.

Fixpoint contains (sep : ascii) (s : string) : bool :=
  match s with
  | "" => false
  | String c r => if decide (c = sep) then true else contains sep r
  end.

(** [url.QueryUnescape] *)
Fixpoint query_unescape (s : string) : result string :=
  match s with
  | "" => Ok ""
  | String "%" r =>
      match r with
      | String a (String b r') =>
          match json.hex_val a, json.hex_val b with
          | Some x, Some y => outcome_map (String (json.char (x * 16 + y))) (query_unescape r')
          | _, _ => Err (EOpaque ("invalid URL escape " +:+ quote ("%" +:+ String a (String b ""))))
          end
      | _ => Err (EOpaque ("invalid URL escape " +:+ quote s))
      end
  | String "+" r => outcome_map (String " ") (query_unescape r)
  | String c r => outcome_map (String c) (query_unescape r)
  end.

(** One setting of a query: the pair, nothing, or an error. *)
Definition parse_setting (key : string) : result (option (string * string)) :=
  if contains ";" key then Err (EOpaque "invalid semicolon separator in query")
  else if decide (key = "") then Ok None
  else
    let '(k, v, _) := cut "=" key in
    match query_unescape k with
    | Err e => Err e
    | Ok k' =>
        match query_unescape v with
        | Err e => Err e
        | Ok v' => Ok (Some (k', v'))
        end
    end.

(** The settings separated by ampersands. *)
Fixpoint settings (s : string) : list string :=
  match s with
  | "" => [""]
  | String c r =>
      match settings r with
      | x :: l => if decide (c = "&"%char) then "" :: x :: l else String c x :: l
      | [] => []
      end
  end.

(** [url.ParseQuery]: the values in order and the first error; a bad setting is
    skipped. *)
Fixpoint parse_settings (l : list string) : list (string * string) * option error :=
  match l with
  | [] => ([], None)
  | s :: l' =>
      let '(vs, e) := parse_settings l' in
      match parse_setting s with
      | Err e' => (vs, Some e')
      | Ok None => (vs, e)
      | Ok (Some kv) => (kv :: vs, e)
      end
  end.

Definition ParseQuery (s : string) : list (string * string) * option error := parse_settings (settings s).

(** [Values.Get]: the first value of a key. *)
Definition get (vs : list (string * string)) (key : string) : string :=
  match find (fun kv => bool_decide (fst kv = key)) vs with
  | Some kv => snd kv
  | None => ""
  end.

(** ** Values

    A map from keys to the values in order; a key that is absent has none. *)

Abbreviation Values := (gmap string (list string)) (only parsing).

Definition vals (vs : Values) (k : string) : list string := default [] (vs !! k).
Definition Add (vs : Values) (k v : string) : Values := <[k := vals vs k ++ [v]]> vs.
Definition Del (vs : Values) (k : string) : Values := delete k vs.

Definition values_of (l : list (string * string)) : Values :=
  fold_left (fun vs kv => Add vs (fst kv) (snd kv)) l ∅.

(** [URL.Query]: bad settings are dropped. *)
Definition Query (rawQuery : string) : Values := values_of (fst (ParseQuery rawQuery)).

(** [url.QueryEscape] *)
Definition unreserved (c : ascii) : bool :=
  let n := json.byte c in
  json.between 48 57 n || json.between 65 90 n || json.between 97 122 n ||
  (n =? 45) || (n =? 95) || (n =? 46) || (n =? 126).

Definition upper_hex (n : Z) : ascii := if n <? 10 then json.char (48 + n) else json.char (55 + n).

Fixpoint QueryEscape (s : string) : string :=
  match s with
  | "" => ""
  | String c r =>
      if unreserved c then String c (QueryEscape r)
      else if json.byte c =? 32 then String "+" (QueryEscape r)
      else String "%" (String (upper_hex (json.byte c / 16)) (String (upper_hex (json.byte c mod 16)) (QueryEscape r)))
  end.

Definition setting (kv : string * string) : string := QueryEscape (fst kv) +:+ "=" +:+ QueryEscape (snd kv).

(** The pairs in the order [Encode] writes them: by key. *)
Definition pairs (vs : Values) : list (string * string) :=
  flat_map (fun k => map (pair k) (vals vs k)) (isort str_leb (map_to_list vs).*1).

(** [Values.Encode] *)
Definition Encode (vs : Values) : string := String.concat "&" (map setting (pairs vs)).

(** ** Parse *)

Record URL : Type := mkURL {
  Scheme : string;
  RawQuery : string;
}.

Definition is_letter (c : ascii) : bool := json.between 65 90 (json.byte c) || json.between 97 122 (json.byte c).
(** What a scheme may hold after its first character, beside letters. *)
Definition scheme_extra (c : ascii) : bool :=
  json.between 48 57 (json.byte c) || (json.byte c =? 43) || (json.byte c =? 45) || (json.byte c =? 46).

(** The characters of a scheme up to the colon and what follows it. *)
Fixpoint scan_scheme (s : string) : option (string * string) :=
  match s with
  | "" => None
  | String c r =>
      if is_letter c || scheme_extra c then json.on_fst (String c) (scan_scheme r)
      else if decide (c = ":"%char) then Some ("", r) else None
  end.

Definition getScheme (rawURL : string) : result (string * string) :=
  match rawURL with
  | "" => Ok ("", "")
  | String c _ =>
      if scheme_extra c then Ok ("", rawURL)
      else if decide (c = ":"%char) then Err (EOpaque "missing protocol scheme")
      else Ok (default ("", rawURL) (scan_scheme rawURL))
  end.

Definition is_ctl (c : ascii) : bool := (json.byte c <? 32) || (json.byte c =? 127).

(** The error of [unescape] in a path or a fragment. *)
Fixpoint escape_error (s : string) : option error :=
  match s with
  | "" => None
  | String c r =>
      if decide (c = "%"%char) then
        match r with
        | String a (String b r') =>
            match json.hex_val a, json.hex_val b with
            | Some _, Some _ => escape_error r'
            | _, _ => Some (EOpaque ("invalid URL escape " +:+ quote (String c (String a (String b "")))))
            end
        | _ => Some (EOpaque ("invalid URL escape " +:+ quote s))
        end
      else escape_error r
  end.

Definition drop2 (s : string) : string := String.substring 2 (String.length s - 2) s.

Section parse.
Context `{UrlEnv}.

(** [parse] without the fragment. A question mark that ends the URL leaves the
    query empty, as no question mark does. *)
Definition parse_without_fragment (rawURL : string) : result URL :=
  if negb (all_chars (fun c => negb (is_ctl c)) rawURL) then
    Err (EOpaque "net/url: invalid control character in URL")
  else if decide (rawURL = "*") then Ok (mkURL "" "")
  else
    match getScheme rawURL with
    | Err e => Err e
    | Ok (sch, afterScheme) =>
        let scheme := infohash.lower_all sch in
        let '(rest, rawQuery, _) := cut "?" afterScheme in
        if negb (has_prefix "/" rest) && bool_decide (scheme <> "") then Ok (mkURL scheme rawQuery)
        else if negb (has_prefix "/" rest) && contains ":" (fst (fst (cut "/" rest))) then
          Err (EOpaque "first path segment in URL cannot contain colon")
        else
          let authority := (bool_decide (scheme <> "") || negb (has_prefix "///" rest)) && has_prefix "//" rest in
          let '(host, tail, slash) := cut "/" (drop2 rest) in
          let p := if authority then (if slash then String "/" tail else "") else rest in
          match (if authority then parse_authority scheme host else None) with
          | Some e => Err e
          | None => match escape_error p with Some e => Err e | None => Ok (mkURL scheme rawQuery) end
          end
    end.

(** [url.Parse] *)
Definition Parse (rawURL : string) : result URL :=
  let '(u, frag, _) := cut "#" rawURL in
  match parse_without_fragment u with
  | Err e => Err (EWrap ("parse " +:+ quote u +:+ ": ") e "")
  | Ok parsed =>
      match escape_error frag with
      | Some e => Err (EWrap ("parse " +:+ quote rawURL +:+ ": ") e "")
      | None => Ok parsed
      end
  end.

End parse.

(** ** Cutting *)

Lemma contains_app sep a b : contains sep (a +:+ b) = contains sep a || contains sep b.
Proof.
  induction a as [|x a IH]; [done|]. rewrite str_app_cons. cbn [contains]. by case_decide.
Qed.

Lemma contains_all sep s : all_chars (fun c => bool_decide (c <> sep)) s = true -> contains sep s = false.
Proof.
  induction s as [|c s IH]; [done|]. cbn [all_chars contains]. intros [Hc Hs]%andb_true_iff.
  apply bool_decide_eq_true in Hc. rewrite decide_False by done. by apply IH.
Qed.

Lemma cut_absent sep s : contains sep s = false -> cut sep s = (s, "", false).
Proof.
  induction s as [|c s IH]; [done|]. cbn [contains cut]. case_decide; [done|].
  intros Hs. by rewrite IH.
Qed.

Lemma cut_present sep s t : contains sep s = false -> cut sep (s +:+ String sep t) = (s, t, true).
Proof.
  induction s as [|c s IH]; [by intros _; rewrite str_app_nil_l; cbn; rewrite decide_True|].
  rewrite str_app_cons. cbn [contains cut]. case_decide; [done|].
  intros Hs. by rewrite IH.
Qed.

(** ** Escaping *)

(** What an escaped text is made of. *)
Definition escaped_char (c : ascii) : bool := unreserved c || (json.byte c =? 43) || (json.byte c =? 37).

Definition escape_check (c : ascii) : bool :=
  let h := upper_hex (json.byte c / 16) in
  let l := upper_hex (json.byte c mod 16) in
  unreserved h && unreserved l &&
  match json.hex_val h, json.hex_val l with
  | Some x, Some y => bool_decide (json.char (x * 16 + y) = c)
  | _, _ => false
  end.

Lemma escape_check_all c : escape_check c = true.
Proof. apply infohash.all_ascii_spec. vm_compute. reflexivity. Qed.

Lemma QueryEscape_chars s : all_chars escaped_char (QueryEscape s) = true.
Proof.
  induction s as [|c s IH]; [done|]. cbn [QueryEscape].
  destruct (unreserved c) eqn:E; [cbn [all_chars]; unfold escaped_char at 1; by rewrite E|].
  destruct (_ =? 32); [done|]. pose proof (escape_check_all c) as Hc. unfold escape_check in Hc.
  apply andb_true_iff in Hc as [[H1 H2]%andb_true_iff _]. cbn [all_chars].
  unfold escaped_char at 2 3. rewrite H1, H2, IH. done.
Qed.

(** A byte that is neither a percent sign nor a plus stands for itself. *)
Definition plain (c : ascii) : bool := negb (json.byte c =? 43) && negb (json.byte c =? 37).

Lemma plain_unreserved c : unreserved c = true -> plain c = true.
Proof.
  intros Hc. assert (implb (unreserved c) (plain c) = true) as H
    by (apply (infohash.all_ascii_spec (fun c => implb (unreserved c) (plain c))); by vm_compute).
  by rewrite Hc in H.
Qed.

Lemma query_unescape_plain c s :
  plain c = true -> query_unescape (String c s) = outcome_map (String c) (query_unescape s).
Proof. destruct c as [[] [] [] [] [] [] [] []]; intros Hc; first [discriminate Hc|reflexivity]. Qed.

Lemma query_unescape_all_plain s : all_chars plain s = true -> query_unescape s = Ok s.
Proof.
  induction s as [|c s IH]; [done|]. cbn [all_chars]. intros [Hc Hs]%andb_true_iff.
  rewrite query_unescape_plain by done. by rewrite IH.
Qed.

Lemma query_unescape_escape s : query_unescape (QueryEscape s) = Ok s.
Proof.
  induction s as [|c s IH]; [done|]. cbn [QueryEscape].
  destruct (unreserved c) eqn:E.
  { rewrite query_unescape_plain by (by apply plain_unreserved). by rewrite IH. }
  destruct (json.byte c =? 32) eqn:E32.
  { cbn [query_unescape]. rewrite IH. apply Z.eqb_eq, json.byte_inj in E32 as ->. reflexivity. }
  pose proof (escape_check_all c) as Hc. unfold escape_check in Hc.
  apply andb_true_iff in Hc as [_ Hc]. cbn [query_unescape]. rewrite IH.
  destruct (json.hex_val (upper_hex (json.byte c / 16))) as [x|]; [|done].
  destruct (json.hex_val (upper_hex (json.byte c mod 16))) as [y|]; [|done].
  apply bool_decide_eq_true in Hc. cbn [outcome_map]. by rewrite Hc.
Qed.

(** What a query [Encode] writes is made of. *)
Definition query_char (c : ascii) : bool := escaped_char c || (json.byte c =? 61) || (json.byte c =? 38).

Lemma all_ascii_impl (P Q : ascii -> bool) :
  infohash.all_ascii (fun c => implb (P c) (Q c)) = true -> forall c, P c = true -> Q c = true.
Proof. intros H c Hc. apply (infohash.all_ascii_spec _ c) in H. cbv beta in H. by rewrite Hc in H. Qed.

Lemma escaped_lacks sep s :
  escaped_char sep = false -> all_chars escaped_char s = true -> contains sep s = false.
Proof.
  intros Hsep Hs. apply contains_all. eapply all_chars_impl; [|exact Hs]. intros c Hc.
  apply bool_decide_eq_true. intros ->. congruence.
Qed.

Lemma setting_chars kv : all_chars (fun c => escaped_char c || (json.byte c =? 61)) (setting kv) = true.
Proof.
  unfold setting. rewrite !all_chars_app.
  assert (forall s, all_chars (fun c => escaped_char c || (json.byte c =? 61)) (QueryEscape s) = true) as H.
  { intros s. eapply all_chars_impl; [|apply QueryEscape_chars]. by intros c ->. }
  by rewrite !H.
Qed.

Lemma parse_setting_setting kv : parse_setting (setting kv) = Ok (Some kv).
Proof.
  destruct kv as [k v]. unfold parse_setting.
  rewrite contains_all.
  2:{ eapply all_chars_impl; [|apply setting_chars]. apply all_ascii_impl. by vm_compute. }
  unfold setting. cbn [fst snd]. rewrite decide_False.
  2:{ intros E. apply (f_equal String.length) in E. rewrite !str_length_app in E. simpl in E. lia. }
  change ("=" +:+ QueryEscape v) with (String "=" (QueryEscape v)).
  rewrite cut_present by (apply escaped_lacks; [done|apply QueryEscape_chars]).
  by rewrite !query_unescape_escape.
Qed.

(** ** Reading what was encoded *)

Lemma settings_app s t :
  contains "&" s = false ->
  settings (s +:+ t) = match settings t with x :: l => (s +:+ x) :: l | [] => [] end.
Proof.
  induction s as [|c s IH]; [by rewrite str_app_nil_l; destruct (settings t)|].
  rewrite str_app_cons. cbn [contains settings]. case_decide as Hc; [done|]. intros Hs.
  rewrite (IH Hs). by destruct (settings t) as [|x l].
Qed.

Lemma settings_nonempty s : exists x l, settings s = x :: l.
Proof.
  induction s as [|c s (x & l & IH)]; [by eexists _, _|]. cbn [settings]. rewrite IH.
  case_decide; by eexists _, _.
Qed.

Lemma settings_concat l :
  Forall (fun s => contains "&" s = false) l -> l <> [] -> settings (String.concat "&" l) = l.
Proof.
  induction 1 as [|s l Hs Hl IH]; [done|]. intros _. destruct l as [|s' l].
  - cbn [String.concat]. rewrite <-(str_app_nil_r s) at 1. rewrite settings_app by done.
    cbn [settings]. by rewrite str_app_nil_r.
  - rewrite str_concat_cons by done. rewrite settings_app by done.
    change ("&" +:+ String.concat "&" (s' :: l)) with (String "&" (String.concat "&" (s' :: l))).
    cbn [settings]. rewrite IH by done. rewrite decide_True by done. by rewrite str_app_nil_r.
Qed.

Lemma ParseQuery_concat l kvs :
  Forall2 (fun s kv => contains "&" s = false /\ parse_setting s = Ok (Some kv)) l kvs ->
  ParseQuery (String.concat "&" l) = (kvs, None).
Proof.
  intros H. unfold ParseQuery. destruct (decide (l = [])) as [->|Hl]; [by inversion H|].
  rewrite settings_concat; [|clear Hl; induction H as [|s kv l kvs [Hs _] _ IH]; by constructor|done].
  clear Hl. induction H as [|s kv l kvs [_ Hs] _ IH]; [done|]. cbn [parse_settings]. by rewrite IH, Hs.
Qed.

Lemma vals_Add vs k v k' : vals (Add vs k v) k' = vals vs k' ++ (if decide (k = k') then [v] else []).
Proof.
  unfold Add. unfold vals at 1. case_decide as Hk.
  - subst k'. by rewrite lookup_insert_eq.
  - by rewrite lookup_insert_ne, app_nil_r.
Qed.

(** The values of a key are those of the pairs with that key, in order. *)
Definition with_key (k : string) (l : list (string * string)) : list string :=
  map snd (filter (fun kv => fst kv = k) l).

Lemma with_key_app k l l' : with_key k (l ++ l') = with_key k l ++ with_key k l'.
Proof. unfold with_key. by rewrite filter_app, map_app. Qed.

Lemma vals_values_of l k : vals (values_of l) k = with_key k l.
Proof.
  unfold values_of. assert (forall l vs, vals (fold_left (fun vs kv => Add vs (fst kv) (snd kv)) l vs) k =
    vals vs k ++ with_key k l) as H; [|by rewrite H; unfold vals; rewrite lookup_empty].
  clear l. induction l as [|[k' v] l IH]; intros vs; [by rewrite app_nil_r|].
  cbn [fold_left]. rewrite IH, vals_Add. cbn [fst snd]. unfold with_key at 2.
  rewrite filter_cons. cbn [fst]. case_decide; cbn [map app]; by rewrite <-app_assoc.
Qed.

Lemma values_of_nonempty l k : values_of l !! k <> Some [].
Proof.
  unfold values_of. assert (forall l vs, vs !! k <> Some [] ->
    fold_left (fun vs kv => Add vs (fst kv) (snd kv)) l vs !! k <> Some []) as H; [|by apply H].
  clear l. induction l as [|[k' v] l IH]; intros vs Hvs; [done|]. apply IH. unfold Add. cbn [fst snd].
  destruct (decide (k' = k)) as [->|Hk]; [|by rewrite lookup_insert_ne].
  rewrite lookup_insert_eq. intros [= E]. by apply app_nil in E as [_ ?].
Qed.

(** A map without empty lists is determined by its values. *)
Definition full (vs : Values) : Prop := forall k, vs !! k <> Some [].

Lemma vals_ext vs vs' : full vs -> full vs' -> (forall k, vals vs k = vals vs' k) -> vs = vs'.
Proof.
  intros H H' E. apply map_eq. intros k. specialize (H k). specialize (H' k). specialize (E k).
  unfold vals in E. destruct (vs !! k) as [l|], (vs' !! k) as [l'|]; simpl in E; congruence.
Qed.

Lemma with_key_map k k' l : with_key k (map (pair k') l) = if decide (k' = k) then l else [].
Proof.
  induction l as [|v l IH]; [by case_decide|]. unfold with_key in *. cbn [map].
  rewrite filter_cons. cbn [fst]. destruct (decide (k' = k)); cbn [map snd]; by rewrite IH.
Qed.

Lemma with_key_flat k (f : string -> list string) ks :
  NoDup ks -> with_key k (flat_map (fun k' => map (pair k') (f k')) ks) = if decide (k ∈ ks) then f k else [].
Proof.
  induction 1 as [|x ks Hx _ IH]; [by rewrite decide_False by apply not_elem_of_nil|].
  cbn [flat_map]. rewrite with_key_app, with_key_map, IH.
  destruct (decide (x = k)) as [->|Hk].
  - rewrite (decide_True (P := k ∈ k :: ks)) by left. rewrite decide_False by done. by rewrite app_nil_r.
  - destruct (decide (k ∈ ks)); [rewrite decide_True by (by right)|rewrite decide_False; [done|]]; [done|].
    rewrite elem_of_cons. by intros [|].
Qed.

Lemma with_key_pairs vs k : with_key k (pairs vs) = vals vs k.
Proof.
  unfold pairs. rewrite with_key_flat.
  2:{ rewrite isort_Permutation. apply NoDup_fst_map_to_list. }
  case_decide as Hk; [done|]. unfold vals. destruct (vs !! k) as [l|] eqn:E; [|done]. destruct Hk.
  rewrite isort_Permutation. apply list_elem_of_fmap. exists (k, l). split; [done|]. by apply elem_of_map_to_list.
Qed.

Lemma ParseQuery_settings kvs : ParseQuery (String.concat "&" (map setting kvs)) = (kvs, None).
Proof.
  apply ParseQuery_concat. induction kvs as [|kv kvs IH]; [constructor|]. constructor; [|done].
  split; [|apply parse_setting_setting]. apply contains_all.
  eapply all_chars_impl; [|apply setting_chars]. apply all_ascii_impl. by vm_compute.
Qed.

Lemma Query_Encode vs k : vals (Query (Encode vs)) k = vals vs k.
Proof. unfold Query, Encode. rewrite ParseQuery_settings, vals_values_of; cbn [fst]. apply with_key_pairs. Qed.

End url.
