(* ===== verification/Segments.v ===== *)
(** * Segments of a torrent

    [segments] (src/licenses/github.com/anacrolix/torrent/segments/segments.go
    and index.go): the files of a torrent lie one after the other, and an
    extent of the torrent is located in them, file by file. The file storage
    reads and writes pieces this way. Offsets are [int64] and wrap around.
    [LocateIter_located]: what the loop with its moving needle yields is the
    overlap of the extent with every segment. *)

From S2P Require Import Prelude Prog.
From Stdlib Require Import ZArith Lia String.
From stdpp Require Import base strings list.

Local Open Scope Z_scope.

(** The value of an [int64]. *)
Definition i64 (n : Z) : Z := (n + 2 ^ 63) mod 2 ^ 64 - 2 ^ 63.

Lemma i64_id n : - 2 ^ 63 <= n < 2 ^ 63 -> i64 n = n.
Proof. intros H. unfold i64. rewrite Z.mod_small by lia. lia. Qed.

(** What a torrent can be large without wrapping around. *)
Definition max_size : Z := 2 ^ 61.

Module segments.

Record Extent : Type := mkExtent {
  Start : Z;
  Length : Z;
}.

Definition End_ (e : Extent) : Z := i64 (Start e + Length e).

Abbreviation Index := (list Extent) (only parsing).

Fixpoint new_index (start : Z) (ls : list Z) : Index :=
  match ls with
  | [] => []
  | l :: ls' => mkExtent start l :: new_index (i64 (start + l)) ls'
  end.

Definition NewIndex (ls : list Z) : Index := new_index 0 ls.

(** The segments with a start relative to the end of the previous one. *)
Fixpoint iter_segments (lastEnd : option Z) (segs : Index) : list Extent :=
  match segs with
  | [] => []
  | cur :: segs' =>
      mkExtent (i64 (Start cur - default (Start cur) lastEnd)) (Length cur) ::
      iter_segments (Some (End_ cur)) segs'
  end.

Definition iterSegments (me : Index) (startIndex : nat) : list Extent := iter_segments None (drop startIndex me).

Fixpoint scan (startedNeedle : bool) (haystack : list Extent) (needle : Extent) : list Extent :=
  match haystack with
  | [] => []
  | l :: haystack' =>
      if Length needle =? 0 then []
      else
        let start := Z.max (i64 (Start needle - Start l)) 0 in
        let len := Z.max (i64 (Z.min (Length l) (i64 (End_ needle - Start l)) - start)) 0 in
        let needle' := mkExtent (Z.max 0 (i64 (Start needle - End_ l)))
                         (i64 (Length needle - i64 (len + Start l))) in
        if (0 <? len) || (startedNeedle && negb (Length needle' =? 0))
        then mkExtent start len :: scan true haystack' needle'
        else scan startedNeedle haystack' needle'
  end.

Definition scanConsecutive (haystack : list Extent) (needle : Extent) : list Extent := scan false haystack needle.

(** [slices.BinarySearchFunc]: [less h] says that element [h] compares less
    than the target. *)
Fixpoint binary_search (fuel : nat) (less : nat -> bool) (i j : nat) : nat :=
  match fuel with
  | O => i
  | S fuel' =>
      if (i <? j)%nat then
        let h := ((i + j) / 2)%nat in
        if less h then binary_search fuel' less (h + 1) j else binary_search fuel' less i h
      else i
  end.

(** The first segment that ends after the start of the extent. *)
Definition first_segment (me : Index) (start : Z) : nat :=
  binary_search (length me)
    (fun h => match me !! h with Some elem => End_ elem <? i64 (start + 1) | None => false end)
    0 (length me).

Definition LocateIter (me : Index) (e : Extent) : list (nat * Extent) :=
  let first := first_segment me (Start e) in
  match me !! first with
  | None => []
  | Some s =>
      let start := i64 (Start e - Start s) in
      let e' := if start <? 0 then mkExtent 0 (i64 (Length e + start)) else mkExtent start (Length e) in
      let found := scanConsecutive (iterSegments me first) e' in
      zip (seq first (length found)) found
  end.

(** The loop of [LocateOffset]: it panics over a second segment or an extent
    that is not one byte long. *)
Fixpoint only_one (l : list (nat * Extent)) (ret : option (nat * Z)) : res (option (nat * Z)) :=
  match l with
  | [] => Val ret
  | (i, e) :: l' =>
      if ret then Panicked "true"
      else if Length e =? 1 then only_one l' (Some (i, Start e)) else Panicked "not equal"
  end.

Definition LocateOffset (me : Index) (off : Z) : res (option (nat * Z)) :=
  only_one (LocateIter me (mkExtent off 1)) None.

(** ** The reference: the overlap with every segment

    [s] is where a segment starts and [l] its length. A segment without bytes
    is met when it lies inside the extent. *)

Definition meets (e : Extent) (s l : Z) : bool :=
  (Z.max (Start e) s <? Z.min (Start e + Length e) (s + l)) ||
  ((l =? 0) && (Start e <? s) && (s <? Start e + Length e)).

Definition overlap (e : Extent) (s l : Z) : Extent :=
  let a := Z.max (Start e) s in
  mkExtent (a - s) (Z.min (Start e + Length e) (s + l) - a).

Fixpoint located (i : nat) (s : Z) (ls : list Z) (e : Extent) : list (nat * Extent) :=
  match ls with
  | [] => []
  | l :: ls' => (if meets e s l then [(i, overlap e s l)] else []) ++ located (S i) (s + l) ls' e
  end.

Definition sum (ls : list Z) : Z := foldr Z.add 0 ls.

Lemma sum_nonneg ls : Forall (Z.le 0) ls -> 0 <= sum ls.
Proof. induction 1; simpl; lia. Qed.

(** ** The scan *)

(** The needle when the scan has come to offset [s]. *)
Definition needle_at (e : Extent) (s : Z) : Extent :=
  mkExtent (Z.max 0 (Start e - s)) (Start e + Length e - Z.max (Start e) s).

Definition sized (e : Extent) : Prop :=
  0 <= Start e /\ 0 <= Length e /\ Start e + Length e <= max_size.

Lemma meets_spec e s l :
  meets e s l = true <->
  (Z.max (Start e) s < Z.min (Start e + Length e) (s + l) \/
   l = 0 /\ Start e < s /\ s < Start e + Length e).
Proof.
  unfold meets. rewrite orb_true_iff, !andb_true_iff, !Z.ltb_lt, Z.eqb_eq. intuition.
Qed.

Lemma meets_false e s l :
  ~ (Z.max (Start e) s < Z.min (Start e + Length e) (s + l) \/
     l = 0 /\ Start e < s /\ s < Start e + Length e) -> meets e s l = false.
Proof. intros H. apply not_true_is_false. by rewrite meets_spec. Qed.

Lemma located_past i s ls e :
  Forall (Z.le 0) ls -> Start e + Length e <= Z.max (Start e) s -> located i s ls e = [].
Proof.
  intros Hls. revert i s. induction Hls as [|l ls Hl _ IH]; intros i s Hs; [done|]. cbn [located].
  rewrite meets_false by lia. apply IH; lia.
Qed.

(** One turn of the loop over segments that lie next to each other. *)
Lemma scan_step st l hs p n :
  0 <= p -> 0 < n -> p + n <= max_size -> 0 <= l <= max_size ->
  let len := Z.max (Z.min l (p + n) - p) 0 in
  let rest := fun st' => scan st' hs (mkExtent (Z.max 0 (p - l)) (n - len)) in
  scan st (mkExtent 0 l :: hs) (mkExtent p n) =
  if (0 <? len) || (st && negb (n - len =? 0)) then mkExtent p len :: rest true else rest st.
Proof.
  intros Hp Hn Hsize Hl. cbn zeta. cbn [scan Length Start]. unfold End_. cbn [Start Length].
  rewrite (proj2 (Z.eqb_neq n 0)) by lia. unfold max_size in *.
  rewrite (i64_id (p + n)), (i64_id (0 + l)), (i64_id (p - 0)), (i64_id (p + n - 0)) by lia.
  rewrite !(i64_id (Z.min _ _ - _)) by lia.
  rewrite !(i64_id (_ + 0)) by lia. rewrite !(i64_id (n - _)) by lia. rewrite !(i64_id (p - (0 + l))) by lia.
  rewrite !Z.sub_0_r, !Z.add_0_r, !Z.add_0_l, (Z.max_l p 0) by lia. reflexivity.
Qed.

Lemma scan_done st hs p : scan st hs (mkExtent p 0) = [].
Proof. by destruct hs. Qed.

Lemma scan_located i s ls e :
  Forall (Z.le 0) ls -> sized e -> 0 <= s -> s + sum ls <= max_size -> Z.max (Start e) s <= Start e + Length e ->
  scan (Start e <? s) (map (mkExtent 0) ls) (needle_at e s) = map snd (located i s ls e).
Proof.
  intros Hls. revert i s. induction Hls as [|l ls Hl Hls IH]; intros i s He Hs Hsum Hin; [done|].
  pose proof (sum_nonneg _ Hls). cbn [sum foldr] in Hsum. fold (sum ls) in Hsum.
  pose proof He as (HS & HL & HE). unfold needle_at. cbn [map located].
  destruct (Z.eq_dec (Start e + Length e) (Z.max (Start e) s)) as [Hz|Hz].
  { rewrite (located_past (S i)), meets_false by (done || lia). rewrite Hz, Z.sub_diag. apply scan_done. }
  rewrite scan_step by lia. rewrite map_app.
  set (len := Z.max (Z.min l _ - _) 0). assert (len = Z.max (Z.min (Start e + Length e) (s + l) - Z.max (Start e) s) 0) as Hlen by lia.
  destruct (Z.ltb_spec 0 len) as [Hpos|Hzero].
  - rewrite (proj2 (meets_spec e s l)) by lia. cbn [orb app map snd]. f_equal; [unfold overlap; f_equal; lia|].
    destruct (Z_le_gt_dec (Start e + Length e) (s + l)) as [Hend|Hmore].
    + rewrite (located_past (S i)) by (done || lia).
      replace (Start e + Length e - Z.max (Start e) s - len) with 0 by lia. apply scan_done.
    + rewrite <-(IH (S i)) by (done || lia). unfold needle_at.
      rewrite (proj2 (Z.ltb_lt (Start e) (s + l))) by lia. do 2 f_equal; lia.
  - destruct (Z.ltb_spec (Start e) s) as [Hst|Hst].
    + rewrite (proj2 (meets_spec e s l)) by lia.
      rewrite (proj2 (Z.eqb_neq (_ - len) 0)) by lia. cbn [orb andb negb app map snd].
      f_equal; [unfold overlap; f_equal; lia|]. rewrite <-(IH (S i)) by (done || lia). unfold needle_at.
      rewrite (proj2 (Z.ltb_lt (Start e) (s + l))) by lia. do 2 f_equal; lia.
    + rewrite meets_false by lia. cbn [orb andb app map]. rewrite <-(IH (S i)) by (done || lia). unfold needle_at.
      rewrite (proj2 (Z.ltb_ge (Start e) (s + l))) by lia. do 2 f_equal; lia.
Qed.

(** ** The index *)

Lemma new_index_iter st lastEnd ls :
  Forall (Z.le 0) ls -> 0 <= st -> st + sum ls <= max_size -> default st lastEnd = st ->
  iter_segments lastEnd (new_index st ls) = map (mkExtent 0) ls.
Proof.
  intros Hls. revert st lastEnd. induction Hls as [|l ls Hl Hls IH]; intros st lastEnd Hst Hsum Hd; [done|].
  pose proof (sum_nonneg _ Hls). cbn [sum foldr] in Hsum. fold (sum ls) in Hsum.
  cbn [new_index iter_segments map Start Length]. rewrite Hd, Z.sub_diag. f_equal.
  unfold End_. cbn [Start Length]. unfold max_size in *. apply IH; rewrite ?i64_id by lia; try lia. done.
Qed.

Lemma new_index_drop st ls k :
  Forall (Z.le 0) ls -> 0 <= st -> st + sum ls <= max_size ->
  drop k (new_index st ls) = new_index (st + sum (take k ls)) (drop k ls).
Proof.
  intros Hls. revert st k. induction Hls as [|l ls Hl Hls IH]; intros st k Hst Hsum.
  { by destruct k. }
  pose proof (sum_nonneg _ Hls). cbn [sum foldr] in Hsum. fold (sum ls) in Hsum.
  destruct k as [|k]; cbn [take drop new_index sum foldr]; [by rewrite Z.add_0_r|]. fold (sum (take k ls)).
  unfold max_size in *. rewrite i64_id by lia. rewrite IH by lia. f_equal. lia.
Qed.

Lemma new_index_length st ls : length (new_index st ls) = length ls.
Proof. revert st. induction ls as [|l ls IH]; intros st; [done|]. simpl. by rewrite IH. Qed.

Lemma new_index_lookup st ls k :
  Forall (Z.le 0) ls -> 0 <= st -> st + sum ls <= max_size ->
  new_index st ls !! k = (fun l => mkExtent (st + sum (take k ls)) l) <$> (ls !! k).
Proof.
  intros Hls. revert st k. induction Hls as [|l ls Hl Hls IH]; intros st k Hst Hsum; [done|].
  pose proof (sum_nonneg _ Hls). cbn [sum foldr] in Hsum. fold (sum ls) in Hsum.
  destruct k as [|k]; cbn [new_index]; [cbn; by rewrite Z.add_0_r|]. unfold max_size in *. rewrite i64_id by lia.
  cbn [lookup list_lookup]. rewrite IH by lia. cbn [take sum foldr]. fold (sum (take k ls)).
  destruct (ls !! k); [|done]. cbn. do 2 f_equal. lia.
Qed.

Lemma sum_app l1 l2 : sum (l1 ++ l2) = sum l1 + sum l2.
Proof. induction l1 as [|x l1 IH]; simpl; [done|]. unfold sum in *. lia. Qed.

Lemma sum_take_drop k ls : sum ls = sum (take k ls) + sum (drop k ls).
Proof. by rewrite <-sum_app, take_drop. Qed.

Lemma Forall_take_drop (ls : list Z) k :
  Forall (Z.le 0) ls -> Forall (Z.le 0) (take k ls) /\ Forall (Z.le 0) (drop k ls).
Proof. intros H. split; [by apply Forall_take|by apply Forall_drop]. Qed.

(** ** The search *)

Lemma binary_search_spec fuel less i j :
  (forall h k, (h <= k)%nat -> less k = true -> less h = true) ->
  (i <= j)%nat -> (j - i <= fuel)%nat ->
  (forall h, (h < i)%nat -> less h = true) -> (forall h, (j <= h)%nat -> less h = false) ->
  let r := binary_search fuel less i j in
  (i <= r <= j)%nat /\ (forall h, (h < r)%nat -> less h = true) /\ (forall h, (r <= h)%nat -> less h = false).
Proof.
  intros Hmono. revert i j. induction fuel as [|fuel IH]; intros i j Hij Hf Hlo Hhi; cbn [binary_search].
  { assert (i = j) as -> by lia. split_and!; [lia|lia|done|done]. }
  destruct (Nat.ltb_spec i j) as [Hlt|Hge].
  2:{ assert (i = j) as -> by lia. split_and!; [lia|lia|done|done]. }
  pose proof (Nat.div_mod (i + j) 2 ltac:(lia)) as Hdm. pose proof (Nat.mod_upper_bound (i + j) 2 ltac:(lia)).
  set (h := ((i + j) / 2)%nat) in *. cbn zeta. destruct (less h) eqn:E.
  - destruct (IH (h + 1)%nat j) as (Hr & H1 & H2); [lia|lia| |done|].
    { intros k Hk. apply (Hmono k h); [lia|done]. }
    split_and!; [lia|lia|done|done].
  - destruct (IH i h) as (Hr & H1 & H2); [lia|lia|done| |].
    { intros k Hk. apply not_true_is_false. intros Hk'. rewrite (Hmono h k) in E; [done|lia|done]. }
    split_and!; [lia|lia|done|done].
Qed.

Lemma sum_take_S ls k l : ls !! k = Some l -> sum (take (S k) ls) = sum (take k ls) + l.
Proof. intros Hl. rewrite (take_S_r _ _ l Hl), sum_app. simpl. lia. Qed.

Lemma sum_take_mono ls h k : Forall (Z.le 0) ls -> (h <= k)%nat -> sum (take h ls) <= sum (take k ls).
Proof.
  intros Hls. revert h k. induction Hls as [|l ls Hl Hls IH]; intros h k Hk; [by rewrite !take_nil|].
  destruct h as [|h].
  - cbn [take]. apply (sum_nonneg (take k (l :: ls))). apply Forall_take. by constructor.
  - destruct k as [|k]; [lia|]. cbn [take sum foldr]. specialize (IH h k ltac:(lia)). unfold sum in IH. lia.
Qed.

Section locate.
Context (ls : list Z).
Hypothesis Hls : Forall (Z.le 0) ls.
Hypothesis Hsize : sum ls <= max_size.

Lemma NewIndex_lookup k :
  NewIndex ls !! k = (fun l => mkExtent (sum (take k ls)) l) <$> (ls !! k).
Proof. unfold NewIndex. rewrite new_index_lookup by (done || lia). by destruct (ls !! k). Qed.

Lemma sum_take_le k : 0 <= sum (take k ls) <= sum ls.
Proof.
  split; [apply sum_nonneg, Forall_take, Hls|].
  rewrite (sum_take_drop k ls). pose proof (sum_nonneg (drop k ls) (proj2 (Forall_take_drop ls k Hls))). lia.
Qed.

(** The first segment that ends after the offset, if any. *)
Lemma first_segment_spec off :
  0 <= off <= max_size ->
  let f := first_segment (NewIndex ls) off in
  (f <= length ls)%nat /\ sum (take f ls) <= off /\
  forall l, ls !! f = Some l -> off < sum (take f ls) + l.
Proof.
  intros Hoff f.
  set (less := fun h => match NewIndex ls !! h with Some elem => End_ elem <? i64 (off + 1) | None => false end).
  assert (forall h, less h = true <-> exists l, ls !! h = Some l /\ sum (take h ls) + l <= off) as Hless.
  { intros h. unfold less. rewrite NewIndex_lookup. destruct (ls !! h) as [l|] eqn:El; cbn [fmap option_fmap option_map].
    - unfold End_. cbn [Start Length]. pose proof (sum_take_le (S h)) as Hle. rewrite (sum_take_S _ _ _ El) in Hle.
      pose proof (sum_take_le h). pose proof (Forall_lookup_1 _ _ _ _ Hls El).
      unfold max_size in *. rewrite !i64_id, Z.ltb_lt by lia. split; [intros; exists l; split; [done|lia]|].
      intros (l' & [= <-] & ?). lia.
    - split; [done|]. by intros (l & ? & _). }
  destruct (binary_search_spec (length (NewIndex ls)) less 0 (length (NewIndex ls))) as (Hr & H1 & H2).
  - intros h k Hk [l [El Hl]]%Hless. apply Hless.
    destruct (lookup_lt_is_Some_2 ls h) as [lh Eh]; [apply lookup_lt_Some in El; lia|].
    exists lh. split; [done|]. rewrite <-(sum_take_S _ _ _ Eh). destruct (decide (h = k)) as [->|Hne].
    + by rewrite (sum_take_S _ _ _ El).
    + pose proof (sum_take_mono ls (S h) k Hls ltac:(lia)).
      pose proof (Forall_lookup_1 _ _ _ _ Hls El). lia.
  - lia.
  - lia.
  - lia.
  - intros h Hh. unfold less. rewrite lookup_ge_None_2; [done|lia].
  - fold less in f. change (binary_search (length (NewIndex ls)) less 0 (length (NewIndex ls))) with f in Hr, H1, H2.
    unfold NewIndex in Hr. rewrite new_index_length in Hr. split_and!; [lia| |].
    + destruct f as [|f']; [simpl; lia|]. destruct (proj1 (Hless f') (H1 f' ltac:(lia))) as (l & El & Hl).
      by rewrite (sum_take_S _ _ _ El).
    + intros l El. destruct (Z.lt_ge_cases off (sum (take f ls) + l)) as [|Hge]; [done|].
      assert (less f = true) as Hc by (apply Hless; eauto). by rewrite H2 in Hc by lia.
Qed.

Lemma located_skip i s l1 l2 e :
  Forall (Z.le 0) l1 -> s + sum l1 <= Start e ->
  located i s (l1 ++ l2) e = located (i + length l1) (s + sum l1) l2 e.
Proof.
  intros H1. revert i s. induction H1 as [|l l1 Hl H1 IH]; intros i s Hs; cbn [app located length sum foldr].
  { by rewrite Nat.add_0_r, Z.add_0_r. }
  cbn [sum foldr] in Hs. fold (sum l1) in *. pose proof (sum_nonneg _ H1).
  rewrite meets_false by lia. rewrite IH by lia. cbn [app]. f_equal; lia.
Qed.

(** From the first segment on, the segments that are met have no gap. *)
Lemma located_indices i s l e :
  Forall (Z.le 0) l -> Start e < s ->
  located i s l e = zip (seq i (length (map snd (located i s l e)))) (map snd (located i s l e)).
Proof.
  intros Hl. revert i s. induction Hl as [|x l Hx Hl IH]; intros i s Hs; [done|]. cbn [located].
  destruct (meets e s x) eqn:Em.
  - cbn [app map snd length seq zip zip_with]. f_equal. apply IH. lia.
  - rewrite located_past; [done|done|].
    assert (~ _) as Hn by (intros Hm; apply (proj2 (meets_spec e s x)) in Hm; congruence). lia.
Qed.

Lemma LocateIter_overlaps e : sized e -> LocateIter (NewIndex ls) e = located 0 0 ls e.
Proof.
  intros He. pose proof He as (HS & HL & HE). unfold LocateIter.
  destruct (first_segment_spec (Start e)) as (Hf & Hbefore & Hafter); [lia|].
  set (f := first_segment (NewIndex ls) (Start e)) in *.
  destruct (Forall_take_drop ls f Hls) as [Ht Hd].
  assert (located 0 0 ls e = located f (sum (take f ls)) (drop f ls) e) as ->.
  { rewrite <-(take_drop f ls) at 1. rewrite located_skip by (done || lia).
    rewrite length_take, Nat.min_l by lia. by rewrite Z.add_0_l. }
  rewrite NewIndex_lookup. destruct (ls !! f) as [l|] eqn:El; cbn [fmap option_fmap option_map].
  2:{ apply lookup_ge_None_1 in El. by rewrite drop_ge by lia. }
  specialize (Hafter l eq_refl). cbn [Start]. pose proof (sum_take_le f). pose proof (sum_take_drop f ls).
  unfold max_size in *. rewrite i64_id by lia. rewrite (proj2 (Z.ltb_ge _ 0)) by lia.
  unfold iterSegments, NewIndex. rewrite new_index_drop by (done || lia).
  rewrite (new_index_iter _ None) by (done || (unfold max_size in *; lia)).
  assert (scanConsecutive (map (mkExtent 0) (drop f ls)) (mkExtent (Start e - sum (take f ls)) (Length e)) =
    map snd (located f (sum (take f ls)) (drop f ls) e)) as ->.
  { rewrite <-(scan_located f _ _ e) by (done || (unfold max_size in *; lia)). unfold scanConsecutive, needle_at.
    rewrite (proj2 (Z.ltb_ge _ _)) by lia. do 2 f_equal; lia. }
  symmetry. rewrite (drop_S _ _ _ El) in *. inversion Hd as [|? ? Hl Hd']; subst. cbn [located].
  destruct (meets e (sum (take f ls)) l) eqn:Em.
  - cbn [app map snd length seq zip zip_with]. f_equal. apply located_indices; [done|]. lia.
  - rewrite located_past; [done|done|].
    assert (~ _) as Hn by (intros Hm; apply (proj2 (meets_spec e (sum (take f ls)) l)) in Hm; congruence). lia.
Qed.
End locate.

Lemma located_one i s ls off :
  Forall (Z.le 0) ls -> s <= off ->
  (s + sum ls <= off /\ located i s ls (mkExtent off 1) = []) \/
  exists k l, ls !! k = Some l /\ let o := off - (s + sum (take k ls)) in
    0 <= o < l /\ located i s ls (mkExtent off 1) = [((i + k)%nat, mkExtent o 1)].
Proof.
  intros Hls. revert i s. induction Hls as [|l ls Hl Hls IH]; intros i s Hs; [left; simpl; split; [lia|done]|].
  cbn [located sum foldr]. fold (sum ls). destruct (Z.lt_ge_cases off (s + l)) as [Hin|Hout].
  - right. exists 0%nat, l. split; [done|]. cbn zeta. cbn [take sum foldr]. split; [lia|].
    rewrite (proj2 (meets_spec _ s l)) by (cbn [Start Length]; lia).
    rewrite located_past by (done || (cbn [Start Length]; lia)).
    cbn [app]. unfold overlap. cbn [Start Length]. rewrite Nat.add_0_r. do 2 f_equal. f_equal; lia.
  - rewrite meets_false by (cbn [Start Length]; lia). cbn [app].
    destruct (IH (S i) (s + l)) as [[Hp ->]|(k & x & Hk & Ho & ->)]; [lia|left; split; [lia|done]|].
    right. exists (S k), x. split; [done|]. cbn zeta in *. cbn [take sum foldr]. fold (sum (take k ls)).
    split; [lia|]. replace (S i + k)%nat with (i + S k)%nat by lia. do 3 f_equal. lia.
Qed.

(** ** The theorems *)

(** C25. Locating an extent in the files of a torrent yields, in order, the
    overlap of the extent with every file it meets and with nothing else: the
    search for the first file, the relative starts and the needle that moves
    and shrinks compute the overlaps, without wrapping around. Files without
    bytes are met when they lie inside the extent. *)
Theorem LocateIter_located ls e :
  Forall (Z.le 0) ls -> sum ls <= max_size -> sized e ->
  LocateIter (NewIndex ls) e = located 0 0 ls e.
Proof. intros Hls Hsize He. by apply LocateIter_overlaps. Qed.

(** [LocateOffset] inverts the layout: an offset inside the torrent is in
    exactly one file, at the distance from where the file starts, and an
    offset beyond the last file is in none; the assertions of the loop never
    fail. *)
Theorem LocateOffset_inverts ls off :
  Forall (Z.le 0) ls -> sum ls <= max_size -> 0 <= off < max_size ->
  match LocateOffset (NewIndex ls) off with
  | Val (Some (i, o)) => exists l, ls !! i = Some l /\ 0 <= o < l /\ sum (take i ls) + o = off
  | Val None => sum ls <= off
  | Panicked _ => False
  end.
Proof.
  intros Hls Hsize Hoff. unfold LocateOffset. rewrite (LocateIter_overlaps ls Hls Hsize) by (unfold sized; simpl; lia).
  destruct (located_one 0 0 ls off Hls) as [[Hp ->]|(k & l & Hk & Ho & ->)]; [lia|cbn; lia|].
  rewrite Nat.add_0_l, Z.add_0_l in *. exists l. split; [done|]. cbn [Start Length] in *. lia.
Qed.

(** The files of a torrent, one of them empty, and a piece of it. *)
Lemma LocateIter_located_witness :
  LocateIter (NewIndex [1; 0; 2; 0; 3]) (mkExtent 2 2) =
    [(2%nat, mkExtent 1 1); (3%nat, mkExtent 0 0); (4%nat, mkExtent 0 1)] /\
  LocateIter (NewIndex [1; 0; 2; 0; 3]) (mkExtent 2 2) = located 0 0 [1; 0; 2; 0; 3] (mkExtent 2 2).
Proof.
  split; [vm_compute; reflexivity|]. apply (LocateIter_located [1; 0; 2; 0; 3] (mkExtent 2 2)).
  - repeat (constructor; [lia|]). constructor.
  - vm_compute. discriminate.
  - unfold sized, max_size. simpl. lia.
Defined.

Lemma LocateOffset_inverts_witness :
  match LocateOffset (NewIndex [4; 0; 3]) 5 with
  | Val (Some (i, o)) => exists l, [4; 0; 3] !! i = Some l /\ 0 <= o < l /\ sum (take i [4; 0; 3]) + o = 5
  | Val None => sum [4; 0; 3] <= 5
  | Panicked _ => False
  end.
Proof.
  apply (LocateOffset_inverts [4; 0; 3] 5).
  - repeat (constructor; [lia|]). constructor.
  - vm_compute. discriminate.
  - unfold max_size. lia.
Defined.

(** Segments with a gap between them are not handled: the needle ends in the
    gap, its length becomes negative, and the segments behind are yielded with
    no bytes. *)
Example gap_yields_empty :
  LocateIter [mkExtent 0 2; mkExtent 10 2; mkExtent 20 2] (mkExtent 0 5) =
  [(0%nat, mkExtent 0 2); (1%nat, mkExtent 0 0); (2%nat, mkExtent 0 0)].
Proof. vm_compute. reflexivity. Qed.

End segments.
