(* ===== verification/Info.v ===== *)
(** * The info dictionary of a torrent

    [metainfo.Info] with its v1 list of files and its v2 file tree, and
    [metainfo.Piece] (src/licenses/github.com/anacrolix/torrent/metainfo/
    info.go, file-tree.go, fileinfo.go, piece.go, piece-length.go): where the
    files of a torrent lie, how many pieces it has and how long each is. An
    iterator is the list of what it yields and the panic it may end in, so that
    a loop that breaks early does not meet the panic. Numbers are [int64]. *)

From S2P Require Import Prelude Prog Segments.
From Stdlib Require Import ZArith Lia Ascii String.
From stdpp Require Import base gmap strings list pretty.

Local Open Scope Z_scope.

Module info.

(** What a loop over an iterator sees. *)
Definition iter (A : Type) : Type := (list A * option string)%type.

(** The end of an iteration that was not broken off. *)
Definition finish {A B} (it : iter A) (r : B) : res B :=
  match snd it with Some m => Panicked m | None => Val r end.

(** A division in [int64], by something that is not zero. *)
Definition quot64 (a b : Z) : Z := i64 (Z.quot a b).
Definition add64 (a b : Z) : Z := i64 (a + b).
Definition sub64 (a b : Z) : Z := i64 (a - b).
Definition mul64 (a b : Z) : Z := i64 (a * b).
Definition divide_by_zero : string := "runtime error: integer divide by zero".

(** [(a + b - 1) / b], what the pieces of a length are counted by. *)
Definition round_up (a b : Z) : Z := quot64 (sub64 (add64 a b) 1) b.

Record FileInfo : Type := mkFileInfo {
  FLength : Z;
  FPath : list string;
  FPathUtf8 : list string;
  FPiecesRoot : option string;
  TorrentOffset : Z;
}.

(** The properties of a file and the entries of a directory, in the order of
    their names ([orderedKeys]). *)
Inductive FileTree : Type := mkFileTree {
  File_Length : Z;
  File_PiecesRoot : string;
  Dir : list (string * FileTree);
}.

Definition FileTreePropertiesKey : string := "".

Record Info : Type := mkInfo {
  PieceLength : Z;
  Pieces : string;
  Name : string;
  NameUtf8 : string;
  Length : Z;
  FilesField : option (list FileInfo);   (* a slice may be nil *)
  MetaVersion : Z;
  Tree : FileTree;
}.

(** The elements of [info.Files]. *)
Definition Files (info : Info) : list FileInfo := default [] (FilesField info).

(** ** The file tree *)

Definition NumEntries (ft : FileTree) : nat :=
  (length (Dir ft) - (if existsb (fun e => bool_decide (fst e = FileTreePropertiesKey)) (Dir ft) then 1 else 0))%nat.

Definition Tree_IsDir (ft : FileTree) : bool := negb (NumEntries ft =? 0)%nat.

(** A root of another length than 32 bytes is cut off or panics. *)
Definition PiecesRootAsByteArray (root : string) : res (option string) :=
  if decide (root = "") then Val None
  else
    let n := Nat.min 32 (String.length root) in
    if (n =? 32)%nat then Val (Some (String.substring 0 32 root)) else Panicked (pretty n).

(** The files of a tree, the panic that ends them, and the offset after them. *)
Fixpoint upvertedFilesInner (pieceLength : Z) (path : list string) (ft : FileTree) (offset : Z)
    : list FileInfo * option string * Z :=
  if Tree_IsDir ft then
    (fix entries (l : list (string * FileTree)) (offset : Z) : list FileInfo * option string * Z :=
       match l with
       | [] => ([], None, offset)
       | (key, sub) :: l' =>
           if decide (key = FileTreePropertiesKey) then entries l' offset
           else
             match upvertedFilesInner pieceLength (path ++ [key]) sub offset with
             | (fs, Some m, o) => (fs, Some m, o)
             | (fs, None, o) => let '(fs', m, o') := entries l' o in (fs ++ fs', m, o')
             end
       end) (Dir ft) offset
  else
    match PiecesRootAsByteArray (File_PiecesRoot ft) with
    | Panicked m => ([], Some m, offset)
    | Val root =>
        let fi := mkFileInfo (File_Length ft) path path root offset in
        if pieceLength =? 0 then ([fi], Some divide_by_zero, offset)
        else ([fi], None, add64 offset (mul64 (round_up (File_Length ft) pieceLength) pieceLength))
    end.

Definition Tree_upvertedFiles (ft : FileTree) (pieceLength : Z) : iter FileInfo :=
  let '(fs, m, _) := upvertedFilesInner pieceLength [] ft 0 in (fs, m).

(** The nodes [Walk] visits; their order does not matter to its callers here. *)
Fixpoint nodes (ft : FileTree) : list FileTree :=
  ft :: (fix subs (l : list (string * FileTree)) : list FileTree :=
           match l with
           | [] => []
           | (key, sub) :: l' => (if decide (key = FileTreePropertiesKey) then [] else nodes sub) ++ subs l'
           end) (Dir ft).

(** ** Info *)

Definition HasV2 (info : Info) : bool := MetaVersion info =? 2.

(** A list of files that was decoded and is empty is not [nil]. *)
Definition HasV1 (info : Info) : bool :=
  (MetaVersion info =? 0) || (MetaVersion info =? 1) || bool_decide (FilesField info <> None) ||
  negb (Length info =? 0) || negb (String.length (Pieces info) =? 0)%nat.

Definition BestName (info : Info) : string :=
  if decide (NameUtf8 info <> "") then NameUtf8 info else Name info.

Definition IsDir (info : Info) : bool :=
  if HasV2 info then Tree_IsDir (Tree info) else negb (bool_decide (Files info = [])).

Definition FilesArePieceAligned (info : Info) : bool := HasV2 info.

(** The files with their offsets. *)
Fixpoint with_offsets (offset : Z) (files : list FileInfo) {struct files} : list FileInfo :=
  match files with
  | [] => []
  | fi :: files' =>
      mkFileInfo (FLength fi) (FPath fi) (FPathUtf8 fi) (FPiecesRoot fi) offset ::
      with_offsets (add64 offset (FLength fi)) files'
  end.

Definition UpvertedV1Files (info : Info) : iter FileInfo :=
  ((match Files info with [] => [mkFileInfo (Length info) [] [] None 0] | _ => [] end) ++
   with_offsets 0 (Files info), None).

Definition UpvertedFilesIter (info : Info) : iter FileInfo :=
  if HasV2 info then Tree_upvertedFiles (Tree info) (PieceLength info) else UpvertedV1Files info.

Definition UpvertedFiles (info : Info) : res (list FileInfo) :=
  let it := UpvertedFilesIter info in finish it (fst it).

Definition TotalLength (info : Info) : res Z :=
  match UpvertedFiles info with
  | Panicked m => Panicked m
  | Val files => Val (fold_left (fun ret fi => add64 ret (FLength fi)) files 0)
  end.

Definition NumPieces (info : Info) : res Z :=
  if HasV2 info then
    if PieceLength info =? 0 then Panicked divide_by_zero
    else Val (fold_left (fun num ft => add64 num (round_up (File_Length ft) (PieceLength info))) (nodes (Tree info)) 0)
  else Val (Z.of_nat (String.length (Pieces info) / 20)).

Definition FileSegmentsIndex (info : Info) : res segments.Index :=
  let it := UpvertedFilesIter info in
  finish it (map (fun fi => segments.mkExtent (TorrentOffset fi) (FLength fi)) (fst it)).

(** ** Files *)

Definition BestPath (fi : FileInfo) : list string :=
  match FPathUtf8 fi with [] => FPath fi | p => p end.

Definition DisplayPath (fi : FileInfo) (info : Info) : string :=
  if IsDir info then String.concat "/" (BestPath fi) else BestName info.

Definition BeginPieceIndex (fi : FileInfo) (pieceLength : Z) : Z :=
  if pieceLength =? 0 then 0 else quot64 (TorrentOffset fi) pieceLength.

Definition EndPieceIndex (fi : FileInfo) (pieceLength : Z) : Z :=
  if pieceLength =? 0 then 0
  else quot64 (sub64 (add64 (add64 (TorrentOffset fi) (FLength fi)) pieceLength) 1) pieceLength.

(** ** Pieces *)

(** The loop of [Piece.Length] over the files of the tree: the end of the last
    file that starts at or before the piece. *)
Fixpoint last_file_end (pieceLength i offset lastFileEnd : Z) (files : list FileInfo) (m : option string)
    {struct files} : res Z :=
  match files with
  | [] => match m with Some p => Panicked p | None => Val lastFileEnd end
  | fi :: files' =>
      if negb (offset =? TorrentOffset fi) then Panicked "not equal"
      else if pieceLength =? 0 then Panicked divide_by_zero
      else if i <? quot64 offset pieceLength then Val lastFileEnd
      else
        let lastFileEnd := add64 offset (FLength fi) in
        last_file_end pieceLength i (mul64 (round_up lastFileEnd pieceLength) pieceLength) lastFileEnd files' m
  end.

Definition V1Length (info : Info) (i : Z) : res Z :=
  match NumPieces info with
  | Panicked m => Panicked m
  | Val n =>
      let lastPiece := sub64 n 1 in
      if (0 <=? i) && (i <? lastPiece) then Val (PieceLength info)
      else if (0 <=? lastPiece) && (i =? lastPiece) then
        match last (fst (UpvertedV1Files info)) with
        | None => Panicked "unwrap of none"
        | Some lastFile =>
            let length := sub64 (add64 (TorrentOffset lastFile) (FLength lastFile)) (mul64 i (PieceLength info)) in
            if (length <=? 0) || (PieceLength info <? length) then Panicked (pretty length) else Val length
        end
      else Panicked (pretty i)
  end.

(** [Piece.Length] *)
Definition Piece_Length (info : Info) (i : Z) : res Z :=
  if HasV2 info then
    let it := Tree_upvertedFiles (Tree info) (PieceLength info) in
    match last_file_end (PieceLength info) i 0 0 (fst it) (snd it) with
    | Panicked m => Panicked m
    | Val lastFileEnd =>
        let ret := Z.min (sub64 lastFileEnd (mul64 i (PieceLength info))) (PieceLength info) in
        if ret <=? 0 then Panicked (pretty ret) else Val ret
    end
  else V1Length info i.

(** [Piece.Offset] *)
Definition Offset (info : Info) (i : Z) : Z := mul64 i (PieceLength info).

(** [Piece.V1Hash]: a slice out of range panics. *)
Definition V1Hash (info : Info) (i : Z) : res (option string) :=
  if HasV1 info then
    let lo := mul64 i 20 in
    let hi := mul64 (add64 i 1) 20 in
    if (0 <=? lo) && (lo <=? hi) && (hi <=? Z.of_nat (String.length (Pieces info)))
    then Val (Some (String.substring (Z.to_nat lo) 20 (Pieces info)))
    else Panicked "slice bounds out of range"
  else Val None.

(** ** [ChoosePieceLength] *)

Definition minimumPieceLength : Z := 16 * 1024.
Definition targetPieceCountMin : Z := Z.shiftl 1 10.
Definition targetPieceCountMax : Z := Z.shiftl targetPieceCountMin 1.

(** The loop; [pieces] has 64 bits, so 64 rounds are enough. *)
Fixpoint choose (fuel : nat) (pieceLength pieces : Z) {struct fuel} : option Z :=
  match fuel with
  | O => None
  | S fuel' =>
      if targetPieceCountMax <=? pieces then choose fuel' (i64 (Z.shiftl pieceLength 1)) (Z.shiftr pieces 1)
      else Some pieceLength
  end.

Definition ChoosePieceLength (totalLength : Z) : option Z :=
  choose 64 minimumPieceLength (quot64 totalLength minimumPieceLength).

(** Induction over a tree and its entries. *)
Lemma FileTree_induction (P : FileTree -> Prop) :
  (forall l r d, Forall (fun e => P (snd e)) d -> P (mkFileTree l r d)) -> forall ft, P ft.
Proof.
  intros H. fix IH 1. intros [l r d]. apply H. induction d as [|[k sub] d IHd]; constructor; [apply IH|exact IHd].
Qed.

End info.
