(* ===== verification/Magnet.v ===== *)
(** * Magnet links

    [metainfo.MagnetV2] (src/licenses/github.com/anacrolix/torrent/metainfo/
    magnet-v2.go and magnet.go): a magnet is parsed into the v1 and v2 info
    hashes, the trackers, the display name and the other parameters, and
    written again; [TorrentSpecFromMagnetUri] (spec.go) is what the client
    adds. The multihash of a v2 hash is another library's and so a parameter.
    Decoding a v1 hash panics when the text has the right length but decodes
    to another number of bytes; that is a result here. *)

From S2P Require Import Prelude GoErrors Prog Infohash Json Url.
From Stdlib Require Import ZArith Lia Ascii String.
From stdpp Require Import base gmap strings list pretty.

Local Open Scope Z_scope.

(** ** What go-multihash computes *)

Record DecodedMultihash : Type := mkMultihash {
  mh_code : Z;
  mh_length : Z;
  mh_digest : string;
}.

Class Multihash : Type := {
  SHA2_256 : Z;
  mh_decode : string -> result DecodedMultihash;
  (** The bytes of [multihash.Encode], whose error the code ignores. *)
  mh_encode : string -> Z -> string;
  (** [Multihash.HexString] *)
  mh_hex : string -> string;
}.

(** ** [base32.StdEncoding.Decode] *)

Module base32.

Definition is_newline (c : ascii) : bool := (json.byte c =? 10) || (json.byte c =? 13).

Fixpoint strip_newlines (s : string) : string :=
  match s with
  | "" => ""
  | String c r => if is_newline c then strip_newlines r else String c (strip_newlines r)
  end.

Definition value (c : ascii) : option Z :=
  let n := json.byte c in
  if json.between 65 90 n then Some (n - 65)
  else if json.between 50 55 n then Some (n - 24)
  else None.

(** [CorruptInputError] *)
Definition corrupt (at_ : Z) : error := EOpaque ("illegal base32 data at input byte " +:+ pretty at_).

Definition len (s : string) : Z := Z.of_nat (String.length s).

(** The first of the next [n] bytes that is no padding. *)
Fixpoint bad_padding (n : nat) (k : Z) (src : string) : option Z :=
  match n, src with
  | S n', String c r => if json.byte c =? 61 then bad_padding n' (k + 1) r else Some k
  | _, _ => None
  end.

(** Up to eight characters: their values and the rest, or that the text ended
    with padding. *)
Inductive quantum : Type :=
| Corrupt (at_ : Z)
| Full (dbuf : list Z) (src : string)
| Final (dbuf : list Z).

Fixpoint read_quantum (room j : nat) (olen : Z) (src : string) (dbuf : list Z) : quantum :=
  match room with
  | O => Full dbuf src
  | S room' =>
      match src with
      | "" => Corrupt (olen - Z.of_nat j)
      | String c r =>
          if (json.byte c =? 61) && (2 <=? j)%nat && (len r <? 8) then
            if len r + Z.of_nat j <? 7 then Corrupt olen
            else match bad_padding (7 - j) 0 r with
                 | Some k => Corrupt (olen - len r + k - 1)
                 | None =>
                     if (j =? 1)%nat || (j =? 3)%nat || (j =? 6)%nat then Corrupt (olen - len r - 1)
                     else Final dbuf
                 end
          else match value c with
               | None => Corrupt (olen - len r - 1)
               | Some v => read_quantum room' (S j) olen r (dbuf ++ [v])
               end
      end
  end.

(** The bytes of the 5-bit values: five of eight, four of seven, three of
    five, two of four, one of two. *)
Definition pack (dbuf : list Z) : string :=
  let d i := nth i dbuf 0 in
  let b n := json.char (n mod 256) in
  let bytes :=
    [b (Z.lor (Z.shiftl (d 0%nat) 3) (Z.shiftr (d 1%nat) 2));
     b (Z.lor (Z.lor (Z.shiftl (d 1%nat) 6) (Z.shiftl (d 2%nat) 1)) (Z.shiftr (d 3%nat) 4));
     b (Z.lor (Z.shiftl (d 3%nat) 4) (Z.shiftr (d 4%nat) 1));
     b (Z.lor (Z.lor (Z.shiftl (d 4%nat) 7) (Z.shiftl (d 5%nat) 2)) (Z.shiftr (d 6%nat) 3));
     b (Z.lor (Z.shiftl (d 6%nat) 5) (d 7%nat))] in
  let n := match length dbuf with
           | 8%nat => 5%nat | 7%nat => 4%nat | 5%nat => 3%nat | 4%nat => 2%nat | 2%nat => 1%nat
           | _ => 0%nat
           end in
  string_of_list_ascii (firstn n bytes).

(** A full quantum takes eight characters, so the number of characters is
    fuel enough. *)
Fixpoint decode (fuel : nat) (olen : Z) (src : string) : result string :=
  match src, fuel with
  | "", _ => Ok ""
  | _, O => Err (EOpaque "unreachable")
  | _, S fuel' =>
      match read_quantum 8 0 olen src [] with
      | Corrupt at_ => Err (corrupt at_)
      | Final dbuf => Ok (pack dbuf)
      | Full dbuf rest => outcome_map (fun t => pack dbuf +:+ t) (decode fuel' olen rest)
      end
  end.

Definition Decode (src : string) : result string :=
  let s := strip_newlines src in
  decode (String.length s) (len s) s.

Lemma read_quantum_shorter room j olen src dbuf dbuf' rest :
  read_quantum room j olen src dbuf = Full dbuf' rest ->
  (String.length rest + room = String.length src)%nat.
Proof.
  revert j src dbuf. induction room as [|room IH]; intros j src dbuf; cbn [read_quantum].
  { intros [= _ <-]. lia. }
  destruct src as [|c r]; [done|]. destruct (_ && _ && _).
  { destruct (_ <? _); [done|]. destruct (bad_padding _ _ _); [done|]. by destruct (_ || _ || _). }
  destruct (value c); [|done]. intros H%IH. simpl. lia.
Qed.

Lemma decode_fuel fuel olen src :
  (String.length src <= fuel)%nat -> decode fuel olen src = decode (String.length src) olen src.
Proof.
  assert (forall n fuel src, (String.length src <= n)%nat -> (String.length src <= fuel)%nat ->
    decode fuel olen src = decode (String.length src) olen src) as H; [|by eapply H].
  clear. induction n as [|n IH]; intros fuel src Hn Hf.
  { destruct src; [by destruct fuel|simpl in Hn; lia]. }
  destruct src as [|c r]; [by destruct fuel|]. destruct fuel as [|fuel]; [simpl in Hf; lia|].
  set (src := String c r) in *. change (decode (S fuel) olen src) with
    (match read_quantum 8 0 olen src [] with
     | Corrupt at_ => Err (corrupt at_)
     | Final dbuf => Ok (pack dbuf)
     | Full dbuf rest => outcome_map (fun t => pack dbuf +:+ t) (decode fuel olen rest)
     end).
  change (decode (String.length src) olen src) with
    (match read_quantum 8 0 olen src [] with
     | Corrupt at_ => Err (corrupt at_)
     | Final dbuf => Ok (pack dbuf)
     | Full dbuf rest => outcome_map (fun t => pack dbuf +:+ t) (decode (String.length r) olen rest)
     end).
  destruct (read_quantum 8 0 olen src []) as [|dbuf rest|] eqn:E; [done| |done].
  apply read_quantum_shorter in E. subst src. simpl in *.
  rewrite (IH fuel), (IH (String.length r)) by lia. done.
Qed.

End base32.

(** ** [metainfo.MagnetV2] *)

Definition v2_size : nat := 32.

(** Success, an error, or a panic. *)
Abbreviation outcome_of A := (res (result A)) (only parsing).

(** What follows a call that may fail or panic. *)
Definition then_ok {A B} (r : res (result A)) (f : A -> res (result B)) : res (result B) :=
  match r with
  | Panicked m => Panicked m
  | Val (Err e) => Val (Err e)
  | Val (Ok a) => f a
  end.

Module metainfo.
Section magnet.
Context `{UrlEnv} `{Multihash}.

Record MagnetV2 : Type := mkMagnetV2 {
  InfoHash : option string;
  V2InfoHash : option string;
  Trackers : list string;
  DisplayName : string;
  Params : url.Values;
}.

Definition btihPrefix : string := "urn:btih:".
Definition btmhPrefix : string := "urn:btmh:".

(** [infohash_v2.ToMultihash] *)
Definition ToMultihash (t : string) : string := mh_encode t SHA2_256.

Definition String_ (m : MagnetV2) : string :=
  let vs := fold_left (fun vs tr => url.Add vs "tr" tr) (Trackers m) (Params m) in
  let vs := if decide (DisplayName m = "") then vs else url.Add vs "dn" (DisplayName m) in
  let rem := url.Encode vs in
  let queryParts :=
    match InfoHash m with Some h => ["xt=" +:+ btihPrefix +:+ infohash.HexString h] | None => [] end ++
    match V2InfoHash m with Some h => ["xt=" +:+ btmhPrefix +:+ mh_hex (ToMultihash h)] | None => [] end ++
    (if decide (rem = "") then [] else [rem]) in
  let rawQuery := String.concat "&" queryParts in
  "magnet:" +:+ (if decide (rawQuery = "") then "" else "?" +:+ rawQuery).

(** [strings.CutPrefix] *)
Definition CutPrefix (s prefix : string) : option string :=
  if has_prefix prefix s
  then Some (String.substring (String.length prefix) (String.length s - String.length prefix) s)
  else None.

Definition parseEncodedV1Infohash (encoded : string) : outcome_of string :=
  let n := String.length encoded in
  match (if (n =? 40)%nat then Some (infohash.hex_decode encoded)
         else if (n =? 32)%nat then Some (base32.Decode encoded)
         else None) with
  | None => Val (Err (EOpaque ("unhandled xt parameter encoding (encoded length " +:+ pretty n +:+ ")")))
  | Some (Err err) => Val (Err (EWrap "error decoding xt: " err ""))
  | Some (Ok ih) =>
      if (String.length ih =? infohash.Size)%nat then Val (Ok ih) else Panicked (pretty (String.length ih))
  end.

Definition parseV2Infohash (encoded : string) : outcome_of string :=
  match infohash.hex_decode encoded with
  | Err err => Val (Err err)
  | Ok b =>
      match mh_decode b with
      | Err err => Val (Err err)
      | Ok mh =>
          if negb (mh_code mh =? SHA2_256) || negb (mh_length mh =? Z.of_nat v2_size) ||
             negb (String.length (mh_digest mh) =? v2_size)%nat
          then Val (Err (EOpaque "bad multihash"))
          else Val (Ok (mh_digest mh))
      end
  end.

Definition set_hash (m : MagnetV2) (h : string) : MagnetV2 :=
  mkMagnetV2 (Some h) (V2InfoHash m) (Trackers m) (DisplayName m) (Params m).
Definition set_v2_hash (m : MagnetV2) (h : string) : MagnetV2 :=
  mkMagnetV2 (InfoHash m) (Some h) (Trackers m) (DisplayName m) (Params m).
Definition lazyAddParam (m : MagnetV2) (k v : string) : MagnetV2 :=
  mkMagnetV2 (InfoHash m) (V2InfoHash m) (Trackers m) (DisplayName m) (url.Add (Params m) k v).

Definition more_than_one : error := EOpaque "more than one infohash found in magnet link".

(** One value of [q["xt"]]. *)
Definition parse_xt (xt : string) (m : MagnetV2) : outcome_of MagnetV2 :=
  match CutPrefix xt btihPrefix with
  | Some hashStr =>
      match InfoHash m with
      | Some _ => Val (Err more_than_one)
      | None =>
          match parseEncodedV1Infohash hashStr with
          | Panicked p => Panicked p
          | Val (Err err) => Val (Err (EWrap ("error parsing infohash " +:+ quote hashStr +:+ ": ") err ""))
          | Val (Ok h) => Val (Ok (set_hash m h))
          end
      end
  | None =>
      match CutPrefix xt btmhPrefix with
      | Some hashStr =>
          match V2InfoHash m with
          | Some _ => Val (Err more_than_one)
          | None =>
              match parseV2Infohash hashStr with
              | Panicked p => Panicked p
              | Val (Err err) => Val (Err (EWrap ("error parsing infohash " +:+ quote hashStr +:+ ": ") err ""))
              | Val (Ok h) => Val (Ok (set_v2_hash m h))
              end
          end
      | None => Val (Ok (lazyAddParam m "xt" xt))
      end
  end.

Fixpoint parse_xts (xts : list string) (m : MagnetV2) : outcome_of MagnetV2 :=
  match xts with
  | [] => Val (Ok m)
  | xt :: xts' => then_ok (parse_xt xt m) (parse_xts xts')
  end.

(** The first value of a key, which is taken out. *)
Definition popFirstValue (vs : url.Values) (key : string) : option string * url.Values :=
  match url.vals vs key with
  | [] => (None, vs)
  | [x] => (Some x, url.Del vs key)
  | x :: sl => (Some x, <[key := sl]> vs)
  end.

(** Every value of every key of [src]; the order of the keys does not matter. *)
Definition copyParams (dest src : url.Values) : url.Values :=
  fold_left (fun d kvs => fold_left (fun d v => url.Add d (fst kvs) v) (snd kvs) d) (map_to_list src) dest.

Definition ParseMagnetV2Uri (uri : string) : outcome_of MagnetV2 :=
  match url.Parse uri with
  | Err err => Val (Err (EWrap "error parsing uri: " err ""))
  | Ok u =>
      if decide (url.Scheme u = "magnet") then
        let q := url.Query (url.RawQuery u) in
        then_ok (parse_xts (url.vals q "xt") (mkMagnetV2 None None [] "" ∅)) (fun m =>
        let q := url.Del q "xt" in
        let '(dn, q) := popFirstValue q "dn" in
        let trackers := url.vals q "tr" in
        let q := url.Del q "tr" in
        Val (Ok (mkMagnetV2 (InfoHash m) (V2InfoHash m) trackers (default "" dn) (copyParams (Params m) q))))
      else Val (Err (EOpaque ("unexpected scheme " +:+ quote (url.Scheme u))))
  end.

(** [torrent.TorrentSpecFromMagnetUri] *)
Record TorrentSpec : Type := mkTorrentSpec {
  SInfoHash : string;
  SInfoHashV2 : option string;
  STrackers : list (list string);
  SDisplayName : string;
  SWebseeds : list string;
  SSources : list string;
  SPeerAddrs : list string;
}.

Definition TorrentSpecFromMagnetUri (uri : string) : outcome_of TorrentSpec :=
  then_ok (ParseMagnetV2Uri uri) (fun m =>
  Val (Ok (mkTorrentSpec (default infohash.zero (InfoHash m)) (V2InfoHash m) [Trackers m] (DisplayName m)
    (url.vals (Params m) "ws") (url.vals (Params m) "xs" ++ url.vals (Params m) "as")
    (url.vals (Params m) "x.pe")))).

End magnet.
End metainfo.
