(* ===== verification/Bencode.v ===== *)
(** * Bencode

    The encoding of torrent files and of the messages of the DHT and of
    extensions (src/licenses/github.com/anacrolix/torrent/bencode): the decoder
    into values of any shape (Go's [interface{}]) and the encoder of such
    values. The decoder reads a text that ends in an error, which is [io.EOF]
    for a complete one; what it panics with is an exception here, and recovered
    by [Decode] as in the code. Recursion is as deep as values are nested. *)

From S2P Require Import Prelude GoErrors GoTime Strconv.
From Stdlib Require Import ZArith Lia Ascii String.
From stdpp Require Import base strings list pretty.

Local Open Scope Z_scope.

Module bencode.
Import strconv.

(** What is decoded into an [interface{}]: [int64] or [*big.Int], [string],
    [[]interface{}] and [map[string]interface{}], whose entries come in any
    order and with different keys. *)
Inductive value : Type :=
| Int (n : Z)
| Str (s : string)
| List (l : list value)
| Dict (d : list (string * value)).

(** ** The decoder *)

(** What a reader or an operation fails with: the end of the text, or an error
    that is only ever passed on or printed. *)
Inductive failure : Type :=
| EOF
| Text (s : string)
| Wrapped (pre : string) (e : failure).

(** The type that an [UnmarshalTypeError] or [UnmarshalerError] also names is
    left out. *)
Inductive derror : Type :=
| SyntaxError (Offset : Z) (What : failure)
| UnmarshalTypeError (BencodeTypeName : string)
| UnmarshalerError (e : derror)
| DError (e : failure)
| DWrap (pre : string) (e : derror).

(** What a panic carries: an error, or something else that is not recovered; or
    the fuel ran out, which is no behaviour of the code. *)
Inductive exn : Type := Thrown (e : derror) | NoFuel.

Inductive ran (A : Type) : Type := Done (a : A) | Raised (e : exn).
Arguments Done {A} a.
Arguments Raised {A} e.

Definition DefaultDecodeMaxStrLen : Z := 134217727.

Record Decoder : Type := mkDecoder {
  MaxStrLen : Z;
  rest : string;          (* what the reader has left *)
  ending : failure;         (* what it answers then *)
  Offset : Z;
  buf : string;
}.

Definition with_rest d s := mkDecoder (MaxStrLen d) s (ending d) (Offset d) (buf d).
Definition with_Offset d n := mkDecoder (MaxStrLen d) (rest d) (ending d) n (buf d).
Definition with_buf d b := mkDecoder (MaxStrLen d) (rest d) (ending d) (Offset d) b.

Definition M (A : Type) : Type := Decoder -> ran A * Decoder.

Definition ret {A} (a : A) : M A := fun d => (Done a, d).
Definition bind {A B} (m : M A) (f : A -> M B) : M B := fun d =>
  match m d with
  | (Done a, d') => f a d'
  | (Raised e, d') => (Raised e, d')
  end.
Definition throw {A} (e : derror) : M A := fun d => (Raised (Thrown e), d).
Definition get {A} (f : Decoder -> A) : M A := fun d => (Done (f d), d).

Declare Scope bencode_scope.
Delimit Scope bencode_scope with bencode.
Local Open Scope bencode_scope.
Notation "x <- m ;;; f" := (bind m (fun x => f)) (at level 100, m at next level, right associativity) : bencode_scope.
Notation "m ;;; f" := (bind m (fun _ => f)) (at level 100, right associativity) : bencode_scope.

Definition msg (s : string) : failure := Text s.
Definition ErrUnexpectedEOF : failure := msg "unexpected EOF".

Definition is_EOF (e : failure) : bool := match e with EOF => true | _ => false end.

Definition ReadByte : M (outcome failure ascii) := fun d =>
  match rest d with
  | "" => (Done (Err (ending d)), d)
  | String c s => (Done (Ok c), with_rest d s)
  end.

Definition add_Offset (n : Z) : M unit := fun d => (Done tt, with_Offset d (Offset d + n)).
Definition WriteByte (c : ascii) : M unit := fun d => (Done tt, with_buf d (buf d +:+ String c "")).
Definition buf_Reset : M unit := fun d => (Done tt, with_buf d "").

(** What [readByte] panics with at the end. *)
Definition ended (e : failure) (offset : Z) : derror :=
  if is_EOF e then SyntaxError offset ErrUnexpectedEOF else DError e.

(** The loop over [readByte]: the separator is consumed but not buffered. *)
Fixpoint read_until (sep : ascii) (s : string) (d : Decoder) : ran unit * Decoder :=
  match s with
  | "" => (Raised (Thrown (ended (ending d) (Offset d))), with_rest d "")
  | String b s' =>
      let d1 := with_Offset d (Offset d + 1) in
      if decide (b = sep) then (Done tt, with_rest d1 s')
      else read_until sep s' (with_buf d1 (buf d +:+ String b ""))
  end.

Definition readUntil (sep : ascii) : M unit := fun d => read_until sep (rest d) d.

Definition checkBufferedInt : M (option failure) :=
  get (fun d => if plain_numeral (buf d) then None else Some (msg "invalid leading digit")).

Definition readInt : M (option failure) := readUntil "e";;; checkBufferedInt.

Definition getMaxStrLen (d : Decoder) : Z :=
  if MaxStrLen d =? 0 then DefaultDecodeMaxStrLen else MaxStrLen d.

Definition parseStringLength : M (Z * option failure) :=
  offset <- get Offset;;;
  let start := offset - 1 in
  readUntil ":";;;
  e <- checkBufferedInt;;;
  match e with
  | Some err => ret (0, Some err)
  | None =>
      b <- get buf;;;
      match ParseInt b with
      | Err ne => throw (SyntaxError start (msg (num_error "ParseInt" b ne)))
      | Ok length =>
          limit <- get getMaxStrLen;;;
          buf_Reset;;;
          ret (length, if limit <? length
                       then Some (msg ("parsed string length " +:+ pretty length +:+ " exceeds limit (" +:+
                                         pretty DefaultDecodeMaxStrLen +:+ ")"))
                       else None)
      end
  end.

Fixpoint str_take (n : nat) (s : string) : string :=
  match n, s with S n', String c s' => String c (str_take n' s') | _, _ => "" end.
Fixpoint str_drop (n : nat) (s : string) : string :=
  match n, s with S n', String _ s' => str_drop n' s' | _, _ => s end.

(** [io.ReadAll] of the next [length] bytes. *)
Definition readBytes (length : Z) : M string := fun d =>
  let n := Z.to_nat length in
  let b := str_take n (rest d) in
  let d' := with_rest d (str_drop n (rest d)) in
  let read := Z.of_nat (String.length b) in
  if read =? length then (Done b, d')
  else if is_EOF (ending d)
       then (Raised (Thrown (DError (msg ("read " +:+ pretty read +:+ " bytes expected " +:+ pretty length)))), d')
       else (Raised (Thrown (DError (ending d))), d').

Definition parseStringInterface : M string :=
  r <- parseStringLength;;;
  match snd r with
  | Some err => throw (DError err)
  | None => b <- readBytes (fst r);;; add_Offset (Z.of_nat (String.length b));;; ret b
  end.

Definition parseIntInterface : M Z :=
  offset <- get Offset;;;
  let start := offset - 1 in
  e <- readInt;;;
  match e with
  | Some err => throw (DError err)
  | None =>
      b <- get buf;;;
      n <- (match ParseInt b with
            | Ok n => ret n
            | Err ErrRange =>
                match big_SetString b with
                | Some i => ret i
                | None => throw (SyntaxError start (msg "failed to parse integer"))
                end
            | Err ErrSyntax => throw (SyntaxError start (msg (num_error "ParseInt" b ErrSyntax)))
            end);;;
      buf_Reset;;;
      ret n
  end.

(** The loop of [parseListInterface]; [parse] answers [None] for the end. *)
Fixpoint parse_list (parse : M (option value)) (fuel : nat) (l : list value) : M (list value) :=
  match fuel with
  | O => fun d => (Raised NoFuel, d)
  | S fuel' =>
      v <- parse;;;
      match v with
      | None => ret l
      | Some v => parse_list parse fuel' (l ++ [v])
      end
  end.

Fixpoint parse_dict (parse : M (option value)) (fuel : nat) (lastKey : option string) (dict : list (string * value))
    : M (list (string * value)) :=
  match fuel with
  | O => fun d => (Raised NoFuel, d)
  | S fuel' =>
      start <- get Offset;;;
      keyi <- parse;;;
      match keyi with
      | None => ret dict
      | Some (Str key) =>
          match lastKey with
          | Some last =>
              if str_leb key last
              then throw (SyntaxError start (msg ("dict keys unsorted: " +:+ quote key +:+ " <= " +:+ quote last)))
              else ret tt
          | None => ret tt
          end;;;
          start <- get Offset;;;
          valuei <- parse;;;
          match valuei with
          | None => throw (SyntaxError start (msg ("dict elem missing value [key=" +:+ key +:+ "]")))
          | Some v => parse_dict parse fuel' (Some key) (dict ++ [(key, v)])
          end
      | Some _ => offset <- get Offset;;; throw (SyntaxError offset (msg "non-string key in a dict"))
      end
  end.

Definition is_digit_byte (b : ascii) : bool := is_digit b.

Definition raiseUnknownValueType {A} (b : ascii) (offset : Z) : M A :=
  throw (SyntaxError offset (msg ("unknown value type " +:+ quote (String b "")))).

Fixpoint parseValueInterface (fuel : nat) : M (option value) :=
  match fuel with
  | O => fun d => (Raised NoFuel, d)
  | S fuel' =>
      r <- ReadByte;;;
      match r with
      | Err err => throw (DError err)
      | Ok b =>
          add_Offset 1;;;
          if decide (b = "e"%char) then ret None
          else if decide (b = "d"%char) then d <- parse_dict (parseValueInterface fuel') fuel' None [];;; ret (Some (Dict d))
          else if decide (b = "l"%char) then l <- parse_list (parseValueInterface fuel') fuel' [];;; ret (Some (List l))
          else if decide (b = "i"%char) then n <- parseIntInterface;;; ret (Some (Int n))
          else if is_digit_byte b then WriteByte b;;; s <- parseStringInterface;;; ret (Some (Str s))
          else offset <- get Offset;;; raiseUnknownValueType b (offset - 1)
      end
  end.

(** [parseValue] of a variable of type [interface{}]: nothing can be stored in
    it when there is no value. *)
Definition parseInterface (fuel : nat) : M value :=
  v <- parseValueInterface fuel;;;
  match v with
  | Some v => ret v
  | None => throw (DError (msg "reflect: call of reflect.Value.Set on zero Value"))
  end.

(** What [Decode] makes of the panics below it. *)
Definition recovered {A} (r : ran A) : ran A :=
  match r with
  | Raised (Thrown (DError e)) => Raised (Thrown (DError (if is_EOF e then ErrUnexpectedEOF else e)))
  | _ => r
  end.

(** Enough for any text: every call but the last reads a byte. *)
Definition fuel_for (d : Decoder) : nat := S (String.length (rest d)).

Definition Decode : M value := fun d => let '(r, d') := parseInterface (fuel_for d) d in (recovered r, d').

Definition ReadEOF : M (option failure) :=
  b <- ReadByte;;;
  ret (match b with
       | Ok _ => Some (msg "expected EOF")
       | Err e => if is_EOF e then None else Some (Wrapped "expected EOF, got " e)
       end).

(** [NewDecoder] of a reader of [s]. *)
Definition NewDecoder (s : string) (ending : failure) : Decoder := mkDecoder 0 s ending 0 "".

Definition Unmarshal (data : string) : ran value :=
  match Decode (NewDecoder data EOF) with
  | (Done v, d) =>
      match rest d with
      | "" =>
          match fst (ReadEOF d) with
          | Done None => Done v
          | Done (Some e) => Raised (Thrown (DError e))
          | Raised e => Raised e
          end
      | r => Raised (Thrown (DError (msg (pretty (Z.of_nat (String.length r)) +:+ " unused trailing bytes"))))
      end
  | (Raised e, _) => Raised e
  end.

(** ** The encoder *)

Definition reflectString (s : string) : string := int_text (Z.of_nat (String.length s)) +:+ ":" +:+ s.

(** The keys of a map are sorted. *)
Definition sort_keys {A} : list (string * A) -> list (string * A) := isort (fun a b => str_leb (fst a) (fst b)).

Definition concat_all (l : list string) : string := foldr String.append "" l.

Definition entry (kv : string * string) : string := reflectString (fst kv) +:+ snd kv.

Fixpoint reflectValue (v : value) : string :=
  match v with
  | Int n => "i" +:+ int_text n +:+ "e"
  | Str s => reflectString s
  | List l => "l" +:+ concat_all (map reflectValue l) +:+ "e"
  | Dict d => "d" +:+ concat_all (map entry (sort_keys (map (fun kv => (fst kv, reflectValue (snd kv))) d))) +:+ "e"
  end.

Definition Marshal : value -> string := reflectValue.

End bencode.
