(* ===== verification/BencodeFacts.v ===== *)
(** * Reading and writing bencode

    The decoder reads back what the encoder wrote ([parse_complete]) and accepts
    nothing else ([parse_sound]). *)

From S2P Require Import Prelude GoErrors GoTime Strconv Bencode.
From Stdlib Require Import ZArith Lia Ascii String.
From stdpp Require Import base strings list sorting.
Import strconv bencode.

Local Open Scope Z_scope.

(** ** Induction on values *)

Section value_induction.
Context (P : value -> Prop).
Context (HInt : forall n, P (Int n)) (HStr : forall s, P (Str s)).
Context (HList : forall l, Forall P l -> P (List l)) (HDict : forall d, Forall (fun kv => P (snd kv)) d -> P (Dict d)).

Fixpoint value_induction (v : value) : P v :=
  match v with
  | Int n => HInt n
  | Str s => HStr s
  | List l => HList l ((fix go l := match l return Forall P l with
                                   | [] => Forall_nil_2 _
                                   | x :: l' => Forall_cons_2 _ _ _ (value_induction x) (go l')
                                   end) l)
  | Dict d => HDict d ((fix go d := match d return Forall (fun kv => P (snd kv)) d with
                                   | [] => Forall_nil_2 _
                                   | kv :: d' => Forall_cons_2 _ _ _ (value_induction (snd kv)) (go d')
                                   end) d)
  end.
End value_induction.

(** ** Strings *)

Lemma take_drop_str n s : str_take n s +:+ str_drop n s = s.
Proof. revert s. induction n as [|n IH]; intros [|c s]; try done. cbn [str_take str_drop]. by rewrite str_app_cons, IH. Qed.

Lemma take_app_str s t : str_take (String.length s) (s +:+ t) = s.
Proof. induction s as [|c s IH]; [by destruct t|]. rewrite str_app_cons. cbn [String.length str_take]. by rewrite IH. Qed.

Lemma drop_app_str s t : str_drop (String.length s) (s +:+ t) = t.
Proof. induction s as [|c s IH]; [by destruct t|]. rewrite str_app_cons. exact IH. Qed.

Lemma concat_all_app l l' : concat_all (l ++ l') = concat_all l +:+ concat_all l'.
Proof. induction l as [|s l IH]; [done|]. cbn [app concat_all foldr]. fold (concat_all (l ++ l')). by rewrite IH, str_app_assoc. Qed.

Lemma concat_all_cons s l : concat_all (s :: l) = s +:+ concat_all l.
Proof. done. Qed.

(** ** Reading a part of the text *)

Definition len (s : string) : Z := Z.of_nat (String.length s).

Lemma len_app s t : len (s +:+ t) = len s + len t.
Proof. unfold len. rewrite str_length_app. lia. Qed.

Lemma len_cons c s : len (String c s) = 1 + len s.
Proof. unfold len. cbn [String.length]. lia. Qed.

(** The decoder after it has read [p], with [t] left and [b] buffered. *)
Definition after (d : Decoder) (p t b : string) : Decoder := mkDecoder (MaxStrLen d) t (ending d) (Offset d + len p) b.

Lemma after_after d p t b p' t' b' : after (after d p t b) p' t' b' = after d (p +:+ p') t' b'.
Proof. unfold after. cbn. rewrite len_app. f_equal. lia. Qed.

Lemma after_nil d : after d "" (rest d) (buf d) = d.
Proof. unfold after. rewrite Z.add_0_r. by destruct d. Qed.

Lemma limit_after d p t b : getMaxStrLen (after d p t b) = getMaxStrLen d.
Proof. done. Qed.

(** [m] reads [p] and answers [a], whatever follows. *)
Definition reads {A} (m : M A) (d : Decoder) (p : string) (a : A) (b : string) : Prop :=
  forall t, rest d = p +:+ t -> m d = (Done a, after d p t b).

Lemma read_until_app sep p t d : absent sep p = true ->
  read_until sep (p +:+ String sep t) d = (Done tt, after d (p +:+ String sep "") t (buf d +:+ p)).
Proof.
  revert d. induction p as [|c p IH]; intros d Ha.
  - rewrite !str_app_nil_l. cbn [read_until]. rewrite decide_True by done. unfold after. by rewrite str_app_nil_r.
  - cbn [absent] in Ha. apply andb_true_iff in Ha as [Hc Ha]. rewrite str_app_cons. cbn [read_until].
    rewrite decide_False by (intros ->; by rewrite bool_decide_eq_true_2 in Hc).
    rewrite IH by done. unfold after, with_buf, with_Offset. cbn. f_equal. f_equal.
    + rewrite str_app_cons, len_cons. lia.
    + by rewrite <-str_app_assoc.
Qed.

Lemma read_until_inv sep s d d' : read_until sep s d = (Done tt, d') ->
  exists p t, s = p +:+ String sep t /\ d' = after d (p +:+ String sep "") t (buf d +:+ p).
Proof.
  revert d. induction s as [|c s IH]; intros d; cbn [read_until]; [done|].
  destruct (decide (c = sep)) as [->|Hc].
  - intros [= <-]. exists "", s. unfold after. by rewrite str_app_nil_r.
  - intros H. apply IH in H as (p & t & -> & ->). exists (String c p), t. split; [done|].
    unfold after, with_buf, with_Offset. cbn. f_equal.
    + rewrite str_app_cons, len_cons. lia.
    + by rewrite <-str_app_assoc.
Qed.

(** ** Canonical values

    What the decoder answers: strings within the limit, and the entries of maps
    in the order of their keys, each of which there is one of. *)

Definition key_lt (a b : string) : Prop := str_leb b a = false.

Fixpoint canonical (limit : Z) (v : value) : Prop :=
  match v with
  | Int _ => True
  | Str s => len s <= limit
  | List l => foldr and True (map (canonical limit) l)
  | Dict d => Sorted key_lt (map fst d) /\ Forall (fun k => len k <= limit) (map fst d) /\
      foldr and True (map (fun kv => canonical limit (snd kv)) d)
  end.

Lemma all_of {A} (P : A -> Prop) l : foldr and True (map P l) <-> Forall P l.
Proof.
  induction l as [|x l IH]; cbn [map foldr]; [split; [by constructor|done]|]. rewrite Forall_cons, IH. done.
Qed.

Lemma Forall_modus {A} (P Q : A -> Prop) l : Forall (fun x => P x -> Q x) l -> Forall P l -> Forall Q l.
Proof. induction 1; intros Hp; inversion Hp; constructor; auto. Qed.

(** ** The decoder accepts only what the encoder writes *)

Lemma bind_done {A B} (m : M A) (f : A -> M B) d b d' : bind m f d = (Done b, d') ->
  exists a d1, m d = (Done a, d1) /\ f a d1 = (Done b, d').
Proof. unfold bind. destruct (m d) as [[a|e] d1]; [|done]. intros H. by exists a, d1. Qed.

Ltac undo :=
  repeat match goal with
         | H : bind _ _ _ = (Done _, _) |- _ => apply bind_done in H as (? & ? & ? & H)
         | H : ret _ _ = (Done _, _) |- _ => injection H as <- <-
         | H : get _ _ = (Done _, _) |- _ => injection H as <- <-
         | H : throw _ _ = (Done _, _) |- _ => discriminate H
         end.

Lemma parseStringLength_inv d z d' : parseStringLength d = (Done (z, None), d') ->
  exists p t, rest d = p +:+ String ":" t /\ d' = after d (p +:+ ":") t "" /\ int_text z = buf d +:+ p /\ z <= getMaxStrLen d.
Proof.
  unfold parseStringLength, readUntil, checkBufferedInt. intros H. undo.
  match goal with H : read_until _ _ _ = (Done ?x, _) |- _ => destruct x; apply read_until_inv in H as (p & t & Hr & ->) end.
  cbn [buf after] in *. destruct (plain_numeral (buf d +:+ p)) eqn:Hp; [|by undo]. undo. cbn [buf after] in *.
  destruct (ParseInt (buf d +:+ p)) as [n|e] eqn:Hn; undo.
  match goal with H : buf_Reset _ = (Done _, _) |- _ => injection H as <- <- end.
  unfold ret in H. rewrite limit_after in H. destruct (Z.ltb_spec (getMaxStrLen d) n); [done|]. injection H as <- <-.
  exists p, t. split_and!; [done|done| |done]. apply ParseInt_plain; [done|by left].
Qed.

Lemma readBytes_inv n d s d' : readBytes n d = (Done s, d') ->
  exists t, rest d = s +:+ t /\ len s = n /\ d' = with_rest d t.
Proof.
  unfold readBytes. destruct (Z.eqb_spec (Z.of_nat (String.length (str_take (Z.to_nat n) (rest d)))) n) as [Hl|]; [|by destruct (is_EOF _)].
  intros [= <- <-]. eexists. split; [symmetry; apply take_drop_str|]. done.
Qed.

Lemma parseStringInterface_inv c d s d' : buf d = String c "" -> is_digit c = true -> parseStringInterface d = (Done s, d') ->
  exists p t, rest d = p +:+ t /\ d' = after d p t "" /\ String c p = reflectString s /\ len s <= getMaxStrLen d.
Proof.
  intros Hb Hc. unfold parseStringInterface. intros H. undo. rename x into r.
  destruct r as [n [err|]]; cbn [fst snd] in *; undo.
  match goal with H : parseStringLength _ = _ |- _ => apply parseStringLength_inv in H as (p & t & Hr & -> & Hn & Hlim) end.
  match goal with H : readBytes _ _ = (Done ?x, _) |- _ => rename x into s; apply readBytes_inv in H as (t' & Ht & Hl & ->) end.
  match goal with H : add_Offset _ _ = _ |- _ => injection H as <- <- end. cbn [rest after] in Ht. subst t.
  exists ((p +:+ ":") +:+ s)%string, t'. split_and!.
  - rewrite Hr. rewrite <-!str_app_assoc. done.
  - unfold with_Offset, with_rest, after. cbn. f_equal. rewrite !len_app. unfold len. lia.
  - unfold reflectString. fold (len s). rewrite Hl, Hn, Hb. by rewrite <-str_app_assoc.
  - by rewrite Hl.
Qed.

Lemma parseIntInterface_inv d n d' : buf d = "" -> parseIntInterface d = (Done n, d') ->
  exists t, rest d = (int_text n +:+ "e") +:+ t /\ d' = after d (int_text n +:+ "e") t "".
Proof.
  intros Hb. unfold parseIntInterface, readInt, readUntil, checkBufferedInt. intros H. undo.
  match goal with H : read_until _ _ _ = (Done ?x, _) |- _ => destruct x; apply read_until_inv in H as (p & t & Hr & ->) end.
  cbn [buf after] in *. rewrite Hb, str_app_nil_l in *. destruct (plain_numeral p) eqn:Hp; undo. cbn [buf after] in *.
  match goal with H : (match ParseInt p with _ => _ end) _ = (Done ?x, ?y) |- _ => rename x into n; rename y into d2; rename H into Hn end.
  match goal with H : buf_Reset _ = _ |- _ => injection H as <- <- end.
  assert (int_text n = p /\ d2 = after d (p +:+ "e") t p) as [-> ->].
  { destruct (ParseInt p) as [m|[]] eqn:Hm; [|by undo|].
    - injection Hn as -> <-. split; [|done]. apply ParseInt_plain; [done|by left].
    - destruct (big_SetString p) as [m|] eqn:Hbig; [|by undo]. injection Hn as -> <-. split; [|done]. apply ParseInt_plain; [done|by right]. }
  exists t. split; [|done]. rewrite Hr. by rewrite <-str_app_assoc.
Qed.

(** A parser of values, which may find the end of a list or map instead. *)
Definition sound (parse : M (option value)) : Prop := forall d r d', buf d = "" -> parse d = (Done r, d') ->
  exists p t, rest d = p +:+ t /\ d' = after d p t "" /\
    match r with None => p = "e"%string | Some v => p = reflectValue v /\ canonical (getMaxStrLen d) v end.

Lemma parse_list_sound parse fuel : sound parse -> forall l0 d l d', buf d = "" -> parse_list parse fuel l0 d = (Done l, d') ->
  exists vs t, l = l0 ++ vs /\ rest d = (concat_all (map reflectValue vs) +:+ "e") +:+ t /\
    d' = after d (concat_all (map reflectValue vs) +:+ "e") t "" /\ Forall (canonical (getMaxStrLen d)) vs.
Proof.
  intros Hs. induction fuel as [|fuel IH]; intros l0 d l d' Hb; cbn [parse_list]; [done|]. intros H.
  apply bind_done in H as (r & d1 & Hr & H). destruct (Hs d r d1 Hb Hr) as (p & t & Hp & -> & Hv). destruct r as [v|].
  - destruct Hv as [-> Hv]. apply IH in H as (vs & t' & -> & Ht & -> & Hvs); [|done]. cbn [rest after] in Ht. subst t.
    exists (v :: vs), t'. rewrite after_after. cbn [map]. rewrite concat_all_cons, <-!app_assoc. split; [done|].
    rewrite Hp. rewrite <-!str_app_assoc. split_and!; [done|done|by constructor].
  - subst p. injection H as <- <-. exists [], t. rewrite app_nil_r. by split_and!.
Qed.

Definition entry_text (kv : string * value) : string := reflectString (fst kv) +:+ reflectValue (snd kv).

Lemma parse_dict_sound parse fuel : sound parse -> forall last d0 d l d', buf d = "" -> parse_dict parse fuel last d0 d = (Done l, d') ->
  exists kvs t, l = d0 ++ kvs /\ rest d = (concat_all (map entry_text kvs) +:+ "e") +:+ t /\
    d' = after d (concat_all (map entry_text kvs) +:+ "e") t "" /\ Sorted key_lt (option_list last ++ map fst kvs) /\
    Forall (fun k => len k <= getMaxStrLen d) (map fst kvs) /\ Forall (fun kv => canonical (getMaxStrLen d) (snd kv)) kvs.
Proof.
  intros Hs. induction fuel as [|fuel IH]; intros last d0 d l d' Hb; cbn [parse_dict]; [done|]. intros H.
  apply bind_done in H as (st & dd & [= <- <-] & H). apply bind_done in H as (r & d1 & Hr & H).
  destruct (Hs d r d1 Hb Hr) as (p & t & Hp & -> & Hv). destruct r as [v|].
  2:{ subst p. injection H as <- <-. exists [], t. rewrite !app_nil_r. split_and!; try done. destruct last; repeat constructor. }
  destruct v as [|key| |]; [by undo| |by undo|by undo]. destruct Hv as [-> Hkey].
  apply bind_done in H as (u & d2 & Hk & H).
  assert (d2 = after d (reflectValue (Str key)) t "" /\ match last with Some k => key_lt k key | None => True end) as [-> Hlast].
  { destruct last as [k|]; [|by injection Hk as _ <-]. unfold key_lt. destruct (str_leb key k); [done|]. by injection Hk as _ <-. }
  apply bind_done in H as (st & dd & [= <- <-] & H). apply bind_done in H as (r & d3 & Hr2 & H).
  destruct (Hs (after d (reflectString key) t "") r d3 eq_refl Hr2) as (p2 & t2 & Hp2 & -> & Hv2). destruct r as [v|]; [|done]. destruct Hv2 as [-> Hv2].
  apply IH in H as (kvs & t' & -> & Ht & -> & Hsort & Hlen & Hvs); [|done]. cbn [rest after] in Ht, Hp2. subst t2 t.
  exists ((key, v) :: kvs), t'. rewrite !after_after. cbn [map fst]. rewrite concat_all_cons, <-!app_assoc. split; [done|].
  rewrite Hp. change (reflectValue (Str key)) with (reflectString key).
  change (entry_text (key, v)) with (reflectString key +:+ reflectValue v). rewrite <-!str_app_assoc.
  split_and!; [done|done| |by constructor|by constructor]. cbn [option_list app] in Hsort. destruct last as [k|]; [|done].
  cbn [option_list app]. constructor; [done|]. by constructor.
Qed.

(** ** Sorting *)

Lemma isort_id {A} (leb : A -> A -> bool) l : Sorted (fun a b => leb a b = true) l -> isort leb l = l.
Proof.
  induction l as [|x l IH]; cbn [isort]; [done|]. intros Hs. apply Sorted_inv in Hs as [Hs Hd]. rewrite (IH Hs).
  destruct l as [|y l]; [done|]. cbn [insert_by]. inversion Hd as [|? ? He]. by rewrite He.
Qed.

Lemma key_lt_le a b : key_lt a b -> str_leb a b = true.
Proof. unfold key_lt. destruct (str_leb_total a b); congruence. Qed.

Lemma sort_keys_id {A} (d : list (string * A)) : Sorted key_lt (map fst d) -> sort_keys d = d.
Proof.
  intros Hs. apply isort_id. induction d as [|x d IH]; [constructor|]. cbn [map] in Hs. apply Sorted_inv in Hs as [Hs Hd].
  constructor; [by apply IH|]. destruct d as [|y d]; constructor. inversion Hd. by apply key_lt_le.
Qed.

Lemma map_entries (d : list (string * value)) : map fst (map (fun kv => (fst kv, reflectValue (snd kv))) d) = map fst d.
Proof. by rewrite map_map. Qed.

Lemma reflect_sorted d : Sorted key_lt (map fst d) -> reflectValue (Dict d) = ("d" +:+ concat_all (map entry_text d) +:+ "e")%string.
Proof. intros Hs. cbn [reflectValue]. rewrite sort_keys_id by by rewrite map_entries. by rewrite map_map. Qed.

Lemma parse_sound fuel : sound (parseValueInterface fuel).
Proof.
  induction fuel as [|fuel IH]; intros d r d' Hb; cbn [parseValueInterface]; [done|]. intros H.
  apply bind_done in H as (b & d1 & Hr & H). unfold ReadByte in Hr.
  destruct (rest d) as [|c s] eqn:Er; injection Hr as <- <-; [by undo|].
  apply bind_done in H as (u & d2 & Hu & H). injection Hu as <- <-.
  assert (with_Offset (with_rest d s) (Offset d + 1) = after d (String c "") s "") as Hd2.
  { unfold after, with_Offset, with_rest. cbn. by rewrite Hb. }
  rewrite Hd2 in H. clear Hd2. destruct (decide (c = "e"%char)) as [->|He]; [|destruct (decide (c = "d"%char)) as [->|Hdd];
    [|destruct (decide (c = "l"%char)) as [->|Hl]; [|destruct (decide (c = "i"%char)) as [->|Hi]]]].
  - injection H as <- <-. by exists "e"%string, s.
  - apply bind_done in H as (l & d3 & Hp & H). injection H as <- <-.
    apply (parse_dict_sound _ _ IH) in Hp as (kvs & t & -> & Ht & -> & Hs & Hk & Hv); [|done]. cbn [rest after] in Ht. subst s.
    exists (String "d" (concat_all (map entry_text kvs) +:+ "e")), t. rewrite after_after. cbn [app option_list] in *. split; [done|]. split; [done|].
    split; [by rewrite reflect_sorted|]. cbn [canonical]. by rewrite all_of.
  - apply bind_done in H as (l & d3 & Hp & H). injection H as <- <-.
    apply (parse_list_sound _ _ IH) in Hp as (vs & t & -> & Ht & -> & Hv); [|done]. cbn [rest after] in Ht. subst s.
    exists (String "l" (concat_all (map reflectValue vs) +:+ "e")), t. rewrite after_after. cbn [app] in *. split; [done|]. split; [done|].
    split; [done|]. cbn [canonical]. by rewrite all_of.
  - apply bind_done in H as (m & d3 & Hp & H). injection H as <- <-.
    apply parseIntInterface_inv in Hp as (t & Ht & ->); [|done]. cbn [rest after] in Ht. subst s.
    exists (String "i" (int_text m +:+ "e")), t. rewrite after_after. split; [done|]. by split_and!.
  - unfold is_digit_byte in H. destruct (is_digit c) eqn:Hc; [|undo; discriminate].
    apply bind_done in H as (w & d3 & Hw & H). injection Hw as <- <-. apply bind_done in H as (x & d3 & Hp & H). injection H as <- <-.
    apply (parseStringInterface_inv c) in Hp as (p & t & Ht & -> & Hx & Hlim); [|done|done]. cbn [rest after with_buf] in Ht. subst s.
    exists (String c p), t. split; [done|]. split; [|by split].
    unfold with_buf, after. cbn. rewrite len_cons. f_equal. unfold len. cbn. lia.
Qed.

(** ** The decoder reads back what the encoder wrote *)

Lemma parseStringLength_complete n c p t d : 0 <= n <= getMaxStrLen d -> getMaxStrLen d <= maxInt64 ->
  buf d = String c "" -> int_text n = String c p -> rest d = p +:+ String ":" t ->
  parseStringLength d = (Done (n, None), after d (p +:+ ":") t "").
Proof.
  intros Hn Hmax Hb Ht Hr. assert (absent ":" p = true) as Ha.
  { pose proof (int_text_absent ":" n eq_refl ltac:(done)) as Ha. rewrite Ht in Ha. by apply andb_true_iff in Ha as [_ ?]. }
  unfold parseStringLength, bind, readUntil, checkBufferedInt, get, buf_Reset, ret. rewrite Hr, read_until_app by done.
  cbn [buf after]. rewrite Hb. change (String c "" +:+ p) with (String c p). rewrite <-Ht, plain_int_text. cbn [buf after].
  rewrite ParseInt_text.
  rewrite !(proj2 (Z.leb_le _ _)) by (unfold minInt64; lia). cbn [andb]. rewrite limit_after.
  destruct (Z.ltb_spec (getMaxStrLen d) n); [lia|]. done.
Qed.

Lemma readBytes_complete s t d : rest d = s +:+ t -> readBytes (len s) d = (Done s, with_rest d t).
Proof. intros Hr. unfold readBytes, len. rewrite Hr, Nat2Z.id, take_app_str, drop_app_str, Z.eqb_refl. done. Qed.

Lemma parseStringInterface_complete s c p t d : len s <= getMaxStrLen d -> getMaxStrLen d <= maxInt64 ->
  buf d = String c "" -> reflectString s = String c p -> is_digit c = true -> rest d = p +:+ t ->
  parseStringInterface d = (Done s, after d p t "").
Proof.
  intros Hs Hmax Hb Ht Hc Hr. unfold reflectString in Ht. destruct (int_text_digit (len s)) as (c' & q & Hq & _); [unfold len; lia|].
  fold (len s) in Ht. rewrite Hq in Ht. injection Ht as -> <-.
  unfold parseStringInterface, bind. rewrite (parseStringLength_complete (len s) c q (s +:+ t)); [|unfold len in *; lia|done|done|done|].
  2:{ rewrite Hr. by rewrite <-!str_app_assoc. }
  cbn [fst snd]. rewrite (readBytes_complete s t) by done. unfold add_Offset, ret. f_equal.
  unfold with_Offset, with_rest, after. cbn. f_equal. fold (len s). rewrite !len_app. unfold len. cbn. lia.
Qed.

Lemma parseIntInterface_complete n t d : buf d = "" -> rest d = (int_text n +:+ "e") +:+ t ->
  parseIntInterface d = (Done n, after d (int_text n +:+ "e") t "").
Proof.
  intros Hb Hr. rewrite <-str_app_assoc in Hr. unfold parseIntInterface, readInt, bind, readUntil, checkBufferedInt, get, buf_Reset, ret.
  rewrite Hr. change ("e" +:+ t)%string with (String "e" t). rewrite read_until_app by by apply int_text_absent.
  cbn [buf after]. rewrite Hb, str_app_nil_l, plain_int_text. cbn [buf after].
  rewrite ParseInt_text, big_SetString_text. by destruct (_ && _).
Qed.

Definition reads_back (parse : M (option value)) (v : value) : Prop := forall d t, buf d = "" -> getMaxStrLen d <= maxInt64 ->
  canonical (getMaxStrLen d) v -> rest d = reflectValue v +:+ t -> parse d = (Done (Some v), after d (reflectValue v) t "").

Definition reads_end (parse : M (option value)) : Prop := forall d t, buf d = "" ->
  rest d = String "e" t -> parse d = (Done None, after d "e" t "").

Lemma parse_list_complete parse vs : reads_end parse -> Forall (reads_back parse) vs -> forall fuel l0 d t,
  (length vs < fuel)%nat -> buf d = "" -> getMaxStrLen d <= maxInt64 -> Forall (canonical (getMaxStrLen d)) vs ->
  rest d = (concat_all (map reflectValue vs) +:+ "e") +:+ t ->
  parse_list parse fuel l0 d = (Done (l0 ++ vs), after d (concat_all (map reflectValue vs) +:+ "e") t "").
Proof.
  intros He Hvs. induction Hvs as [|v vs Hv _ IH]; intros [|fuel] l0 d t Hf Hb Hm Hc Hr; try (cbn in Hf; lia); cbn [parse_list].
  - unfold bind. rewrite (He d t) by done. by rewrite app_nil_r.
  - apply Forall_cons in Hc as [Hcv Hc]. cbn [map] in *. rewrite concat_all_cons in *. rewrite <-!str_app_assoc in Hr.
    unfold bind. rewrite (Hv d _ Hb Hm Hcv Hr). rewrite (IH fuel _ _ t); [|cbn in Hf; lia|done|done|done|by rewrite <-str_app_assoc].
    rewrite after_after, <-app_assoc, <-str_app_assoc. done.
Qed.

Definition after_key (last : option string) (keys : list string) : Prop := Sorted key_lt (option_list last ++ keys).

Lemma after_key_cons last k keys : after_key last (k :: keys) ->
  match last with Some l => str_leb k l = false | None => True end /\ after_key (Some k) keys.
Proof.
  unfold after_key. destruct last as [l|]; cbn [option_list app]; [|done].
  intros [Hs Hd]%Sorted_inv. split; [by inversion Hd|done].
Qed.

Lemma parse_dict_complete parse kvs : reads_end parse -> Forall (fun kv => reads_back parse (Str (fst kv)) /\ reads_back parse (snd kv)) kvs ->
  forall fuel last d0 d t, (length kvs < fuel)%nat -> buf d = "" -> getMaxStrLen d <= maxInt64 -> after_key last (map fst kvs) ->
  Forall (fun k => len k <= getMaxStrLen d) (map fst kvs) -> Forall (fun kv => canonical (getMaxStrLen d) (snd kv)) kvs ->
  rest d = (concat_all (map entry_text kvs) +:+ "e") +:+ t ->
  parse_dict parse fuel last d0 d = (Done (d0 ++ kvs), after d (concat_all (map entry_text kvs) +:+ "e") t "").
Proof.
  intros He Hvs. induction Hvs as [|[k v] kvs [Hk Hv] _ IH]; intros [|fuel] last d0 d t Hf Hb Hm Hs Hkl Hc Hr;
    try (cbn in Hf; lia); cbn [parse_dict].
  - unfold bind, get. rewrite (He d t) by done. by rewrite app_nil_r.
  - cbn [map fst snd] in *. apply after_key_cons in Hs as [Hlast Hs]. apply Forall_cons in Hkl as [Hk1 Hkl]. apply Forall_cons in Hc as [Hcv Hc].
    rewrite concat_all_cons in *. change (entry_text (k, v)) with (reflectValue (Str k) +:+ reflectValue v) in *.
    rewrite <-!str_app_assoc in Hr. unfold bind at 1 2, get at 1. rewrite (Hk d _ Hb Hm Hk1 Hr).
    set (d1 := after d _ _ _). assert ((match last with
      | Some l => if str_leb k l then throw (SyntaxError (Offset d) (msg ("dict keys unsorted: " +:+ quote k +:+ " <= " +:+ quote l))) else ret tt
      | None => ret tt end) d1 = (Done tt, d1)) as Hok by (destruct last; [by rewrite Hlast|done]).
    unfold bind at 1. rewrite Hok. unfold bind, get. rewrite (Hv d1 _ eq_refl Hm Hcv eq_refl).
    rewrite (IH fuel _ _ _ t); [|cbn in Hf; lia|done|done|done|done|done|by rewrite <-str_app_assoc].
    unfold d1. rewrite !after_after, <-app_assoc, <-!str_app_assoc. done.
Qed.

(** *** The fuel that the text of a value takes *)

Lemma concat_all_length l s : s ∈ l -> (String.length s <= String.length (concat_all l))%nat.
Proof.
  induction 1 as [s l|s x l _ IH]; rewrite concat_all_cons, str_length_app; lia.
Qed.

Lemma reflectString_length s : (2 <= String.length (reflectString s))%nat.
Proof.
  unfold reflectString. destruct (int_text_digit (Z.of_nat (String.length s))) as (c & p & -> & _); [lia|].
  rewrite str_app_cons. cbn [String.length]. rewrite !str_length_app. cbn [String.length]. lia.
Qed.

Lemma reflectValue_length v : (2 <= String.length (reflectValue v))%nat.
Proof.
  destruct v; [|apply reflectString_length|..]; cbn [reflectValue]; rewrite str_app_cons; cbn [String.length];
    rewrite !str_length_app; cbn; lia.
Qed.

Lemma concat_all_count {A} (f : A -> string) l : (forall x, 1 <= String.length (f x))%nat ->
  (length l <= String.length (concat_all (map f l)))%nat.
Proof.
  intros Hf. induction l as [|x l IH]; [done|]. cbn [map length]. rewrite concat_all_cons, str_length_app. specialize (Hf x). lia.
Qed.

Lemma entry_length k v : String.length (entry_text (k, v)) = (String.length (reflectString k) + String.length (reflectValue v))%nat.
Proof. apply str_length_app. Qed.

Lemma value_text_length v : (1 <= String.length (reflectValue v))%nat.
Proof. pose proof (reflectValue_length v). lia. Qed.

Lemma entry_text_length kv : (1 <= String.length (entry_text kv))%nat.
Proof. destruct kv as [k v]. rewrite entry_length. pose proof (reflectValue_length v). lia. Qed.

(** The first byte tells what follows. *)
Local Open Scope bencode_scope.
Definition dispatch (fuel : nat) (b : ascii) : M (option value) :=
  if decide (b = "e"%char) then ret None
  else if decide (b = "d"%char) then d <- parse_dict (parseValueInterface fuel) fuel None [];;; ret (Some (Dict d))
  else if decide (b = "l"%char) then l <- parse_list (parseValueInterface fuel) fuel [];;; ret (Some (List l))
  else if decide (b = "i"%char) then n <- parseIntInterface;;; ret (Some (Int n))
  else if is_digit_byte b then WriteByte b;;; s <- parseStringInterface;;; ret (Some (Str s))
  else offset <- get Offset;;; raiseUnknownValueType b (offset - 1).

Lemma parse_step fuel d c s : buf d = "" -> rest d = String c s ->
  parseValueInterface (S fuel) d = dispatch fuel c (after d (String c "") s "").
Proof.
  intros Hb Hr. cbn [parseValueInterface]. unfold bind at 1, ReadByte. rewrite Hr. unfold bind at 1, add_Offset.
  assert (with_Offset (with_rest d s) (Offset (with_rest d s) + 1) = after d (String c "") s "") as ->; [|done].
  unfold after, with_Offset, with_rest. cbn. by rewrite Hb.
Qed.

Lemma parse_step_end fuel d : rest d = "" -> parseValueInterface (S fuel) d = (Raised (Thrown (DError (ending d))), d).
Proof. intros Hr. cbn [parseValueInterface]. unfold bind at 1, ReadByte. by rewrite Hr. Qed.

Lemma parse_reads_end fuel : reads_end (parseValueInterface (S fuel)).
Proof. intros d t Hb Hr. by rewrite (parse_step _ _ _ _ Hb Hr). Qed.

Lemma dispatch_str fuel s c p t d : is_digit c = true -> buf d = "" -> len s <= getMaxStrLen d -> getMaxStrLen d <= maxInt64 ->
  reflectString s = String c p ->
  dispatch fuel c (after d (String c "") (p +:+ t) "") = (Done (Some (Str s)), after d (reflectString s) t "").
Proof.
  intros Hd Hb Hs Hm Hp. unfold dispatch. rewrite !decide_False by (intros ->; discriminate Hd). unfold is_digit_byte. rewrite Hd.
  unfold bind, WriteByte, ret. rewrite (parseStringInterface_complete s c p t) by done. rewrite Hp. f_equal.
  unfold with_buf, after. cbn. f_equal. rewrite len_cons. unfold len. cbn. lia.
Qed.

Lemma dispatch_list fuel vs t d : buf d = "" -> getMaxStrLen d <= maxInt64 -> canonical (getMaxStrLen d) (List vs) ->
  (String.length (reflectValue (List vs)) <= S fuel)%nat -> (forall v, v ∈ vs -> (String.length (reflectValue v) < fuel)%nat -> reads_back (parseValueInterface fuel) v) ->
  dispatch fuel "l" (after d "l" ((concat_all (map reflectValue vs) +:+ "e") +:+ t) "") = (Done (Some (List vs)), after d (reflectValue (List vs)) t "").
Proof.
  intros Hb Hm Hc%all_of Hf IH. cbn [reflectValue] in *. rewrite str_app_cons, str_app_nil_l in Hf. cbn [String.length] in Hf.
  rewrite str_length_app in Hf. cbn in Hf. destruct fuel as [|fuel]; [lia|].
  change (dispatch (S fuel) "l") with (l <- parse_list (parseValueInterface (S fuel)) (S fuel) [];;; ret (Some (List l))).
  unfold bind. rewrite (parse_list_complete _ vs (parse_reads_end fuel)) with (t := t); [|..]; try done.
  - by rewrite after_after.
  - apply Forall_forall. intros v Hv. apply IH; [done|].
    pose proof (concat_all_length (map reflectValue vs) (reflectValue v) ltac:(by apply list_elem_of_fmap_2)). lia.
  - pose proof (concat_all_count reflectValue vs value_text_length). lia.
Qed.

Lemma dispatch_dict fuel kvs t d : buf d = "" -> getMaxStrLen d <= maxInt64 -> canonical (getMaxStrLen d) (Dict kvs) ->
  (String.length (concat_all (map entry_text kvs)) < fuel)%nat ->
  (forall v, (String.length (reflectValue v) < fuel)%nat -> reads_back (parseValueInterface fuel) v) ->
  dispatch fuel "d" (after d "d" ((concat_all (map entry_text kvs) +:+ "e") +:+ t) "") = (Done (Some (Dict kvs)), after d (reflectValue (Dict kvs)) t "").
Proof.
  intros Hb Hm (Hs & Hk & Hv%all_of) Hf IH. rewrite reflect_sorted by done. destruct fuel as [|fuel]; [lia|].
  change (dispatch (S fuel) "d") with (d <- parse_dict (parseValueInterface (S fuel)) (S fuel) None [];;; ret (Some (Dict d))).
  unfold bind. rewrite (parse_dict_complete _ kvs (parse_reads_end fuel)) with (t := t); [|..]; try done.
  - by rewrite after_after.
  - apply Forall_forall. intros [k v] Hkv.
    pose proof (concat_all_length (map entry_text kvs) (entry_text (k, v)) ltac:(by apply list_elem_of_fmap_2)) as Hl.
    rewrite entry_length in Hl. split; apply IH; cbn [fst snd reflectValue]; lia.
  - pose proof (concat_all_count entry_text kvs entry_text_length). lia.
Qed.

Lemma parse_complete fuel v : (String.length (reflectValue v) < fuel)%nat -> reads_back (parseValueInterface fuel) v.
Proof.
  revert v. induction fuel as [|fuel IH]; intros v Hf d t Hb Hm Hc Hr; [lia|]. destruct v as [n|s|vs|kvs].
  - rewrite (parse_step fuel d "i" ((int_text n +:+ "e") +:+ t) Hb Hr).
    change (dispatch fuel "i") with (n <- parseIntInterface;;; ret (Some (Int n))). unfold bind.
    rewrite (parseIntInterface_complete n t) by done. by rewrite after_after.
  - cbn [reflectValue canonical] in *. destruct (int_text_digit (len s)) as (c & q & Hq & Hd); [unfold len; lia|].
    assert (reflectString s = String c (q +:+ ":" +:+ s)) as Hs by (unfold reflectString; fold (len s); by rewrite Hq).
    rewrite Hs in Hr. rewrite (parse_step fuel d c ((q +:+ ":" +:+ s) +:+ t) Hb Hr). by apply dispatch_str.
  - rewrite (parse_step fuel d "l" ((concat_all (map reflectValue vs) +:+ "e") +:+ t) Hb Hr). apply dispatch_list; [done|done|done|lia|auto].
  - pose proof (reflect_sorted kvs (proj1 Hc)) as Ht. rewrite Ht in Hr, Hf.
    rewrite (parse_step fuel d "d" ((concat_all (map entry_text kvs) +:+ "e") +:+ t) Hb Hr).
    rewrite str_app_cons, str_app_nil_l in Hf. cbn [String.length] in Hf. rewrite str_length_app in Hf. apply dispatch_dict; [done|done|done|cbn in Hf; lia|done].
Qed.
