(* ===== verification/BencodeTypes.v ===== *)
(** * Decoding bencode into Go variables

    [bencode.Unmarshal] into a variable of a type (src/licenses/github.com/
    anacrolix/torrent/bencode/decode.go): what the code finds out by reflection
    is a [gtype] here, and a variable of it a [gvalue]. The decoder writes into
    new variables only, so that a parser answers with the variable as it is
    when the parser returns. The pieces of the decoder that do not depend on
    the type are in [Bencode.v]. *)

From S2P Require Import Prelude GoErrors GoTime Strconv Bencode.
From Stdlib Require Import ZArith Lia Ascii String.
From stdpp Require Import base strings list pretty.

Local Open Scope Z_scope.

Module decoder.
Import strconv bencode.
Local Open Scope bencode_scope.

(** ** Variables *)

(** A slice or map may be [nil]. *)
Inductive gvalue : Type :=
| GInt (n : Z)
| GBool (b : bool)
| GString (s : string)
| GBytes (s : string)
| GSlice (l : option (list gvalue))
| GMap (m : option (list (string * gvalue)))
| GStruct (fs : list (string * gvalue))
| GPtr (p : option gvalue).

(** A type with a method [UnmarshalBencode] comes with its zero value and what
    the method answers; the fields of a struct, by the keys of their tags, with
    whether they [ignore_unmarshal_type_error]. *)
Inductive gtype : Type :=
| TInt (bits : Z)
| TUint (bits : Z)
| TBool
| TString
| TBytes
| TSlice (elem : gtype)
| TMap (elem : gtype)
| TStruct (fields : list (string * (gtype * bool)))
| TPtr (elem : gtype)
| TUnmarshaler (zero : gvalue) (UnmarshalBencode : string -> ran gvalue).

Fixpoint zero (t : gtype) : gvalue :=
  match t with
  | TInt _ | TUint _ => GInt 0
  | TBool => GBool false
  | TString => GString ""
  | TBytes => GBytes ""
  | TSlice _ => GSlice None
  | TMap _ => GMap None
  | TStruct fs => GStruct (map (fun f => (fst f, zero (fst (snd f)))) fs)
  | TPtr _ => GPtr None
  | TUnmarshaler z _ => z
  end.

(** The variable, whether there was a value, and the error that is returned. *)
Definition parsed : Type := (gvalue * (bool * option derror))%type.

Definition done (g : gvalue) : M parsed := ret (g, (true, None)).
Definition returned (g : gvalue) (e : derror) : M parsed := ret (g, (true, Some e)).

(** ** Values as they are *)

Definition UnreadByte (b : ascii) : M unit := fun d => (Done tt, with_rest d (String b (rest d))).

Definition readByte : M ascii :=
  r <- ReadByte;;;
  match r with
  | Ok b => add_Offset 1;;; ret b
  | Err e => offset <- get Offset;;; throw (ended e offset)
  end.

Fixpoint read_values (read : M bool) (fuel : nat) : M unit :=
  match fuel with
  | O => fun d => (Raised NoFuel, d)
  | S fuel' => ok <- read;;; if ok : bool then read_values read fuel' else ret tt
  end.

Definition WriteString (s : string) : M unit := fun d => (Done tt, with_buf d (buf d +:+ s)).

(** [io.CopyN] into the buffer. *)
Definition CopyN (length : Z) : M unit := fun d =>
  let n := Z.to_nat length in
  let b := str_take n (rest d) in
  let read := Z.of_nat (String.length b) in
  let d' := mkDecoder (MaxStrLen d) (str_drop n (rest d)) (ending d) (Offset d + read) (buf d +:+ b) in
  if read =? length then (Done tt, d')
  else (Raised (Thrown (if is_EOF (ending d) then SyntaxError (Offset d') ErrUnexpectedEOF
                        else SyntaxError (Offset d') (Wrapped "unexpected I/O error: " (ending d)))), d').

Fixpoint readOneValue (fuel : nat) : M bool :=
  match fuel with
  | O => fun d => (Raised NoFuel, d)
  | S fuel' =>
      r <- ReadByte;;;
      match r with
      | Err err => throw (DError err)
      | Ok b =>
          if decide (b = "e"%char) then UnreadByte b;;; ret false
          else
            add_Offset 1;;;
            WriteByte b;;;
            if decide (b = "d"%char \/ b = "l"%char) then
              read_values (readOneValue fuel') fuel';;;
              b' <- readByte;;; WriteByte b';;; ret true
            else if decide (b = "i"%char) then readUntil "e";;; WriteString "e";;; ret true
            else if is_digit_byte b then
              start <- get (fun d => (String.length (buf d) - 1)%nat);;;
              readUntil ":";;;
              n <- get (fun d => str_drop start (buf d));;;
              match ParseInt n with
              | Err ne => offset <- get Offset;;; throw (SyntaxError (offset - 1) (msg (num_error "ParseInt" n ne)))
              | Ok length => WriteString ":";;; CopyN length;;; ret true
              end
            else offset <- get Offset;;; raiseUnknownValueType b (offset - 1)
      end
  end.

(** [None] when the type has no method, and when there is no value. *)
Definition parseUnmarshaler (fuel : nat) (t : gtype) : M (option gvalue) :=
  match t with
  | TUnmarshaler _ f =>
      buf_Reset;;;
      ok <- readOneValue fuel;;;
      if ok : bool then
        b <- get buf;;;
        match f b with
        | Done g => ret (Some g)
        | Raised (Thrown e) => throw (UnmarshalerError e)
        | Raised NoFuel => fun d => (Raised NoFuel, d)
        end
      else ret None
  | _ => ret None
  end.

(** ** Values of a type *)

Definition fits_int (bits n : Z) : bool := (- 2 ^ (bits - 1) <=? n) && (n <? 2 ^ (bits - 1)).
Definition fits_uint (bits n : Z) : bool := (0 <=? n) && (n <? 2 ^ bits).

Definition parseInt (t : gtype) : M parsed :=
  offset <- get Offset;;;
  let start := offset - 1 in
  e <- readInt;;;
  match e with
  | Some err => returned (zero t) (DError err)
  | None =>
      s <- get buf;;;
      match t with
      | TInt bits =>
          match ParseInt s with
          | Err ne => throw (SyntaxError start (msg (num_error "ParseInt" s ne)))
          | Ok n => if fits_int bits n then buf_Reset;;; done (GInt n) else returned (zero t) (UnmarshalTypeError "int")
          end
      | TUint bits =>
          match ParseUint s with
          | Err ne => throw (SyntaxError start (msg (num_error "ParseUint" s ne)))
          | Ok n => if fits_uint bits n then buf_Reset;;; done (GInt n) else returned (zero t) (UnmarshalTypeError "int")
          end
      | TBool => buf_Reset;;; done (GBool (negb (bool_decide (s = "0"))))
      | _ => returned (zero t) (UnmarshalTypeError "int")
      end
  end.

(** [io.ReadFull]. *)
Definition readFull (length : Z) : M string := fun d =>
  let n := Z.to_nat length in
  let b := str_take n (rest d) in
  let read := Z.of_nat (String.length b) in
  let d' := with_Offset (with_rest d (str_drop n (rest d))) (Offset d + read) in
  if read =? length then (Done b, d')
  else
    let err := if is_EOF (ending d) then (if read =? 0 then EOF else ErrUnexpectedEOF) else ending d in
    (Raised (Thrown (if is_EOF err then SyntaxError (Offset d') ErrUnexpectedEOF
                     else SyntaxError (Offset d') (Wrapped "unexpected I/O error: " err))), d').

(** [strconv.ParseBool]. *)
Definition ParseBool (s : string) : option bool :=
  if decide (s ∈ ["1"; "t"; "T"; "true"; "TRUE"; "True"]) then Some true
  else if decide (s ∈ ["0"; "f"; "F"; "false"; "FALSE"; "False"]) then Some false
  else None.

Definition parseString (t : gtype) : M parsed :=
  r <- parseStringLength;;;
  match r with
  | (_, Some err) => returned (zero t) (DError err)
  | (length, None) =>
      b <- readFull length;;;
      buf_Reset;;;
      match t with
      | TString => done (GString b)
      | TBytes => done (GBytes b)
      | TBool => done (GBool (default (negb (length =? 0)) (ParseBool b)))
      | _ => returned (zero t) (UnmarshalTypeError "string")
      end
  end.

(** The variables of a slice; [parse] those of its elements. *)
Fixpoint parse_elems (parse : M parsed) (fuel : nat) (l : list gvalue) : M (list gvalue * option derror) :=
  match fuel with
  | O => fun d => (Raised NoFuel, d)
  | S fuel' =>
      r <- parse;;;
      match r with
      | (g, (_, Some err)) => ret (l ++ [g], Some err)
      | (_, (false, None)) => ret (l, None)
      | (g, (true, None)) => parse_elems parse fuel' (l ++ [g])
      end
  end.

Definition byte_of (g : gvalue) : ascii := match g with GInt n => ascii_of_N (Z.to_N n) | _ => "000"%char end.
Definition bytes_of (l : list gvalue) : string := string_of_list_ascii (map byte_of l).

(** A list with one element will do for anything but a slice. *)
Definition parseList (parse : gtype -> M parsed) (fuel : nat) (t : gtype) : M parsed :=
  match t with
  | TSlice elem => r <- parse_elems (parse elem) fuel [];;; ret (GSlice (Some (fst r)), (true, snd r))
  | TBytes => r <- parse_elems (parse (TUint 8)) fuel [];;; ret (GBytes (bytes_of (fst r)), (true, snd r))
  | _ =>
      r <- parse_elems (parse t) fuel [];;;
      match r with
      | (_, Some err) => returned (zero t) err
      | ([g], None) => done g
      | (_, None) => returned (zero t) (UnmarshalTypeError "list")
      end
  end.

Definition assoc_get {A} (key : string) (l : list (string * A)) : option A :=
  snd <$> List.find (fun kv => bool_decide (fst kv = key)) l.

Fixpoint assoc_set {A} (key : string) (x : A) (l : list (string * A)) : list (string * A) :=
  match l with
  | [] => [(key, x)]
  | (k, y) :: l' => if decide (k = key) then (key, x) :: l' else (k, y) :: assoc_set key x l'
  end.

(** What a key of the dictionary stands for: nothing, in a struct without a
    field for it. *)
Definition getDictField (t : gtype) (key : string) : option (gtype * bool) :=
  match t with
  | TMap elem => Some (elem, false)
  | TStruct fs => assoc_get key fs
  | _ => None
  end.

Definition set_field (g : gvalue) (key : string) (x : gvalue) : gvalue :=
  match g with
  | GMap m => GMap (Some (assoc_set key x (default [] m)))
  | GStruct fs => GStruct (assoc_set key x fs)
  | _ => g
  end.

(** [errors.As] for [*UnmarshalTypeError]. *)
Fixpoint is_type_error (e : derror) : bool :=
  match e with
  | UnmarshalTypeError _ => true
  | DWrap _ e' => is_type_error e'
  | _ => false
  end.

Fixpoint parse_fields (parse : gtype -> M parsed) (parse_any : M (option value)) (fuel : nat) (t : gtype) (g : gvalue) : M parsed :=
  match fuel with
  | O => fun d => (Raised NoFuel, d)
  | S fuel' =>
      r <- parse TString;;;
      match r with
      | (_, (_, Some err)) => returned g (DWrap "error parsing dict key: " err)
      | (_, (false, None)) => done g
      | (k, (true, None)) =>
          let key := match k with GString s => s | _ => "" end in
          match getDictField t key with
          | None =>
              v <- parse_any;;;
              match v with
              | None => returned g (DError (msg ("error parsing value for key " +:+ quote key)))
              | Some _ => parse_fields parse parse_any fuel' t g
              end
          | Some (field, ignore) =>
              r <- parse field;;;
              let '(x, (ok, err)) := r in
              match err with
              | Some e =>
                  if is_type_error e && ignore
                  then if ok then parse_fields parse parse_any fuel' t (set_field g key x)
                       else returned g (DError (msg ("missing value for key " +:+ quote key)))
                  else returned g (DWrap ("parsing value for key " +:+ quote key +:+ ": ") e)
              | None =>
                  if ok then parse_fields parse parse_any fuel' t (set_field g key x)
                  else returned g (DError (msg ("missing value for key " +:+ quote key)))
              end
          end
      end
  end.

Definition parseDict (parse : gtype -> M parsed) (parse_any : M (option value)) (fuel : nat) (t : gtype) : M parsed :=
  match t with
  | TMap _ | TStruct _ => parse_fields parse parse_any fuel t (zero t)
  | _ => returned (zero t) (DError (msg "cannot parse dicts into this type"))
  end.

(** What follows the pointer of [parseValue]. *)
Definition parse_direct (parse : gtype -> M parsed) (fuel : nat) (t : gtype) : M parsed :=
  u <- parseUnmarshaler fuel t;;;
  match u with
  | Some g => done g
  | None =>
      r <- ReadByte;;;
      match r with
      | Err err => ret (zero t, (false, Some (DError err)))
      | Ok b =>
          add_Offset 1;;;
          if decide (b = "e"%char) then ret (zero t, (false, None))
          else if decide (b = "d"%char) then parseDict parse (parseValueInterface fuel) fuel t
          else if decide (b = "l"%char) then parseList parse fuel t
          else if decide (b = "i"%char) then parseInt t
          else if is_digit_byte b then buf_Reset;;; WriteByte b;;; parseString t
          else offset <- get Offset;;; raiseUnknownValueType b (offset - 1)
      end
  end.

(** One level of pointers is followed. *)
Fixpoint parseValue (fuel : nat) (t : gtype) : M parsed :=
  match fuel with
  | O => fun d => (Raised NoFuel, d)
  | S fuel' =>
      match t with
      | TPtr elem => r <- parse_direct (parseValue fuel') fuel' elem;;; ret (GPtr (Some (fst r)), snd r)
      | _ => parse_direct (parseValue fuel') fuel' t
      end
  end.

(** The end of the text is an error of its own only between values. *)
Definition Decode_into (t : gtype) : M gvalue := fun d =>
  match parseValue (S (S (fuel_for d))) t d with
  | (Done (_, (_, Some err)), d') => (Raised (Thrown err), d')
  | (Done (g, (true, None)), d') => (Done g, d')
  | (Done (_, (false, None)), d') => (Raised (Thrown (SyntaxError (Offset d' - 1) (msg "unexpected 'e'"))), d')
  | (Raised e, d') => (recovered (Raised e), d')
  end.

Definition Unmarshal_into (t : gtype) (data : string) : ran gvalue :=
  match Decode_into t (NewDecoder data EOF) with
  | (Done g, d) =>
      match rest d with
      | "" => match fst (ReadEOF d) with
              | Done None => Done g
              | Done (Some e) => Raised (Thrown (DError e))
              | Raised e => Raised e
              end
      | r => Raised (Thrown (DError (msg (pretty (Z.of_nat (String.length r)) +:+ " unused trailing bytes"))))
      end
  | (Raised e, _) => Raised e
  end.

(** ** As errors of the program *)

Fixpoint failure_error (e : failure) : error :=
  match e with
  | EOF => ESentinel IoEOF
  | Text s => EOpaque s
  | Wrapped pre e' => EWrap pre (failure_error e') ""
  end.

Fixpoint error_of (e : derror) : error :=
  match e with
  | SyntaxError offset what => EOpaque ("bencode: syntax error (offset: " +:+ pretty offset +:+ "): " +:+ error_text (failure_error what))
  | UnmarshalTypeError name => EOpaque ("can't unmarshal a bencode " +:+ name)
  | UnmarshalerError e' => EOpaque ("bencode: error calling UnmarshalBencode: " +:+ error_text (error_of e'))
  | DError e' => failure_error e'
  | DWrap pre e' => EWrap pre (error_of e') ""
  end.

End decoder.
