(* ===== verification/BencodeFuel.v ===== *)
(** * The decoders of bencode come to an end

    What a part of a decoder does to the text: it reads a part of it, at least
    a byte in the cases that loops go on, and never runs out of fuel when there
    is more fuel than text. *)

From S2P Require Import Prelude GoErrors GoTime Strconv Bencode BencodeFacts BencodeTypes.
From Stdlib Require Import ZArith Lia Ascii String.
From stdpp Require Import base strings list sorting.
Import strconv bencode decoder.

Local Open Scope Z_scope.
Local Open Scope bencode_scope.

(** On texts of up to [n] bytes, [m] reads a part of the text, not an empty one
    when its answer is in [P], or throws; it has enough fuel. *)
Definition runs {A} (n : nat) (P : A -> Prop) (m : M A) : Prop := forall d, (String.length (rest d) <= n)%nat ->
  match m d with
  | (Done a, d') => (exists p, rest d = p +:+ rest d') /\ (P a -> (String.length (rest d') < String.length (rest d))%nat)
  | (Raised (Thrown _), _) => True
  | (Raised NoFuel, _) => False
  end.

Definition never {A} : A -> Prop := fun _ => False.
Notation reads_on n m := (runs n never m).

Lemma runs_weaken {A} n k (P Q : A -> Prop) m : runs n P m -> (k <= n)%nat -> (forall a, Q a -> P a) -> runs k Q m.
Proof.
  intros Hm Hk HQ d Hd. specialize (Hm d ltac:(lia)). destruct (m d) as [[a|[]] d']; [|done|done].
  destruct Hm as [Hp HP]. split; [done|auto].
Qed.

Lemma rest_shorter d d' p : rest d = p +:+ rest d' -> (String.length (rest d') <= String.length (rest d))%nat.
Proof. intros ->. rewrite str_length_app. lia. Qed.

Lemma rest_trans (a b c : string) : (exists p, a = p +:+ b) -> (exists p, b = p +:+ c) -> exists p, a = p +:+ c.
Proof. intros [p ->] [q ->]. exists (p +:+ q). apply str_app_assoc. Qed.

(** The rest of a program after a part that has read something. *)
Lemma runs_bind_strict {A B} n (Q : A -> Prop) (P : B -> Prop) (m : M A) f : runs n Q m ->
  (forall a, (Q a /\ forall k, (k < n)%nat -> reads_on k (f a)) \/ runs n P (f a)) -> runs n P (bind m f).
Proof.
  intros Hm Hf d Hd. unfold bind. specialize (Hm d Hd). destruct (m d) as [[a|[]] d1]; [|done|done].
  destruct Hm as [[p Hp] HQ]. pose proof (rest_shorter _ _ _ Hp) as Hl. destruct (Hf a) as [[Ha Hk]|Hk].
  - specialize (HQ Ha). specialize (Hk (String.length (rest d1)) ltac:(lia) d1 ltac:(lia)).
    destruct (f a d1) as [[b|[]] d2]; [|done|done]. destruct Hk as [[q Hq] _]. pose proof (rest_shorter _ _ _ Hq).
    split; [|intros _; lia]. eapply rest_trans; by eexists.
  - specialize (Hk d1 ltac:(lia)). destruct (f a d1) as [[b|[]] d2]; [|done|done]. destruct Hk as [[q Hq] HP].
    split; [eapply rest_trans; by eexists|]. intros Hb. specialize (HP Hb). lia.
Qed.

Lemma runs_bind {A B} n (P : B -> Prop) (m : M A) f : reads_on n m -> (forall a, runs n P (f a)) -> runs n P (bind m f).
Proof. intros Hm Hf. eapply runs_bind_strict; [exact Hm|]. intros a. right. apply Hf. Qed.

(** What does not touch the text. *)
Lemma runs_still {A} n (m : M A) (f : Decoder -> A) (g : Decoder -> Decoder) :
  (forall d, m d = (Done (f d), g d)) -> (forall d, rest (g d) = rest d) -> reads_on n m.
Proof. intros Hm Hg d _. rewrite Hm. split; [|done]. exists "". by rewrite Hg. Qed.

Lemma runs_ret {A} n (P : A -> Prop) a : (P a -> False) -> runs n P (ret a).
Proof. intros HP d _. split; [by exists ""|]. intros Ha. by destruct (HP Ha). Qed.

Lemma runs_throw {A} n (P : A -> Prop) e : runs n P (throw e).
Proof. done. Qed.

Lemma runs_get {A} n (f : Decoder -> A) : reads_on n (get f).
Proof. by apply (runs_still n _ f id). Qed.

Lemma runs_add_Offset n k : reads_on n (add_Offset k).
Proof. by apply (runs_still n _ (fun _ => tt) (fun d => with_Offset d (Offset d + k))). Qed.

Lemma runs_WriteByte n c : reads_on n (WriteByte c).
Proof. by apply (runs_still n _ (fun _ => tt) (fun d => with_buf d (buf d +:+ String c ""))). Qed.

Lemma runs_WriteString n s : reads_on n (WriteString s).
Proof. by apply (runs_still n _ (fun _ => tt) (fun d => with_buf d (buf d +:+ s))). Qed.

Lemma runs_buf_Reset n : reads_on n buf_Reset.
Proof. by apply (runs_still n _ (fun _ => tt) (fun d => with_buf d "")). Qed.

Definition got (r : outcome failure ascii) : Prop := match r with Ok _ => True | Err _ => False end.

Lemma runs_ReadByte n : runs n got ReadByte.
Proof.
  intros d _. unfold ReadByte. destruct (rest d) as [|c s] eqn:Hr; [split; [by exists ""; rewrite Hr|by intros []]|].
  split; [by exists (String c "")|]. cbn. lia.
Qed.

Lemma runs_readUntil n sep : reads_on n (readUntil sep).
Proof.
  intros d _. unfold readUntil. destruct (read_until sep (rest d) d) as [[u|[e|]] d'] eqn:Hr; [|done|].
  - destruct u. apply read_until_inv in Hr as (p & t & -> & ->). split; [|done]. exists (p +:+ String sep ""). by rewrite <-str_app_assoc.
  - revert Hr. generalize (rest d) as s. intros s. revert d. induction s as [|c s IH]; intros d; cbn [read_until]; [done|].
    destruct (decide _); [done|apply IH].
Qed.

Lemma runs_readBytes n k : reads_on n (readBytes k).
Proof.
  intros d _. unfold readBytes. destruct (_ =? _); [|by destruct (is_EOF (ending d))]. split; [|done].
  eexists. symmetry. apply take_drop_str.
Qed.

Lemma runs_readFull n k : reads_on n (readFull k).
Proof.
  intros d _. unfold readFull. destruct (_ =? _); [|by destruct (is_EOF (ending d))]. split; [|done].
  eexists. symmetry. apply take_drop_str.
Qed.

Lemma runs_CopyN n k : reads_on n (CopyN k).
Proof.
  intros d _. unfold CopyN. destruct (_ =? _); [|by destruct (is_EOF (ending d))]. split; [|done].
  eexists. symmetry. apply take_drop_str.
Qed.

Create HintDb runs.
#[export] Hint Resolve runs_throw runs_get runs_add_Offset runs_WriteByte runs_WriteString runs_buf_Reset runs_readUntil
  runs_readBytes runs_readFull runs_CopyN : runs.

(** Straight code: a bind, a case, or an operation with a lemma. *)
Ltac run :=
  repeat first
    [ solve [auto with runs nocore]
    | apply runs_ret; solve [intros Habsurd; first [discriminate Habsurd | destruct Habsurd; done | by apply Habsurd]]
    | apply runs_bind; [solve [auto with runs nocore]|intros ?]
    | match goal with
      | |- runs _ _ (match ?x with _ => _ end) => destruct x
      | |- runs _ _ (let '_ := ?x in _) => destruct x
      end
    | progress cbv zeta ].

Lemma runs_parseStringLength n : reads_on n parseStringLength.
Proof. unfold parseStringLength, checkBufferedInt. run. Qed.
#[export] Hint Resolve runs_parseStringLength : runs.

Lemma runs_parseStringInterface n : reads_on n parseStringInterface.
Proof. unfold parseStringInterface. run. Qed.
#[export] Hint Resolve runs_parseStringInterface : runs.

Lemma runs_readInt n : reads_on n readInt.
Proof. unfold readInt, checkBufferedInt. run. Qed.
#[export] Hint Resolve runs_readInt : runs.

Lemma runs_parseIntInterface n : reads_on n parseIntInterface.
Proof.
  unfold parseIntInterface. run. apply runs_bind; [|intros ?; run]. run.
Qed.
#[export] Hint Resolve runs_parseIntInterface : runs.

(** ** Loops *)

Definition found {A} (r : option A) : Prop := r <> None.

Lemma runs_parse_list n parse : runs n found parse -> forall fuel l, (n < fuel)%nat -> reads_on n (parse_list parse fuel l).
Proof.
  intros Hp fuel. revert n Hp. induction fuel as [|fuel IH]; intros n Hp l Hn; [lia|]. cbn [parse_list].
  eapply runs_bind_strict; [exact Hp|]. intros [v|]; [left|right; run]. split; [done|].
  intros k Hk. apply IH; [by eapply runs_weaken; [exact Hp|lia|]|lia].
Qed.

Lemma runs_parse_dict n parse : runs n found parse -> forall fuel last l, (n < fuel)%nat -> reads_on n (parse_dict parse fuel last l).
Proof.
  intros Hp fuel. revert n Hp. induction fuel as [|fuel IH]; intros n Hp last l Hn; [lia|]. cbn [parse_dict].
  apply runs_bind; [run|]. intros ?. eapply runs_bind_strict; [exact Hp|]. intros [v|]; [left|right; run]. split; [done|].
  intros k Hk. destruct v as [|key| |]; [run| |run|run]. apply runs_bind; [run|]. intros _. apply runs_bind; [run|]. intros o.
  apply runs_bind; [eapply runs_weaken; [exact Hp|lia|done]|]. intros [v|]; [|run].
  apply IH; [by eapply runs_weaken; [exact Hp|lia|]|lia].
Qed.

Lemma runs_parseValueInterface fuel : runs fuel found (parseValueInterface (S fuel)).
Proof.
  induction fuel as [|fuel IH]; cbn [parseValueInterface].
  - intros d Hd. destruct (rest d) eqn:Hr; [|cbn in Hd; lia]. unfold bind, ReadByte. by rewrite Hr.
  - eapply runs_bind_strict; [apply runs_ReadByte|]. intros [b|e]; [left|right; run]. split; [done|]. intros k Hk.
    assert (runs k found (parseValueInterface (S fuel))) as IHk by (eapply runs_weaken; [exact IH|lia|done]).
    apply runs_bind; [run|]. intros _. destruct (decide _); [run|]. destruct (decide _).
    { apply runs_bind; [apply runs_parse_dict; [done|lia]|]. intros ?. run. }
    destruct (decide _).
    { apply runs_bind; [apply runs_parse_list; [done|lia]|]. intros ?. run. }
    unfold raiseUnknownValueType. run.
Qed.

Lemma runs_read_values n read : runs n (fun b => b = true) read -> forall fuel, (n < fuel)%nat -> reads_on n (read_values read fuel).
Proof.
  intros Hp fuel. revert n Hp. induction fuel as [|fuel IH]; intros n Hp Hn; [lia|]. cbn [read_values].
  eapply runs_bind_strict; [exact Hp|]. intros [|]; [left|right; run]. split; [done|].
  intros k Hk. apply IH; [by eapply runs_weaken; [exact Hp|lia|]|lia].
Qed.

Lemma runs_readByte n : reads_on n readByte.
Proof. eapply runs_bind_strict; [apply runs_ReadByte|]. intros r. right. run. Qed.
#[export] Hint Resolve runs_readByte : runs.

(** A byte that was read and unread leaves the text as it was. *)
Lemma runs_readOneValue fuel : runs fuel (fun b => b = true) (readOneValue (S fuel)).
Proof.
  induction fuel as [|fuel IH]; cbn [readOneValue].
  { intros d Hd. destruct (rest d) eqn:Hr; [|cbn in Hd; lia]. unfold bind, ReadByte. by rewrite Hr. }
  intros d Hd. unfold bind at 1, ReadByte. destruct (rest d) as [|b s] eqn:Hr; [done|]. destruct (decide (b = "e"%char)) as [->|He].
  { unfold bind, UnreadByte, ret, with_rest. cbn. split; [|done]. by exists "". }
  cbn [String.length] in Hd. set (m := bind (add_Offset 1) _). set (d0 := with_rest d s).
  assert (reads_on (String.length s) m) as Hm.
  { unfold m. apply runs_bind; [run|]. intros _. apply runs_bind; [run|]. intros _. destruct (decide _).
    { apply runs_bind; [|intros ?; run]. apply runs_read_values; [eapply runs_weaken; [exact IH|lia|done]|lia]. }
    unfold raiseUnknownValueType. run. }
  specialize (Hm d0 ltac:(cbn; lia)). destruct (m d0) as [[a|[]] d']; [|done|done]. destruct Hm as [[p Hp] _]. cbn [rest d0 with_rest] in Hp.
  split; [exists (String b p); by rewrite Hp|]. intros _. rewrite Hp. cbn [String.length]. rewrite str_length_app. lia.
Qed.

(** ** Values of a type *)

(** The methods of the types come to an end themselves. *)
Fixpoint ends (t : gtype) : Prop :=
  match t with
  | TSlice t' | TMap t' | TPtr t' => ends t'
  | TStruct fs => foldr and True (map (fun f => ends (fst (snd f))) fs)
  | TUnmarshaler _ f => forall b, f b <> Raised NoFuel
  | _ => True
  end.

Lemma assoc_get_in {A} key (l : list (string * A)) x : assoc_get key l = Some x -> (key, x) ∈ l.
Proof.
  induction l as [|[k y] l IH]; [done|]. unfold assoc_get in *. cbn [List.find fst]. case_bool_decide as Hk.
  - intros [= <-]. rewrite <-Hk. apply list_elem_of_here.
  - intros Hx. apply list_elem_of_further, IH, Hx.
Qed.

Lemma ends_field t key field ignore : ends t -> getDictField t key = Some (field, ignore) -> ends field.
Proof.
  destruct t; try done; cbn [ends getDictField]; [by intros ? [= <- <-]|]. intros Hf Hg%assoc_get_in.
  rewrite all_of, Forall_forall in Hf. by apply (Hf _ Hg).
Qed.

Definition there (r : parsed) : Prop := fst (snd r) = true.

Lemma runs_parseUnmarshaler fuel t : ends t -> runs fuel found (parseUnmarshaler (S fuel) t).
Proof.
  intros Ht. destruct t; cbn [parseUnmarshaler]; try solve [run]. apply runs_bind; [run|]. intros _.
  eapply runs_bind_strict; [apply runs_readOneValue|]. intros [|]; [left|right; run]. split; [done|]. intros k _.
  apply runs_bind; [run|]. intros b. specialize (Ht b). destruct (UnmarshalBencode b) as [|[]]; [run|run|done].
Qed.

Lemma runs_parseInt n t : reads_on n (parseInt t).
Proof. unfold parseInt, done, returned. run. Qed.

Lemma runs_parseString n t : reads_on n (parseString t).
Proof. unfold parseString, done, returned. run. Qed.
#[export] Hint Resolve runs_parseInt runs_parseString : runs.

Lemma runs_parse_elems n parse : runs n there parse -> forall fuel l, (n < fuel)%nat -> reads_on n (parse_elems parse fuel l).
Proof.
  intros Hp fuel. revert n Hp. induction fuel as [|fuel IH]; intros n Hp l Hn; [lia|]. cbn [parse_elems].
  eapply runs_bind_strict; [exact Hp|]. intros [g [[|] [e|]]]; [right; run|left|right; run|right; run]. split; [done|].
  intros k Hk. apply IH; [by eapply runs_weaken; [exact Hp|lia|]|lia].
Qed.

Section parsers.
Context (n : nat) (parse : gtype -> M parsed) (parse_any : M (option value)).
Context (Hparse : forall t, ends t -> runs n there (parse t)) (Hany : runs n found parse_any).

Lemma runs_parseList fuel t : ends t -> (n < fuel)%nat -> reads_on n (parseList parse fuel t).
Proof.
  intros Ht Hn. destruct t; cbn [parseList]; (apply runs_bind; [apply runs_parse_elems; [by apply Hparse|done]|]; intros ?; unfold returned, done; run).
Qed.

Lemma runs_parse_fields_at k fuel t g : (k <= n)%nat -> ends t -> (k < fuel)%nat -> reads_on k (parse_fields parse parse_any fuel t g).
Proof.
  revert k g. induction fuel as [|fuel IH]; intros k g Hk Ht Hf; [lia|]. cbn [parse_fields].
  eapply runs_bind_strict; [eapply runs_weaken; [by apply (Hparse TString)|done|done]|].
  intros [kv [[|] [e|]]]; [right; unfold returned; run|left|right; unfold returned; run|right; unfold done; run].
  split; [done|]. intros j Hj. set (key := match kv with GString s => s | _ => "" end). cbv zeta.
  destruct (getDictField t key) as [[field ignore]|] eqn:Hg.
  - pose proof (ends_field _ _ _ _ Ht Hg). apply runs_bind; [eapply runs_weaken; [by apply (Hparse field)|lia|done]|].
    intros [x [ok err]]. unfold returned. destruct err as [e|]; [destruct (is_type_error e && ignore); [|run]|]; (destruct ok; [apply IH; [lia|done|lia]|run]).
  - apply runs_bind; [eapply runs_weaken; [exact Hany|lia|done]|]. intros [v|]; [apply IH; [lia|done|lia]|unfold returned; run].
Qed.

Lemma runs_parseDict fuel t : ends t -> (n < fuel)%nat -> reads_on n (parseDict parse parse_any fuel t).
Proof. intros Ht Hf. destruct t; cbn [parseDict]; unfold returned; try solve [run]; by apply runs_parse_fields_at. Qed.

End parsers.

Lemma runs_parse_direct fuel parse t : (forall t, ends t -> forall k, (k < fuel)%nat -> runs k there (parse t)) ->
  ends t -> runs fuel there (parse_direct parse (S fuel) t).
Proof.
  intros Hp Ht. unfold parse_direct. eapply runs_bind_strict; [by apply runs_parseUnmarshaler|].
  intros [g|]; [left; split; [done|]; intros k _; unfold done; run|right].
  eapply runs_bind_strict; [apply runs_ReadByte|]. intros [b|e]; [left|right; run]. split; [done|]. intros k Hk.
  apply runs_bind; [run|]. intros _. destruct (decide _); [run|]. destruct (decide _).
  { apply runs_parseDict; [intros t' Ht'; by apply Hp|eapply runs_weaken; [apply runs_parseValueInterface|lia|done]|done|lia]. }
  destruct (decide _); [apply runs_parseList; [intros t' Ht'; by apply Hp|done|lia]|]. unfold raiseUnknownValueType. run.
Qed.

Lemma runs_parseValue n t : ends t -> runs n there (parseValue (S (S n)) t).
Proof.
  revert t. induction n as [|n IH]; intros t Ht.
  - assert (forall u, ends u -> runs 0 there (parse_direct (parseValue 1) 1 u)) as Hd.
    { intros u Hu. apply runs_parse_direct; [intros; lia|done]. }
    cbn -[parse_direct]. destruct t; try by apply Hd. eapply runs_bind_strict; [by apply Hd|].
    intros [g [[|] e]]; [left|right]; [split; [done|]; intros k Hk|]; run.
  - assert (forall u, ends u -> runs (S n) there (parse_direct (parseValue (S (S n))) (S (S n)) u)) as Hd.
    { intros u Hu. apply runs_parse_direct; [|done]. intros v Hv k Hk. eapply runs_weaken; [by apply IH|lia|done]. }
    cbn -[parse_direct parseValue]. destruct t; try by apply Hd. eapply runs_bind_strict; [by apply Hd|].
    intros [g [[|] e]]; [left|right]; [split; [done|]; intros k Hk|]; run.
Qed.

(** ** Whole texts *)

Lemma Decode_into_runs t d : ends t ->
  match Decode_into t d with
  | (Done g, d') => exists p, rest d = p +:+ rest d'
  | (Raised (Thrown _), _) => True
  | (Raised NoFuel, _) => False
  end.
Proof.
  intros Ht. unfold Decode_into, fuel_for. pose proof (runs_parseValue _ _ Ht d (le_S _ _ (le_n _))) as H.
  destruct (parseValue _ t d) as [[[g [[|] [e|]]]|[[]|]] d']; try done. by destruct H.
Qed.

Lemma Unmarshal_into_ends t s : ends t -> Unmarshal_into t s <> Raised NoFuel.
Proof.
  intros Ht. unfold Unmarshal_into. pose proof (Decode_into_runs t (NewDecoder s EOF) Ht) as H.
  destruct (Decode_into _ _) as [[g|[e|]] d]; [|done|done]. destruct (rest d) eqn:Hr; [|done].
  unfold ReadEOF, bind, ReadByte, ret. rewrite Hr. cbn. by destruct (is_EOF (ending d)).
Qed.

Lemma Decode_ends d : fst (Decode d) <> Raised NoFuel.
Proof.
  unfold Decode, parseInterface, fuel_for. pose proof (runs_parseValueInterface _ d (le_n _)) as H. unfold bind.
  destruct (parseValueInterface _ d) as [[[v|]|[[]|]] d']; done.
Qed.

Lemma Unmarshal_no_fuel s : Unmarshal s <> Raised NoFuel.
Proof.
  unfold Unmarshal. pose proof (Decode_ends (NewDecoder s EOF)) as H.
  destruct (Decode _) as [[v|[e|]] d]; [|done|done]. destruct (rest d) eqn:Hr; [|done].
  unfold ReadEOF, bind, ReadByte, ret. rewrite Hr. cbn. by destruct (is_EOF (ending d)).
Qed.

(** ** Values as they are in the text

    What [readOneValue] takes for a value, for the types that decode
    themselves: [one_value], which is less strict than the decoder (numbers are
    not looked at, and neither are keys). It reads such a text and nothing
    else, and passes on the bytes as they are. *)

Inductive one_value : string -> Prop :=
| one_int p : absent "e" p = true -> one_value (String "i" (p +:+ "e"))
| one_str c p s : is_digit c = true -> absent ":" (String c p) = true -> ParseInt (String c p) = Ok (len s) ->
    one_value (String c (p +:+ String ":" s))
| one_seq c l : c = "d"%char \/ c = "l"%char -> Forall one_value l -> one_value (String c (concat_all l +:+ "e")).

(** The decoder after [p] was read and buffered. *)
Definition took (d : Decoder) (p t : string) : Decoder := after d p t (buf d +:+ p).

Lemma took_took d p t q u : took (took d p t) q u = took d (p +:+ q) u.
Proof. unfold took. by rewrite after_after, str_app_assoc. Qed.

Lemma took_nil d : took d "" (rest d) = d.
Proof. unfold took. rewrite str_app_nil_r. apply after_nil. Qed.

(** ** Steps *)

Definition one_step (fuel : nat) (b : ascii) : M bool :=
  if decide (b = "d"%char \/ b = "l"%char) then
    read_values (readOneValue fuel) fuel;;; b' <- readByte;;; WriteByte b';;; ret true
  else if decide (b = "i"%char) then readUntil "e";;; WriteString "e";;; ret true
  else if is_digit_byte b then
    start <- get (fun d => (String.length (buf d) - 1)%nat);;;
    readUntil ":";;;
    n <- get (fun d => str_drop start (buf d));;;
    match ParseInt n with
    | Err ne => offset <- get Offset;;; throw (SyntaxError (offset - 1) (msg (num_error "ParseInt" n ne)))
    | Ok length => WriteString ":";;; CopyN length;;; ret true
    end
  else offset <- get Offset;;; raiseUnknownValueType b (offset - 1).

Lemma read_step fuel d b s : rest d = String b s -> b <> "e"%char ->
  readOneValue (S fuel) d = one_step fuel b (took d (String b "") s).
Proof.
  intros Hr Hb. cbn [readOneValue]. unfold bind at 1, ReadByte. rewrite Hr, decide_False by done. done.
Qed.

Lemma read_step_end fuel d s : rest d = String "e" s -> readOneValue (S fuel) d = (Done false, d).
Proof.
  intros Hr. cbn [readOneValue]. unfold bind, ReadByte. rewrite Hr, decide_True by done. unfold UnreadByte, ret, with_rest. cbn.
  rewrite <-Hr. by destruct d.
Qed.

(** ** What is read is one value *)

Definition reads_one (read : M bool) : Prop := forall d b d', read d = (Done b, d') ->
  if b : bool then exists p t, one_value p /\ rest d = p +:+ t /\ d' = took d p t
  else d' = d /\ exists s, rest d = String "e" s.

Lemma read_values_sound read : reads_one read -> forall fuel d u d', read_values read fuel d = (Done u, d') ->
  exists l t, Forall one_value l /\ rest d = concat_all l +:+ t /\ d' = took d (concat_all l) t /\ exists s, t = String "e" s.
Proof.
  intros Hs fuel. induction fuel as [|fuel IH]; intros d u d'; cbn [read_values]; [done|]. intros H.
  apply bind_done in H as (b & d1 & Hb & H). pose proof (Hs d b d1 Hb) as Hd. destruct b.
  - destruct Hd as (p & t & Hp & Hr & ->). apply IH in H as (l & t' & Hl & Ht & -> & Hs'). cbn [rest took after] in Ht. subst t.
    exists (p :: l), t'. rewrite took_took, concat_all_cons. split_and!; [by constructor| |done|done]. by rewrite Hr, str_app_assoc.
  - destruct Hd as [-> [s Hr]]. injection H as <- <-. exists [], (rest d). split_and!; [constructor|done| |by exists s].
    symmetry. apply took_nil.
Qed.

Lemma CopyN_inv n d u d' : CopyN n d = (Done u, d') ->
  exists s t, rest d = s +:+ t /\ len s = n /\ d' = took d s t.
Proof.
  unfold CopyN. destruct (Z.eqb_spec (Z.of_nat (String.length (str_take (Z.to_nat n) (rest d)))) n) as [Hl|]; [|by destruct (is_EOF (ending d))].
  intros [= <- <-]. eexists _, _. split; [symmetry; apply take_drop_str|]. split; [exact Hl|]. done.
Qed.

Lemma drop_last_byte s c p : str_drop (String.length (s +:+ String c "") - 1) ((s +:+ String c "") +:+ p) = String c p.
Proof.
  rewrite str_length_app, Nat.add_sub. induction s as [|x s IH]; [done|]. rewrite !str_app_cons. exact IH.
Qed.

Lemma readUntil_inv sep d u d' : readUntil sep d = (Done u, d') ->
  exists p t, rest d = p +:+ String sep t /\ absent sep p = true /\ d' = after d (p +:+ String sep "") t (buf d +:+ p).
Proof.
  unfold readUntil. generalize (rest d) as s. intros s. revert d. induction s as [|c s IH]; intros d; cbn [read_until]; [done|].
  destruct (decide (c = sep)) as [->|Hc].
  - intros [= <- <-]. exists "", s. split_and!; [done|done|]. unfold after. by rewrite str_app_nil_r.
  - intros H. apply IH in H as (p & t & -> & Ha & ->). exists (String c p), t. split; [done|]. split.
    + cbn [absent]. rewrite Ha. by rewrite bool_decide_eq_false_2.
    + unfold after, with_buf, with_Offset. cbn. f_equal; [rewrite str_app_cons, len_cons; lia|by rewrite <-str_app_assoc].
Qed.

Lemma readByte_inv d b d' : readByte d = (Done b, d') -> exists t, rest d = String b t /\ d' = after d (String b "") t (buf d).
Proof.
  unfold readByte. intros H. apply bind_done in H as (r & d1 & Hr & H). unfold ReadByte in Hr.
  destruct (rest d) as [|c s]; injection Hr as <- <-; [by undo|]. apply bind_done in H as (u & d2 & Hu & H).
  injection Hu as <- <-. injection H as <- <-. by exists s.
Qed.

Lemma one_step_sound fuel b d0 d d' r : reads_one (readOneValue fuel) -> b <> "e"%char ->
  d = took d0 (String b "") (rest d) -> one_step fuel b d = (Done r, d') ->
  r = true /\ exists p t, one_value (String b p) /\ rest d = p +:+ t /\ d' = took d0 (String b p) t.
Proof.
  intros Hs Hb Hd H. unfold one_step in H. destruct (decide _) as [Hc|_].
  { apply bind_done in H as (u & d1 & Hu & H). apply (read_values_sound _ Hs) in Hu as (l & t & Hl & Hr & -> & [s ->]).
    apply bind_done in H as (b' & d1 & Hb' & H). apply readByte_inv in Hb' as (t & [= <- ->] & ->). injection H as <- <-.
    split; [done|]. exists (concat_all l +:+ "e"), t. split; [by constructor|]. split; [by rewrite Hr, <-str_app_assoc|].
    rewrite Hd. unfold took, after, with_buf. cbn. f_equal; [rewrite ?len_cons, ?len_app; unfold len; cbn; lia|by rewrite <-!str_app_assoc]. }
  destruct (decide _) as [->|_].
  { apply bind_done in H as (u & d1 & Hu & H). apply readUntil_inv in Hu as (p & t & Hr & Ha & ->). injection H as <- <-.
    split; [done|]. exists (p +:+ "e"), t. split; [by constructor|]. split; [by rewrite Hr, <-str_app_assoc|].
    rewrite Hd. unfold took, after, with_buf. cbn. f_equal; [rewrite ?len_cons, ?len_app; unfold len; cbn; lia|by rewrite <-!str_app_assoc]. }
  unfold is_digit_byte in H. destruct (is_digit b) eqn:Hdig; [|by undo].
  apply bind_done in H as (start & d1 & [= <- <-] & H). apply bind_done in H as (u & d1 & Hu & H).
  apply readUntil_inv in Hu as (p & t & Hr & Ha & ->). apply bind_done in H as (n & d1 & [= <- <-] & H). cbn [buf after] in H.
  assert (buf d = buf d0 +:+ String b "") as Hbuf by by rewrite Hd. rewrite Hbuf in H.
  rewrite drop_last_byte in H. destruct (ParseInt (String b p)) as [n|] eqn:Hn; [|by undo].
  apply bind_done in H as (u2 & d1 & [= <- <-] & H). apply bind_done in H as (u3 & d1 & Hcopy & H). injection H as <- <-.
  apply CopyN_inv in Hcopy as (s & t' & Ht & Hl & ->). cbn [rest with_buf after] in Ht. subst t. split; [done|].
  exists (p +:+ String ":" s), t'. split; [constructor; [done| |by rewrite Hl]|].
  - cbn [absent]. rewrite Ha, bool_decide_eq_false_2; [done|]. intros ->. discriminate Hdig.
  - split; [by rewrite Hr, <-str_app_assoc|]. rewrite Hd. unfold took, after, with_buf. cbn.
    f_equal; [rewrite ?len_cons, ?len_app, ?len_cons; unfold len; cbn; lia|by rewrite <-!str_app_assoc].
Qed.

Lemma readOneValue_sound fuel : reads_one (readOneValue fuel).
Proof.
  induction fuel as [|fuel IH]; intros d b d' H; [done|]. destruct (rest d) as [|c s] eqn:Hr.
  { cbn [readOneValue] in H. unfold bind, ReadByte in H. by rewrite Hr in H. }
  destruct (decide (c = "e"%char)) as [->|Hc].
  - rewrite (read_step_end _ _ _ Hr) in H. injection H as <- <-. split; [done|]. by exists s.
  - rewrite (read_step _ _ _ _ Hr Hc) in H. apply (one_step_sound _ _ d _ _ _ IH Hc) in H as (-> & p & t & Hp & Ht & ->); [|done].
    cbn [rest took after] in Ht. subst s. by exists (String c p), t.
Qed.

(** ** One value is read *)

Definition takes (read : M bool) (p : string) : Prop := forall d t, rest d = p +:+ t -> read d = (Done true, took d p t).

Lemma read_values_complete fuel l : Forall (takes (readOneValue (S fuel))) l -> forall n d t, (length l < n)%nat ->
  rest d = concat_all l +:+ String "e" t -> read_values (readOneValue (S fuel)) n d = (Done tt, took d (concat_all l) (String "e" t)).
Proof.
  intros Hl. induction Hl as [|p l Hp _ IH]; intros [|n] d t Hn Hr; try (cbn in Hn; lia); cbn [read_values]; unfold bind.
  - rewrite (read_step_end _ _ _ Hr). unfold ret. f_equal. symmetry. etrans; [|apply took_nil]. by rewrite Hr.
  - rewrite concat_all_cons, <-str_app_assoc in Hr. rewrite (Hp d _ Hr). rewrite (IH n _ t); [|cbn in Hn; lia|done].
    by rewrite took_took, concat_all_cons.
Qed.

Lemma CopyN_complete s t d : rest d = s +:+ t -> CopyN (len s) d = (Done tt, took d s t).
Proof. intros Hr. unfold CopyN, len. by rewrite Hr, Nat2Z.id, take_app_str, drop_app_str, Z.eqb_refl. Qed.

Lemma one_value_nonempty p : one_value p -> (2 <= String.length p)%nat.
Proof. destruct 1; cbn [String.length]; rewrite ?str_length_app; cbn; lia. Qed.

Lemma concat_all_short l : Forall one_value l -> (length l <= String.length (concat_all l))%nat.
Proof.
  induction 1 as [|p l Hp _ IH]; [done|]. rewrite concat_all_cons, str_length_app. cbn [length]. apply one_value_nonempty in Hp. lia.
Qed.

Lemma one_step_int fuel p t d0 : absent "e" p = true ->
  one_step fuel "i" (took d0 "i" ((p +:+ "e") +:+ t)) = (Done true, took d0 (String "i" (p +:+ "e")) t).
Proof.
  intros Ha. change (one_step fuel "i") with (readUntil "e";;; WriteString "e";;; ret true). unfold bind, readUntil.
  cbn [rest took after]. rewrite <-str_app_assoc. change ("e" +:+ t) with (String "e" t). rewrite read_until_app by done.
  unfold WriteString, ret. f_equal. unfold took, after, with_buf. cbn. f_equal; [rewrite ?len_cons, ?len_app; unfold len; cbn; lia|by rewrite <-!str_app_assoc].
Qed.

Lemma one_step_str fuel c p s t d0 : is_digit c = true -> absent ":" (String c p) = true -> ParseInt (String c p) = Ok (len s) ->
  one_step fuel c (took d0 (String c "") ((p +:+ String ":" s) +:+ t)) = (Done true, took d0 (String c (p +:+ String ":" s)) t).
Proof.
  intros Hc Ha Hn. cbn [absent] in Ha. apply andb_true_iff in Ha as [_ Ha]. unfold one_step.
  rewrite decide_False by (intros [-> | ->]; discriminate Hc). rewrite decide_False by (intros ->; discriminate Hc).
  unfold is_digit_byte. rewrite Hc. unfold bind, get, readUntil. cbn [rest took after buf]. rewrite <-str_app_assoc, str_app_cons.
  rewrite read_until_app by done. cbn [buf after]. rewrite drop_last_byte, Hn. unfold WriteString, ret.
  rewrite (CopyN_complete s t) by done. f_equal. unfold took, after, with_buf. cbn.
  f_equal; [rewrite ?len_cons, ?len_app, ?len_cons; unfold len; cbn; lia|by rewrite <-!str_app_assoc].
Qed.

Lemma one_step_seq fuel c l t d0 : c = "d"%char \/ c = "l"%char -> Forall (takes (readOneValue (S fuel))) l -> (length l < S fuel)%nat ->
  one_step (S fuel) c (took d0 (String c "") ((concat_all l +:+ "e") +:+ t)) = (Done true, took d0 (String c (concat_all l +:+ "e")) t).
Proof.
  intros Hc Hl Hn. unfold one_step. rewrite decide_True by done. unfold bind.
  rewrite (read_values_complete fuel l Hl _ _ t Hn) by (cbn [rest took after]; by rewrite <-str_app_assoc).
  unfold readByte, bind, ReadByte. cbn [rest took after]. unfold WriteByte, ret, add_Offset. f_equal.
  unfold took, after, with_buf, with_Offset. cbn. f_equal; [rewrite ?len_cons, ?len_app; unfold len; cbn; lia|by rewrite <-!str_app_assoc].
Qed.

Lemma readOneValue_complete fuel p : one_value p -> (String.length p < fuel)%nat -> takes (readOneValue fuel) p.
Proof.
  revert p. induction fuel as [|fuel IH]; intros p Hp Hf d t Hr; [lia|]. destruct Hp as [p Ha|c p s Hc Ha Hn|c l Hc Hl].
  - rewrite (read_step fuel d "i" ((p +:+ "e") +:+ t)) by done. by apply one_step_int.
  - rewrite (read_step fuel d c ((p +:+ String ":" s) +:+ t)); [by apply one_step_str|done|]. intros ->. discriminate Hc.
  - rewrite (read_step fuel d c ((concat_all l +:+ "e") +:+ t)); [|done|by destruct Hc as [-> | ->]].
    cbn [String.length] in Hf. rewrite str_length_app in Hf. cbn in Hf. destruct fuel as [|fuel]; [lia|].
    pose proof (concat_all_short l Hl). apply one_step_seq; [done| |lia]. rewrite Forall_forall in Hl |- *.
    intros q Hq. pose proof (concat_all_length l q Hq). apply IH; [by apply Hl|lia].
Qed.

(** What the encoder writes is one value. *)
Lemma one_value_string s : len s <= maxInt64 -> one_value (reflectString s).
Proof.
  intros Hs. unfold reflectString. fold (len s). destruct (int_text_digit (len s)) as (c & p & Hp & Hc); [unfold len; lia|].
  rewrite Hp. rewrite str_app_cons. apply one_str; [done| |].
  - rewrite <-Hp. by apply int_text_absent.
  - rewrite <-Hp, ParseInt_text. rewrite !(proj2 (Z.leb_le _ _)); [done|done|unfold len, minInt64; lia].
Qed.

Lemma one_value_canonical limit v : limit <= maxInt64 -> canonical limit v -> one_value (reflectValue v).
Proof.
  intros Hm. induction v as [n|s|l IH|d IH] using value_induction; cbn [canonical].
  - intros _. apply one_int. by apply int_text_absent.
  - intros Hs. apply one_value_string. lia.
  - intros Hl%all_of. cbn [reflectValue]. rewrite str_app_cons, str_app_nil_l. apply one_seq; [by right|]. apply Forall_map.
    by apply (Forall_modus _ _ _ IH).
  - intros (Hs & Hk & Hd%all_of). rewrite reflect_sorted by done. rewrite str_app_cons, str_app_nil_l.
    assert (concat_all (map entry_text d) = concat_all (concat (map (fun kv => [reflectString (fst kv); reflectValue (snd kv)]) d))) as ->.
    { clear. induction d as [|kv d IH]; [done|]. cbn [map concat]. rewrite concat_all_app, !concat_all_cons, IH. unfold entry_text. cbn.
      by rewrite str_app_nil_r, <-!str_app_assoc. }
    apply one_seq; [by left|]. clear Hs. induction d as [|kv d IHd]; [constructor|]. cbn [map concat].
    apply Forall_cons in IH as [Hv IH]. apply Forall_cons in Hd as [Hcv Hd]. cbn [map] in Hk. apply Forall_cons in Hk as [Hkv Hk].
    constructor; [apply one_value_string; lia|]. constructor; [by apply Hv|]. by apply IHd.
Qed.
