(* ===== verification/BencodeAssign.v ===== *)
(** * What a variable holds after decoding

    [assign] says which variable of a type a value gives, without a decoder:
    numbers that fit, strings, lists element by element, and the fields of a
    struct by their keys. On a text that the encoder wrote, the decoder does
    just that ([parse_assign]). *)

From S2P Require Import Prelude GoErrors GoTime Strconv Bencode BencodeFacts BencodeTypes BencodeFuel.
From Stdlib Require Import ZArith Lia Ascii String.
From stdpp Require Import base strings list sorting.
Import strconv bencode decoder.

Local Open Scope Z_scope.
Local Open Scope bencode_scope.

(** ** The reference definition *)

Definition in_int64 (n : Z) : bool := (minInt64 <=? n) && (n <=? maxInt64).
Definition in_uint64 (n : Z) : bool := (0 <=? n) && (n <=? maxUint64).

Definition assign_int (t : gtype) (n : Z) : option gvalue :=
  match t with
  | TInt bits => if in_int64 n && fits_int bits n then Some (GInt n) else None
  | TUint bits => if in_uint64 n && fits_uint bits n then Some (GInt n) else None
  | TBool => Some (GBool (negb (n =? 0)))
  | _ => None
  end.

Definition assign_string (t : gtype) (s : string) : option gvalue :=
  match t with
  | TString => Some (GString s)
  | TBytes => Some (GBytes s)
  | TBool => Some (GBool (default (negb (len s =? 0)) (ParseBool s)))
  | _ => None
  end.

(** The variable of a value that does not fit, when that is a type error. *)
Definition misfit (t : gtype) (v : value) : option gvalue :=
  match v, t with
  | Int n, TInt bits => if in_int64 n && negb (fits_int bits n) then Some (zero t) else None
  | Int n, TUint bits => if in_uint64 n && negb (fits_uint bits n) then Some (zero t) else None
  | Int _, (TString | TBytes | TSlice _ | TMap _ | TStruct _) => Some (zero t)
  | Str _, (TInt _ | TUint _ | TSlice _ | TMap _ | TStruct _) => Some (zero t)
  | _, _ => None
  end.

Definition through (t : gtype) : gtype * (gvalue -> gvalue) :=
  match t with TPtr elem => (elem, fun g => GPtr (Some g)) | _ => (t, id) end.

Definition all_or_none (l : list (option gvalue)) : option (list gvalue) :=
  foldr (fun x r => match x, r with Some g, Some gs => Some (g :: gs) | _, _ => None end) (Some []) l.

(** One entry of a dictionary. *)
Definition assign_entry (assign : gtype -> option gvalue) (t : gtype) (g : gvalue) (kv : string * value) : option gvalue :=
  match getDictField t (fst kv) with
  | None => Some g
  | Some (field, ignore) =>
      match assign field with
      | Some x => Some (set_field g (fst kv) x)
      | None => if ignore : bool then set_field g (fst kv) <$> misfit field (snd kv) else None
      end
  end.

Fixpoint assign (v : value) (t : gtype) : option gvalue :=
  let '(t0, wrap) := through t in
  wrap <$>
  match t0, v with
  | TUnmarshaler _ f, _ => match f (Marshal v) with Done g => Some g | Raised _ => None end
  | TPtr _, _ => None
  | _, Int n => assign_int t0 n
  | _, Str s => assign_string t0 s
  | TSlice elem, List l => (fun gs => GSlice (Some gs)) <$> all_or_none (map (fun x => assign x elem) l)
  | TBytes, List l => (fun gs => GBytes (bytes_of gs)) <$> all_or_none (map (fun x => assign x (TUint 8)) l)
  | _, List l => match map (fun x => assign x t0) l with [r] => r | _ => None end
  | (TMap _ | TStruct _), Dict d => fold_left (fun acc kv => match acc with Some g => assign_entry (assign (snd kv)) t0 g kv | None => None end) d (Some (zero t0))
  | _, Dict _ => None
  end.

(** ** Buffers

    Numbers are added to what the buffer holds, and a type that decodes itself
    leaves its text there: fortunately no type does both. *)

Fixpoint int_first (t : gtype) : bool :=
  match t with
  | TInt _ | TUint _ | TBool | TBytes => true
  | TPtr t' | TSlice t' => int_first t'
  | _ => false
  end.

Definition ready (t : gtype) (b : string) : Prop := int_first t = true -> b = "".

(** ** The decoder does what [assign] says *)

Section limit.
Context (limit : Z) (Hlimit : limit <= maxInt64).

(** [m] reads [p] and answers [g], when strings may be as long as [limit]; the
    decoder is still ready for [t]. *)
Definition stores (m : M parsed) (t : gtype) (p : string) (g : gvalue) : Prop := forall d s, getMaxStrLen d = limit -> ready t (buf d) ->
  rest d = p +:+ s -> exists b, m d = (Done (g, (true, None)), after d p s b) /\ ready t b.

(** ** Numbers and strings *)

Lemma parseInt_start n s d : buf d = "" -> rest d = (int_text n +:+ "e") +:+ s ->
  readInt d = (Done None, after d (int_text n +:+ "e") s (int_text n)).
Proof.
  intros Hb Hr. unfold readInt, bind, readUntil, checkBufferedInt, get. rewrite Hr, <-str_app_assoc.
  change ("e" +:+ s) with (String "e" s). rewrite read_until_app by by apply int_text_absent.
  cbn [buf after]. by rewrite Hb, str_app_nil_l, plain_int_text.
Qed.

Lemma ParseUint_text n : 0 <= n -> ParseUint (int_text n) = if n <=? maxUint64 then Ok n else Err ErrRange.
Proof.
  intros Hn. destruct (decide (n = 0)) as [->|Hz]; [done|]. destruct (int_text_shape n Hz) as (u & Hu & [(_ & Hv & ->)|(? & _)]); [|lia].
  destruct (nonzero_head_text u Hu) as (c & p & Hp & _). rewrite ParseUint_digits by first [apply uint_text|by rewrite Hp].
  by rewrite uint_value, Hv.
Qed.

Lemma int_text_zero n : int_text n = "0"%string <-> n = 0.
Proof.
  split; [|by intros ->]. intros H. pose proof (big_SetString_text n) as Hb. rewrite H in Hb. by injection Hb as <-.
Qed.

Lemma parseInt_stores t n g s d : buf d = "" -> assign_int t n = Some g -> rest d = (int_text n +:+ "e") +:+ s ->
  parseInt t d = (Done (g, (true, None)), after d (int_text n +:+ "e") s "").
Proof.
  intros Hb Hg Hr. unfold parseInt, bind at 1, get at 1. unfold bind at 1. rewrite (parseInt_start n s d Hb Hr).
  unfold bind at 1, get at 1. cbn [buf after]. destruct t; try done; cbn [assign_int] in Hg.
  - unfold in_int64 in Hg. rewrite ParseInt_text. destruct ((minInt64 <=? n) && (n <=? maxInt64)); [|done]. cbn [andb] in Hg.
    destruct (fits_int bits n); [|done].
    by injection Hg as <-.
  - unfold in_uint64 in Hg. destruct (0 <=? n) eqn:Hn; [|done]. rewrite ParseUint_text by by apply Z.leb_le. cbn [andb] in Hg.
    destruct (n <=? maxUint64); [|done]. destruct (fits_uint bits n); [|done]. by injection Hg as <-.
  - injection Hg as <-. unfold bind, buf_Reset, done, ret, with_buf, after. cbn. do 5 f_equal.
    destruct (Z.eqb_spec n 0) as [->|Hn]; [done|]. rewrite bool_decide_eq_false_2; [done|]. by rewrite int_text_zero.
Qed.

Lemma readFull_complete b s d : rest d = b +:+ s -> readFull (len b) d = (Done b, after d b s (buf d)).
Proof. intros Hr. unfold readFull, len. by rewrite Hr, Nat2Z.id, take_app_str, drop_app_str, Z.eqb_refl. Qed.

Lemma parseString_read t x c p s d : len x <= limit -> getMaxStrLen d = limit -> buf d = String c "" ->
  reflectString x = String c p -> is_digit c = true -> rest d = p +:+ s ->
  parseString t d = match assign_string t x with
                    | Some g => (Done (g, (true, None)), after d p s "")
                    | None => (Done (zero t, (true, Some (UnmarshalTypeError "string"))), after d p s "")
                    end.
Proof.
  intros Hx Hd Hb Ht Hc Hr. unfold reflectString in Ht. destruct (int_text_digit (len x)) as (c' & q & Hq & _); [unfold len; lia|].
  fold (len x) in Ht. rewrite Hq in Ht. injection Ht as -> <-. unfold parseString, bind at 1.
  rewrite (parseStringLength_complete (len x) c q (x +:+ s)); [|unfold len in *; lia|lia|done|done|].
  2:{ rewrite Hr. by rewrite <-!str_app_assoc. }
  unfold bind at 1. rewrite (readFull_complete x s) by done. unfold bind, buf_Reset.
  assert (forall b, with_buf (after (after d (q +:+ ":") (x +:+ s) "") x s b) "" = after d (q +:+ ":" +:+ x) s "") as ->.
  { intros b. rewrite after_after, str_app_assoc. done. }
  by destruct t.
Qed.

(** ** The first byte *)

Definition typed_step (parse : gtype -> M parsed) (fuel : nat) (t : gtype) (b : ascii) : M parsed :=
  if decide (b = "e"%char) then ret (zero t, (false, None))
  else if decide (b = "d"%char) then parseDict parse (parseValueInterface fuel) fuel t
  else if decide (b = "l"%char) then parseList parse fuel t
  else if decide (b = "i"%char) then parseInt t
  else if is_digit_byte b then buf_Reset;;; WriteByte b;;; parseString t
  else offset <- get Offset;;; raiseUnknownValueType b (offset - 1).

Definition by_kind (t : gtype) : bool := match t with TUnmarshaler _ _ => false | _ => true end.

Lemma direct_step parse fuel t d b s : by_kind t = true -> rest d = String b s ->
  parse_direct parse fuel t d = typed_step parse fuel t b (after d (String b "") s (buf d)).
Proof.
  intros Ht Hr. assert (parseUnmarshaler fuel t = ret None) as Hu by by destruct t.
  unfold parse_direct. rewrite Hu. unfold bind at 1, ret at 1. unfold bind at 1, ReadByte. rewrite Hr. done.
Qed.

Lemma direct_unmarshaler parse fuel z f p s d g : one_value p -> (String.length p < fuel)%nat -> rest d = p +:+ s -> f p = Done g ->
  parse_direct parse fuel (TUnmarshaler z f) d = (Done (g, (true, None)), after d p s p).
Proof.
  intros Hp Hf Hr Hg. unfold parse_direct, parseUnmarshaler, bind, buf_Reset, get.
  rewrite (readOneValue_complete fuel p Hp Hf (with_buf d "") s) by done. cbn [took after buf with_buf]. rewrite str_app_nil_l, Hg. done.
Qed.

(** The end of a list or dictionary. *)
Lemma direct_end parse fuel t s d : rest d = String "e" s -> exists b,
  parse_direct parse (S fuel) t d = (Done (zero t, (false, None)), after d "e" s b) /\ (by_kind t = true -> b = buf d).
Proof.
  intros Hr. destruct (by_kind t) eqn:Ht.
  - rewrite (direct_step _ _ _ _ _ _ Ht Hr). by exists (buf d).
  - destruct t; try done. unfold parse_direct, parseUnmarshaler, bind at 1, bind at 1, buf_Reset. unfold bind at 1.
    rewrite (read_step_end fuel (with_buf d "") s) by done. exists "". split; [|done].
    unfold ret, bind, ReadByte. cbn [rest with_buf]. rewrite Hr. done.
Qed.

(** A pointer is followed once. *)
Lemma value_through fuel t : parseValue (S fuel) t =
  match t with
  | TPtr elem => r <- parse_direct (parseValue fuel) fuel elem;;; ret (GPtr (Some (fst r)), snd r)
  | _ => parse_direct (parseValue fuel) fuel (fst (through t))
  end.
Proof. by destruct t. Qed.

Lemma value_stores fuel t p g : stores (parse_direct (parseValue fuel) fuel (fst (through t))) (fst (through t)) p g ->
  stores (parseValue (S fuel) t) t p (snd (through t) g).
Proof.
  intros Hs d s Hd Hb Hr. rewrite value_through. destruct t; try by apply Hs.
  destruct (Hs d s Hd Hb Hr) as (b & He & Hb'). exists b. split; [|done]. cbn [through fst snd] in *. unfold bind. by rewrite He.
Qed.

Lemma value_end fuel t s d : rest d = String "e" s -> exists g b,
  parseValue (S (S fuel)) t d = (Done (g, (false, None)), after d "e" s b) /\ (ready t (buf d) -> ready t b).
Proof.
  intros Hr. assert (forall u, exists b, parse_direct (parseValue (S fuel)) (S fuel) u d = (Done (zero u, (false, None)), after d "e" s b) /\
    (ready u (buf d) -> ready u b)) as Hd.
  { intros u. destruct (direct_end (parseValue (S fuel)) fuel u s d Hr) as (b & He & Hb). exists b. split; [done|].
    destruct (by_kind u) eqn:Hu; [by rewrite Hb|]. by destruct u. }
  rewrite value_through. destruct (Hd (fst (through t))) as (b & He & Hb). destruct t; try (eexists _, b; rewrite He; by split).
  cbn [through fst] in *. unfold bind. rewrite He. eexists _, b. by split.
Qed.

(** ** Strings and misfits *)

Lemma direct_string parse fuel t x s d : by_kind t = true -> len x <= limit -> getMaxStrLen d = limit ->
  rest d = reflectString x +:+ s ->
  parse_direct parse fuel t d = match assign_string t x with
                                | Some g => (Done (g, (true, None)), after d (reflectString x) s "")
                                | None => (Done (zero t, (true, Some (UnmarshalTypeError "string"))), after d (reflectString x) s "")
                                end.
Proof.
  intros Ht Hx Hd Hr. destruct (int_text_digit (len x)) as (c & q & Hq & Hc); [unfold len; lia|].
  assert (reflectString x = String c (q +:+ ":" +:+ x)) as Hs by (unfold reflectString; fold (len x); by rewrite Hq).
  rewrite Hs in Hr. rewrite (direct_step _ _ _ _ c ((q +:+ ":" +:+ x) +:+ s) Ht Hr). unfold typed_step.
  rewrite !decide_False by (intros ->; discriminate Hc). unfold is_digit_byte. rewrite Hc. unfold bind, buf_Reset, WriteByte.
  rewrite (parseString_read t x c (q +:+ ":" +:+ x) s) by done. rewrite Hs. destruct (assign_string t x); f_equal;
    unfold after, with_buf; cbn; f_equal; unfold len; cbn; lia.
Qed.

Lemma key_read fuel k s d : len k <= limit -> getMaxStrLen d = limit -> rest d = reflectString k +:+ s ->
  parseValue (S fuel) TString d = (Done (GString k, (true, None)), after d (reflectString k) s "").
Proof. intros. rewrite value_through. by rewrite (direct_string _ _ TString k s). Qed.

Lemma direct_int parse fuel t n s d : by_kind t = true -> buf d = "" -> rest d = reflectValue (Int n) +:+ s ->
  parse_direct parse fuel t d = parseInt t (after d "i" ((int_text n +:+ "e") +:+ s) "").
Proof.
  intros Ht Hb Hr. cbn [reflectValue] in Hr. rewrite str_app_cons, str_app_nil_l, str_app_cons in Hr.
  rewrite (direct_step _ _ _ _ _ _ Ht Hr). by rewrite Hb.
Qed.

Lemma parseInt_misfit t n x s d : buf d = "" -> misfit t (Int n) = Some x -> rest d = (int_text n +:+ "e") +:+ s ->
  exists b, parseInt t d = (Done (x, (true, Some (UnmarshalTypeError "int"))), after d (int_text n +:+ "e") s b).
Proof.
  intros Hb Hx Hr. unfold parseInt, bind at 1, get at 1. unfold bind at 1. rewrite (parseInt_start n s d Hb Hr).
  unfold bind at 1, get at 1. cbn [buf after]. exists (int_text n). destruct t; try done; cbn [misfit] in Hx; try by injection Hx as <-.
  - unfold in_int64 in Hx. rewrite ParseInt_text. destruct ((minInt64 <=? n) && (n <=? maxInt64)); [|done]. cbn [andb] in Hx.
    destruct (fits_int bits n); [done|]. by injection Hx as <-.
  - unfold in_uint64 in Hx. destruct (0 <=? n) eqn:Hn; [|done]. rewrite ParseUint_text by by apply Z.leb_le. cbn [andb] in Hx.
    destruct (n <=? maxUint64); [|done]. destruct (fits_uint bits n); [done|]. by injection Hx as <-.
Qed.

Lemma value_misfit fuel t v x s d : canonical limit v -> misfit t v = Some x -> buf d = "" -> getMaxStrLen d = limit ->
  rest d = reflectValue v +:+ s -> exists b e,
    parseValue (S fuel) t d = (Done (x, (true, Some e)), after d (reflectValue v) s b) /\ is_type_error e = true.
Proof.
  intros Hc Hx Hb Hd Hr. rewrite value_through. assert (by_kind t = true /\ fst (through t) = t) as [Ht Hth] by (destruct v, t; try done).
  assert (parseValue (S fuel) t d = parse_direct (parseValue fuel) fuel t d) as Hv by (rewrite value_through; destruct v, t; try done).
  rewrite value_through in Hv. rewrite Hv. destruct v as [n|y| |]; [|..|done|done].
  - rewrite (direct_int _ _ _ n s d Ht Hb Hr). destruct (parseInt_misfit t n x s (after d "i" ((int_text n +:+ "e") +:+ s) "") eq_refl Hx eq_refl) as [b ->].
    rewrite after_after. by eexists _, _.
  - cbn [canonical] in Hc. rewrite (direct_string _ _ t y s d Ht Hc Hd Hr). assert (assign_string t y = None /\ x = zero t) as [-> ->] by (destruct t; cbn in Hx; by simplify_eq).
    by eexists _, _.
Qed.

(** ** Lists and dictionaries *)

Lemma elems_stores fuel t l gs : Forall2 (fun x g => stores (parseValue (S (S fuel)) t) t (reflectValue x) g) l gs ->
  forall n acc d s, (length l < n)%nat -> getMaxStrLen d = limit -> ready t (buf d) ->
  rest d = (concat_all (map reflectValue l) +:+ "e") +:+ s ->
  exists b, parse_elems (parseValue (S (S fuel)) t) n acc d =
    (Done (acc ++ gs, None), after d (concat_all (map reflectValue l) +:+ "e") s b) /\ ready t b.
Proof.
  intros Hl. induction Hl as [|x g l gs Hx _ IH]; intros [|n] acc d s Hn Hd Hb Hr; try (cbn in Hn; lia); cbn [parse_elems].
  - destruct (value_end fuel t s d Hr) as (z & b & He & Hb'). exists b. unfold bind. rewrite He, app_nil_r. split; [done|auto].
  - cbn [map] in *. rewrite concat_all_cons in *. rewrite <-!str_app_assoc in Hr. destruct (Hx d _ Hd Hb Hr) as (b & He & Hb').
    unfold bind. rewrite He. set (d1 := after d _ _ b) in *.
    destruct (IH n (acc ++ [g]) d1 s ltac:(cbn in Hn; lia) Hd Hb' ltac:(cbn [d1 rest after]; by rewrite <-str_app_assoc)) as (b2 & -> & Hb2).
    exists b2. split; [|done]. unfold d1. by rewrite after_after, <-app_assoc, <-!str_app_assoc.
Qed.

(** What is known of an entry of a dictionary. *)
Definition entry_ok (fuel : nat) (kv : string * value) : Prop :=
  len (fst kv) <= limit /\ canonical limit (snd kv) /\ (String.length (reflectValue (snd kv)) < S fuel)%nat /\
  forall t g, assign (snd kv) t = Some g -> stores (parseValue (S (S fuel)) t) t (reflectValue (snd kv)) g.

Definition assign_all (t : gtype) (kvs : list (string * value)) (acc : option gvalue) : option gvalue :=
  fold_left (fun acc kv => match acc with Some g => assign_entry (assign (snd kv)) t g kv | None => None end) kvs acc.

Lemma assign_all_none t kvs : assign_all t kvs None = None.
Proof. by induction kvs. Qed.

Lemma fields_stores fuel t kvs : Forall (entry_ok fuel) kvs -> forall n g g' d s, assign_all t kvs (Some g) = Some g' ->
  (length kvs < n)%nat -> getMaxStrLen d = limit -> rest d = (concat_all (map entry_text kvs) +:+ "e") +:+ s ->
  exists b, parse_fields (parseValue (S (S fuel))) (parseValueInterface (S (S fuel))) n t g d =
    (Done (g', (true, None)), after d (concat_all (map entry_text kvs) +:+ "e") s b).
Proof.
  intros Hk. induction Hk as [|[k v] kvs (Hk & Hv & Hf & Hs) _ IH]; intros [|n] g g' d s Hg Hn Hd Hr; try (cbn in Hn; lia); cbn [parse_fields].
  - injection Hg as <-. destruct (value_end fuel TString s d Hr) as (z & b & He & _). exists b. unfold bind. by rewrite He.
  - cbn [map fst snd] in *. rewrite concat_all_cons in *. change (entry_text (k, v)) with (reflectString k +:+ reflectValue v) in *.
    rewrite <-!str_app_assoc in Hr. unfold bind at 1. rewrite (key_read _ k _ d Hk Hd Hr). cbv zeta.
    set (d1 := after d (reflectString k) _ ""). change (assign_all t kvs (assign_entry (assign v) t g (k, v)) = Some g') in Hg.
    destruct (assign_entry (assign v) t g (k, v)) as [g1|] eqn:Hg1; [|by rewrite assign_all_none in Hg].
    assert (forall b, exists b2, parse_fields (parseValue (S (S fuel))) (parseValueInterface (S (S fuel))) n t g1
      (after d1 (reflectValue v) ((concat_all (map entry_text kvs) +:+ "e") +:+ s) b) =
      (Done (g', (true, None)), after d (((reflectString k +:+ reflectValue v) +:+ concat_all (map entry_text kvs)) +:+ "e") s b2)) as Hrest.
    { intros b. destruct (IH n g1 g' (after d1 (reflectValue v) ((concat_all (map entry_text kvs) +:+ "e") +:+ s) b) s Hg ltac:(cbn in Hn; lia) Hd eq_refl) as (b2 & ->). exists b2. unfold d1. by rewrite !after_after, !str_app_assoc. }
    assert (rest d1 = reflectValue v +:+ (concat_all (map entry_text kvs) +:+ "e") +:+ s) as Hr1 by (cbn; by rewrite <-!str_app_assoc).
    assert (getMaxStrLen d1 = limit) as Hd1 by exact Hd. unfold assign_entry in Hg1. cbn [fst snd] in Hg1.
    destruct (getDictField t k) as [[field ignore]|].
    + destruct (assign v field) as [x|] eqn:Hx.
      * injection Hg1 as <-. destruct (Hs field x Hx d1 _ Hd ltac:(done) Hr1) as (b & He & _). unfold bind. rewrite He. apply Hrest.
      * destruct ignore; [|done]. destruct (misfit field v) as [x|] eqn:Hm; [|done]. injection Hg1 as <-.
        destruct (value_misfit (S fuel) field v x _ d1 Hv Hm eq_refl Hd Hr1) as (b & e & He & Hte). unfold bind. rewrite He, Hte. apply Hrest.
    + injection Hg1 as <-. unfold bind. rewrite (parse_complete (S (S fuel)) v ltac:(lia) d1 _ eq_refl ltac:(by rewrite Hd1) ltac:(by rewrite Hd1) Hr1). apply Hrest.
Qed.

(** ** Any value *)

Definition assign_direct (t : gtype) (v : value) : option gvalue :=
  match t, v with
  | TUnmarshaler _ f, _ => match f (Marshal v) with Done g => Some g | Raised _ => None end
  | TPtr _, _ => None
  | _, Int n => assign_int t n
  | _, Str s => assign_string t s
  | TSlice elem, List l => (fun gs => GSlice (Some gs)) <$> all_or_none (map (fun x => assign x elem) l)
  | TBytes, List l => (fun gs => GBytes (bytes_of gs)) <$> all_or_none (map (fun x => assign x (TUint 8)) l)
  | _, List l => match map (fun x => assign x t) l with [r] => r | _ => None end
  | (TMap _ | TStruct _), Dict d => assign_all t d (Some (zero t))
  | _, Dict _ => None
  end.

Lemma assign_eq v t : assign v t = snd (through t) <$> assign_direct (fst (through t)) v.
Proof. by destruct v, t. Qed.

Lemma all_or_none_Forall2 {A} (f : A -> option gvalue) (P : A -> gvalue -> Prop) l gs :
  Forall (fun x => forall g, f x = Some g -> P x g) l -> all_or_none (map f l) = Some gs -> Forall2 P l gs.
Proof.
  intros Hl. revert gs. induction Hl as [|x l Hx _ IH]; intros gs; cbn [map all_or_none foldr]; [intros [= <-]; constructor|].
  fold (all_or_none (map f l)). destruct (f x) as [g|] eqn:Hg; [|done]. destruct (all_or_none (map f l)) as [gs'|]; [|done].
  intros [= <-]. constructor; [by apply Hx|by apply IH].
Qed.

(** What is known of the elements of a list. *)
Definition elem_ok (fuel : nat) (x : value) : Prop := forall t g, assign x t = Some g ->
  stores (parseValue (S (S fuel)) t) t (reflectValue x) g.

Lemma list_stores fuel t l g : Forall (elem_ok fuel) l -> (length l < S (S fuel))%nat -> assign_direct t (List l) = Some g ->
  by_kind t = true -> stores (parseList (parseValue (S (S fuel))) (S (S fuel)) t) t (concat_all (map reflectValue l) +:+ "e") g.
Proof.
  intros Hl Hn Hg Ht d s Hd Hb Hr.
  assert (forall u gs, all_or_none (map (fun x => assign x u) l) = Some gs -> (ready u (buf d)) ->
    exists b, parse_elems (parseValue (S (S fuel)) u) (S (S fuel)) [] d =
      (Done (gs, None), after d (concat_all (map reflectValue l) +:+ "e") s b) /\ ready u b) as Hall.
  { intros u gs Hgs Hu. apply (elems_stores fuel u l gs); [|done|done|done|done].
    eapply (all_or_none_Forall2 _ (fun x g => stores (parseValue (S (S fuel)) u) u (reflectValue x) g)); [|exact Hgs].
    eapply Forall_impl; [exact Hl|]. intros x Hx g' Hg'. by apply Hx. }
  assert (forall u, (ready u (buf d)) -> match map (fun x => assign x u) l with [r] => r | _ => None end = Some g ->
    exists b, parse_elems (parseValue (S (S fuel)) u) (S (S fuel)) [] d =
      (Done ([g], None), after d (concat_all (map reflectValue l) +:+ "e") s b) /\ ready u b) as Hone.
  { intros u Hu Hm. apply Hall; [|done]. destruct l as [|x [|]]; try done. cbn [map] in Hm |- *. unfold all_or_none. cbn [foldr]. by rewrite Hm. }
  destruct t; try done; cbn [assign_direct parseList] in *; unfold bind.
  1-4,7-8: destruct (Hone _ Hb Hg) as (b & -> & Hb2); by exists b.
  - destruct (all_or_none _) as [gs|] eqn:Hgs; [|done]. injection Hg as <-. destruct (Hall _ _ Hgs Hb) as (b & -> & Hb2). by exists b.
  - destruct (all_or_none _) as [gs|] eqn:Hgs; [|done]. injection Hg as <-. destruct (Hall _ _ Hgs Hb) as (b & -> & Hb2). by exists b.
Qed.

Lemma direct_stores_int fuel parse t n g : by_kind t = true -> assign_int t n = Some g ->
  stores (parse_direct parse fuel t) t (reflectValue (Int n)) g.
Proof.
  intros Ht Hg d s Hd Hb Hr. assert (buf d = "") as Hb' by (apply Hb; by destruct t). rewrite (direct_int _ _ _ n s d Ht Hb' Hr).
  exists "". rewrite (parseInt_stores t n g s) by done. rewrite after_after. by split.
Qed.

Lemma direct_stores_string fuel parse t x g : by_kind t = true -> len x <= limit -> assign_string t x = Some g ->
  stores (parse_direct parse fuel t) t (reflectValue (Str x)) g.
Proof. intros Ht Hx Hg d s Hd Hb Hr. exists "". rewrite (direct_string _ _ t x s d Ht Hx Hd Hr), Hg. by split. Qed.

Lemma direct_stores_list fuel t l g : by_kind t = true -> Forall (elem_ok fuel) l -> (length l < S (S fuel))%nat ->
  assign_direct t (List l) = Some g -> stores (parse_direct (parseValue (S (S fuel))) (S (S fuel)) t) t (reflectValue (List l)) g.
Proof.
  intros Ht Hl Hn Hg d s Hd Hb Hr. cbn [reflectValue] in *. rewrite str_app_cons, str_app_nil_l in *. rewrite str_app_cons in Hr.
  rewrite (direct_step _ _ _ _ _ _ Ht Hr). destruct (list_stores fuel t l g Hl Hn Hg Ht (after d "l" ((concat_all (map reflectValue l) +:+ "e") +:+ s) (buf d)) s Hd Hb eq_refl) as (b & He & Hb2).
  exists b. split; [|done]. change (typed_step ?p ?f ?u "l") with (parseList p f u). rewrite He. by rewrite after_after.
Qed.

Lemma direct_stores_dict fuel t kvs g : canonical limit (Dict kvs) -> Forall (entry_ok fuel) kvs -> (length kvs < S (S fuel))%nat ->
  by_kind t = true -> assign_direct t (Dict kvs) = Some g ->
  stores (parse_direct (parseValue (S (S fuel))) (S (S fuel)) t) t (reflectValue (Dict kvs)) g.
Proof.
  intros (Hs & _) Hk Hn Ht Hg d s Hd Hb Hr. rewrite reflect_sorted in * by done. rewrite str_app_cons, str_app_nil_l in *. rewrite str_app_cons in Hr.
  rewrite (direct_step _ _ _ _ _ _ Ht Hr). change (typed_step ?p ?f ?u "d") with (parseDict p (parseValueInterface f) f u).
  set (d1 := after d "d" _ _). destruct t; try done; cbn [assign_direct parseDict] in *;
    (destruct (fields_stores fuel _ kvs Hk (S (S fuel)) _ g d1 s Hg Hn Hd eq_refl) as (b & ->); exists b; unfold d1; by rewrite after_after).
Qed.

Lemma entry_in k v kvs : (k, v) ∈ kvs -> (String.length (reflectValue v) < String.length (concat_all (map entry_text kvs)))%nat.
Proof.
  intros Hin. pose proof (concat_all_length (map entry_text kvs) (entry_text (k, v)) ltac:(by apply list_elem_of_fmap_2)) as Hl.
  rewrite entry_length in Hl. pose proof (reflectString_length k). lia.
Qed.

Lemma parse_assign_direct fuel v t g : canonical limit v -> (forall u, (String.length (reflectValue u) < String.length (reflectValue v))%nat ->
    canonical limit u -> elem_ok fuel u) -> (String.length (reflectValue v) < S fuel)%nat -> assign_direct t v = Some g ->
  stores (parse_direct (parseValue (S (S fuel))) (S (S fuel)) t) t (reflectValue v) g.
Proof.
  intros Hc IH Hf Hg. destruct (by_kind t) eqn:Ht.
  2:{ destruct t as [| | | | | | | | |z f]; try done. cbn [assign_direct] in Hg. destruct (f (Marshal v)) as [g'|] eqn:Hfv; [|done]. injection Hg as ->.
      intros d s Hd _ Hr. exists (reflectValue v). rewrite (direct_unmarshaler _ _ z f (reflectValue v) s d g); [by split| |lia|done|done].
      by apply (one_value_canonical limit). }
  destruct v as [n|x|l|kvs].
  - apply direct_stores_int; [done|]. by destruct t.
  - apply direct_stores_string; [done|done|]. by destruct t.
  - pose proof (concat_all_count reflectValue l value_text_length) as Hcount. cbn [reflectValue] in Hf, IH. rewrite str_app_cons, str_app_nil_l in Hf, IH.
    cbn [String.length] in Hf, IH. rewrite str_length_app in Hf, IH. apply direct_stores_list; [done| |lia|done].
    apply Forall_forall. intros u Hu. cbn [canonical] in Hc. rewrite all_of, Forall_forall in Hc. apply IH; [|by apply Hc].
    pose proof (concat_all_length (map reflectValue l) (reflectValue u) ltac:(by apply list_elem_of_fmap_2)). lia.
  - pose proof (concat_all_count entry_text kvs entry_text_length) as Hcount. pose proof Hc as (Hs & Hk & Hv%all_of).
    rewrite reflect_sorted in Hf, IH by done. rewrite str_app_cons, str_app_nil_l in Hf, IH. cbn [String.length] in Hf, IH.
    rewrite str_length_app in Hf, IH. apply direct_stores_dict; [done| |lia|done|done].
    apply Forall_forall. intros [k u] Hu. rewrite Forall_forall in Hk; rewrite Forall_forall in Hv. pose proof (entry_in k u kvs Hu) as Hl. cbn in Hf.
    split_and!; [by apply Hk, (list_elem_of_fmap_2 fst _ _ Hu)|by apply (Hv _ Hu)|cbn [snd]; lia|].
    cbn [snd]. apply IH; [lia|by apply (Hv _ Hu)].
Qed.

Lemma parse_assign fuel v t g : canonical limit v -> assign v t = Some g -> (S (S (String.length (reflectValue v))) < fuel)%nat ->
  stores (parseValue fuel t) t (reflectValue v) g.
Proof.
  revert v t g. induction fuel as [|fuel IH]; intros v t g Hc Hg Hf; [lia|]. rewrite assign_eq in Hg.
  destruct (assign_direct (fst (through t)) v) as [g0|] eqn:Hg0; [|done]. injection Hg as <-. apply value_stores.
  destruct fuel as [|[|fuel]]; [lia|lia|]. apply parse_assign_direct; [done| |lia|done].
  intros u Hu Hcu t' g' Hg'. apply IH; [done|done|lia].
Qed.
End limit.

Lemma Decode_assign v t g d s : buf d = "" -> getMaxStrLen d <= maxInt64 -> canonical (getMaxStrLen d) v -> assign v t = Some g ->
  rest d = Marshal v +:+ s -> exists b, Decode_into t d = (Done g, after d (Marshal v) s b).
Proof.
  intros Hb Hm Hc Hg Hr. assert (S (S (String.length (reflectValue v))) < S (S (fuel_for d)))%nat as Hf.
  { unfold fuel_for. rewrite Hr, str_length_app. unfold Marshal. lia. }
  destruct (parse_assign (getMaxStrLen d) Hm _ v t g Hc Hg Hf d s eq_refl ltac:(by intros _) Hr) as (b & He & _).
  exists b. unfold Decode_into. by rewrite He.
Qed.

Lemma Unmarshal_assign v t g : canonical DefaultDecodeMaxStrLen v -> assign v t = Some g -> Unmarshal_into t (Marshal v) = Done g.
Proof.
  intros Hc Hg. destruct (Decode_assign v t g (NewDecoder (Marshal v) EOF) "" eq_refl ltac:(done) Hc Hg) as (b & He); [by rewrite str_app_nil_r|].
  unfold Unmarshal_into. by rewrite He.
Qed.
