(* ===== verification/BencodeTheorems.v ===== *)
(** * What bencode promises

    A value that was written is read back, whatever follows it
    ([Marshal_then_Unmarshal]); a text that is accepted is the one text of its
    value ([Unmarshal_then_Marshal]); and the decoder always comes to an end,
    with a value or an error ([Unmarshal_ends]). *)

From S2P Require Import Prelude GoErrors GoTime Strconv Bencode BencodeFacts BencodeTypes BencodeFuel BencodeAssign.
From Stdlib Require Import ZArith Lia Ascii String.
From stdpp Require Import base strings list sorting pretty.
Import strconv bencode.

Local Open Scope Z_scope.

(** ** Values as Go has them

    A map has each key once, and no order. [canon] lists its entries by key;
    two values are the same for Go when this makes them equal. *)

Fixpoint canon (v : value) : value :=
  match v with
  | List l => List (map canon l)
  | Dict d => Dict (sort_keys (map (fun kv => (fst kv, canon (snd kv))) d))
  | _ => v
  end.

Fixpoint well_formed (v : value) : Prop :=
  match v with
  | Int _ => True
  | Str s => len s <= DefaultDecodeMaxStrLen
  | List l => foldr and True (map well_formed l)
  | Dict d => NoDup (map fst d) /\ Forall (fun k => len k <= DefaultDecodeMaxStrLen) (map fst d) /\
      foldr and True (map (fun kv => well_formed (snd kv)) d)
  end.

Lemma insert_by_map {A B} (leb : A -> A -> bool) (leb' : B -> B -> bool) (f : A -> B) x l :
  (forall a b, leb' (f a) (f b) = leb a b) -> insert_by leb' (f x) (map f l) = map f (insert_by leb x l).
Proof. intros Hf. induction l as [|y l IH]; [done|]. cbn [map insert_by]. rewrite Hf. destruct (leb x y); [done|]. cbn. by rewrite IH. Qed.

Lemma isort_map {A B} (leb : A -> A -> bool) (leb' : B -> B -> bool) (f : A -> B) l :
  (forall a b, leb' (f a) (f b) = leb a b) -> isort leb' (map f l) = map f (isort leb l).
Proof. intros Hf. induction l as [|x l IH]; [done|]. cbn [map isort]. by rewrite IH, insert_by_map with (leb := leb). Qed.

Lemma sort_keys_map {A B} (f : A -> B) (d : list (string * A)) :
  sort_keys (map (fun kv => (fst kv, f (snd kv))) d) = map (fun kv => (fst kv, f (snd kv))) (sort_keys d).
Proof. by apply isort_map. Qed.

Lemma sort_keys_sorted {A} (d : list (string * A)) : Sorted (fun a b => str_leb (fst a) (fst b) = true) (sort_keys d).
Proof. apply isort_sorted. intros. apply str_leb_total. Qed.

Lemma sort_keys_twice {A} (d : list (string * A)) : sort_keys (sort_keys d) = sort_keys d.
Proof. apply isort_id, sort_keys_sorted. Qed.

Lemma sort_keys_Permutation {A} (d : list (string * A)) : sort_keys d ≡ₚ d.
Proof. apply isort_Permutation. Qed.

(** The order in which a map lists its entries is not seen in its text. *)
Lemma reflect_canon v : reflectValue (canon v) = reflectValue v.
Proof.
  induction v as [n|s|l IH|d IH] using value_induction; cbn [canon reflectValue]; [done|done|..]; do 2 f_equal.
  - rewrite map_map. f_equal. apply map_ext_Forall. exact IH.
  - do 2 f_equal. rewrite (sort_keys_map reflectValue), sort_keys_twice, <-(sort_keys_map reflectValue), map_map. f_equal. apply map_ext_Forall.
    eapply Forall_impl; [exact IH|]. intros kv Hkv. cbn [fst snd]. by rewrite Hkv.
Qed.

Lemma str_leb_antisym a b : str_leb a b = true -> str_leb b a = true -> a = b.
Proof.
  revert b. induction a as [|x a IH]; intros [|y b]; cbn [str_leb]; try done.
  rewrite (N.compare_antisym (N_of_ascii x)). destruct (N.compare_spec (N_of_ascii x) (N_of_ascii y)) as [E| |]; cbn [CompOpp]; [|done|done].
  intros H1 H2. f_equal; [|by apply IH]. by rewrite <-(ascii_N_embedding x), E, ascii_N_embedding.
Qed.

Lemma sorted_keys_strict {A} (d : list (string * A)) : NoDup (map fst d) ->
  Sorted (fun a b => str_leb (fst a) (fst b) = true) d -> Sorted key_lt (map fst d).
Proof.
  induction d as [|[k x] d IH]; intros Hn Hs; [constructor|]. apply Sorted_inv in Hs as [Hs Hd]. apply NoDup_cons in Hn as [Hk Hn].
  cbn [map fst] in *. constructor; [by apply IH|]. destruct d as [|[k' x'] d]; [constructor|]. constructor. inversion Hd as [|? ? Hle]. cbn [fst] in Hle.
  unfold key_lt. destruct (str_leb k' k) eqn:E; [|done]. destruct Hk. cbn [map fst]. rewrite (str_leb_antisym k k') by done. apply list_elem_of_here.
Qed.

Lemma sort_keys_strict {A} (d : list (string * A)) : NoDup (map fst d) -> Sorted key_lt (map fst (sort_keys d)).
Proof.
  intros Hd. apply sorted_keys_strict; [|apply sort_keys_sorted].
  assert (map fst (sort_keys d) ≡ₚ map fst d) as -> by apply Permutation_map, sort_keys_Permutation. done.
Qed.

Lemma canon_canonical v : well_formed v -> canonical DefaultDecodeMaxStrLen (canon v).
Proof.
  induction v as [n|s|l IH|d IH] using value_induction; cbn [well_formed canon canonical]; [done|done|..].
  - rewrite !all_of. intros Hl. apply Forall_map. by apply (Forall_modus _ _ _ IH).
  - intros (Hn & Hk & Hd). rewrite all_of in Hd. rewrite sort_keys_map. assert (map fst (map (fun kv => (fst kv, canon (snd kv))) (sort_keys d)) = map fst (sort_keys d)) as ->
      by by rewrite map_map.
    split_and!; [by apply sort_keys_strict| |].
    + assert (map fst (sort_keys d) ≡ₚ map fst d) as -> by apply Permutation_map, sort_keys_Permutation. done.
    + rewrite all_of. apply Forall_map. cbn [snd]. rewrite sort_keys_Permutation. by apply (Forall_modus _ _ _ IH).
Qed.

(** ** Whole texts *)

Lemma default_limit s e : getMaxStrLen (NewDecoder s e) = DefaultDecodeMaxStrLen.
Proof. done. Qed.

(** A value is read off the front of any text. *)
Lemma Decode_complete v t d : buf d = "" -> getMaxStrLen d <= maxInt64 -> canonical (getMaxStrLen d) v ->
  rest d = Marshal v +:+ t -> Decode d = (Done v, after d (Marshal v) t "").
Proof.
  intros Hb Hm Hc Hr. unfold Decode, parseInterface, bind, fuel_for.
  rewrite (parse_complete _ v) with (t := t); [done| |done|done|done|exact Hr].
  rewrite Hr, str_length_app. unfold Marshal. lia.
Qed.

Lemma Decode_sound v d d' : buf d = "" -> Decode d = (Done v, d') ->
  exists t, rest d = Marshal v +:+ t /\ d' = after d (Marshal v) t "" /\ canonical (getMaxStrLen d) v.
Proof.
  unfold Decode. intros Hb H. destruct (parseInterface (fuel_for d) d) as [r d1] eqn:Hp.
  assert (r = Done v /\ d1 = d') as [-> ->]. { destruct r as [x|[[]|]]; cbn in H; by simplify_eq. }
  unfold parseInterface in Hp. apply bind_done in Hp as (x & d1 & Hx & Hp).
  destruct (parse_sound _ d x d1 Hb Hx) as (p & t & Hr & -> & Hv). destruct x as [x|]; [|done].
  injection Hp as <- <-. destruct Hv as [-> Hv]. by exists t.
Qed.

Lemma Unmarshal_app v t : well_formed v ->
  Unmarshal (Marshal v +:+ t) = if decide (t = "") then Done (canon v)
    else Raised (Thrown (DError (msg (pretty (Z.of_nat (String.length t)) +:+ " unused trailing bytes")))).
Proof.
  intros Hv. unfold Marshal. rewrite <-reflect_canon. unfold Unmarshal.
  rewrite (Decode_complete (canon v) t); [|done|done|by apply canon_canonical|done]. cbn [rest after]. by destruct t.
Qed.

Lemma Unmarshal_inv s v : Unmarshal s = Done v -> s = Marshal v /\ canonical DefaultDecodeMaxStrLen v.
Proof.
  unfold Unmarshal. destruct (Decode _) as [[x|] d'] eqn:Hd; [|done]. apply Decode_sound in Hd as (t & Hr & -> & Hc); [|done].
  cbn [rest after NewDecoder] in *. destruct t; [|done]. rewrite str_app_nil_r in Hr. intros [= <-]. by split.
Qed.

Lemma canonical_canon limit v : canonical limit v -> canon v = v.
Proof.
  induction v as [n|s|l IH|d IH] using value_induction; cbn [canonical canon]; [done|done|..].
  - intros Hl%all_of. f_equal. rewrite <-(map_id l) at 2. apply map_ext_Forall. by apply (Forall_modus _ _ _ IH).
  - intros (Hs & _ & Hd%all_of). f_equal. rewrite <-(sort_keys_id d Hs) at 2. f_equal. rewrite <-(map_id d) at 2. apply map_ext_Forall.
    eapply (Forall_modus _ _ _ _ Hd). Unshelve. eapply Forall_impl; [exact IH|]. intros [k x] Hx Hc. cbn [fst snd] in *. by rewrite Hx.
Qed.

Lemma key_lt_trans a b c : key_lt a b -> key_lt b c -> key_lt a c.
Proof.
  unfold key_lt. intros Hab Hbc. destruct (str_leb c a) eqn:E; [|done].
  assert (str_leb a b = true) as H by (by apply key_lt_le). rewrite (str_leb_trans c a b E H) in Hbc. done.
Qed.

Lemma sorted_NoDup l : Sorted key_lt l -> NoDup l.
Proof.
  intros Hs. apply Sorted_StronglySorted in Hs; [|intros ???; apply key_lt_trans]. induction Hs as [|k l _ IH Hk]; constructor; [|done].
  rewrite Forall_forall in Hk. intros Hin. specialize (Hk _ Hin). unfold key_lt in Hk. by rewrite str_leb_refl in Hk.
Qed.

Lemma canonical_well_formed v : canonical DefaultDecodeMaxStrLen v -> well_formed v.
Proof.
  induction v as [n|s|l IH|d IH] using value_induction; cbn [canonical well_formed]; [done|done|..].
  - rewrite !all_of. by apply Forall_modus.
  - rewrite !all_of. intros (Hs & Hk & Hd). split_and!; [by apply sorted_NoDup|done|]. by apply (Forall_modus _ _ _ IH).
Qed.

Lemma Marshal_same v v' : well_formed v -> well_formed v' -> Marshal v = Marshal v' <-> canon v = canon v'.
Proof.
  intros Hv Hv'. split.
  - intros He. pose proof (Unmarshal_app v "" Hv) as H. pose proof (Unmarshal_app v' "" Hv') as H'.
    rewrite He, H' in H. by injection H.
  - intros He. unfold Marshal. by rewrite <-reflect_canon, He, reflect_canon.
Qed.

(** C15. A well-formed value that was written is read back as the same value,
    its maps listed by key; what follows it is counted and reported. Values
    have the same text only when they are the same. *)
Theorem Marshal_then_Unmarshal v v' t : well_formed v -> well_formed v' ->
  Unmarshal (Marshal v) = Done (canon v) /\
  (t <> "" -> Unmarshal (Marshal v +:+ t) = Raised (Thrown (DError (msg (pretty (Z.of_nat (String.length t)) +:+ " unused trailing bytes"))))) /\
  (Marshal v = Marshal v' <-> canon v = canon v').
Proof.
  intros Hv Hv'. pose proof (Unmarshal_app v "" Hv) as H. rewrite str_app_nil_r in H. split_and!; [done| |by apply Marshal_same].
  intros Ht. rewrite Unmarshal_app by done. by rewrite decide_False.
Qed.

(** C16. What is accepted is the one text of its value: the keys of its maps are
    in order without repetition, its numbers have no sign or digit too many,
    and its strings have their lengths and are not too long. *)
Theorem Unmarshal_then_Marshal s v : Unmarshal s = Done v ->
  Marshal v = s /\ well_formed v /\ canon v = v.
Proof. intros [-> Hc]%Unmarshal_inv. split_and!; [done|by apply canonical_well_formed|by eapply canonical_canon]. Qed.

Lemma Unmarshal_answers s : (exists v, Unmarshal s = Done v) \/ (exists e, Unmarshal s = Raised (Thrown e)).
Proof.
  pose proof (Unmarshal_no_fuel s). destruct (Unmarshal s) as [v|[e|]]; [left; by exists v|right; by exists e|done].
Qed.

(** The decoder comes to an end on every text, with a value or an error; a
    text that is cut short anywhere is an error. *)
Theorem Unmarshal_ends s :
  ((exists v, Unmarshal s = Done v) \/ (exists e, Unmarshal s = Raised (Thrown e))) /\
  forall v t, well_formed v -> s +:+ t = Marshal v -> t <> "" -> exists e, Unmarshal s = Raised (Thrown e).
Proof.
  assert ((exists v, Unmarshal s = Done v) \/ (exists e, Unmarshal s = Raised (Thrown e))) as Hs by apply Unmarshal_answers.
  split; [done|]. intros v t Hv Ht Hne. destruct Hs as [[v0 [-> H0]%Unmarshal_inv]|]; [|done].
  pose proof (Unmarshal_app v0 t (canonical_well_formed _ H0)) as H. rewrite Ht, decide_False in H by done.
  pose proof (Unmarshal_app v "" Hv) as H'. rewrite str_app_nil_r, H in H'. done.
Qed.

(** C17. Decoding a text into a variable of a type is decoding it into a value and
    taking from that what the type has room for. *)
Theorem Unmarshal_into_agrees s v t g : Unmarshal s = Done v -> assign v t = Some g -> decoder.Unmarshal_into t s = Done g.
Proof. intros [-> Hc]%Unmarshal_inv Hg. by apply Unmarshal_assign. Qed.

(** ** At an example *)

Module sample.

(** A map as Go may list it, with a number beyond 64 bits. *)
Definition torrent : value :=
  Dict [("name", Str "arch"); ("length", Int 18446744073709551616); ("files", List [Dict []; Int (-1)])].

Definition torrent_text : string := "d5:filesldei-1ee6:lengthi18446744073709551616e4:name4:arche".

Example torrent_is_written : Marshal torrent = torrent_text.
Proof. vm_compute. reflexivity. Qed.

Lemma Marshal_then_Unmarshal_witness : well_formed torrent /\ "x" <> ""%string /\
  Unmarshal (Marshal torrent) = Done (canon torrent) /\
  Unmarshal (Marshal torrent +:+ "x") = Raised (Thrown (DError (msg "1 unused trailing bytes"))).
Proof.
  assert (well_formed torrent) as Hw.
  { split_and!; [apply (bool_decide_unpack (NoDup _)); vm_compute; exact I|repeat constructor; by vm_compute|].
    cbn. split_and!; try done. constructor. }
  split_and!; [done|done|apply (Marshal_then_Unmarshal torrent torrent "x"); done|].
  exact (proj1 (proj2 (Marshal_then_Unmarshal torrent torrent "x" Hw Hw)) ltac:(done)).
Defined.

Lemma Unmarshal_then_Marshal_witness : exists v, Unmarshal torrent_text = Done v /\ Marshal v = torrent_text /\ canon v = v.
Proof.
  eexists. assert (Unmarshal torrent_text = Done (canon torrent)) as He by (vm_compute; reflexivity).
  split; [exact He|]. destruct (Unmarshal_then_Marshal torrent_text _ He) as (? & _ & ?). by split.
Defined.

Lemma Unmarshal_into_agrees_witness : exists v, Unmarshal "d1:ali3eee" = Done v /\
  decoder.Unmarshal_into (decoder.TMap (decoder.TUint 8)) "d1:ali3eee" = Done (decoder.GMap (Some [("a", decoder.GInt 3)])).
Proof.
  exists (Dict [("a", List [Int 3])]). assert (Unmarshal "d1:ali3eee" = Done (Dict [("a", List [Int 3])])) as He by (vm_compute; reflexivity).
  split; [exact He|]. apply (Unmarshal_into_agrees _ _ _ _ He). vm_compute. reflexivity.
Defined.

Lemma Unmarshal_ends_witness : well_formed (Str "arch") /\ exists e, Unmarshal "4:arc" = Raised (Thrown e).
Proof.
  assert (well_formed (Str "arch")) as Hw by (by vm_compute). split; [exact Hw|].
  apply (proj2 (Unmarshal_ends "4:arc") (Str "arch") "h" Hw); [reflexivity|done].
Defined.

End sample.
