(* ===== verification/BencodeEncode.v ===== *)
(** * Encoding Go variables as bencode

    [bencode.Marshal] of a variable (src/licenses/github.com/anacrolix/torrent/
    bencode/encode.go): what the code finds out of its type by reflection is an
    [etype] here, and the variable a [gvalue] of [BencodeTypes.v]. When a field
    counts as empty is decided by a library. What a variable is written as is
    the text of a value of [Bencode.v] ([shows]). *)

From S2P Require Import Prelude GoErrors GoTime Strconv Bencode BencodeFacts BencodeTypes BencodeFuel BencodeAssign BencodeTheorems.
From Stdlib Require Import ZArith Lia Ascii String.
From stdpp Require Import base strings list sorting.

Local Open Scope Z_scope.

(** [missinggo.IsEmptyValue] *)
Class Emptiness : Type := { isEmptyValue : decoder.gvalue -> bool }.

Module encoder.
Import strconv bencode decoder.

(** Nothing is in the variable. *)
Fixpoint nothing (g : gvalue) : bool :=
  match g with
  | GInt n => n =? 0
  | GBool b => negb b
  | GString s | GBytes s => bool_decide (s = "")
  | GSlice l => match l with None | Some [] => true | _ => false end
  | GMap m => match m with None | Some [] => true | _ => false end
  | GStruct fs => forallb id (map (fun f => nothing (snd f)) fs)
  | GPtr p => match p with None => true | _ => false end
  end.

(** What the encoder relies on: only nothing is empty, and no bytes and no slice
    are. *)
Class EmptinessLaws `{Emptiness} : Prop := {
  empty_is_nothing g : isEmptyValue g = true -> nothing g = true;
  no_bytes_is_empty : isEmptyValue (GBytes "") = true;
  nil_slice_is_empty : isEmptyValue (GSlice None) = true;
}.

(** ** The encoder *)

(** A type with a method [MarshalBencode] comes with what the method answers;
    the fields of a struct, by the keys of their tags, with whether they
    [omitempty]; a pointer with the zero value behind it. *)
Inductive etype : Type :=
| EInt
| EBool
| EString
| EBytes
| ESlice (elem : etype)
| EMap (elem : etype)
| EStruct (fields : list (string * (etype * bool)))
| EPtr (zero : gvalue) (elem : etype)
| EMarshaler (MarshalBencode : gvalue -> ran string).

Definition map_ran {A B} (f : A -> B) (r : ran A) : ran B :=
  match r with Done a => Done (f a) | Raised e => Raised e end.

(** Texts one after the other; the first panic is the one that is raised. *)
Fixpoint concat_ran (l : list (ran string)) : ran string :=
  match l with
  | [] => Done ""
  | Done s :: l' => map_ran (append s) (concat_ran l')
  | Raised e :: _ => Raised e
  end.

Definition enclosed (open : string) (r : ran string) : ran string := map_ran (fun s => open +:+ s +:+ "e") r.

(** A variable is one of its type. *)
Definition mistyped : ran string := Raised (Thrown (DError (msg "mistyped"))).

Section encode.
Context `{Emptiness}.

(** The entry of a field, unless it is empty and may be left out. *)
Definition encode_field (encode : gvalue -> ran string) (tag : string) (omitEmpty : bool) (gs : list (string * gvalue)) : ran string :=
  match assoc_get tag gs with
  | None => mistyped
  | Some x => if omitEmpty && isEmptyValue x then Done "" else map_ran (append (reflectString tag)) (encode x)
  end.

Fixpoint reflect_value (t : etype) (g : gvalue) : ran string :=
  match t, g with
  | EMarshaler f, _ =>
      match f g with
      | Done s => Done s
      | Raised (Thrown e) => Raised (Thrown (DWrap "bencode: error calling MarshalBencode: " e))
      | Raised NoFuel => Raised NoFuel
      end
  | EInt, GInt n => Done ("i" +:+ int_text n +:+ "e")
  | EBool, GBool b => Done (if b then "i1e" else "i0e")
  | EString, GString s => Done (reflectString s)
  | EBytes, GBytes s => Done (reflectString s)
  | ESlice elem, GSlice l => enclosed "l" (concat_ran (map (reflect_value elem) (default [] l)))
  | EMap elem, GMap m =>
      enclosed "d" (concat_ran (map snd (sort_keys
        (map (fun kv => (fst kv, map_ran (append (reflectString (fst kv))) (reflect_value elem (snd kv)))) (default [] m)))))
  | EStruct fs, GStruct gs =>
      enclosed "d" (concat_ran (map snd (sort_keys
        (map (fun f => (fst f, encode_field (reflect_value (fst (snd f))) (fst f) (snd (snd f)) gs)) fs))))
  | EPtr z elem, GPtr p => reflect_value elem (default z p)
  | _, _ => mistyped
  end.

Definition Marshal_from (t : etype) (g : gvalue) : ran string := reflect_value t g.

(** ** What is written *)

(** [g] is written as the text of [v]. *)
Definition shows (t : etype) (g : gvalue) (v : value) : Prop := reflect_value t g = Done (Marshal v).

Lemma concat_ran_done l : concat_ran (map Done l) = Done (concat_all l).
Proof. induction l as [|s l IH]; [done|]. cbn [map concat_ran]. by rewrite IH, concat_all_cons. Qed.

Lemma shows_int n : shows EInt (GInt n) (Int n).
Proof. done. Qed.

Lemma shows_string s : shows EString (GString s) (Str s).
Proof. done. Qed.

Lemma shows_bytes s : shows EBytes (GBytes s) (Str s).
Proof. done. Qed.

Lemma shows_map {A} (f : A -> gvalue) (h : A -> value) t l : (forall x, x ∈ l -> shows t (f x) (h x)) ->
  map (reflect_value t) (map f l) = map Done (map Marshal (map h l)).
Proof.
  intros Hs. induction l as [|x l IH]; [done|]. cbn [map]. rewrite IH by (intros; apply Hs; by apply list_elem_of_further).
  by rewrite (Hs x (list_elem_of_here x l)).
Qed.

(** The slice of a list; [nil] when it is empty. *)
Definition slice_of {A} (f : A -> gvalue) (l : list A) : gvalue :=
  match l with [] => GSlice None | _ => GSlice (Some (map f l)) end.

Lemma shows_slice {A} (f : A -> gvalue) (h : A -> value) t l : (forall x, x ∈ l -> shows t (f x) (h x)) ->
  shows (ESlice t) (slice_of f l) (List (map h l)).
Proof.
  intros Hs. unfold shows. assert (reflect_value (ESlice t) (slice_of f l) = enclosed "l" (concat_ran (map (reflect_value t) (map f l)))) as ->
    by by destruct l.
  rewrite (shows_map f h t l Hs), concat_ran_done. done.
Qed.

Definition map_of {A} (f : A -> gvalue) (m : list (string * A)) : gvalue :=
  match m with [] => GMap None | _ => GMap (Some (map (fun kx => (fst kx, f (snd kx))) m)) end.

Lemma shows_dict {A} (f : A -> gvalue) (h : A -> value) t m : Sorted key_lt (map fst m) ->
  (forall kx, kx ∈ m -> shows t (f (snd kx)) (h (snd kx))) ->
  shows (EMap t) (map_of f m) (Dict (map (fun kx => (fst kx, h (snd kx))) m)).
Proof.
  intros Hsort Hs. unfold shows, Marshal. rewrite reflect_sorted by by rewrite map_map.
  assert (reflect_value (EMap t) (map_of f m) = enclosed "d" (concat_ran (map snd (sort_keys
    (map (fun kx => (fst kx, map_ran (append (reflectString (fst kx))) (reflect_value t (f (snd kx))))) m))))) as ->.
  { unfold map_of. destruct m; [done|]. cbn [reflect_value from_option id]. by rewrite map_map. }
  rewrite sort_keys_id by by rewrite map_map. rewrite !map_map. cbn [snd fst].
  assert (map (fun kx => map_ran (append (reflectString (fst kx))) (reflect_value t (f (snd kx)))) m =
    map Done (map (fun kx => entry_text (fst kx, h (snd kx))) m)) as ->.
  { clear Hsort. induction m as [|kx m IH]; [done|]. cbn [map]. rewrite IH by (intros; apply Hs; by apply list_elem_of_further).
    by rewrite (Hs kx (list_elem_of_here kx m)). }
  by rewrite concat_ran_done.
Qed.

(** ** Structs *)

(** The entries of the fields that are not left out. *)
Definition left_out (gs : list (string * gvalue)) (f : string * (etype * bool)) : bool :=
  snd (snd f) && match assoc_get (fst f) gs with Some x => isEmptyValue x | None => false end.

Fixpoint written (gs : list (string * gvalue)) (fs : list (string * (etype * bool))) (vs : list value) : list (string * value) :=
  match fs, vs with
  | f :: fs', v :: vs' => if left_out gs f then written gs fs' vs' else (fst f, v) :: written gs fs' vs'
  | _, _ => []
  end.

Definition field_shows (gs : list (string * gvalue)) (f : string * (etype * bool)) (v : value) : Prop :=
  exists x, assoc_get (fst f) gs = Some x /\ (left_out gs f = false -> shows (fst (snd f)) x v).

Lemma written_in gs fs vs k v : (k, v) ∈ written gs fs vs -> k ∈ map fst fs.
Proof.
  revert vs. induction fs as [|f fs IH]; intros [|v' vs]; cbn [written map]; try (intros H'; by apply elem_of_nil in H').
  destruct (left_out gs f); [intros; apply list_elem_of_further; by eapply IH|].
  intros [[= -> ->]|Hin]%elem_of_cons; [apply list_elem_of_here|apply list_elem_of_further; by eapply IH].
Qed.

Lemma written_sorted gs fs vs : Sorted key_lt (map fst fs) -> Sorted key_lt (map fst (written gs fs vs)).
Proof.
  intros Hs. apply Sorted_StronglySorted in Hs; [|intros ???; apply key_lt_trans]. apply StronglySorted_Sorted.
  revert vs. induction fs as [|f fs IH]; intros [|v vs]; cbn [written map]; try constructor.
  apply StronglySorted_inv in Hs as [Hs Hf]. destruct (left_out gs f); [by apply IH|]. cbn [map]. constructor; [by apply IH|].
  rewrite Forall_forall in Hf. apply Forall_forall. intros k ([k' v'] & -> & Hin)%list_elem_of_fmap. apply Hf. by eapply written_in.
Qed.

Lemma fields_text gs fs vs : Forall2 (field_shows gs) fs vs ->
  concat_ran (map (fun f => encode_field (reflect_value (fst (snd f))) (fst f) (snd (snd f)) gs) fs) =
  Done (concat_all (map entry_text (written gs fs vs))).
Proof.
  intros Hf. induction Hf as [|f v fs vs (x & Hx & Hs) _ IH]; [done|]. cbn [map concat_ran written].
  unfold encode_field at 1. rewrite Hx. unfold left_out in *. rewrite Hx in *. destruct (snd (snd f) && isEmptyValue x).
  - by rewrite IH.
  - rewrite (Hs eq_refl). cbn [map_ran]. rewrite IH. cbn [map_ran map]. by rewrite concat_all_cons.
Qed.

Lemma shows_struct fs gs vs : Sorted key_lt (map fst (sort_keys fs)) -> Forall2 (field_shows gs) (sort_keys fs) vs ->
  shows (EStruct fs) (GStruct gs) (Dict (written gs (sort_keys fs) vs)).
Proof.
  intros Hsort Hf. unfold shows, Marshal. rewrite reflect_sorted by by apply written_sorted.
  set (F := fun f : string * (etype * bool) => encode_field (reflect_value (fst (snd f))) (fst f) (snd (snd f)) gs).
  change (reflect_value (EStruct fs) (GStruct gs)) with (enclosed "d" (concat_ran (map snd (sort_keys (map (fun f => (fst f, F f)) fs))))).
  assert (sort_keys (map (fun f => (fst f, F f)) fs) = map (fun f => (fst f, F f)) (sort_keys fs)) as ->.
  { apply isort_map. done. }
  rewrite map_map. cbn [snd]. unfold F. rewrite (fields_text gs _ vs) by done. done.
Qed.

(** An entry that was written, or none. *)
Lemma assoc_written gs fs vs f v : NoDup (map fst fs) -> Forall2 (field_shows gs) fs vs -> (f, v) ∈ zip fs vs ->
  assoc_get (fst f) (written gs fs vs) = if left_out gs f then None else Some v.
Proof.
  intros Hn Hf. induction Hf as [|f' v' fs vs _ _ IH]; [intros H'; by apply elem_of_nil in H'|]. cbn [map] in Hn. apply NoDup_cons in Hn as [Hk Hn].
  cbn [zip zip_with written]. intros [[= -> ->]|Hin]%elem_of_cons.
  - destruct (left_out gs f') eqn:Hl.
    + unfold assoc_get. destruct (List.find _ _) as [[k x]|] eqn:Hfind; [|done]. apply List.find_some in Hfind as [Hin He].
      apply bool_decide_eq_true in He. cbn [fst] in He. subst k. destruct Hk. apply (written_in gs fs vs _ x). by apply list_elem_of_In.
    + unfold assoc_get. cbn [List.find fst]. by rewrite bool_decide_eq_true_2.
  - destruct (left_out gs f'); [by apply IH|]. unfold assoc_get. cbn [List.find fst]. rewrite bool_decide_eq_false_2; [by apply IH|].
    intros He. destruct Hk. rewrite He. apply list_elem_of_fmap_2. by apply elem_of_zip_l in Hin.
Qed.

End encode.
End encoder.
