(* ===== verification/MetaInfo.v ===== *)
(** * Torrent files

    [metainfo.Load] and what is taken from a torrent file (src/licenses/
    github.com/anacrolix/torrent/metainfo/metainfo.go, nodes.go, urllist.go,
    announcelist.go, file-tree.go; spec.go): the file is decoded into a
    [MetaInfo], which keeps the bytes of the info dictionary as they are, for
    these are what is hashed; they are decoded once more into an [Info]. The
    hash functions are the standard library's and so parameters. *)

From S2P Require Import Prelude GoErrors GoTime Strconv Bencode BencodeTypes Infohash Info Prog Magnet.
From Stdlib Require Import ZArith Lia Ascii String.
From stdpp Require Import base strings list pretty.

Local Open Scope Z_scope.

Class Hashing : Type := {
  sha1_Sum : string -> string;
  sha256_Sum : string -> string;
}.

Module metafile.
Import strconv bencode decoder.

(** ** Types of their own *)

Definition ran_bind {A B} (r : ran A) (f : A -> ran B) : ran B :=
  match r with Done a => f a | Raised e => Raised e end.

(** [bencode.Bytes] *)
Definition Bytes : gtype := TUnmarshaler (GBytes "") (fun b => Done (GBytes b)).

Fixpoint has_colon (s : string) : bool :=
  match s with "" => false | String c s' => bool_decide (c = ":"%char) || has_colon s' end.

(** [net.JoinHostPort] *)
Definition JoinHostPort (host port : string) : string :=
  if has_colon host then "[" +:+ host +:+ "]:" +:+ port else host +:+ ":" +:+ port.

Definition assertion_failed : failure := msg "interface conversion".
Definition index_out_of_range : failure := msg "runtime error: index out of range".

(** The panics of the type assertions are recovered. *)
Definition node_of (v : value) : ran gvalue :=
  match v with
  | Str s => Done (GString s)
  | List l =>
      match l with
      | Str host :: Int port :: _ =>
          if (minInt64 <=? port) && (port <=? maxInt64) then Done (GString (JoinHostPort host (int_text port)))
          else Raised (Thrown (DError assertion_failed))
      | [] | [Str _] => Raised (Thrown (DError index_out_of_range))
      | _ => Raised (Thrown (DError assertion_failed))
      end
  | _ => Raised (Thrown (DError (msg "unsupported type")))
  end.

Definition Node_UnmarshalBencode (b : string) : ran gvalue := ran_bind (Unmarshal b) node_of.

Definition Node : gtype := TUnmarshaler (GString "") Node_UnmarshalBencode.

Definition UrlList_UnmarshalBencode (b : string) : ran gvalue :=
  match b with
  | "" => Done (GSlice None)
  | String c _ =>
      if decide (c = "l"%char) then Unmarshal_into (TSlice TString) b
      else ran_bind (Unmarshal_into TString b) (fun s => Done (GSlice (Some [s])))
  end.

Definition UrlList : gtype := TUnmarshaler (GSlice None) UrlList_UnmarshalBencode.

(** ** MetaInfo *)

Definition MetaInfo_type : gtype := TStruct [
  ("info", (Bytes, false));
  ("announce", (TString, false));
  ("announce-list", (TSlice (TSlice TString), false));
  ("nodes", (TSlice Node, true));
  ("creation date", (TInt 64, true));
  ("comment", (TString, false));
  ("created by", (TString, false));
  ("encoding", (TString, false));
  ("url-list", (UrlList, false));
  ("piece layers", (TMap TString, false))].

Record MetaInfo : Type := mkMetaInfo {
  InfoBytes : string;
  Announce : string;
  AnnounceList : list (list string);
  Nodes : list string;
  CreationDate : Z;
  Comment : string;
  CreatedBy : string;
  Encoding : string;
  UrlList_ : list string;
  PieceLayers : list (string * string);
}.

(** What a variable holds. *)
Definition field (key : string) (g : gvalue) : gvalue :=
  match g with GStruct fs => default (GInt 0) (assoc_get key fs) | _ => GInt 0 end.
Definition as_string (g : gvalue) : string := match g with GString s | GBytes s => s | _ => "" end.
Definition as_int (g : gvalue) : Z := match g with GInt n => n | _ => 0 end.
Definition as_slice {A} (f : gvalue -> A) (g : gvalue) : list A := match g with GSlice (Some l) => map f l | _ => [] end.
Definition as_map {A} (f : gvalue -> A) (g : gvalue) : list (string * A) :=
  match g with GMap (Some m) => map (fun kv => (fst kv, f (snd kv))) m | _ => [] end.

Definition to_MetaInfo (g : gvalue) : MetaInfo :=
  mkMetaInfo (as_string (field "info" g)) (as_string (field "announce" g))
    (as_slice (as_slice as_string) (field "announce-list" g)) (as_slice as_string (field "nodes" g))
    (as_int (field "creation date" g)) (as_string (field "comment" g)) (as_string (field "created by" g))
    (as_string (field "encoding" g)) (as_slice as_string (field "url-list" g)) (as_map as_string (field "piece layers" g)).

(** [Load] of a reader of [contents] that ends in [ending]. *)
Definition Load_run (contents : string) (ending : failure) : ran MetaInfo :=
  match Decode_into MetaInfo_type (NewDecoder contents ending) with
  | (Raised e, _) => Raised e
  | (Done g, d) =>
      match fst (ReadEOF d) with
      | Done None => Done (to_MetaInfo g)
      | Done (Some e) => Raised (Thrown (DError (Wrapped "error after decoding metainfo: " e)))
      | Raised e => Raised e
      end
  end.

(** That the fuel runs out never happens ([Load_ends]). *)
Definition as_result {A} (r : ran A) : result A :=
  match r with
  | Done a => Ok a
  | Raised (Thrown e) => Err (error_of e)
  | Raised NoFuel => Err (EOpaque "out of fuel")
  end.

Definition Load (contents : string) (ending : failure) : result MetaInfo := as_result (Load_run contents ending).

(** ** Announce lists *)

Definition OverridesAnnounce (al : list (list string)) (announce : string) : bool :=
  existsb (existsb (fun url => bool_decide (url <> "") || bool_decide (announce = ""))) al.

Definition UpvertedAnnounceList (mi : MetaInfo) : list (list string) :=
  if OverridesAnnounce (AnnounceList mi) (Announce mi) then AnnounceList mi
  else if decide (Announce mi <> "") then [[Announce mi]]
  else [].

(** ** Info *)

Definition FileTreeFile_type : gtype := TStruct [("length", (TInt 64, false)); ("pieces root", (TString, false))].

(** The directories of a tree are decoded from their bytes in turn. A map is
    iterated in any order; here, and for what an error says, by key. *)
Fixpoint FileTree_UnmarshalBencode (fuel : nat) (bytes : string) : ran info.FileTree :=
  match fuel with
  | O => Raised NoFuel
  | S fuel' =>
      ran_bind (Unmarshal_into (TMap Bytes) bytes) (fun g =>
      let dir := as_map as_string g in
      ran_bind (match assoc_get "" dir with
                | Some propBytes => Unmarshal_into FileTreeFile_type propBytes
                | None => Done (zero FileTreeFile_type)
                end) (fun file =>
      ran_bind ((fix subs (l : list (string * string)) : ran (list (string * info.FileTree)) :=
                   match l with
                   | [] => Done []
                   | (key, b) :: l' =>
                       ran_bind (FileTree_UnmarshalBencode fuel' b) (fun sub =>
                       ran_bind (subs l') (fun r => Done ((key, sub) :: r)))
                   end) (sort_keys (List.filter (fun kv => negb (bool_decide (fst kv = ""))) dir))) (fun sub =>
      Done (info.mkFileTree (as_int (field "length" file)) (as_string (field "pieces root" file)) sub))))
  end.

(** A tree in a variable. *)
Fixpoint tree_value (ft : info.FileTree) : gvalue :=
  GStruct [("length", GInt (info.File_Length ft)); ("pieces root", GString (info.File_PiecesRoot ft));
    ("dir", GMap (Some (map (fun kv => (fst kv, tree_value (snd kv))) (info.Dir ft))))].

Definition empty_tree : info.FileTree := info.mkFileTree 0 "" [].

Fixpoint to_tree (g : gvalue) : info.FileTree :=
  match g with
  | GStruct [(_, GInt n); (_, GString r); (_, GMap (Some m))] =>
      info.mkFileTree n r (map (fun kv => (fst kv, to_tree (snd kv))) m)
  | _ => empty_tree
  end.

Definition FileTree : gtype :=
  TUnmarshaler (tree_value empty_tree)
    (fun b => ran_bind (FileTree_UnmarshalBencode (S (String.length b)) b) (fun ft => Done (tree_value ft))).

Definition ExtendedFileAttrs : list (string * (gtype * bool)) :=
  [("attr", (TString, false)); ("symlink path", (TSlice TString, false)); ("sha1", (TString, false))].

Definition FileInfo_type : gtype := TStruct ([
  ("length", (TInt 64, false));
  ("path", (TSlice TString, false));
  ("path.utf-8", (TSlice TString, false))] ++ ExtendedFileAttrs).

Definition Info_type : gtype := TStruct ([
  ("piece length", (TInt 64, false));
  ("pieces", (TBytes, false));
  ("name", (TString, false));
  ("name.utf-8", (TString, false));
  ("length", (TInt 64, false))] ++ ExtendedFileAttrs ++ [
  ("private", (TPtr TBool, false));
  ("source", (TString, false));
  ("files", (TSlice FileInfo_type, false));
  ("meta version", (TInt 64, false));
  ("file tree", (FileTree, false))]).

Definition to_FileInfo (g : gvalue) : info.FileInfo :=
  info.mkFileInfo (as_int (field "length" g)) (as_slice as_string (field "path" g))
    (as_slice as_string (field "path.utf-8" g)) None 0.

Definition to_Info (g : gvalue) : info.Info :=
  info.mkInfo (as_int (field "piece length" g)) (as_string (field "pieces" g)) (as_string (field "name" g))
    (as_string (field "name.utf-8" g)) (as_int (field "length" g))
    (match field "files" g with GSlice (Some l) => Some (map to_FileInfo l) | _ => None end)
    (as_int (field "meta version" g)) (to_tree (field "file tree" g)).

Definition UnmarshalInfo (mi : MetaInfo) : ran info.Info :=
  ran_bind (Unmarshal_into Info_type (InfoBytes mi)) (fun g => Done (to_Info g)).

(** ** What the client adds *)

(** The fields that a magnet leaves empty are besides those it sets. *)
Record TorrentSpec : Type := mkSpec {
  spec : metainfo.TorrentSpec;
  DhtNodes : list string;
  SpecPieceLayers : list (string * string);
  SpecInfoBytes : string;
}.

Section hashing.
Context `{Hashing}.

Definition HashInfoBytes (mi : MetaInfo) : string := sha1_Sum (InfoBytes mi).

(** The spec that comes with an error is not used. *)
Definition TorrentSpecFromMetaInfoErr (mi : MetaInfo) : result (info.Info * TorrentSpec) :=
  match as_result (UnmarshalInfo mi) with
  | Err err => Err (EWrap "unmarshalling info: " err "")
  | Ok i =>
      Ok (i, mkSpec
        (metainfo.mkTorrentSpec
           (if info.HasV1 i then HashInfoBytes mi else infohash.zero)
           (if info.HasV2 i then Some (sha256_Sum (InfoBytes mi)) else None)
           (UpvertedAnnounceList mi) (info.BestName i) (UrlList_ mi) [] [])
        (Nodes mi) (PieceLayers mi) (InfoBytes mi))
  end.

End hashing.
End metafile.
