(* ===== verification/MetaInfoFacts.v ===== *)
(** * Reading torrent files

    The types of a torrent file decode without end ([MetaInfo_ends],
    [Info_ends]), and the bytes of a dictionary that are kept are a part of the
    text ([fields_pieces]). *)

From S2P Require Import Prelude GoErrors GoTime Strconv Bencode BencodeFacts BencodeTypes BencodeFuel BencodeAssign Infohash Info Prog Magnet MetaInfo.
From Stdlib Require Import ZArith Lia Ascii String.
From stdpp Require Import base strings list sorting.
Import strconv bencode decoder metafile.

Local Open Scope Z_scope.
Local Open Scope bencode_scope.

(** ** Errors *)

Lemma foreign_failure e : foreign (failure_error e).
Proof. induction e as [|s|pre e IH]; cbn [failure_error]; [by intros []|apply foreign_opaque|by apply foreign_wrap]. Qed.

(** Decoding fails with errors of its own. *)
Lemma foreign_error_of e : foreign (error_of e).
Proof. induction e; cbn [error_of]; auto using foreign_opaque, foreign_failure, foreign_wrap. Qed.

Lemma foreign_as_result {A} (r : ran A) e : as_result r = Err e -> foreign e.
Proof. destruct r as [a|[d|]]; [done|intros [= <-]; apply foreign_error_of|intros [= <-]; apply foreign_opaque]. Qed.

Lemma foreign_spec_error `{Hashing} mi e : TorrentSpecFromMetaInfoErr mi = Err e -> foreign e.
Proof.
  unfold TorrentSpecFromMetaInfoErr. destruct (as_result (UnmarshalInfo mi)) as [i|err] eqn:Hi; [done|]. intros [= <-].
  apply foreign_wrap. by eapply foreign_as_result.
Qed.

(** ** What a dictionary is decoded to, entry by entry *)

Definition entries (g : gvalue) : list (string * gvalue) :=
  match g with GMap (Some m) => m | GStruct fs => fs | _ => [] end.

Lemma assoc_set_in {A} key (x : A) l kv : kv ∈ assoc_set key x l -> kv ∈ l \/ kv = (key, x).
Proof.
  induction l as [|[k y] l IH]; cbn [assoc_set]; [intros ?%list_elem_of_singleton; by right|].
  destruct (decide (k = key)); rewrite !elem_of_cons; naive_solver.
Qed.

Lemma set_field_in g key x kv : kv ∈ entries (set_field g key x) -> kv ∈ entries g \/ kv = (key, x).
Proof.
  destruct g as [| | | | |[m|]|fs|]; cbn [set_field entries default]; try (intros H; by left).
  - apply assoc_set_in.
  - apply (assoc_set_in key x []).
  - apply assoc_set_in.
Qed.

Definition within (d : Decoder) (s : string) : Prop := exists p, s = p +:+ rest d.

Lemma within_trans d d' s : within d s -> (exists p, rest d = p +:+ rest d') -> within d' s.
Proof. intros Hd Hp. by apply (rest_trans _ (rest d)). Qed.

Lemma direct_at_end parse fuel t d : by_kind t = true -> rest d = "" ->
  parse_direct parse fuel t d = (Done (zero t, (false, Some (DError (ending d)))), d).
Proof.
  intros Ht Hr. assert (parseUnmarshaler fuel t = ret None) as Hu by by destruct t.
  unfold parse_direct. rewrite Hu. unfold bind, ret, ReadByte. by rewrite Hr.
Qed.

Section fields.
Context (s : string) (t : gtype) (Ht : ends t) (Q : string * gvalue -> Prop).
Context (HQ : forall n key field ignore d x err d', getDictField t key = Some (field, ignore) -> within d s ->
  (String.length (rest d) < String.length s)%nat -> parseValue (S n) field d = (Done (x, (true, err)), d') -> Q (key, x)).

(** Every entry of the result was there before or is in [Q]. *)
Lemma fields_pieces n fuel g d g' r d' : within d s -> (String.length (rest d) <= n)%nat ->
  parse_fields (parseValue (S (S n))) (parseValueInterface (S (S n))) fuel t g d = (Done (g', r), d') ->
  forall kv, kv ∈ entries g' -> kv ∈ entries g \/ Q kv.
Proof.
  revert g d. induction fuel as [|fuel IH]; intros g d Hd Hn; cbn [parse_fields]; [done|]. intros H kv Hkv.
  apply bind_done in H as (k & d1 & Hk & H). pose proof (runs_parseValue n TString I d Hn) as Hr. rewrite Hk in Hr. destruct Hr as [Hr Hstrict].
  assert (within d1 s) as Hd1 by by eapply within_trans. assert (String.length (rest d1) <= n)%nat as Hn1 by (destruct Hr as [p Hr]; apply rest_shorter in Hr; lia).
  destruct k as [k [[|] [e|]]]; try (injection H as <- _ _; by left). cbv zeta in H.
  set (key := match k with GString x => x | _ => "" end) in *.
  assert (String.length (rest d1) < String.length s)%nat as Hlt.
  { specialize (Hstrict eq_refl). destruct Hd as [p ->]. rewrite str_length_app. lia. }
  destruct (getDictField t key) as [[field ignore]|] eqn:Hf.
  - apply bind_done in H as ([x [ok err]] & d2 & Hx & H). pose proof (runs_parseValue n field (ends_field _ _ _ _ Ht Hf) d1 Hn1) as Hr2.
    rewrite Hx in Hr2. destruct Hr2 as [Hr2 _]. assert (within d2 s) as Hd2 by by eapply within_trans.
    assert (String.length (rest d2) <= n)%nat as Hn2 by (destruct Hr2 as [p Hr2]; apply rest_shorter in Hr2; lia).
    assert (ok = true -> parse_fields (parseValue (S (S n))) (parseValueInterface (S (S n))) fuel t (set_field g key x) d2 = (Done (g', r), d') ->
      kv ∈ entries g \/ Q kv) as Hgo.
    { intros -> Hgo. destruct (IH _ _ Hd2 Hn2 Hgo kv Hkv) as [[Hin|Heq]%set_field_in|Hq]; [by left| |by right].
      right. rewrite Heq. eapply HQ; [exact Hf|exact Hd1|exact Hlt|exact Hx]. }
    destruct err as [e|]; [destruct (is_type_error e && ignore); [|injection H as <- _ _; by left]|];
      (destruct ok; [by apply Hgo|injection H as <- _ _; by left]).
  - apply bind_done in H as (v & d2 & Hv & H). pose proof (runs_parseValueInterface (S n) d1 (le_S _ _ Hn1)) as Hr2. rewrite Hv in Hr2. destruct Hr2 as [Hr2 _].
    assert (within d2 s) as Hd2 by by eapply within_trans.
    assert (String.length (rest d2) <= n)%nat as Hn2 by (destruct Hr2 as [p Hr2]; apply rest_shorter in Hr2; lia).
    destruct v as [v|]; [|injection H as <- _ _; by left]. by apply (IH g d2).
Qed.

(** The elements of a list were parsed somewhere in the text. *)
Lemma elems_pieces n fuel l d l' d' : within d s -> (String.length (rest d) <= n)%nat ->
  parse_elems (parseValue (S (S n)) t) fuel l d = (Done (l', None), d') ->
  forall x, x ∈ l' -> x ∈ l \/ exists d0 d1, within d0 s /\ (String.length (rest d0) <= n)%nat /\
    parseValue (S (S n)) t d0 = (Done (x, (true, None)), d1).
Proof.
  revert l d. induction fuel as [|fuel IH]; intros l d Hd Hn; cbn [parse_elems]; [done|]. intros H x Hx.
  apply bind_done in H as ([g [[|] [e|]]] & d1 & Hg & H); [discriminate H| |discriminate H|injection H as <- <-; by left].
  pose proof (runs_parseValue n t Ht d Hn) as Hr. rewrite Hg in Hr. destruct Hr as [Hr _].
  assert (String.length (rest d1) <= n)%nat as Hn1 by (destruct Hr as [p Hr]; apply rest_shorter in Hr; lia).
  destruct (IH (l ++ [g]) d1 (within_trans _ _ _ Hd Hr) Hn1 H x Hx) as [[Hin|Heq%list_elem_of_singleton]%elem_of_app|Hex]; [by left| |by right].
  right. subst x. by exists d, d1.
Qed.

Definition is_dict : bool := match t with TMap _ | TStruct _ => true | _ => false end.

Lemma dict_no_int d g ok d' : is_dict = true -> parseInt t d = (Done (g, (ok, None)), d') -> False.
Proof.
  intros Hd H. unfold parseInt in H. apply bind_done in H as (o & d1 & _ & H). apply bind_done in H as ([e|] & d2 & _ & H); [discriminate H|].
  apply bind_done in H as (b & d3 & _ & H). unfold is_dict in Hd. destruct t; try discriminate Hd; cbn in H; discriminate H.
Qed.

Lemma dict_no_string d g ok d' : is_dict = true -> parseString t d = (Done (g, (ok, None)), d') -> False.
Proof.
  intros Hd H. unfold parseString in H. apply bind_done in H as ([n [e|]] & d1 & _ & H); [discriminate H|].
  apply bind_done in H as (b & d2 & _ & H). apply bind_done in H as (u & d3 & _ & H). unfold is_dict in Hd.
  destruct t; try discriminate Hd; cbn in H; discriminate H.
Qed.

Lemma dict_is_parsed p a f : is_dict = true -> parseDict p a f t = parse_fields p a f t (zero t).
Proof. unfold is_dict. by destruct t. Qed.

Lemma list_for_dict p f d g d' : is_dict = true -> parseList p f t d = (Done (g, (true, None)), d') ->
  parse_elems (p t) f [] d = (Done ([g], None), d').
Proof.
  unfold is_dict. intros Hd H. destruct t; try discriminate Hd; cbn [parseList] in H; apply bind_done in H as ([l [e|]] & d2 & Hl & H);
    try discriminate H; (destruct l as [|x [|]]; try discriminate H); rewrite Hl; injection H as <- <-; done.
Qed.

Lemma value_pieces n d g d' : is_dict = true -> within d s -> (String.length (rest d) <= n)%nat ->
  parseValue (S (S n)) t d = (Done (g, (true, None)), d') -> forall kv, kv ∈ entries g -> kv ∈ entries (zero t) \/ Q kv.
Proof.
  intros Hdict. revert d g d'. induction n as [|n IH]; intros d g d' Hd Hn H kv Hkv.
  all: assert (by_kind t = true) as Hk by (unfold is_dict in Hdict; by destruct t).
  all: match type of H with parseValue (S ?f) _ _ = _ => assert (parseValue (S f) t d = parse_direct (parseValue f) f t d) as Hv by
    (rewrite value_through; unfold is_dict in Hdict; by destruct t) end; rewrite Hv in H; clear Hv.
  all: destruct (rest d) as [|b s0] eqn:Hr.
  1,3: by rewrite (direct_at_end _ _ _ _ Hk Hr) in H.
  { cbn in Hn. lia. }
  rewrite (direct_step _ _ _ _ _ _ Hk Hr) in H. unfold typed_step in H. set (d1 := after d (String b "") s0 (buf d)) in *. cbn [String.length] in Hn.
  assert (within d1 s) as Hd1 by (eapply within_trans; [exact Hd|]; exists (String b ""); by rewrite Hr).
  assert (String.length (rest d1) <= n)%nat as Hn1 by (cbn; lia). destruct (decide _); [discriminate H|]. destruct (decide _).
  { rewrite dict_is_parsed in H by done. by apply (fields_pieces n (S (S n)) _ d1 _ _ d' Hd1 Hn1 H). }
  destruct (decide _).
  { apply (list_for_dict _ _ _ _ _ Hdict) in H.
    destruct (elems_pieces n _ _ d1 _ d' Hd1 Hn1 H g (list_elem_of_here _ _)) as [Hin|(d0 & d2 & Hd0 & Hn0 & Hg)]; [by apply elem_of_nil in Hin|].
    by apply (IH d0 g d2). }
  destruct (decide _); [by apply dict_no_int in H|]. destruct (is_digit_byte b).
  - apply bind_done in H as (u & d2 & _ & H). apply bind_done in H as (u2 & d3 & _ & H). by apply dict_no_string in H.
  - apply bind_done in H as (u & d2 & _ & H). discriminate H.
Qed.
End fields.

(** A text that was kept as it is. *)
Lemma Bytes_read fuel d x err d' : parseValue (S fuel) Bytes d = (Done (x, (true, err)), d') ->
  exists b post, x = GBytes b /\ one_value b /\ rest d = b +:+ post.
Proof.
  cbn [parseValue Bytes]. unfold parse_direct, parseUnmarshaler. intros H. apply bind_done in H as (u & d1 & Hu & H).
  apply bind_done in Hu as (? & d2 & [= _ <-] & Hu). apply bind_done in Hu as (ok & d2 & Hok & Hu).
  apply readOneValue_sound in Hok. destruct ok.
  - destruct Hok as (p & post & Hp & Hr & ->). apply bind_done in Hu as (b & d3 & [= <- <-] & Hu). injection Hu as <- <-.
    injection H as <- _ _. exists p, post. cbn [buf took after with_buf]. by rewrite str_app_nil_l.
  - destruct Hok as [-> [s Hr]]. injection Hu as <- <-. apply bind_done in H as (r & d3 & Hb & H). unfold ReadByte in Hb.
    rewrite Hr in Hb. injection Hb as <- <-. apply bind_done in H as (? & d4 & [= _ <-] & H). by rewrite decide_True in H.
Qed.

Lemma Decode_pieces t (Q : string * gvalue -> Prop) d g d' : ends t -> is_dict t = true ->
  (forall n key field ignore d0 x err d1, getDictField t key = Some (field, ignore) -> within d0 (rest d) ->
    (String.length (rest d0) < String.length (rest d))%nat -> parseValue (S n) field d0 = (Done (x, (true, err)), d1) -> Q (key, x)) ->
  Decode_into t d = (Done g, d') -> forall kv, kv ∈ entries g -> kv ∈ entries (zero t) \/ Q kv.
Proof.
  intros Ht Hd HQ H. unfold Decode_into in H.
  destruct (parseValue (S (S (fuel_for d))) t d) as [[[x [[|] [e|]]]|[[]|]] d1] eqn:Hp; try discriminate H. injection H as <- <-.
  apply (value_pieces (rest d) t Ht Q HQ (fuel_for d) d x d1 Hd); [by exists ""|unfold fuel_for; lia|done].
Qed.

Lemma Unmarshal_into_inv t s g : Unmarshal_into t s = Done g -> exists d', Decode_into t (NewDecoder s EOF) = (Done g, d').
Proof.
  unfold Unmarshal_into. destruct (Decode_into _ _) as [[x|] d'] eqn:Hd; [|done]. destruct (rest d'); [|done].
  destruct (fst (ReadEOF d')) as [[e|]|]; [done| |done]. intros [= <-]. by exists d'.
Qed.

(** ** Everything comes to an end *)

Lemma ran_bind_ends {A B} (r : ran A) (f : A -> ran B) : r <> Raised NoFuel -> (forall a, r = Done a -> f a <> Raised NoFuel) ->
  ran_bind r f <> Raised NoFuel.
Proof. destruct r as [a|[e|]]; cbn; auto. Qed.

Lemma Bytes_ends : ends Bytes.
Proof. done. Qed.

Lemma Node_ends : ends Node.
Proof.
  intros b. apply ran_bind_ends; [apply Unmarshal_no_fuel|]. intros v _. unfold node_of.
  destruct v as [n|s|l|d]; try done. destruct l as [|[] [|[] l]]; try done. by destruct (_ && _).
Qed.

Lemma UrlList_ends : ends UrlList.
Proof.
  intros [|c b]; [done|]. cbn [UrlList_UnmarshalBencode]. destruct (decide _); [by apply Unmarshal_into_ends|].
  apply ran_bind_ends; [by apply Unmarshal_into_ends|done].
Qed.

Lemma MetaInfo_ends : ends MetaInfo_type.
Proof.
  cbn. split_and!; try done; [exact Node_ends|exact UrlList_ends].
Qed.

(** The texts of the entries of a directory are shorter than its own. *)
Lemma map_of_bytes s g : Unmarshal_into (TMap Bytes) s = Done g -> forall key b, (key, b) ∈ as_map as_string g ->
  (String.length b < String.length s)%nat.
Proof.
  intros (d' & Hd)%Unmarshal_into_inv key b Hb.
  assert (exists x, (key, x) ∈ entries g /\ b = as_string x) as (x & Hx & ->).
  { destruct g as [| | | | |[m|]| |]; try by apply elem_of_nil in Hb. apply list_elem_of_fmap in Hb as ([k x] & [= -> ->] & Hx). by exists x. }
  set (Q := fun kv : string * gvalue => (String.length (as_string (snd kv)) < String.length s)%nat).
  enough ((key, x) ∈ entries (zero (TMap Bytes)) \/ Q (key, x)) as [H|H] by (by apply elem_of_nil in H || exact H).
  apply (Decode_pieces (TMap Bytes) Q (NewDecoder s EOF) g d' Bytes_ends eq_refl); [|done|done].
  intros n k field ignore d0 y err d1 [= <- <-] _ Hl Hy. apply Bytes_read in Hy as (t & post & -> & _ & Hr).
  unfold Q. cbn [snd as_string rest NewDecoder] in *. rewrite Hr, str_length_app in Hl. lia.
Qed.

Lemma FileTree_UnmarshalBencode_ends fuel b : (String.length b < fuel)%nat -> FileTree_UnmarshalBencode fuel b <> Raised NoFuel.
Proof.
  revert b. induction fuel as [|fuel IH]; intros b Hb; [lia|]. cbn [FileTree_UnmarshalBencode].
  apply ran_bind_ends; [by apply Unmarshal_into_ends|]. intros g Hg. apply ran_bind_ends.
  { destruct (assoc_get _ _); [by apply Unmarshal_into_ends|done]. }
  intros file _. apply ran_bind_ends; [|done].
  set (l := sort_keys _). assert (forall kv, kv ∈ l -> (String.length (snd kv) < fuel)%nat) as Hl.
  { intros [k y] Hk. unfold l, sort_keys in Hk. rewrite isort_Permutation in Hk. apply list_elem_of_In, filter_In in Hk as [Hk%list_elem_of_In _].
    pose proof (map_of_bytes b g Hg k y Hk). cbn [snd]. lia. }
  clearbody l. induction l as [|[k y] l IHl]; [done|]. apply ran_bind_ends; [apply IH, (Hl (k, y)), list_elem_of_here|].
  intros sub _. apply ran_bind_ends; [|done]. apply IHl. intros kv Hkv. by apply Hl, list_elem_of_further.
Qed.

Lemma FileTree_ends : ends FileTree.
Proof. intros b. apply ran_bind_ends; [apply FileTree_UnmarshalBencode_ends; lia|done]. Qed.

Lemma Info_ends : ends Info_type.
Proof. cbn. split_and!; try done. exact FileTree_ends. Qed.
