(* ===== verification/MetaInfoTheorems.v ===== *)
(** * What is read from torrent files

    Loading ends ([Load_ends]); what is hashed is a part of the file, as it is
    ([Load_keeps_info_bytes]); a file with the dictionary of BEP 3, whatever
    else is in it, is loaded as what its fields say ([Load_reads]), and so is
    the info dictionary ([UnmarshalInfo_reads]). *)

From S2P Require Import Prelude GoErrors Prog GoTime Strconv Infohash Info Magnet Bencode BencodeFacts BencodeTypes BencodeFuel BencodeAssign BencodeTheorems MetaInfo MetaInfoFacts.
From Stdlib Require Import ZArith Lia Ascii String.
From stdpp Require Import base strings list sorting.
Import strconv bencode decoder metafile.

Local Open Scope Z_scope.

(** ** What the entries of a torrent file say

    A description of the entries that a torrent file and its info dictionary
    have, without a decoder ([describes], [info_describes], [is_tree]), and that
    the decoder gives what they say. *)

(** ** The fields of a struct *)

Lemma assoc_get_set {A} k k' (x : A) l : assoc_get k' (assoc_set k x l) = if decide (k' = k) then Some x else assoc_get k' l.
Proof.
  unfold assoc_get. induction l as [|[k0 y] l IH]; cbn [assoc_set List.find fst].
  - repeat case_bool_decide; case_decide; by simplify_eq.
  - destruct (decide (k0 = k)) as [->|Hk]; cbn [List.find fst].
    + repeat case_bool_decide; case_decide; by simplify_eq.
    + case_bool_decide as Hk0; [subst k0; by rewrite decide_False|exact IH].
Qed.

Lemma assoc_get_NoDup {A} k (x : A) l : NoDup (map fst l) -> (k, x) ∈ l -> assoc_get k l = Some x.
Proof.
  unfold assoc_get. induction l as [|[k0 y] l IH]; [intros _ H; by apply elem_of_nil in H|]. cbn [map fst List.find].
  intros [Hk Hl]%NoDup_cons [[= -> ->]|Hin]%elem_of_cons; [by rewrite bool_decide_eq_true_2|].
  rewrite bool_decide_eq_false_2; [by apply IH|]. intros ->. apply Hk. by apply (list_elem_of_fmap_2 fst _ _ Hin).
Qed.

Lemma assoc_get_none {A} k (l : list (string * A)) : k ∉ map fst l -> assoc_get k l = None.
Proof.
  intros Hk. destruct (assoc_get k l) as [x|] eqn:Hx; [|done]. destruct Hk. apply assoc_get_in in Hx. by apply (list_elem_of_fmap_2 fst _ _ Hx).
Qed.

(** What is stored in a field; nothing when decoding fails. *)
Definition stored (v : value) (f : gtype) (ignore : bool) : option gvalue :=
  match assign v f with Some x => Some x | None => if ignore then misfit f v else None end.

Lemma assign_entry_stored t g k v : assign_entry (assign v) t g (k, v) =
  match getDictField t k with None => Some g | Some (f, ignore) => set_field g k <$> stored v f ignore end.
Proof.
  unfold assign_entry, stored. cbn [fst snd]. destruct (getDictField t k) as [[f ignore]|]; [|done].
  destruct (assign v f); [done|]. by destruct ignore.
Qed.

Lemma assign_struct fs kvs gs0 : NoDup (map fst kvs) ->
  (forall k f ignore v, assoc_get k fs = Some (f, ignore) -> assoc_get k kvs = Some v -> exists x, stored v f ignore = Some x) ->
  exists gs, assign_all (TStruct fs) kvs (Some (GStruct gs0)) = Some (GStruct gs) /\
    forall k, assoc_get k gs = match assoc_get k kvs, assoc_get k fs with
                               | Some v, Some (f, ignore) => stored v f ignore
                               | _, _ => assoc_get k gs0
                               end.
Proof.
  revert gs0. induction kvs as [|[k v] kvs IH]; intros gs0 Hd Hs; [by exists gs0|]. cbn [map fst] in Hd. apply NoDup_cons in Hd as [Hk Hd].
  assert (forall k', assoc_get k' ((k, v) :: kvs) = if decide (k = k') then Some v else assoc_get k' kvs) as Hget.
  { intros k'. unfold assoc_get. cbn [List.find fst]. case_bool_decide; case_decide; by simplify_eq. }
  change (assign_all (TStruct fs) ((k, v) :: kvs) (Some (GStruct gs0))) with (assign_all (TStruct fs) kvs (assign_entry (assign v) (TStruct fs) (GStruct gs0) (k, v))).
  assert (exists gs1, assign_entry (assign v) (TStruct fs) (GStruct gs0) (k, v) = Some (GStruct gs1) /\
    forall k', assoc_get k' gs1 = if decide (k' = k) then match assoc_get k fs with Some (f, ignore) => stored v f ignore | None => assoc_get k gs0 end
      else assoc_get k' gs0) as (gs1 & -> & Hgs1).
  { rewrite assign_entry_stored. cbn [getDictField]. destruct (assoc_get k fs) as [[f ignore]|] eqn:Hf.
    - destruct (Hs k f ignore v Hf) as [x Hx]; [rewrite Hget; by rewrite decide_True|]. rewrite Hx. eexists. split; [done|].
      intros k'. by rewrite assoc_get_set.
    - exists gs0. split; [done|]. intros k'. case_decide; by simplify_eq. }
  destruct (IH gs1 Hd) as (gs & -> & Hgs).
  { intros k' f ignore v' Hf Hv'. apply (Hs k' f ignore v' Hf). rewrite Hget. case_decide as Hkk; [|done]. subst k'.
    by rewrite assoc_get_none in Hv'. }
  exists gs. split; [done|]. intros k'. rewrite Hgs, Hget, Hgs1. destruct (decide (k = k')) as [<-|Hne].
  - rewrite (assoc_get_none k kvs Hk), decide_True by done. by destruct (assoc_get k fs) as [[]|].
  - rewrite decide_False by congruence. by destruct (assoc_get k' kvs), (assoc_get k' fs) as [[]|].
Qed.

(** ** What the entries of a dictionary say *)

(** The entry of a key gives [x], by [P]; without an entry it is [none]. *)
Definition gives {A} (kvs : list (string * value)) (key : string) (P : value -> A -> Prop) (none x : A) : Prop :=
  match assoc_get key kvs with Some v => P v x | None => x = none end.

Definition is_int (v : value) (n : Z) : Prop := v = Int n /\ in_int64 n = true.
Definition is_str (v : value) (s : string) : Prop := v = Str s.
Definition is_list {A} (P : value -> A -> Prop) (v : value) (l : list A) : Prop := exists vs, v = List vs /\ Forall2 P vs l.
Definition is_map {A} (P : value -> A -> Prop) (v : value) (m : list (string * A)) : Prop :=
  exists d, v = Dict d /\ Forall2 (fun kv kx => fst kv = fst kx /\ P (snd kv) (snd kx)) d m.

(** A node is a string or a host with a port. *)
Definition is_node (v : value) (s : string) : Prop :=
  v = Str s \/ exists host port others, v = List (Str host :: Int port :: others) /\ in_int64 port = true /\ s = JoinHostPort host (int_text port).

(** One address or a list of them. *)
Definition is_urls (v : value) (l : list string) : Prop := (exists s, v = Str s /\ l = [s]) \/ is_list is_str v l.

(** A date that is a string is ignored. *)
Definition is_date (v : value) (n : Z) : Prop := is_int v n \/ (exists s, v = Str s) /\ n = 0.

Record describes (kvs : list (string * value)) (mi : MetaInfo) : Prop := {
  d_info : gives kvs "info" (fun v s => s = Marshal v) "" (InfoBytes mi);
  d_announce : gives kvs "announce" is_str "" (Announce mi);
  d_announce_list : gives kvs "announce-list" (is_list (is_list is_str)) [] (AnnounceList mi);
  d_nodes : gives kvs "nodes" (is_list is_node) [] (Nodes mi);
  d_creation_date : gives kvs "creation date" is_date 0 (CreationDate mi);
  d_comment : gives kvs "comment" is_str "" (Comment mi);
  d_created_by : gives kvs "created by" is_str "" (CreatedBy mi);
  d_encoding : gives kvs "encoding" is_str "" (Encoding mi);
  d_url_list : gives kvs "url-list" is_urls [] (UrlList_ mi);
  d_piece_layers : gives kvs "piece layers" (is_map is_str) [] (PieceLayers mi);
}.

(** What is said by [P] is decoded as such. *)
Definition decodes {A} (limit : Z) (P : value -> A -> Prop) (f : gtype) (ignore : bool) (conv : gvalue -> A) : Prop :=
  forall v x, canonical limit v -> P v x -> exists g, stored v f ignore = Some g /\ conv g = x.

Lemma assign_stored v f ignore g : assign v f = Some g -> stored v f ignore = Some g.
Proof. unfold stored. by intros ->. Qed.

Local Notation limit := DefaultDecodeMaxStrLen.

Lemma str_decodes ignore : decodes limit is_str TString ignore as_string.
Proof. intros v x _ Hv. unfold is_str in Hv. subst v. by exists (GString x). Qed.

Lemma bytes_decodes ignore : decodes limit is_str TBytes ignore as_string.
Proof. intros v x _ Hv. unfold is_str in Hv. subst v. by exists (GBytes x). Qed.

Lemma raw_decodes ignore : decodes limit (fun v s => s = Marshal v) Bytes ignore as_string.
Proof. intros v x _ ->. exists (GBytes (Marshal v)). split; [|done]. apply assign_stored. by destruct v. Qed.

Lemma int_decodes ignore : decodes limit is_int (TInt 64) ignore as_int.
Proof.
  intros v n _ [-> Hn]. exists (GInt n). split; [|done]. apply assign_stored. cbn. rewrite Hn. unfold in_int64, minInt64, maxInt64 in Hn.
  assert (fits_int 64 n = true) as ->; [|done]. unfold fits_int. change (2 ^ (64 - 1)) with 9223372036854775808. lia.
Qed.

Lemma date_decodes : decodes limit is_date (TInt 64) true as_int.
Proof.
  intros v n Hv [Hn|[[s ->] ->]]; [by apply (int_decodes true)|]. by exists (GInt 0).
Qed.

Lemma elems_decode {A} (P : value -> A -> Prop) elem conv vs l : decodes limit P elem false conv -> Forall (canonical limit) vs ->
  Forall2 P vs l -> exists gs, all_or_none (map (fun x => assign x elem) vs) = Some gs /\ map conv gs = l.
Proof.
  intros HP Hc Hl. induction Hl as [|v x vs l Hv _ IH]; [by exists []|]. apply Forall_cons in Hc as [Hcv Hc].
  destruct (HP v x Hcv Hv) as (g & Hg & Hx). destruct (IH Hc) as (gs & Hgs & Hl). exists (g :: gs). cbn [map all_or_none foldr].
  fold (all_or_none (map (fun x => assign x elem) vs)). unfold stored in Hg. destruct (assign v elem) as [g'|]; [|done]. injection Hg as ->.
  rewrite Hgs. by rewrite Hx, Hl.
Qed.

Lemma list_decodes {A} (P : value -> A -> Prop) elem conv ignore : decodes limit P elem false conv ->
  decodes limit (is_list P) (TSlice elem) ignore (as_slice conv).
Proof.
  intros HP v l Hc (vs & -> & Hl). cbn [canonical] in Hc. rewrite all_of in Hc. destruct (elems_decode P elem conv vs l HP Hc Hl) as (gs & Hgs & Hx).
  exists (GSlice (Some gs)). split; [|done]. apply assign_stored. rewrite assign_eq. cbn [through fst snd assign_direct]. by rewrite Hgs.
Qed.

Lemma assoc_set_new {A} k (x : A) l : k ∉ map fst l -> assoc_set k x l = l ++ [(k, x)].
Proof.
  induction l as [|[k0 y] l IH]; [done|]. cbn [map fst assoc_set]. intros [Hk Hl]%not_elem_of_cons. rewrite decide_False by congruence.
  by rewrite IH.
Qed.

Lemma map_entries_decode {A} (P : value -> A -> Prop) elem conv d m : decodes limit P elem false conv ->
  Forall (fun kv => canonical limit (snd kv)) d -> Forall2 (fun kv kx => fst kv = fst kx /\ P (snd kv) (snd kx)) d m ->
  forall m0, NoDup (map fst (default [] m0) ++ map fst d) -> exists gs,
    assign_all (TMap elem) d (Some (GMap m0)) = Some (GMap gs) /\
    map (fun kv => (fst kv, conv (snd kv))) (default [] gs) = map (fun kv => (fst kv, conv (snd kv))) (default [] m0) ++ m.
Proof.
  intros HP Hc Hm. induction Hm as [|[k v] [k' x] d m [Hk Hv] _ IH]; intros m0 Hn; [exists m0; by rewrite app_nil_r|].
  cbn [fst snd] in *. subst k'. apply Forall_cons in Hc as [Hcv Hc]. destruct (HP v x Hcv Hv) as (g & Hg & Hx).
  change (assign_all (TMap elem) ((k, v) :: d) (Some (GMap m0))) with (assign_all (TMap elem) d (assign_entry (assign v) (TMap elem) (GMap m0) (k, v))).
  rewrite assign_entry_stored. cbn [getDictField]. rewrite Hg. cbn [fmap option_fmap option_map set_field].
  cbn [map fst] in Hn. assert (k ∉ map fst (default [] m0)) as Hk.
  { intros Hin. apply NoDup_app in Hn as (_ & Hn & _). apply (Hn k Hin). apply list_elem_of_here. }
  rewrite assoc_set_new by done. destruct (IH Hc (Some (default [] m0 ++ [(k, g)]))) as (gs & -> & Hgs).
  { cbn [from_option id]. rewrite map_app, <-app_assoc. exact Hn. }
  exists gs. split; [done|]. rewrite Hgs. cbn [from_option id]. rewrite map_app, <-app_assoc. cbn. by rewrite Hx.
Qed.

Lemma map_decodes {A} (P : value -> A -> Prop) elem conv ignore : decodes limit P elem false conv ->
  decodes limit (is_map P) (TMap elem) ignore (as_map conv).
Proof.
  intros HP v m Hc (d & -> & Hm). cbn [canonical] in Hc. destruct Hc as (Hs & _ & Hd%all_of).
  destruct (map_entries_decode P elem conv d m HP Hd Hm None) as (gs & Hgs & Hx).
  { cbn. by apply sorted_NoDup. }
  exists (GMap gs). split; [apply assign_stored; rewrite assign_eq; cbn [through fst snd assign_direct zero]; by rewrite Hgs|].
  unfold as_map. by destruct gs.
Qed.

Lemma canonical_Unmarshal v : canonical limit v -> Unmarshal (Marshal v) = Done v.
Proof.
  intros Hc. pose proof (Unmarshal_app v "" (canonical_well_formed v Hc)) as H. rewrite str_app_nil_r in H. rewrite H.
  cbn. f_equal. by apply (canonical_canon limit).
Qed.

Lemma node_decodes ignore : decodes limit is_node Node ignore as_string.
Proof.
  intros v s Hc Hv. exists (GString s). split; [|done]. apply assign_stored. rewrite assign_eq. cbn [through fst snd assign_direct Node].
  unfold Node_UnmarshalBencode. rewrite canonical_Unmarshal by done. cbn [ran_bind].
  destruct Hv as [->|(host & port & others & -> & Hp & ->)]; [done|]. cbn [node_of]. unfold in_int64 in Hp. by rewrite Hp.
Qed.

Lemma urls_decode ignore : decodes limit is_urls UrlList ignore (as_slice as_string).
Proof.
  intros v l Hc Hv. assert (exists g, UrlList_UnmarshalBencode (Marshal v) = Done g /\ as_slice as_string g = l) as (g & Hg & Hx).
  { destruct Hv as [(s & -> & ->)|Hv].
    - exists (GSlice (Some [GString s])). split; [|done]. pose proof (Unmarshal_assign (Str s) TString (GString s) Hc eq_refl) as Hs.
      cbn [Marshal reflectValue] in *. unfold Marshal in *. cbn [reflectValue] in *. destruct (int_text_digit (len s)) as (c & q & Hq & Hd); [unfold len; lia|].
      unfold reflectString in *. fold (len s) in *. rewrite Hq in *. rewrite str_app_cons in *. cbn [UrlList_UnmarshalBencode].
      rewrite decide_False by (intros ->; discriminate Hd). by rewrite Hs.
    - destruct (list_decodes is_str TString as_string false (str_decodes false) v l Hc Hv) as (g & Hg & Hx). exists g. split; [|done].
      destruct Hv as (vs & -> & _). unfold Marshal. cbn [reflectValue]. rewrite str_app_cons, str_app_nil_l. cbn [UrlList_UnmarshalBencode].
      rewrite decide_True by done. apply (Unmarshal_assign (List vs)); [done|]. unfold stored in Hg. destruct (assign (List vs) (TSlice TString)); [|done]. by injection Hg as ->. }
  exists g. split; [|done]. apply assign_stored. rewrite assign_eq. cbn [through fst snd assign_direct UrlList]. by rewrite Hg.
Qed.

Section struct.
Context (fs : list (string * (gtype * bool))) (kvs : list (string * value)) (gs : list (string * gvalue)).
Context (Hc : canonical limit (Dict kvs)).
Context (Hgs : forall k, assoc_get k gs = match assoc_get k kvs, assoc_get k fs with
                               | Some v, Some (f, ignore) => stored v f ignore
                               | _, _ => assoc_get k (map (fun f => (fst f, zero (fst (snd f)))) fs)
                               end).

Lemma entry_canonical key v : assoc_get key kvs = Some v -> canonical limit v.
Proof.
  intros Hv%assoc_get_in. destruct Hc as (_ & _ & Hd%all_of). rewrite Forall_forall in Hd. by apply (Hd _ Hv).
Qed.

Lemma gives_stored {A} key (P : value -> A -> Prop) none x f ignore conv v : gives kvs key P none x -> decodes limit P f ignore conv ->
  assoc_get key kvs = Some v -> exists g, stored v f ignore = Some g.
Proof.
  unfold gives. intros Hg HP Hv. rewrite Hv in Hg. destruct (HP v x (entry_canonical _ _ Hv) Hg) as (g & Hg' & _). by exists g.
Qed.

Lemma field_gives {A} key (P : value -> A -> Prop) none x f ignore conv : gives kvs key P none x -> decodes limit P f ignore conv ->
  assoc_get key fs = Some (f, ignore) -> conv (zero f) = none -> conv (field key (GStruct gs)) = x.
Proof.
  intros Hg HP Hf Hz. unfold gives in Hg. cbn [field]. rewrite Hgs, Hf. destruct (assoc_get key kvs) as [v|] eqn:Hv.
  - destruct (HP v x (entry_canonical _ _ Hv) Hg) as (g & -> & Hx). exact Hx.
  - subst x. rewrite <-Hz. clear Hgs Hz. assert (assoc_get key (map (fun f => (fst f, zero (fst (snd f)))) fs) = Some (zero f)) as ->; [|done].
    unfold assoc_get in *. induction fs as [|[k [f' i]] fs' IH]; [done|]. cbn [map List.find fst snd] in *.
    case_bool_decide; [by injection Hf as -> ->|by apply IH].
Qed.
End struct.

Lemma dict_NoDup kvs : canonical limit (Dict kvs) -> NoDup (map fst kvs).
Proof. intros (Hs & _). by apply sorted_NoDup. Qed.

Lemma in_fields {A} k (x : A) l : assoc_get k l = Some x -> (k, x) ∈ l.
Proof. apply assoc_get_in. Qed.

Lemma MetaInfo_assign kvs mi : canonical limit (Dict kvs) -> describes kvs mi ->
  exists g, assign (Dict kvs) MetaInfo_type = Some g /\ to_MetaInfo g = mi.
Proof.
  intros Hc [Hinfo Hann Hal Hnodes Hdate Hcom Hby Henc Hurl Hpl]. unfold MetaInfo_type. set (fs := [_; _; _; _; _; _; _; _; _; _]).
  destruct (assign_struct fs kvs (map (fun f => (fst f, zero (fst (snd f)))) fs) (dict_NoDup _ Hc)) as (gs & Ha & Hgs).
  { intros k f ignore v Hf Hv. apply assoc_get_in in Hf. unfold fs in Hf.
    repeat (apply elem_of_cons in Hf as [[= -> -> ->]|Hf]; [by eauto using gives_stored, raw_decodes, str_decodes, list_decodes, node_decodes, date_decodes, urls_decode, map_decodes|]).
    by apply elem_of_nil in Hf. }
  exists (GStruct gs). split; [by rewrite assign_eq; cbn [through fst snd assign_direct zero]; rewrite Ha|].
  destruct mi. unfold to_MetaInfo. cbn [InfoBytes Announce AnnounceList Nodes CreationDate Comment CreatedBy Encoding UrlList_ PieceLayers] in *.
  f_equal; (eapply (field_gives fs kvs gs Hc Hgs); [eassumption| |reflexivity|reflexivity]);
    auto using raw_decodes, str_decodes, list_decodes, node_decodes, date_decodes, urls_decode, map_decodes.
Qed.

Lemma ReadEOF_end d : rest d = "" -> ending d = EOF -> fst (ReadEOF d) = Done None.
Proof. intros Hr He. unfold ReadEOF, bind, ReadByte, ret. rewrite Hr. cbn. by rewrite He. Qed.

Lemma Load_run_reads kvs mi : canonical limit (Dict kvs) -> describes kvs mi -> Load_run (Marshal (Dict kvs)) EOF = Done mi.
Proof.
  intros Hc Hd. destruct (MetaInfo_assign kvs mi Hc Hd) as (g & Hg & <-).
  destruct (Decode_assign (Dict kvs) MetaInfo_type g (NewDecoder (Marshal (Dict kvs)) EOF) "" eq_refl ltac:(done) Hc Hg) as (b & He).
  { cbn [rest NewDecoder]. by rewrite str_app_nil_r. }
  unfold Load_run. rewrite He. by rewrite ReadEOF_end.
Qed.

(** ** File trees *)

(** The properties of a file are under the empty key of its directory, the
    entries of a directory under their names. *)
Definition file_properties (kvs : list (string * value)) (n : Z) (root : string) : Prop :=
  match assoc_get info.FileTreePropertiesKey kvs with
  | Some v => exists fkvs, v = Dict fkvs /\ gives fkvs "length" is_int 0 n /\ gives fkvs "pieces root" is_str "" root
  | None => n = 0 /\ root = ""
  end.

Definition dir_entries (kvs : list (string * value)) : list (string * value) :=
  List.filter (fun kv => negb (bool_decide (fst kv = info.FileTreePropertiesKey))) kvs.

Inductive is_tree : value -> info.FileTree -> Prop :=
| IsTree kvs n root dir : file_properties kvs n root ->
    Forall2 (fun kv kt => fst kv = fst kt /\ is_tree (snd kv) (snd kt)) (dir_entries kvs) dir ->
    is_tree (Dict kvs) (info.mkFileTree n root dir).

(** What a directory is read as before its entries are. *)
Lemma dir_of_bytes kvs : canonical limit (Dict kvs) -> exists g, Unmarshal_into (TMap Bytes) (Marshal (Dict kvs)) = Done g /\
  as_map as_string g = map (fun kv => (fst kv, Marshal (snd kv))) kvs.
Proof.
  intros Hc. assert (is_map (fun v s => s = Marshal v) (Dict kvs) (map (fun kv => (fst kv, Marshal (snd kv))) kvs)) as Hm.
  { exists kvs. split; [done|]. clear Hc. induction kvs as [|kv kvs IH]; constructor; [by split|done]. }
  destruct (map_decodes _ Bytes as_string false (raw_decodes false) (Dict kvs) _ Hc Hm) as (g & Hg & Hx). exists g. split; [|done].
  apply (Unmarshal_assign (Dict kvs)); [done|]. unfold stored in Hg. destruct (assign (Dict kvs) (TMap Bytes)); [|done]. by injection Hg as ->.
Qed.

Lemma assoc_get_map {A B} (f : A -> B) key l : assoc_get key (map (fun kv => (fst kv, f (snd kv))) l) = f <$> assoc_get key l.
Proof.
  unfold assoc_get. induction l as [|[k x] l IH]; [done|]. cbn [map List.find fst]. by case_bool_decide.
Qed.

Lemma file_properties_read kvs n root : canonical limit (Dict kvs) -> file_properties kvs n root -> exists g,
  match assoc_get info.FileTreePropertiesKey (map (fun kv => (fst kv, Marshal (snd kv))) kvs) with
  | Some b => Unmarshal_into FileTreeFile_type b
  | None => Done (zero FileTreeFile_type)
  end = Done g /\ as_int (field "length" g) = n /\ as_string (field "pieces root" g) = root.
Proof.
  intros Hc Hp. rewrite assoc_get_map. unfold file_properties in Hp.
  destruct (assoc_get info.FileTreePropertiesKey kvs) as [v|] eqn:Hv; [|destruct Hp as [-> ->]; by eexists].
  destruct Hp as (fkvs & -> & Hlen & Hroot). pose proof (entry_canonical kvs Hc _ _ Hv) as Hcf. cbn [fmap option_fmap option_map].
  unfold FileTreeFile_type. set (fs := [_; _]).
  destruct (assign_struct fs fkvs (map (fun f => (fst f, zero (fst (snd f)))) fs) (dict_NoDup _ Hcf)) as (gs & Ha & Hgs).
  { intros k f ignore v Hf Hkv. apply assoc_get_in in Hf. unfold fs in Hf.
    repeat (apply elem_of_cons in Hf as [[= -> -> ->]|Hf]; [by eauto using gives_stored, str_decodes, int_decodes|]).
    by apply elem_of_nil in Hf. }
  exists (GStruct gs). split.
  - apply (Unmarshal_assign (Dict fkvs)); [done|]. rewrite assign_eq. cbn [through fst snd assign_direct zero]. by rewrite Ha.
  - split; (eapply (field_gives fs fkvs gs Hcf Hgs); [eassumption| |reflexivity|reflexivity]); auto using str_decodes, int_decodes.
Qed.

(** The entries are decoded one after the other. *)
Definition read_entries (fuel : nat) : list (string * string) -> ran (list (string * info.FileTree)) :=
  fix subs l :=
    match l with
    | [] => Done []
    | (key, b) :: l' =>
        ran_bind (FileTree_UnmarshalBencode fuel b) (fun sub => ran_bind (subs l') (fun r => Done ((key, sub) :: r)))
    end.

Lemma dir_entries_map kvs : List.filter (fun kv : string * string => negb (bool_decide (fst kv = ""))) (map (fun kv => (fst kv, Marshal (snd kv))) kvs) =
  map (fun kv => (fst kv, Marshal (snd kv))) (dir_entries kvs).
Proof.
  unfold dir_entries, info.FileTreePropertiesKey. induction kvs as [|kv kvs IH]; [done|]. cbn [map List.filter fst].
  destruct (negb _); [|done]. cbn [map]. by rewrite IH.
Qed.

Lemma filter_sorted {A} (p : string * A -> bool) l : Sorted key_lt (map fst l) -> Sorted key_lt (map fst (List.filter p l)).
Proof.
  intros Hs. apply Sorted_StronglySorted in Hs; [|intros ???; apply key_lt_trans]. apply StronglySorted_Sorted.
  induction l as [|x l IH]; [constructor|]. cbn [map List.filter] in *. apply StronglySorted_inv in Hs as [Hs Hx].
  destruct (p x); [|by apply IH]. cbn [map]. constructor; [by apply IH|]. rewrite Forall_forall in Hx. apply Forall_forall.
  intros k (y & -> & Hy)%list_elem_of_fmap. apply Hx. apply list_elem_of_In, filter_In in Hy as [Hy%list_elem_of_In _]. by apply list_elem_of_fmap_2.
Qed.

Lemma tree_read ft : forall v fuel, is_tree v ft -> canonical limit v -> (String.length (Marshal v) < fuel)%nat ->
  FileTree_UnmarshalBencode fuel (Marshal v) = Done ft.
Proof.
  induction ft as [n root dir IH] using info.FileTree_induction. intros v fuel Ht Hc Hf. inversion Ht as [kvs n' root' dir' Hp Hd]; subst.
  destruct fuel as [|fuel]; [lia|]. cbn [FileTree_UnmarshalBencode]. destruct (dir_of_bytes kvs Hc) as (g & -> & Hg). cbn [ran_bind].
  rewrite Hg. destruct (file_properties_read kvs n root Hc Hp) as (gf & Hgf & Hn & Hr). unfold info.FileTreePropertiesKey in Hgf. rewrite Hgf. cbn [ran_bind].
  rewrite Hn, Hr. fold (read_entries fuel). rewrite dir_entries_map. pose proof Hc as (Hs & _ & Hv%all_of).
  rewrite sort_keys_id by (rewrite map_map; by apply filter_sorted).
  enough (read_entries fuel (map (fun kv => (fst kv, Marshal (snd kv))) (dir_entries kvs)) = Done dir) as -> by done.
  assert (forall kv, kv ∈ dir_entries kvs -> canonical limit (snd kv) /\ (String.length (Marshal (snd kv)) < fuel)%nat) as Hin.
  { intros kv Hkv. apply list_elem_of_In, filter_In in Hkv as [Hkv%list_elem_of_In _]. rewrite Forall_forall in Hv. split; [by apply Hv|].
    unfold Marshal in *. rewrite reflect_sorted, str_app_cons, str_app_nil_l in Hf by done. cbn [String.length] in Hf. rewrite str_length_app in Hf.
    destruct kv as [k x]. pose proof (entry_in k x kvs Hkv). cbn in *. lia. }
  clear -IH Hd Hin. induction Hd as [|[k x] [k' t] l dir [Hk Ht] _ IHl]; [done|]. cbn [fst snd] in *. subst k'.
  apply Forall_cons in IH as [Ht' IH]. destruct (Hin (k, x) (list_elem_of_here _ _)) as [Hcx Hfx]. cbn [snd] in *.
  cbn [map read_entries fst snd]. rewrite (Ht' x fuel Ht Hcx Hfx). cbn [ran_bind]. fold (read_entries fuel).
  rewrite IHl; [done|done|]. intros kv Hkv. apply Hin. by apply list_elem_of_further.
Qed.

Lemma to_tree_value ft : to_tree (tree_value ft) = ft.
Proof.
  induction ft as [n root dir IH] using info.FileTree_induction. cbn [tree_value to_tree info.File_Length info.File_PiecesRoot info.Dir]. f_equal.
  induction IH as [|[k t] dir Ht _ IHd]; [done|]. cbn [map fst snd] in *. by rewrite Ht, IHd.
Qed.

Lemma tree_decodes : decodes limit is_tree FileTree false to_tree.
Proof.
  intros v t Hc Ht. exists (tree_value t). split; [|apply to_tree_value]. apply assign_stored. rewrite assign_eq.
  cbn [through fst snd assign_direct FileTree]. rewrite (tree_read t v) by (done || lia). done.
Qed.

(** ** Info dictionaries *)

Record file_describes (kvs : list (string * value)) (fi : info.FileInfo) : Prop := {
  f_length : gives kvs "length" is_int 0 (info.FLength fi);
  f_path : gives kvs "path" (is_list is_str) [] (info.FPath fi);
  f_path_utf8 : gives kvs "path.utf-8" (is_list is_str) [] (info.FPathUtf8 fi);
  f_attr : exists s, gives kvs "attr" is_str "" s;
  f_symlink_path : exists l, gives kvs "symlink path" (is_list is_str) [] l;
  f_sha1 : exists s, gives kvs "sha1" is_str "" s;
  f_rest : info.FPiecesRoot fi = None /\ info.TorrentOffset fi = 0;
}.

Definition is_file (v : value) (fi : info.FileInfo) : Prop := exists kvs, v = Dict kvs /\ file_describes kvs fi.

(** The flag of a private torrent. *)
Definition is_flag (v : value) (b : option bool) : Prop := exists n, v = Int n /\ b = Some (negb (n =? 0)).

(** The info dictionary of a torrent, of either version. *)
Record info_describes (kvs : list (string * value)) (i : info.Info) : Prop := {
  i_piece_length : gives kvs "piece length" is_int 0 (info.PieceLength i);
  i_pieces : gives kvs "pieces" is_str "" (info.Pieces i);
  i_name : gives kvs "name" is_str "" (info.Name i);
  i_name_utf8 : gives kvs "name.utf-8" is_str "" (info.NameUtf8 i);
  i_length : gives kvs "length" is_int 0 (info.Length i);
  i_attr : exists s, gives kvs "attr" is_str "" s;
  i_symlink_path : exists l, gives kvs "symlink path" (is_list is_str) [] l;
  i_sha1 : exists s, gives kvs "sha1" is_str "" s;
  i_private : exists b, gives kvs "private" is_flag None b;
  i_source : exists s, gives kvs "source" is_str "" s;
  i_files : gives kvs "files" (fun v fs => exists l, is_list is_file v l /\ fs = Some l) None (info.FilesField i);
  i_meta_version : gives kvs "meta version" is_int 0 (info.MetaVersion i);
  i_file_tree : gives kvs "file tree" is_tree empty_tree (info.Tree i);
}.

Lemma file_decodes : decodes limit is_file FileInfo_type false to_FileInfo.
Proof.
  intros v fi Hc (kvs & -> & [Hlen Hpath Hutf Hattr Hsym Hsha [Hroot Hoff]]). unfold FileInfo_type. set (fs := _ ++ _).
  destruct (assign_struct fs kvs (map (fun f => (fst f, zero (fst (snd f)))) fs) (dict_NoDup _ Hc)) as (gs & Ha & Hgs).
  { destruct Hattr, Hsym, Hsha. intros k f ignore v Hf Hv. apply assoc_get_in in Hf. unfold fs, ExtendedFileAttrs in Hf. cbn [app] in Hf.
    repeat (apply elem_of_cons in Hf as [[= -> -> ->]|Hf]; [by eauto using gives_stored, str_decodes, list_decodes, int_decodes|]).
    by apply elem_of_nil in Hf. }
  exists (GStruct gs). split; [apply assign_stored; by rewrite assign_eq; cbn [through fst snd assign_direct zero]; rewrite Ha|].
  destruct fi. unfold to_FileInfo. cbn [info.FLength info.FPath info.FPathUtf8 info.FPiecesRoot info.TorrentOffset] in *. subst.
  f_equal; (eapply (field_gives fs kvs gs Hc Hgs); [eassumption| |reflexivity|reflexivity]); auto using str_decodes, list_decodes, int_decodes.
Qed.

Definition as_files (g : gvalue) : option (list info.FileInfo) :=
  match g with GSlice (Some l) => Some (map to_FileInfo l) | _ => None end.

Lemma files_decode : decodes limit (fun v fs => exists l, is_list is_file v l /\ fs = Some l) (TSlice FileInfo_type) false as_files.
Proof.
  intros v fs Hc (l & (vs & -> & Hl) & ->). cbn [canonical] in Hc. rewrite all_of in Hc.
  destruct (elems_decode is_file FileInfo_type to_FileInfo vs l file_decodes Hc Hl) as (gs & Hgs & Hx).
  exists (GSlice (Some gs)). split; [|by rewrite <-Hx]. apply assign_stored. rewrite assign_eq. cbn [through fst snd assign_direct]. by rewrite Hgs.
Qed.

Definition as_flag (g : gvalue) : option bool := match g with GPtr (Some (GBool b)) => Some b | _ => None end.

Lemma flag_decodes : decodes limit is_flag (TPtr TBool) false as_flag.
Proof. intros v b _ (n & -> & ->). by exists (GPtr (Some (GBool (negb (n =? 0))))). Qed.

Lemma Info_assign kvs i : canonical limit (Dict kvs) -> info_describes kvs i ->
  exists g, assign (Dict kvs) Info_type = Some g /\ to_Info g = i.
Proof.
  intros Hc [Hpl Hpieces Hname Hutf Hlen [] [] [] [] [] Hfiles Hver Ht]. unfold Info_type. set (fs := _ ++ _).
  destruct (assign_struct fs kvs (map (fun f => (fst f, zero (fst (snd f)))) fs) (dict_NoDup _ Hc)) as (gs & Ha & Hgs).
  { intros k f ignore v Hf Hv. apply assoc_get_in in Hf. unfold fs, ExtendedFileAttrs in Hf. cbn [app] in Hf.
    repeat (apply elem_of_cons in Hf as [[= -> -> ->]|Hf];
      [by eauto using gives_stored, str_decodes, bytes_decodes, list_decodes, int_decodes, flag_decodes, files_decode, tree_decodes|]).
    by apply elem_of_nil in Hf. }
  exists (GStruct gs). split; [rewrite assign_eq; cbn [through fst snd assign_direct zero]; by rewrite Ha|].
  destruct i. unfold to_Info. cbn [info.PieceLength info.Pieces info.Name info.NameUtf8 info.Length info.FilesField info.MetaVersion info.Tree] in *.
  f_equal; try (by (eapply (field_gives fs kvs gs Hc Hgs); [eassumption| |reflexivity|reflexivity]);
    auto using str_decodes, bytes_decodes, int_decodes, tree_decodes).
  change (as_files (field "files" (GStruct gs)) = FilesField). by eapply (field_gives fs kvs gs Hc Hgs); [eassumption|apply files_decode|reflexivity|].
Qed.

Lemma UnmarshalInfo_run kvs i mi : canonical limit (Dict kvs) -> info_describes kvs i -> InfoBytes mi = Marshal (Dict kvs) ->
  UnmarshalInfo mi = Done i.
Proof.
  intros Hc Hd Hb. destruct (Info_assign kvs i Hc Hd) as (g & Hg & <-). unfold UnmarshalInfo. rewrite Hb.
  by rewrite (Unmarshal_assign (Dict kvs) Info_type g Hc Hg).
Qed.

(** ** Loading *)

(** ** Any text *)

Lemma Load_run_ends s e : Load_run s e <> Raised NoFuel.
Proof.
  unfold Load_run. pose proof (Decode_into_runs MetaInfo_type (NewDecoder s e) MetaInfo_ends) as H.
  destruct (Decode_into _ _) as [[g|[]] d]; [|done|done]. unfold ReadEOF, bind, ReadByte, ret.
  destruct (rest d); cbn; [|done]. by destruct (is_EOF (ending d)).
Qed.

Lemma UnmarshalInfo_ends mi : UnmarshalInfo mi <> Raised NoFuel.
Proof. apply ran_bind_ends; [apply Unmarshal_into_ends, Info_ends|done]. Qed.

Lemma field_in key g x : field key g = x -> x = GInt 0 \/ (key, x) ∈ entries g.
Proof.
  destruct g as [| | | | | |fs|]; cbn [field]; try (by left). destruct (assoc_get key fs) as [y|] eqn:Hy; cbn [default]; intros <-; [right|by left].
  by apply assoc_get_in.
Qed.

Lemma Load_info_bytes s e mi : Load_run s e = Done mi ->
  InfoBytes mi = "" \/ one_value (InfoBytes mi) /\ exists pre post, s = pre +:+ InfoBytes mi +:+ post.
Proof.
  unfold Load_run. destruct (Decode_into MetaInfo_type (NewDecoder s e)) as [[g|] d] eqn:Hd; [|done].
  destruct (fst (ReadEOF d)) as [[err|]|]; [done| |done]. intros [= <-]. cbn [InfoBytes to_MetaInfo].
  set (Q := fun kv : string * gvalue => fst kv = "info" -> as_string (snd kv) = "" \/
    one_value (as_string (snd kv)) /\ exists pre post, s = pre +:+ as_string (snd kv) +:+ post).
  assert (forall kv, kv ∈ entries g -> kv ∈ entries (zero MetaInfo_type) \/ Q kv) as Hall.
  { apply (Decode_pieces MetaInfo_type Q (NewDecoder s e) g d MetaInfo_ends eq_refl); [|done].
    intros n key f ignore d0 x err d1 Hf [pre Hpre] _ Hx Hkey. cbn [fst snd] in *. subst key. injection Hf as <- <-.
    apply Bytes_read in Hx as (b & post & -> & Hb & Hr). right. cbn [as_string]. split; [done|].
    exists pre, post. cbn [rest NewDecoder] in Hpre. by rewrite Hpre, Hr. }
  destruct (field_in "info" g _ eq_refl) as [->|Hin]; [by left|]. destruct (Hall _ Hin) as [Hz|Hq]; [|by apply Hq].
  left. unfold MetaInfo_type in Hz. cbn [zero entries map fst snd] in Hz.
  repeat (apply elem_of_cons in Hz as [Hz|Hz]; [try discriminate Hz; injection Hz as ->; done|]). by apply elem_of_nil in Hz.
Qed.

(** ** The theorems *)

Lemma as_result_ok {A} (r : ran A) a : as_result r = Ok a -> r = Done a.
Proof. by destruct r as [x|[]]; intros [= ->]. Qed.

(** C13. A torrent file whose dictionary has the entries of BEP 3, and any
    others, is loaded as what the entries say; and its info dictionary, of
    either version, is decoded as the info that its entries say, file tree
    included. *)
Theorem Load_reads kvs mi ikvs i : canonical DefaultDecodeMaxStrLen (Dict kvs) -> describes kvs mi ->
  assoc_get "info" kvs = Some (Dict ikvs) -> info_describes ikvs i ->
  Load (Marshal (Dict kvs)) EOF = Ok mi /\ InfoBytes mi = Marshal (Dict ikvs) /\ UnmarshalInfo mi = Done i.
Proof.
  intros Hc Hd Hi Hdi. pose proof (d_info _ _ Hd) as Hb. unfold gives in Hb. rewrite Hi in Hb. split_and!; [|done|].
  - unfold Load. by rewrite (Load_run_reads kvs mi Hc Hd).
  - apply (UnmarshalInfo_run ikvs); [by apply (entry_canonical kvs Hc "info")|done|done].
Qed.

Lemma no_info_bytes mi : InfoBytes mi = "" -> UnmarshalInfo mi = Raised (Thrown (DError EOF)).
Proof. intros Hb. unfold UnmarshalInfo. rewrite Hb. by vm_compute. Qed.

(** C12. What is hashed for the info hash of a file is a part of the file, byte by
    byte: one bencoded value, the one that the info is decoded from. *)
Theorem what_is_hashed `{Hashing} s e mi i sp : Load s e = Ok mi -> TorrentSpecFromMetaInfoErr mi = Ok (i, sp) ->
  one_value (InfoBytes mi) /\ (exists pre post, s = pre +:+ InfoBytes mi +:+ post) /\
  UnmarshalInfo mi = Done i /\ SpecInfoBytes sp = InfoBytes mi /\
  metainfo.SInfoHash (spec sp) = (if info.HasV1 i then sha1_Sum (InfoBytes mi) else infohash.zero).
Proof.
  intros Hl%as_result_ok Hs. unfold TorrentSpecFromMetaInfoErr in Hs. destruct (as_result (UnmarshalInfo mi)) as [i'|err] eqn:Hi; [|done].
  apply as_result_ok in Hi. injection Hs as <- <-. destruct (Load_info_bytes s e mi Hl) as [Hb|(Hone & Hpart)]; [|by split_and!].
  by rewrite (no_info_bytes mi Hb) in Hi.
Qed.

(** C39. Loading a torrent file comes to an end on every text, and so does
    decoding its info dictionary: with a value or with an error. *)
Theorem Load_ends s e mi :
  ((exists m, Load_run s e = Done m) \/ (exists err, Load_run s e = Raised (Thrown err))) /\
  ((exists i, UnmarshalInfo mi = Done i) \/ (exists err, UnmarshalInfo mi = Raised (Thrown err))).
Proof.
  pose proof (Load_run_ends s e). pose proof (UnmarshalInfo_ends mi).
  split; [destruct (Load_run s e) as [m|[err|]]|destruct (UnmarshalInfo mi) as [i|[err|]]]; eauto; done.
Qed.

(** An error that is ignored inside a list leaves the decoder there: the end of
    the list ends the dictionary, and a text that is no bencode is loaded. *)
Example unbalanced_text_is_loaded : Unmarshal "d13:creation datel3:fooe" = Raised (Thrown (DError ErrUnexpectedEOF)) /\
  exists mi, Load "d13:creation datel3:fooe" EOF = Ok mi.
Proof. split; [by vm_compute|]. eexists. by vm_compute. Qed.

(** ** At an example *)

Module sample.

(** A torrent with one file and an entry of its own. *)
Definition info_entries : list (string * value) :=
  [("length", Int 5); ("name", Str "arch"); ("piece length", Int 4); ("pieces", Str "aaaaaaaaaaaaaaaaaaaabbbbbbbbbbbbbbbbbbbb")].

Definition torrent_entries : list (string * value) :=
  [("announce", Str "http://t/a"); ("info", Dict info_entries); ("nodes", List [List [Str "::1"; Int 6881]]); ("publisher", List []); ("url-list", Str "http://w/")].

Definition arch : info.Info :=
  info.mkInfo 4 "aaaaaaaaaaaaaaaaaaaabbbbbbbbbbbbbbbbbbbb" "arch" "" 5 None 0 empty_tree.

Definition file : MetaInfo :=
  mkMetaInfo (Marshal (Dict info_entries)) "http://t/a" [] ["[::1]:6881"] 0 "" "" "" ["http://w/"] [].

Lemma entries_canonical : canonical DefaultDecodeMaxStrLen (Dict torrent_entries).
Proof.
  cbn. repeat match goal with
              | |- _ /\ _ => split
              | |- True => exact I
              | |- Forall _ _ => constructor
              | |- Sorted _ _ => constructor
              | |- HdRel _ _ _ => constructor
              | |- key_lt _ _ => reflexivity
              | |- _ <= _ => vm_compute; discriminate
              end.
Qed.

Lemma entries_describe : describes torrent_entries file.
Proof.
  constructor; try reflexivity.
  - unfold gives. cbn. eexists. split; [done|]. constructor; [|constructor]. right. exists "::1", 6881, []. by split_and!.
  - left. by eexists.
Qed.

Lemma info_entries_describe : info_describes info_entries arch.
Proof. constructor; try (by eexists); try reflexivity; try (by split). Qed.

Lemma Load_reads_witness : canonical DefaultDecodeMaxStrLen (Dict torrent_entries) /\ describes torrent_entries file /\
  info_describes info_entries arch /\ Load (Marshal (Dict torrent_entries)) EOF = Ok file /\ UnmarshalInfo file = Done arch.
Proof.
  destruct (Load_reads torrent_entries file info_entries arch entries_canonical entries_describe eq_refl info_entries_describe) as (Hl & _ & Hi).
  split_and!; [exact entries_canonical|exact entries_describe|exact info_entries_describe|exact Hl|exact Hi].
Defined.

Instance hashing : Hashing := {| sha1_Sum s := "HASH"; sha256_Sum s := "HASH" |}.

Lemma what_is_hashed_witness : exists sp, Load (Marshal (Dict torrent_entries)) EOF = Ok file /\
  TorrentSpecFromMetaInfoErr file = Ok (arch, sp) /\ one_value (InfoBytes file) /\
  metainfo.SInfoHash (spec sp) = sha1_Sum (InfoBytes file).
Proof.
  assert (Load (Marshal (Dict torrent_entries)) EOF = Ok file) as Hl by (vm_compute; reflexivity).
  eexists. assert (TorrentSpecFromMetaInfoErr file = Ok (arch, _)) as Hs by (vm_compute; reflexivity).
  destruct (what_is_hashed _ _ _ _ _ Hl Hs) as (Ho & _ & _ & _ & Hh). split_and!; [exact Hl|exact Hs|exact Ho|exact Hh].
Defined.

End sample.
