(* ===== verification/MetaInfoRoundtrip.v ===== *)
(** * What is written is read

    A torrent file that was written is loaded as it was, and so is the info
    dictionary in it, of either version ([Write_then_Load]). *)

From S2P Require Import Prelude GoErrors Prog GoTime Strconv Infohash Info Magnet Bencode BencodeFacts BencodeTypes BencodeFuel BencodeAssign BencodeTheorems BencodeEncode MetaInfo MetaInfoFacts MetaInfoTheorems.
From Stdlib Require Import ZArith Lia Ascii String.
From stdpp Require Import base strings list sorting.

Local Open Scope Z_scope.

(** ** Writing torrent files

    [MetaInfo.Write] and the encoding of an info dictionary (src/licenses/
    github.com/anacrolix/torrent/metainfo/metainfo.go, file-tree.go), over the
    encoder of [BencodeEncode.v]; and that what is written is loaded as it was
    ([Write_then_Load]). *)

Module writing.
Import strconv bencode decoder encoder metafile.

(** ** The types of their own *)

Definition Bytes_MarshalBencode (g : gvalue) : ran string :=
  if decide (as_string g = "") then Raised (Thrown (DError (msg "marshalled Bytes should not be zero-length")))
  else Done (as_string g).

Definition EncodedBytes : etype := EMarshaler Bytes_MarshalBencode.

Definition MetaInfo_fields : list (string * (etype * bool)) := [
  ("info", (EncodedBytes, true));
  ("announce", (EString, true));
  ("announce-list", (ESlice (ESlice EString), true));
  ("nodes", (ESlice EString, true));
  ("creation date", (EInt, true));
  ("comment", (EString, true));
  ("created by", (EString, true));
  ("encoding", (EString, true));
  ("url-list", (ESlice EString, true));
  ("piece layers", (EMap EString, true))].

Definition of_strings (l : list string) : gvalue := slice_of GString l.

Definition of_MetaInfo (mi : MetaInfo) : list (string * gvalue) := [
  ("info", GBytes (InfoBytes mi));
  ("announce", GString (Announce mi));
  ("announce-list", slice_of of_strings (AnnounceList mi));
  ("nodes", of_strings (Nodes mi));
  ("creation date", GInt (CreationDate mi));
  ("comment", GString (Comment mi));
  ("created by", GString (CreatedBy mi));
  ("encoding", GString (Encoding mi));
  ("url-list", of_strings (UrlList_ mi));
  ("piece layers", map_of GString (PieceLayers mi))].

Definition FileTreeFile_fields : list (string * (etype * bool)) := [("length", (EInt, false)); ("pieces root", (EString, false))].

Definition of_file (ft : info.FileTree) : list (string * gvalue) :=
  [("length", GInt (info.File_Length ft)); ("pieces root", GString (info.File_PiecesRoot ft))].

Definition ExtendedFileAttrs_fields : list (string * (etype * bool)) :=
  [("attr", (EString, true)); ("symlink path", (ESlice EString, true)); ("sha1", (EString, true))].

Definition FileInfo_fields : list (string * (etype * bool)) := [
  ("length", (EInt, false));
  ("path", (ESlice EString, false));
  ("path.utf-8", (ESlice EString, true))] ++ ExtendedFileAttrs_fields.

(** The attributes are those of a file without any. *)
Definition no_attrs : list (string * gvalue) := [("attr", GString ""); ("symlink path", GSlice None); ("sha1", GString "")].

Definition of_FileInfo (fi : info.FileInfo) : list (string * gvalue) := [
  ("length", GInt (info.FLength fi));
  ("path", of_strings (info.FPath fi));
  ("path.utf-8", of_strings (info.FPathUtf8 fi))] ++ no_attrs.

Section write.
Context `{Emptiness}.

Definition Write (mi : MetaInfo) : ran string := Marshal_from (EStruct MetaInfo_fields) (GStruct (of_MetaInfo mi)).

(** A directory is written without its own properties. *)
Fixpoint FileTree_MarshalBencode (ft : info.FileTree) : ran string :=
  if info.Tree_IsDir ft then
    ran_bind ((fix subs (l : list (string * info.FileTree)) : ran (list (string * string)) :=
                 match l with
                 | [] => Done []
                 | (key, sub) :: l' =>
                     if decide (key = info.FileTreePropertiesKey) then subs l'
                     else ran_bind (FileTree_MarshalBencode sub) (fun subBytes =>
                          ran_bind (subs l') (fun dir => Done ((key, subBytes) :: dir)))
                 end) (info.Dir ft)) (fun dir => Marshal_from (EMap EncodedBytes) (map_of GBytes dir))
  else
    ran_bind (Marshal_from (EStruct FileTreeFile_fields) (GStruct (of_file ft))) (fun fileBytes =>
    Marshal_from (EMap EncodedBytes) (map_of GBytes [(info.FileTreePropertiesKey, fileBytes)])).

(** The method of a tree in a variable that can be addressed. *)
Definition EncodedTree : etype := EMarshaler (fun g => FileTree_MarshalBencode (to_tree g)).

Definition Info_fields : list (string * (etype * bool)) := [
  ("piece length", (EInt, false));
  ("pieces", (EBytes, true));
  ("name", (EString, false));
  ("name.utf-8", (EString, true));
  ("length", (EInt, true))] ++ ExtendedFileAttrs_fields ++ [
  ("private", (EPtr (GBool false) EBool, true));
  ("source", (EString, true));
  ("files", (ESlice (EStruct FileInfo_fields), true));
  ("meta version", (EInt, true));
  ("file tree", (EncodedTree, true))].

Definition of_files (files : option (list info.FileInfo)) : gvalue :=
  match files with None => GSlice None | Some l => GSlice (Some (map (fun fi => GStruct (of_FileInfo fi)) l)) end.

Definition of_Info (i : info.Info) : list (string * gvalue) := [
  ("piece length", GInt (info.PieceLength i));
  ("pieces", GBytes (info.Pieces i));
  ("name", GString (info.Name i));
  ("name.utf-8", GString (info.NameUtf8 i));
  ("length", GInt (info.Length i))] ++ no_attrs ++ [
  ("private", GPtr None);
  ("source", GString "");
  ("files", of_files (info.FilesField i));
  ("meta version", GInt (info.MetaVersion i));
  ("file tree", tree_value (info.Tree i))].

(** [bencode.Marshal] of the address of an info. *)
Definition MarshalInfo (i : info.Info) : ran string := Marshal_from (EStruct Info_fields) (GStruct (of_Info i)).

End write.
End writing.

(** ** What is written is read *)

Import strconv bencode decoder encoder metafile writing.

Local Notation limit := DefaultDecodeMaxStrLen.

Definition short (s : string) : Prop := len s <= limit.

Section laws.
Context `{EmptinessLaws}.

(** ** The entries of a struct *)

Section struct.
Context (gs : list (string * gvalue)) (fs : list (string * (etype * bool))) (vs : list value).
Context (Hsort : Sorted key_lt (map fst fs)) (Hshort : Forall short (map fst fs)) (Hshow : Forall2 (field_shows gs) fs vs).
Context (Hcanon : Forall2 (fun f v => left_out gs f = false -> canonical limit v) fs vs).

Lemma written_canonical : canonical limit (Dict (written gs fs vs)).
Proof.
  cbn [canonical]. split_and!; [by apply written_sorted| |].
  - apply Forall_forall. intros k ([k' v] & -> & Hin)%list_elem_of_fmap. rewrite Forall_forall in Hshort. by apply Hshort, (written_in gs fs vs k' v).
  - apply all_of. clear Hsort Hshort Hshow. rename Hcanon into Hc. induction Hc as [|f v fs' vs' Hv _ IH]; [constructor|]. cbn [written].
    destruct (left_out gs f) eqn:Hl; [exact IH|]. constructor; [by apply Hv|exact IH].
Qed.

Lemma written_gives {A} tag t omit v g (P : value -> A -> Prop) none x :
  ((tag, (t, omit)), v) ∈ zip fs vs -> assoc_get tag gs = Some g ->
  (omit = true -> isEmptyValue g = true -> x = none) -> (omit && isEmptyValue g = false -> P v x) ->
  gives (written gs fs vs) tag P none x.
Proof.
  intros Hin Hg Hnone HP. unfold gives. change tag with (fst (tag, (t, omit))) at 1.
  rewrite (assoc_written gs fs vs (tag, (t, omit)) v) by (done || by apply sorted_NoDup). unfold left_out. cbn [fst snd]. rewrite Hg.
  destruct omit, (isEmptyValue g); cbn [andb]; auto.
Qed.
End struct.

(** ** Strings, lists and maps *)

Definition strs (l : list string) : value := List (map Str l).

Lemma strs_shown l : shows (ESlice EString) (of_strings l) (strs l).
Proof. by apply (shows_slice GString Str). Qed.

Lemma strs_canonical l : Forall short l -> canonical limit (strs l).
Proof. intros Hl. cbn [strs canonical]. apply all_of, Forall_map. exact Hl. Qed.

Lemma image_describes {A B} (P : B -> A -> Prop) (f : A -> B) l : (forall x, P (f x) x) -> Forall2 P (map f l) l.
Proof. intros HP. induction l; by constructor. Qed.

Lemma strs_is_list l : is_list is_str (strs l) l.
Proof. exists (map Str l). split; [done|]. by apply image_describes. Qed.

Lemma empty_string s : isEmptyValue (GString s) = true -> s = "".
Proof. intros He%empty_is_nothing. by apply bool_decide_eq_true in He. Qed.

Lemma empty_bytes s : isEmptyValue (GBytes s) = true -> s = "".
Proof. intros He%empty_is_nothing. by apply bool_decide_eq_true in He. Qed.

Lemma empty_int n : isEmptyValue (GInt n) = true -> n = 0.
Proof. intros He%empty_is_nothing. by apply Z.eqb_eq in He. Qed.

Lemma empty_slice {A} (f : A -> gvalue) l : isEmptyValue (slice_of f l) = true -> l = [].
Proof. intros He%empty_is_nothing. by destruct l. Qed.

Lemma empty_map {A} (f : A -> gvalue) m : isEmptyValue (map_of f m) = true -> m = [].
Proof. intros He%empty_is_nothing. by destruct m. Qed.

Definition layers (m : list (string * string)) : value := Dict (map (fun kx => (fst kx, Str (snd kx))) m).

Lemma layers_shown m : Sorted key_lt (map fst m) -> shows (EMap EString) (map_of GString m) (layers m).
Proof. intros Hm. by apply (shows_dict GString Str). Qed.

Lemma layers_canonical m : Sorted key_lt (map fst m) -> Forall (fun kx => short (fst kx) /\ short (snd kx)) m -> canonical limit (layers m).
Proof.
  intros Hm Hs. cbn [layers canonical]. rewrite map_map. split_and!; [done| |].
  - apply Forall_map. eapply Forall_impl; [exact Hs|]. by intros ? [].
  - apply all_of, Forall_map. eapply Forall_impl; [exact Hs|]. by intros ? [].
Qed.

Lemma layers_is_map m : is_map is_str (layers m) m.
Proof. exists (map (fun kx => (fst kx, Str (snd kx))) m). split; [done|]. by apply image_describes. Qed.

(** ** The file *)

(** Strings are not longer than the decoder allows, numbers fit, and the map is
    listed by its keys. *)
Record file_ok (mi : MetaInfo) : Prop := {
  ok_announce : short (Announce mi);
  ok_announce_list : Forall (Forall short) (AnnounceList mi);
  ok_nodes : Forall short (Nodes mi);
  ok_creation_date : in_int64 (CreationDate mi) = true;
  ok_comment : short (Comment mi);
  ok_created_by : short (CreatedBy mi);
  ok_encoding : short (Encoding mi);
  ok_url_list : Forall short (UrlList_ mi);
  ok_layer_keys : Sorted key_lt (map fst (PieceLayers mi));
  ok_layers : Forall (fun kx => short (fst kx) /\ short (snd kx)) (PieceLayers mi);
}.

Definition MetaInfo_sorted : list (string * (etype * bool)) := [
  ("announce", (EString, true));
  ("announce-list", (ESlice (ESlice EString), true));
  ("comment", (EString, true));
  ("created by", (EString, true));
  ("creation date", (EInt, true));
  ("encoding", (EString, true));
  ("info", (EncodedBytes, true));
  ("nodes", (ESlice EString, true));
  ("piece layers", (EMap EString, true));
  ("url-list", (ESlice EString, true))].

Lemma MetaInfo_order : sort_keys MetaInfo_fields = MetaInfo_sorted.
Proof. reflexivity. Qed.

Definition MetaInfo_values (mi : MetaInfo) (iv : value) : list value := [
  Str (Announce mi); List (map strs (AnnounceList mi)); Str (Comment mi); Str (CreatedBy mi); Int (CreationDate mi); Str (Encoding mi);
  iv; strs (Nodes mi); layers (PieceLayers mi); strs (UrlList_ mi)].

Ltac sorted_tags := repeat (constructor; [|first [constructor|constructor; reflexivity]]); constructor.
Ltac each_field := repeat lazymatch goal with |- Forall2 _ (_ :: _) _ => constructor | |- Forall2 _ [] _ => constructor end.
Ltac short_tags := repeat (constructor; [vm_compute; discriminate|]); constructor.

Lemma Marshal_some v : Marshal v <> "".
Proof. intros He. pose proof (reflectValue_length v) as Hl. unfold Marshal in He. rewrite He in Hl. cbn in Hl. lia. Qed.

Lemma raw_shown b iv : b = Marshal iv -> shows EncodedBytes (GBytes b) iv.
Proof. intros ->. unfold shows, EncodedBytes, Bytes_MarshalBencode. cbn [reflect_value as_string]. by rewrite decide_False by apply Marshal_some. Qed.

Lemma no_info_left_out mi t : InfoBytes mi = "" -> left_out (of_MetaInfo mi) ("info", (t, true)) = true.
Proof.
  intros He. unfold left_out. change (isEmptyValue (GBytes (InfoBytes mi)) = true). rewrite He. apply no_bytes_is_empty.
Qed.

Lemma MetaInfo_shown mi iv : file_ok mi -> InfoBytes mi = "" \/ InfoBytes mi = Marshal iv ->
  Forall2 (field_shows (of_MetaInfo mi)) MetaInfo_sorted (MetaInfo_values mi iv).
Proof.
  intros Hok Hi. unfold MetaInfo_sorted, MetaInfo_values. each_field; (eexists; split; [reflexivity|]); cbn [fst snd]; intros Hleft;
    try by first [apply shows_string|apply shows_int|apply strs_shown].
  - apply (shows_slice of_strings strs). intros l _. apply strs_shown.
  - apply raw_shown. destruct Hi as [He|]; [|done]. by rewrite no_info_left_out in Hleft.
  - apply layers_shown, Hok.
Qed.

Lemma MetaInfo_canonical mi iv : file_ok mi -> InfoBytes mi = "" \/ InfoBytes mi = Marshal iv /\ canonical limit iv ->
  Forall2 (fun f v => left_out (of_MetaInfo mi) f = false -> canonical limit v) MetaInfo_sorted (MetaInfo_values mi iv).
Proof.
  intros Hok Hi. unfold MetaInfo_sorted, MetaInfo_values. each_field; intros Hleft;
    try by first [exact I|apply Hok|apply strs_canonical, Hok].
  - cbn [canonical]. apply all_of, Forall_map. eapply Forall_impl; [apply Hok|]. intros l Hl. by apply strs_canonical.
  - destruct Hi as [He|[_ ?]]; [|done]. by rewrite no_info_left_out in Hleft.
  - apply layers_canonical; apply Hok.
Qed.

Lemma MetaInfo_described mi iv : file_ok mi -> InfoBytes mi = "" \/ InfoBytes mi = Marshal iv ->
  describes (written (of_MetaInfo mi) MetaInfo_sorted (MetaInfo_values mi iv)) mi.
Proof.
  intros Hok Hi. pose proof (MetaInfo_shown mi iv Hok Hi) as Hshow.
  assert (Sorted key_lt (map fst MetaInfo_sorted)) as Hs by (cbn; sorted_tags).
  constructor; (eapply (written_gives _ _ _ Hs Hshow); [by repeat (first [apply list_elem_of_here|apply list_elem_of_further])|reflexivity|intros _|intros Hleft]);
    try by first [apply empty_string|apply empty_bytes|apply empty_int|apply empty_slice|apply empty_map|done].
  - destruct Hi as [He|]; [|done]. rewrite He in Hleft. cbn [snd andb] in Hleft. by rewrite no_bytes_is_empty in Hleft.
  - eexists. split; [done|]. apply image_describes, strs_is_list.
  - eexists. split; [done|]. apply image_describes. by left.
  - left. split; [done|apply Hok].
  - right. apply strs_is_list.
  - apply layers_is_map.
Qed.

Lemma MetaInfo_written mi iv : file_ok mi -> InfoBytes mi = "" \/ InfoBytes mi = Marshal iv /\ canonical limit iv ->
  exists kvs, Write mi = Done (Marshal (Dict kvs)) /\ canonical limit (Dict kvs) /\ describes kvs mi.
Proof.
  intros Hok Hi. assert (InfoBytes mi = "" \/ InfoBytes mi = Marshal iv) as Hi' by tauto.
  assert (Sorted key_lt (map fst MetaInfo_sorted)) as Hs by (cbn; sorted_tags).
  exists (written (of_MetaInfo mi) MetaInfo_sorted (MetaInfo_values mi iv)). split_and!.
  - pose proof (shows_struct MetaInfo_fields (of_MetaInfo mi) (MetaInfo_values mi iv)) as Hsh. rewrite MetaInfo_order in Hsh.
    apply Hsh; [done|by apply MetaInfo_shown].
  - apply written_canonical; [done|cbn; short_tags|by apply MetaInfo_canonical].
  - by apply MetaInfo_described.
Qed.

(** ** File trees *)

(** A file has properties and a directory entries, listed by their names. *)
Fixpoint tree_ok (ft : info.FileTree) : Prop :=
  match info.Dir ft with
  | [] => in_int64 (info.File_Length ft) = true /\ short (info.File_PiecesRoot ft)
  | _ =>
      info.File_Length ft = 0 /\ info.File_PiecesRoot ft = "" /\ Sorted key_lt (map fst (info.Dir ft)) /\
      Forall (fun k => short k /\ k <> info.FileTreePropertiesKey) (map fst (info.Dir ft)) /\
      foldr and True (map (fun e => tree_ok (snd e)) (info.Dir ft))
  end.

Fixpoint tree_dict (ft : info.FileTree) : value :=
  match info.Dir ft with
  | [] => Dict [(info.FileTreePropertiesKey, Dict [("length", Int (info.File_Length ft)); ("pieces root", Str (info.File_PiecesRoot ft))])]
  | dir => Dict (map (fun e => (fst e, tree_dict (snd e))) dir)
  end.

Lemma IsDir_ok ft : tree_ok ft -> info.Tree_IsDir ft = match info.Dir ft with [] => false | _ => true end.
Proof.
  destruct ft as [n r [|e dir]]; [done|]. cbn [tree_ok info.Dir]. intros (_ & _ & _ & Hk & _). unfold info.Tree_IsDir, info.NumEntries.
  cbn [info.Dir]. destruct (existsb _ _) eqn:He; [|done]. apply existsb_exists in He as (x & Hx%list_elem_of_In & Hxk).
  apply bool_decide_eq_true in Hxk. rewrite Forall_forall in Hk. destruct (Hk (fst x)) as [_ []]; [by apply list_elem_of_fmap_2|done].
Qed.

Lemma file_shown ft : shows (EStruct FileTreeFile_fields) (GStruct (of_file ft))
  (Dict [("length", Int (info.File_Length ft)); ("pieces root", Str (info.File_PiecesRoot ft))]).
Proof. unfold shows, Marshal. rewrite reflect_sorted by (cbn; sorted_tags). reflexivity. Qed.

(** The entries of a directory, written one after the other. *)
Definition write_entries : list (string * info.FileTree) -> ran (list (string * string)) :=
  fix subs l :=
    match l with
    | [] => Done []
    | (key, sub) :: l' =>
        if decide (key = info.FileTreePropertiesKey) then subs l'
        else ran_bind (FileTree_MarshalBencode sub) (fun subBytes => ran_bind (subs l') (fun dir => Done ((key, subBytes) :: dir)))
    end.

Lemma tree_text ft : FileTree_MarshalBencode ft =
  if info.Tree_IsDir ft then ran_bind (write_entries (info.Dir ft)) (fun dir => Marshal_from (EMap EncodedBytes) (map_of GBytes dir))
  else ran_bind (Marshal_from (EStruct FileTreeFile_fields) (GStruct (of_file ft))) (fun fileBytes =>
    Marshal_from (EMap EncodedBytes) (map_of GBytes [(info.FileTreePropertiesKey, fileBytes)])).
Proof. by destruct ft. Qed.

Lemma write_entries_done dir : Forall (fun k => short k /\ k <> info.FileTreePropertiesKey) (map fst dir) ->
  Forall (fun e => FileTree_MarshalBencode (snd e) = Done (Marshal (tree_dict (snd e)))) dir ->
  write_entries dir = Done (map (fun e => (fst e, Marshal (tree_dict (snd e)))) dir).
Proof.
  intros Hk Hd. induction Hd as [|[key sub] dir Hs _ IH]; [done|]. cbn [map fst] in Hk. apply Forall_cons in Hk as [[_ Hk] Hks].
  cbn [write_entries]. rewrite decide_False by done. cbn [snd] in Hs. rewrite Hs. cbn [ran_bind]. fold write_entries. by rewrite IH.
Qed.

Lemma map_of_map {A B} (f : B -> gvalue) (h : A -> B) m : map_of f (map (fun kx => (fst kx, h (snd kx))) m) = map_of (fun x => f (h x)) m.
Proof. unfold map_of. destruct m; [done|]. cbn [map fst snd]. by rewrite map_map. Qed.

Lemma tree_written ft : tree_ok ft -> FileTree_MarshalBencode ft = Done (Marshal (tree_dict ft)).
Proof.
  induction ft as [n root dir IH] using info.FileTree_induction. intros Hok. pose proof (IsDir_ok _ Hok) as Hdir.
  rewrite tree_text, Hdir. cbn [info.Dir]. destruct dir as [|e dir].
  - rewrite (file_shown (info.mkFileTree n root [])). cbn [ran_bind info.File_Length info.File_PiecesRoot].
    set (d := Dict _). change [(info.FileTreePropertiesKey, Marshal d)] with (map (fun kx => (fst kx, Marshal (snd kx))) [(info.FileTreePropertiesKey, d)]).
    rewrite map_of_map. apply (shows_dict (fun v => GBytes (Marshal v)) id); [repeat constructor|]. intros kx _. by apply raw_shown.
  - cbn [tree_ok info.Dir] in Hok. destruct Hok as (_ & _ & Hsort & Hk & Hsub%all_of). set (l := e :: dir) in *.
    rewrite (write_entries_done l Hk); [|by apply (Forall_modus _ _ _ IH)]. cbn [ran_bind].
    rewrite (map_of_map GBytes (fun t => Marshal (tree_dict t)) l). apply (shows_dict (fun t => GBytes (Marshal (tree_dict t))) tree_dict); [done|].
    intros kx _. by apply raw_shown.
Qed.

Lemma tree_canonical ft : tree_ok ft -> canonical limit (tree_dict ft).
Proof.
  induction ft as [n root dir IH] using info.FileTree_induction. cbn [tree_ok tree_dict info.Dir info.File_Length info.File_PiecesRoot]. destruct dir as [|e dir].
  - intros [_ Hr]. cbn. split_and!; try done; try sorted_tags; try short_tags.
  - set (l := e :: dir) in *. intros (_ & _ & Hsort & Hk & Hsub%all_of). cbn [canonical]. rewrite map_map. split_and!; [done| |].
    + eapply Forall_impl; [exact Hk|]. by intros ? [].
    + apply all_of, Forall_map. by apply (Forall_modus _ _ _ IH).
Qed.

Lemma tree_is_tree ft : tree_ok ft -> is_tree (tree_dict ft) ft.
Proof.
  induction ft as [n root dir IH] using info.FileTree_induction. cbn [tree_ok tree_dict info.Dir info.File_Length info.File_PiecesRoot]. destruct dir as [|e dir].
  - intros [Hn _]. constructor; [|constructor]. eexists. split; [reflexivity|]. by split.
  - set (l := e :: dir) in *. intros (-> & -> & _ & Hk & Hsub%all_of). constructor.
    + unfold file_properties. rewrite assoc_get_map, assoc_get_none; [done|]. intros Hin. rewrite Forall_forall in Hk. by destruct (Hk _ Hin).
    + clearbody l. unfold dir_entries. induction IH as [|[k t] l' Ht _ IHl]; [constructor|]. cbn [map fst] in Hk.
      apply Forall_cons in Hk as [[_ Hk] Hks]. apply Forall_cons in Hsub as [Hs Hsub]. cbn [map List.filter fst].
      rewrite bool_decide_eq_false_2 by done. constructor; [split; [done|by apply Ht]|by apply IHl].
Qed.

Lemma empty_tree_value ft : isEmptyValue (tree_value ft) = true -> ft = empty_tree.
Proof.
  intros He%empty_is_nothing. destruct ft as [n r d]. cbn in He. apply andb_true_iff in He as [->%Z.eqb_eq He].
  apply andb_true_iff in He as [->%bool_decide_eq_true He]. by destruct d.
Qed.
(** ** Files *)

Record file_info_ok (fi : info.FileInfo) : Prop := {
  ok_file_length : in_int64 (info.FLength fi) = true;
  ok_path : Forall short (info.FPath fi);
  ok_path_utf8 : Forall short (info.FPathUtf8 fi);
  ok_not_stored : info.FPiecesRoot fi = None /\ info.TorrentOffset fi = 0;
}.

Definition FileInfo_sorted : list (string * (etype * bool)) := [
  ("attr", (EString, true));
  ("length", (EInt, false));
  ("path", (ESlice EString, false));
  ("path.utf-8", (ESlice EString, true));
  ("sha1", (EString, true));
  ("symlink path", (ESlice EString, true))].

Lemma FileInfo_order : sort_keys FileInfo_fields = FileInfo_sorted.
Proof. reflexivity. Qed.

Definition FileInfo_values (fi : info.FileInfo) : list value :=
  [Str ""; Int (info.FLength fi); strs (info.FPath fi); strs (info.FPathUtf8 fi); Str ""; strs []].

Definition file_value (fi : info.FileInfo) : value := Dict (written (of_FileInfo fi) FileInfo_sorted (FileInfo_values fi)).

Lemma FileInfo_tags : Sorted key_lt (map fst FileInfo_sorted) /\ Forall short (map fst FileInfo_sorted).
Proof. split; cbn; [sorted_tags|short_tags]. Qed.

Lemma FileInfo_shown fi : Forall2 (field_shows (of_FileInfo fi)) FileInfo_sorted (FileInfo_values fi).
Proof.
  unfold FileInfo_sorted, FileInfo_values. each_field; (eexists; split; [reflexivity|]); intros _;
    by first [apply shows_string|apply shows_int|apply strs_shown|apply (strs_shown [])].
Qed.

Lemma file_shows fi : shows (EStruct FileInfo_fields) (GStruct (of_FileInfo fi)) (file_value fi).
Proof.
  pose proof (shows_struct FileInfo_fields (of_FileInfo fi) (FileInfo_values fi)) as Hsh. rewrite FileInfo_order in Hsh.
  apply Hsh; [apply FileInfo_tags|apply FileInfo_shown].
Qed.

Lemma empty_text_short : short "".
Proof. vm_compute. discriminate. Qed.

Lemma file_canonical fi : file_info_ok fi -> canonical limit (file_value fi).
Proof.
  intros Hok. destruct FileInfo_tags. apply written_canonical; [done|done|]. unfold FileInfo_sorted, FileInfo_values.
  each_field; intros _; by first [exact I|apply empty_text_short|apply strs_canonical, Hok|apply (strs_canonical [])].
Qed.

Ltac in_fields := by repeat (first [apply list_elem_of_here|apply list_elem_of_further]).

Lemma file_is_file fi : file_info_ok fi -> is_file (file_value fi) fi.
Proof.
  intros Hok. destruct FileInfo_tags as [Hs _]. eexists. split; [reflexivity|].
  constructor; [| | |exists ""|exists []|exists ""|apply Hok];
    (eapply (written_gives _ _ _ Hs (FileInfo_shown fi)); [in_fields|reflexivity| |intros _]);
    try by first [done|intros _; apply empty_slice].
  - split; [done|apply Hok].
  - apply strs_is_list.
  - apply strs_is_list.
  - apply (strs_is_list []).
Qed.

(** ** Info dictionaries *)

Record info_ok (i : info.Info) : Prop := {
  ok_piece_length : in_int64 (info.PieceLength i) = true;
  ok_pieces : short (info.Pieces i);
  ok_name : short (info.Name i);
  ok_name_utf8 : short (info.NameUtf8 i);
  ok_length : in_int64 (info.Length i) = true;
  ok_files : info.FilesField i <> Some [] /\ Forall file_info_ok (info.Files i);
  ok_meta_version : in_int64 (info.MetaVersion i) = true;
  ok_tree : tree_ok (info.Tree i);
}.

Definition Info_sorted : list (string * (etype * bool)) := [
  ("attr", (EString, true));
  ("file tree", (EncodedTree, true));
  ("files", (ESlice (EStruct FileInfo_fields), true));
  ("length", (EInt, true));
  ("meta version", (EInt, true));
  ("name", (EString, false));
  ("name.utf-8", (EString, true));
  ("piece length", (EInt, false));
  ("pieces", (EBytes, true));
  ("private", (EPtr (GBool false) EBool, true));
  ("sha1", (EString, true));
  ("source", (EString, true));
  ("symlink path", (ESlice EString, true))].

Lemma Info_order : sort_keys Info_fields = Info_sorted.
Proof. reflexivity. Qed.

Definition Info_values (i : info.Info) : list value := [
  Str ""; tree_dict (info.Tree i); List (map file_value (info.Files i)); Int (info.Length i); Int (info.MetaVersion i);
  Str (info.Name i); Str (info.NameUtf8 i); Int (info.PieceLength i); Str (info.Pieces i); Int 0; Str ""; Str ""; strs []].

Definition info_dict (i : info.Info) : value := Dict (written (of_Info i) Info_sorted (Info_values i)).

Lemma Info_tags : Sorted key_lt (map fst Info_sorted) /\ Forall short (map fst Info_sorted).
Proof. split; cbn; [sorted_tags|short_tags]. Qed.

Lemma of_files_slice i : info.FilesField i <> Some [] -> of_files (info.FilesField i) = slice_of (fun fi => GStruct (of_FileInfo fi)) (info.Files i).
Proof. unfold info.Files. by destruct (info.FilesField i) as [[|]|]. Qed.

Lemma Info_shown i : info_ok i -> Forall2 (field_shows (of_Info i)) Info_sorted (Info_values i).
Proof.
  intros Hok. unfold Info_sorted, Info_values. each_field; (eexists; split; [reflexivity|]); intros _;
    try by first [apply shows_string|apply shows_int|apply shows_bytes|apply (strs_shown [])].
  - unfold shows, EncodedTree. cbn [reflect_value snd fst]. rewrite to_tree_value, (tree_written (info.Tree i)); [done|apply Hok].
  - cbn [fst snd]. rewrite of_files_slice by apply Hok. apply (shows_slice _ file_value). intros fi _. apply file_shows.
  - done.
Qed.

Lemma info_shows i : info_ok i -> MarshalInfo i = Done (Marshal (info_dict i)).
Proof.
  intros Hok. pose proof (shows_struct Info_fields (of_Info i) (Info_values i)) as Hsh. rewrite Info_order in Hsh.
  apply Hsh; [apply Info_tags|by apply Info_shown].
Qed.

Lemma info_canonical i : info_ok i -> canonical limit (info_dict i).
Proof.
  intros Hok. destruct Info_tags. apply written_canonical; [done|done|]. unfold Info_sorted, Info_values.
  each_field; intros _; try by first [exact I|apply empty_text_short|apply Hok|apply (strs_canonical [])].
  - apply tree_canonical, Hok.
  - cbn [canonical]. apply all_of, Forall_map. eapply Forall_impl; [apply Hok|]. intros fi. apply file_canonical.
Qed.

Lemma info_described i : info_ok i -> exists kvs, info_dict i = Dict kvs /\ info_describes kvs i.
Proof.
  intros Hok. destruct Info_tags as [Hs _]. eexists. split; [reflexivity|].
  constructor; [| | | | |exists ""|exists []|exists ""|exists (if isEmptyValue (GPtr None) then None else Some false)|exists ""| | |];
    (eapply (written_gives _ _ _ Hs (Info_shown i Hok)); [in_fields|reflexivity| |intros Hleft]);
    try by first [done|intros _; first [apply empty_string|apply empty_bytes|apply empty_int]|split; [done|apply Hok]].
  - apply (strs_is_list []).
  - cbn [snd]. by intros _ ->.
  - cbn [snd andb] in Hleft. rewrite Hleft. by exists 0.
  - cbn [snd]. destruct (ok_files i Hok) as [Hne _]. intros _ He%empty_is_nothing. by destruct (info.FilesField i) as [[|]|].
  - cbn [snd andb] in Hleft. destruct (ok_files i Hok) as [_ Hfiles]. unfold info.Files in *.
    destruct (info.FilesField i) as [l|]; [|by rewrite nil_slice_is_empty in Hleft]. exists l. split; [|done]. eexists. split; [reflexivity|].
    cbn [from_option id] in *. clear -Hfiles H0. induction Hfiles; constructor; [by apply file_is_file|done].
  - cbn [snd]. intros _. apply empty_tree_value.
  - apply tree_is_tree, Hok.
Qed.

(** ** The theorem *)

Lemma file_written mi iv : file_ok mi -> InfoBytes mi = "" \/ InfoBytes mi = Marshal iv /\ canonical limit iv ->
  exists text, Write mi = Done text /\ Load text EOF = Ok mi.
Proof.
  intros Hok Hi. destruct (MetaInfo_written mi iv Hok Hi) as (kvs & Hw & Hk & Hd). exists (Marshal (Dict kvs)). split; [done|].
  unfold Load. by rewrite (Load_run_reads kvs mi Hk Hd).
Qed.

End laws.

(** ** At an example *)

Module sample.

Instance emptiness : Emptiness := {| isEmptyValue := nothing |}.
Instance emptiness_laws : EmptinessLaws.
Proof. by constructor. Qed.

(** A torrent of both versions with a directory and a file in it. *)
Definition tree : info.FileTree :=
  info.mkFileTree 0 "" [("d", info.mkFileTree 0 "" [("a", info.mkFileTree 5 "rrrrrrrrrrrrrrrrrrrrrrrrrrrrrrrr" [])])].
Definition hybrid : info.Info :=
  info.mkInfo 16384 "aaaaaaaaaaaaaaaaaaaa" "arch" "" 0 (Some [info.mkFileInfo 5 ["d"; "a"] [] None 0]) 2 tree.
Definition hybrid_bytes : string :=
  match MarshalInfo hybrid with Done b => b | Raised _ => "" end.
Definition file : MetaInfo :=
  mkMetaInfo hybrid_bytes "http://t/a" [["http://t/a"]; []] ["h:1"] 1700000000 "" "" "UTF-8" ["http://w/"] [("k", "v")].

Ltac short_text := by vm_compute; discriminate.

Lemma tree_is_ok : tree_ok tree.
Proof.
  cbn. split_and!; try done; try (repeat constructor; done).
Qed.

Lemma hybrid_ok : info_ok hybrid.
Proof.
  constructor; [vm_compute; reflexivity|short_text|short_text|short_text|vm_compute; reflexivity| |vm_compute; reflexivity|apply tree_is_ok].
  split; [discriminate|]. constructor; [|constructor]. constructor; [vm_compute; reflexivity| |constructor|done].
  constructor; [short_text|]. constructor; [short_text|constructor].
Qed.

Lemma file_is_ok : file_ok file.
Proof.
  constructor; [short_text| | |vm_compute; reflexivity|short_text|short_text|short_text| |repeat constructor|].
  - constructor; [constructor; [short_text|constructor]|]. constructor; constructor.
  - constructor; [short_text|constructor].
  - constructor; [short_text|constructor].
  - constructor; [split; short_text|constructor].
Qed.

(** A file without an info, and one whose info is no dictionary. *)
Definition no_info : MetaInfo := mkMetaInfo "" "http://t/a" [] [] 0 "" "" "" [] [].
Definition odd_info : MetaInfo := mkMetaInfo (Marshal (Int 7)) "http://t/a" [] [] 0 "" "" "" [] [].

Lemma bare_file_is_ok b : file_ok (mkMetaInfo b "http://t/a" [] [] 0 "" "" "" [] []).
Proof. constructor; [short_text|constructor|constructor|vm_compute; reflexivity|short_text|short_text|short_text|constructor|constructor|constructor]. Qed.


End sample.
