(* ===== verification/InfoTheorems.v ===== *)
(** * The info dictionary, the theorems

    The pieces of a torrent tile its files: every piece has the length its
    number says, the lengths add up to the torrent, and what the file storage
    locates of a piece adds up to the piece. [ChoosePieceLength] ends with a
    power of two in the range its comment promises. *)

From S2P Require Import Prelude Prog Segments Info.
From Stdlib Require Import ZArith Lia Ascii String.
From stdpp Require Import base gmap strings list pretty.
Import segments info.

Local Open Scope Z_scope.

(** ** Choosing a piece length *)

Lemma choose_spec total k fuel :
  0 <= total < 2 ^ 63 -> 0 <= k -> 39 - k <= Z.of_nat fuel -> k <= 38 ->
  (k = 0 \/ targetPieceCountMin <= total / (minimumPieceLength * 2 ^ k)) ->
  exists k', 0 <= k' /\ choose fuel (minimumPieceLength * 2 ^ k) (total / (minimumPieceLength * 2 ^ k)) =
    Some (minimumPieceLength * 2 ^ k') /\
    total / (minimumPieceLength * 2 ^ k') < targetPieceCountMax /\
    (k' = 0 \/ targetPieceCountMin <= total / (minimumPieceLength * 2 ^ k')).
Proof.
  intros Ht. change targetPieceCountMax with 2048. change targetPieceCountMin with 1024.
  change minimumPieceLength with (2 ^ 14). revert k. induction fuel as [|fuel IH]; intros k Hk Hf Hk38 Hmin; [lia|].
  cbn [choose]. change targetPieceCountMax with 2048. destruct (Z.leb_spec 2048 (total / (2 ^ 14 * 2 ^ k))) as [Hle|Hgt].
  2:{ exists k. split_and!; [done|done|done|done]. }
  assert (k < 38) as Hk'.
  { destruct (Z.eq_dec k 38) as [->|]; [|lia]. exfalso.
    assert (total / (2 ^ 14 * 2 ^ 38) < 2048); [|lia]. apply Z.div_lt_upper_bound; lia. }
  assert (0 < 2 ^ k <= 2 ^ 38) as Hpow by (split; [apply Z.pow_pos_nonneg; lia|apply Z.pow_le_mono_r; lia]).
  assert (i64 (Z.shiftl (2 ^ 14 * 2 ^ k) 1) = 2 ^ 14 * 2 ^ (k + 1)) as ->.
  { rewrite Z.shiftl_mul_pow2, Z.pow_add_r by lia. rewrite i64_id; [lia|]. lia. }
  assert (Z.shiftr (total / (2 ^ 14 * 2 ^ k)) 1 = total / (2 ^ 14 * 2 ^ (k + 1))) as Hs.
  { rewrite Z.shiftr_div_pow2, Z.div_div, Z.pow_add_r by lia. f_equal. lia. }
  rewrite Hs. apply IH; [lia|lia|lia|]. right. rewrite <-Hs, Z.shiftr_div_pow2 by lia.
  apply Z.div_le_lower_bound; lia.
Qed.

(** [ChoosePieceLength] ends, without overflow, for every length an
    [int64] can hold: the piece length is 16 KiB times a power of two, there
    are fewer than 2048 whole pieces, and at least 1024 unless pieces are as
    short as they may be. *)
Theorem ChoosePieceLength_good total :
  0 <= total < 2 ^ 63 ->
  exists k, 0 <= k /\ ChoosePieceLength total = Some (minimumPieceLength * 2 ^ k) /\
    total / (minimumPieceLength * 2 ^ k) < targetPieceCountMax /\
    (k = 0 \/ targetPieceCountMin <= total / (minimumPieceLength * 2 ^ k)).
Proof.
  intros Ht. destruct (choose_spec total 0 64 Ht) as (k & Hk & Hc & H1 & H2); [lia..|by left|].
  exists k. split_and!; [done| |done|done]. unfold ChoosePieceLength, quot64.
  rewrite Z.quot_div_nonneg by (unfold minimumPieceLength; lia).
  rewrite i64_id; [by rewrite Z.pow_0_r, Z.mul_1_r in Hc|].
  assert (0 <= total / minimumPieceLength <= total); [|lia].
  split; [apply Z.div_pos; unfold minimumPieceLength; lia|].
  apply Z.div_le_upper_bound; unfold minimumPieceLength; lia.
Qed.

(** ** The files of a v1 torrent *)

(** The lengths of the files, of which there is at least one. *)
Definition lengths (i : Info) : list Z :=
  match Files i with [] => [Length i] | fs => map FLength fs end.

Record wf_v1 (i : Info) (n : Z) : Prop := {
  wf_version : HasV2 i = false;
  wf_lengths : Forall (Z.le 0) (lengths i);
  wf_size : sum (lengths i) <= max_size;
  wf_piece : 0 < PieceLength i <= max_size;
  (** as many hashes as it takes to cover the files *)
  wf_hashes : Z.of_nat (String.length (Pieces i) / 20) = n;
  wf_cover : (n - 1) * PieceLength i < sum (lengths i) <= n * PieceLength i;
}.

Lemma with_offsets_extents off fs :
  Forall (Z.le 0) (map FLength fs) -> 0 <= off -> off + sum (map FLength fs) <= max_size ->
  map (fun fi => mkExtent (TorrentOffset fi) (FLength fi)) (with_offsets off fs) = new_index off (map FLength fs) /\
  map FLength (with_offsets off fs) = map FLength fs /\
  forall fi, last (with_offsets off fs) = Some fi -> TorrentOffset fi + FLength fi = off + sum (map FLength fs).
Proof.
  intros Hfs. remember (map FLength fs) as ls eqn:E. revert fs off E.
  induction Hfs as [|l ls Hl Hls IH]; intros fs off E Hoff Hsum; destruct fs as [|f fs]; try done.
  injection E as -> ->. pose proof (sum_nonneg _ Hls) as Hnn. cbn [sum foldr] in *. fold (sum (map FLength fs)) in *.
  cbn [with_offsets map new_index TorrentOffset FLength]. unfold add64.
  destruct (IH fs (i64 (off + FLength f)) eq_refl) as (IH1 & IH2 & IH3);
    [unfold max_size in *; rewrite i64_id; lia..|].
  rewrite IH1, IH2. split_and!; [done|done|]. intros fi Hlast.
  destruct fs as [|f' fs]; [injection Hlast as <-; cbn; lia|].
  rewrite IH3 by done. unfold max_size in *. rewrite i64_id by lia. lia.
Qed.

(** What the files of a v1 torrent are, as every caller reads them. *)
Lemma v1_files i n : wf_v1 i n ->
  map (fun fi => mkExtent (TorrentOffset fi) (FLength fi)) (fst (UpvertedV1Files i)) = NewIndex (lengths i) /\
  map FLength (fst (UpvertedV1Files i)) = lengths i /\
  exists fi, last (fst (UpvertedV1Files i)) = Some fi /\ TorrentOffset fi + FLength fi = sum (lengths i).
Proof.
  intros [Hv Hl Hs Hp Hh Hc]. unfold UpvertedV1Files, lengths, NewIndex in *. cbn [fst].
  destruct (Files i) as [|f fs] eqn:Ef.
  - split_and!; [done|done|]. eexists. split; [done|]. cbn [TorrentOffset FLength sum foldr]. lia.
  - rewrite app_nil_l. destruct (with_offsets_extents 0 (f :: fs) Hl) as (H1 & H2 & H3); [lia|lia|].
    split_and!; [done|done|].
    destruct (last (with_offsets 0 (f :: fs))) as [fi|] eqn:El; [|by apply last_None in El].
    exists fi. split; [done|]. by apply H3.
Qed.

Lemma sum_fold ls acc :
  Forall (Z.le 0) ls -> 0 <= acc -> acc + sum ls <= max_size ->
  fold_left (fun ret l => add64 ret l) ls acc = acc + sum ls.
Proof.
  intros Hls. revert acc. induction Hls as [|l ls Hl Hls IH]; intros acc Ha Hs; cbn [fold_left]; [simpl; lia|].
  pose proof (sum_nonneg _ Hls). cbn [sum foldr] in *. fold (sum ls) in *. unfold max_size in *. unfold add64 at 2.
  rewrite i64_id by lia. rewrite IH by lia. lia.
Qed.

Lemma fold_left_map {A B C} (g : A -> B) (f : C -> B -> C) l acc :
  fold_left (fun x a => f x (g a)) l acc = fold_left f (map g l) acc.
Proof. revert acc. induction l as [|a l IH]; intros acc; [done|]. apply IH. Qed.

Lemma v1_total i n : wf_v1 i n -> TotalLength i = Val (sum (lengths i)).
Proof.
  intros Hw. pose proof Hw as [Hv Hl Hs Hp Hh Hc]. destruct (v1_files i n Hw) as (_ & Hm & _).
  unfold TotalLength, UpvertedFiles, UpvertedFilesIter. rewrite Hv. cbn [finish snd UpvertedV1Files].
  rewrite fold_left_map, Hm, sum_fold by (done || lia). done.
Qed.

Lemma v1_piece i n k : wf_v1 i n -> 0 <= k < n ->
  Piece_Length i k = Val (Z.min (PieceLength i) (sum (lengths i) - k * PieceLength i)).
Proof.
  intros Hw Hk. pose proof Hw as [Hv Hl Hs Hp Hh Hc]. destruct (v1_files i n Hw) as (_ & _ & fi & Hlast & Hend).
  unfold Piece_Length, V1Length, NumPieces. rewrite Hv, Hh.
  pose proof (sum_nonneg _ Hl) as Hnn.
  assert (n <= max_size) as Hn by (unfold max_size in *; nia).
  unfold max_size in *. unfold sub64 at 1 2 3. rewrite (i64_id (n - 1)) by lia.
  destruct (Z.ltb_spec k (n - 1)) as [Hlt|Hge].
  - rewrite (proj2 (Z.leb_le 0 k)) by lia. cbn [andb]. f_equal.
    assert ((k + 1) * PieceLength i <= (n - 1) * PieceLength i) by (apply Z.mul_le_mono_nonneg_r; lia). lia.
  - rewrite andb_false_r, (proj2 (Z.leb_le 0 (n - 1))), (proj2 (Z.eqb_eq k (n - 1))) by lia. cbn [andb].
    rewrite Hlast. unfold add64, mul64, sub64. rewrite Hend. assert (k = n - 1) as -> by lia.
    assert (0 <= (n - 1) * PieceLength i) by nia.
    rewrite (i64_id (sum _)), (i64_id (_ * _)), i64_id by lia.
    rewrite (proj2 (Z.leb_gt (_ - _) 0)), (proj2 (Z.ltb_ge (PieceLength i) _)) by lia. cbn [orb]. f_equal. lia.
Qed.

Lemma located_sum i s ls e :
  Forall (Z.le 0) ls -> 0 <= segments.Length e ->
  sum (map (fun x => segments.Length (snd x)) (located i s ls e)) =
  Z.max 0 (Z.min (Start e + segments.Length e) (s + sum ls) - Z.max (Start e) s).
Proof.
  intros Hls HL. revert i s. induction Hls as [|l ls Hl Hls IH]; intros i s; cbn [located]; [simpl; lia|].
  pose proof (sum_nonneg _ Hls). rewrite map_app, sum_app, IH. cbn [sum foldr]. fold (sum ls).
  destruct (meets e s l) eqn:Em.
  - apply meets_spec in Em. cbn [map snd overlap segments.Length sum foldr]. lia.
  - assert (~ _) as Hn by (intros Hm; apply (proj2 (meets_spec e s l)) in Hm; congruence). cbn [map sum foldr]. lia.
Qed.

Lemma v1_index i n : wf_v1 i n -> FileSegmentsIndex i = Val (NewIndex (lengths i)).
Proof.
  intros Hw. destruct (v1_files i n Hw) as (He & _). unfold FileSegmentsIndex, UpvertedFilesIter.
  rewrite (wf_version _ _ Hw). cbn [finish snd UpvertedV1Files]. by rewrite <-He.
Qed.

(** C32. The pieces of a v1 torrent tile its files: there are as many as it has
    hashes, every piece is between one byte and the piece length long and ends
    where the next one starts or the files end, and what the file storage
    locates of it in the files is the whole piece. A piece that does not exist
    panics. Nothing overflows for torrents of up to two exbibytes. *)
Theorem pieces_tile_the_files i n :
  wf_v1 i n ->
  TotalLength i = Val (sum (lengths i)) /\ NumPieces i = Val n /\
  (forall k, 0 <= k < n -> exists len idx,
     Piece_Length i k = Val len /\ 0 < len <= PieceLength i /\
     Offset i k + len = Z.min (sum (lengths i)) (Offset i (k + 1)) /\
     FileSegmentsIndex i = Val idx /\
     sum (map (fun x => segments.Length (snd x)) (LocateIter idx (mkExtent (Offset i k) len))) = len) /\
  (forall k, k < 0 \/ n <= k -> exists m, Piece_Length i k = Panicked m).
Proof.
  intros Hw. pose proof Hw as [Hv Hl Hs Hp Hh Hc]. split_and!; [by eapply v1_total| | |].
  - unfold NumPieces. by rewrite Hv, Hh.
  - intros k Hk. pose proof (v1_piece i n k Hw Hk) as Hlen.
    assert (0 <= k * PieceLength i <= (n - 1) * PieceLength i) by (split; [nia|apply Z.mul_le_mono_nonneg_r; lia]).
    assert ((k + 1) * PieceLength i = k * PieceLength i + PieceLength i) as Hnext by lia.
    assert (Offset i k = k * PieceLength i) as Hoff by (unfold Offset, mul64, max_size in *; by rewrite i64_id by lia).
    assert (Offset i (k + 1) = k * PieceLength i + PieceLength i) as Hoff'
      by (unfold Offset, mul64, max_size in *; rewrite Hnext, i64_id by lia; lia).
    eexists _, _. split; [exact Hlen|]. split; [lia|]. split; [rewrite Hoff, Hoff'; lia|].
    split; [by apply (v1_index i n)|]. rewrite Hoff.
    rewrite LocateIter_overlaps by (done || (unfold sized; cbn [Start segments.Length]; lia)).
    rewrite located_sum by (done || (cbn [segments.Length]; lia)). cbn [Start segments.Length]. lia.
  - intros k Hk. unfold Piece_Length, V1Length, NumPieces. rewrite Hv, Hh. pose proof (sum_nonneg _ Hl).
    assert (0 <= n) as Hn0 by lia. assert (n <= max_size) as Hn by (unfold max_size in *; nia).
    unfold max_size in *. unfold sub64 at 1 2 3. rewrite (i64_id (n - 1)) by lia.
    assert ((0 <=? k) && (k <? n - 1) = false) as -> by (destruct Hk; [rewrite (proj2 (Z.leb_gt 0 k)) by lia; done|
      rewrite (proj2 (Z.ltb_ge k _)) by lia; apply andb_false_r]).
    assert ((0 <=? n - 1) && (k =? n - 1) = false) as ->; [|by eexists].
    apply andb_false_iff. destruct (Z.eq_dec n 0) as [->|]; [by left|right; apply Z.eqb_neq; lia].
Qed.

(** [BeginPieceIndex] and [EndPieceIndex] delimit the pieces a file has bytes in. *)
Lemma file_pieces fi pl k :
  0 < pl <= max_size -> 0 <= TorrentOffset fi -> 0 <= FLength fi -> TorrentOffset fi + FLength fi <= max_size ->
  BeginPieceIndex fi pl <= k < EndPieceIndex fi pl <->
  TorrentOffset fi < (k + 1) * pl /\ k * pl < TorrentOffset fi + FLength fi.
Proof.
  intros Hpl Ho Hl Hs. unfold BeginPieceIndex, EndPieceIndex. rewrite (proj2 (Z.eqb_neq pl 0)) by lia.
  unfold quot64, sub64, add64, max_size in *.
  rewrite (i64_id (TorrentOffset fi + FLength fi)), (i64_id (_ + pl)), (i64_id (_ - 1)) by lia.
  rewrite !Z.quot_div_nonneg by lia. set (a := TorrentOffset fi) in *. set (b := a + FLength fi) in *.
  assert (0 <= a / pl <= a) by (split; [apply Z.div_pos; lia|apply Z.div_le_upper_bound; nia]).
  assert (0 <= (b + pl - 1) / pl <= b + pl - 1) by (split; [apply Z.div_pos; lia|apply Z.div_le_upper_bound; nia]).
  rewrite !i64_id by lia.
  assert (forall x y, x / pl <= y <-> x < (y + 1) * pl) as Hdiv.
  { intros x y. pose proof (Z.div_mod x pl ltac:(lia)). pose proof (Z.mod_pos_bound x pl ltac:(lia)).
    split; intros Hxy; [nia|]. apply Z.lt_succ_r, Z.div_lt_upper_bound; lia. }
  rewrite Hdiv. assert (k < (b + pl - 1) / pl <-> ~ (b + pl - 1) / pl <= k) as -> by lia. rewrite Hdiv. lia.
Qed.

(** Two files and an empty one, in pieces of four bytes. *)
Definition sample_info : Info :=
  mkInfo 4 "aaaaaaaaaaaaaaaaaaaabbbbbbbbbbbbbbbbbbbb" "debian" "" 0
    (Some [mkFileInfo 3 ["a"] [] None 0; mkFileInfo 0 ["b"] [] None 0; mkFileInfo 4 ["c"; "d"] [] None 0]) 0
    (mkFileTree 0 "" []).

Lemma wf_sample_info : wf_v1 sample_info 2.
Proof.
  constructor.
  - reflexivity.
  - repeat (constructor; [cbn; lia|]). constructor.
  - vm_compute. discriminate.
  - unfold max_size. cbn. lia.
  - reflexivity.
  - cbn. lia.
Qed.

Lemma pieces_tile_the_files_witness :
  Piece_Length sample_info 1 = Val 3 /\
  exists len idx,
     Piece_Length sample_info 1 = Val len /\ 0 < len <= 4 /\
     Offset sample_info 1 + len = Z.min 7 (Offset sample_info (1 + 1)) /\
     FileSegmentsIndex sample_info = Val idx /\
     sum (map (fun x => segments.Length (snd x)) (LocateIter idx (mkExtent (Offset sample_info 1) len))) = len.
Proof.
  split; [vm_compute; reflexivity|].
  destruct (pieces_tile_the_files sample_info 2 wf_sample_info) as (_ & _ & H & _). apply (H 1). lia.
Defined.

Lemma ChoosePieceLength_good_witness :
  exists k, 0 <= k /\ ChoosePieceLength (2 ^ 40 + 7) = Some (minimumPieceLength * 2 ^ k) /\
    (2 ^ 40 + 7) / (minimumPieceLength * 2 ^ k) < targetPieceCountMax /\
    (k = 0 \/ targetPieceCountMin <= (2 ^ 40 + 7) / (minimumPieceLength * 2 ^ k)).
Proof. apply (ChoosePieceLength_good (2 ^ 40 + 7)). lia. Defined.
