(* ===== verification/InfoV2.v ===== *)
(** * The file tree of a v2 torrent, the theorems

    The files of a v2 torrent start at piece boundaries: every piece lies in
    one file, and the loop of [Piece.Length] finds it. *)

From S2P Require Import Prelude Prog Segments Info InfoTheorems.
From Stdlib Require Import ZArith Lia Ascii String.
From stdpp Require Import base gmap strings list pretty.
Import segments info.

Local Open Scope Z_scope.

(** The files of a tree in order, without what is computed from them. *)
Fixpoint leaves (ft : FileTree) : list FileTree :=
  if Tree_IsDir ft then
    (fix go (l : list (string * FileTree)) : list FileTree :=
       match l with
       | [] => []
       | (key, sub) :: l' => (if decide (key = FileTreePropertiesKey) then [] else leaves sub) ++ go l'
       end) (Dir ft)
  else [ft].

Definition entries (f : FileTree -> list FileTree) (l : list (string * FileTree)) : list FileTree :=
  flat_map (fun e => if decide (fst e = FileTreePropertiesKey) then [] else f (snd e)) l.

Lemma leaves_unfold ft : leaves ft = if Tree_IsDir ft then entries leaves (Dir ft) else [ft].
Proof.
  destruct ft as [l r d]. cbn [leaves Dir]. destruct (Tree_IsDir _); [|done].
  unfold entries. induction d as [|[k sub] d IH]; [done|]. cbn [flat_map fst snd]. by rewrite IH.
Qed.

Lemma nodes_unfold ft : nodes ft = ft :: entries nodes (Dir ft).
Proof.
  destruct ft as [l r d]. cbn [nodes Dir]. f_equal.
  unfold entries. induction d as [|[k sub] d IH]; [done|]. cbn [flat_map fst snd]. by rewrite IH.
Qed.

(** What is not a directory has no entries but its properties. *)
Lemma leaf_entries f ft : Tree_IsDir ft = false -> entries f (Dir ft) = [].
Proof.
  unfold Tree_IsDir, NumEntries. destruct ft as [l r d]. cbn [Dir]. rewrite negb_false_iff, Nat.eqb_eq.
  destruct d as [|[k sub] [|e d]]; [done| |simpl; destruct (_ || _); simpl; lia].
  unfold entries. cbn. case_bool_decide as Hk; [|done]. intros _. by rewrite decide_True.
Qed.

Section pieces.
Context (pl : Z).
Hypothesis Hpl : 0 < pl <= max_size.

(** The space of a file in whole pieces. *)
Definition space (l : Z) : Z := (l + pl - 1) / pl * pl.

Definition spaces (ls : list Z) : Z := sum (map space ls).

Lemma space_spec l : 0 <= l -> exists q, 0 <= q /\ space l = q * pl /\ l <= q * pl < l + pl.
Proof.
  intros Hl. unfold space. exists ((l + pl - 1) / pl). split_and!; [apply Z.div_pos; lia|done| |];
    pose proof (Z.div_mod (l + pl - 1) pl ltac:(lia)); pose proof (Z.mod_pos_bound (l + pl - 1) pl ltac:(lia)); lia.
Qed.

Lemma spaces_nonneg ls : Forall (Z.le 0) ls -> 0 <= spaces ls.
Proof.
  intros H. apply sum_nonneg, Forall_map. eapply Forall_impl; [exact H|]. intros l Hl. cbn.
  destruct (space_spec l Hl) as (q & ? & -> & ?). lia.
Qed.

Lemma round_up_space l : 0 <= l <= max_size -> round_up l pl * pl = space l /\ round_up l pl = (l + pl - 1) / pl /\ 0 <= round_up l pl.
Proof.
  intros Hl. unfold round_up, quot64, sub64, add64, space, max_size in *.
  rewrite (i64_id (l + pl)), (i64_id (l + pl - 1)) by lia. rewrite Z.quot_div_nonneg by lia.
  assert (0 <= (l + pl - 1) / pl <= l + pl - 1) as Hq.
  { split; [apply Z.div_pos; lia|]. apply Z.div_le_upper_bound; nia. }
  rewrite i64_id by lia. split_and!; [done|done|lia].
Qed.

(** Where files of these lengths lie. *)
Fixpoint layout (off : Z) (ls : list Z) : list (Z * Z) :=
  match ls with
  | [] => []
  | l :: ls' => (off, l) :: layout (off + space l) ls'
  end.

Lemma layout_app off l1 l2 : layout off (l1 ++ l2) = layout off l1 ++ layout (off + spaces l1) l2.
Proof.
  revert off. induction l1 as [|l l1 IH]; intros off; cbn [app layout].
  - unfold spaces. cbn. by rewrite Z.add_0_r.
  - rewrite IH. cbn [app]. unfold spaces. cbn [map sum foldr]. fold (sum (map space l1)). by rewrite Z.add_assoc.
Qed.

Lemma spaces_app l1 l2 : spaces (l1 ++ l2) = spaces l1 + spaces l2.
Proof. unfold spaces. by rewrite map_app, sum_app. Qed.

(** A file with a length and a root of the right size, or none. *)
Definition leaf_ok (ft : FileTree) : Prop :=
  0 <= File_Length ft /\ exists root, PiecesRootAsByteArray (File_PiecesRoot ft) = Val root.

Definition place (fi : FileInfo) : Z * Z := (TorrentOffset fi, FLength fi).

(** The iteration over a tree yields its files where the layout puts them. *)
Definition yields (ft : FileTree) : Prop :=
  forall path off, Forall leaf_ok (leaves ft) -> 0 <= off -> off + spaces (map File_Length (leaves ft)) <= max_size ->
  exists fs, upvertedFilesInner pl path ft off = (fs, None, off + spaces (map File_Length (leaves ft))) /\
    map place fs = layout off (map File_Length (leaves ft)).

Lemma leaves_lengths l : Forall leaf_ok l -> Forall (Z.le 0) (map File_Length l).
Proof. intros H. apply Forall_map. eapply Forall_impl; [exact H|]. by intros ft [? _]. Qed.

Lemma tree_yields ft : yields ft.
Proof.
  induction ft as [len root d IH] using FileTree_induction. intros path off. rewrite leaves_unfold.
  destruct (Tree_IsDir (mkFileTree len root d)) eqn:Ed.
  2:{ intros Hok Hoff Hsize. apply Forall_cons in Hok as [[Hl [r Hr]] _].
      cbn [upvertedFilesInner]. rewrite Ed. cbn [File_PiecesRoot File_Length map] in *. rewrite Hr.
      rewrite (proj2 (Z.eqb_neq pl 0)) by lia.
      unfold spaces in *. cbn [map sum foldr] in *. destruct (space_spec len Hl) as (q & ? & Hq & ?).
      destruct (round_up_space len) as (Hru & _); [lia|]. unfold mul64, add64. rewrite Hru.
      unfold max_size in *. rewrite (i64_id (space len)), i64_id by lia.
      eexists. split; [by rewrite Z.add_0_r|done]. }
  cbn [upvertedFilesInner]. rewrite Ed. cbn [Dir]. clear Ed.
  revert off. induction IH as [|[k sub] d Hsub Hd IHd]; intros off Hok Hoff Hsize.
  { exists []. split; [|done]. unfold spaces. cbn. by rewrite Z.add_0_r. }
  cbn [entries flat_map fst snd] in *. fold (entries leaves d) in *. case_decide as Hk; [by apply IHd|].
  apply Forall_app in Hok as [Hok1 Hok2]. rewrite map_app, spaces_app in *.
  pose proof (spaces_nonneg _ (leaves_lengths _ Hok1)). pose proof (spaces_nonneg _ (leaves_lengths _ Hok2)).
  destruct (Hsub (path ++ [k]) off Hok1 Hoff) as (fs1 & -> & H1); [cbn in *; lia|].
  destruct (IHd (off + spaces (map File_Length (leaves sub))) Hok2) as (fs2 & E2 & H2); [cbn in *; lia|cbn in *; lia|].
  cbn [snd] in *. rewrite E2. eexists. split; [by rewrite Z.add_assoc|].
  by rewrite map_app, layout_app, H1, H2.
Qed.

(** The end of the file a piece lies in. *)
Lemma last_file_end_spec i off e fs ls q :
  Forall (Z.le 0) ls -> map place fs = layout off ls -> off = q * pl -> 0 <= q <= i ->
  off + spaces ls <= max_size -> i * pl < off + spaces ls ->
  exists fi, fi ∈ fs /\ TorrentOffset fi <= i * pl < TorrentOffset fi + FLength fi /\
    last_file_end pl i off e fs None = Val (TorrentOffset fi + FLength fi).
Proof.
  intros Hls. revert off e fs q. induction Hls as [|l ls Hl Hls IH]; intros off e fs q Hm Hq Hi Hsize Hin.
  { unfold spaces in Hin. cbn in Hin. nia. }
  destruct fs as [|fi fs]; [done|]. cbn [map layout] in Hm. injection Hm as Ho Hf Hm.
  pose proof (spaces_nonneg _ Hls) as Hnn.
  unfold spaces in Hsize, Hin. cbn [map sum foldr] in Hsize, Hin. fold (sum (map space ls)) (spaces ls) in Hsize, Hin.
  destruct (space_spec l Hl) as (p & Hp & Hs & Hb).
  cbn [last_file_end]. rewrite Ho, Z.eqb_refl, Hf. cbn [negb]. rewrite (proj2 (Z.eqb_neq pl 0)) by lia.
  unfold quot64, add64, max_size in *. assert (Z.quot off pl = q) as -> by (rewrite Hq; apply Z.quot_mul; lia).
  assert (q <= q * pl) by nia. rewrite (i64_id q), (i64_id (off + l)) by nia.
  rewrite (proj2 (Z.ltb_ge i q)) by lia.
  assert (mul64 (round_up (off + l) pl) pl = off + space l) as ->.
  { destruct (round_up_space (off + l)) as (Hru & Hdiv & _); [unfold max_size; lia|]. unfold mul64. rewrite Hru.
    unfold space in *. replace (off + l + pl - 1) with (l + pl - 1 + q * pl) by lia.
    rewrite Z.div_add, Z.mul_add_distr_r, Hs, <-Hq by lia.
    rewrite i64_id by lia. lia. }
  destruct (Z.lt_ge_cases (i * pl) (off + space l)) as [Hhere|Hlater].
  - assert (i <= q + p - 1) as Hip.
    { destruct (Z.le_gt_cases i (q + p - 1)) as [|Hgt]; [done|]. assert ((q + p) * pl <= i * pl); [|lia].
      apply Z.mul_le_mono_nonneg_r; lia. }
    assert (q * pl <= i * pl <= (q + p - 1) * pl) by (split; apply Z.mul_le_mono_nonneg_r; lia).
    exists fi. rewrite Ho, Hf. split; [by left|]. split; [lia|].
    destruct fs as [|fi' fs]; [done|]. destruct ls as [|l' ls]; [done|]. cbn [map layout] in Hm. injection Hm as Ho' Hf' Hm.
    cbn [last_file_end]. rewrite Ho', Z.eqb_refl. cbn [negb]. rewrite (proj2 (Z.eqb_neq pl 0)) by lia.
    unfold quot64. replace (off + space l) with ((q + p) * pl) by lia. rewrite Z.quot_mul by lia.
    rewrite i64_id by nia. rewrite (proj2 (Z.ltb_lt i (q + p))) by nia. done.
  - destruct (IH (off + space l) (off + l) fs (q + p) Hm) as (f & Hf1 & Hf2 & ->); [lia|nia|lia|lia|].
    exists f. split; [by right|]. done.
Qed.

Lemma Forall_entries (P : FileTree -> Prop) f d :
  Forall P (entries f d) -> Forall (fun e => fst e <> FileTreePropertiesKey -> Forall P (f (snd e))) d.
Proof.
  induction d as [|[k sub] d IH]; [constructor|]. cbn [entries flat_map fst snd]. intros [H1 H2]%Forall_app.
  constructor; [|by apply IH]. cbn. intros Hk. by rewrite decide_False in H1.
Qed.

(** A directory has no length of its own. *)
Definition dir_ok (ft : FileTree) : Prop := Tree_IsDir ft = true -> File_Length ft = 0.

(** What the nodes of a tree count is what its files count. *)
Lemma nodes_sum (f : FileTree -> Z) ft :
  (forall t, File_Length t = 0 -> f t = 0) -> Forall dir_ok (nodes ft) ->
  sum (map f (nodes ft)) = sum (map f (leaves ft)).
Proof.
  intros Hf. induction ft as [len root d IH] using FileTree_induction. rewrite leaves_unfold, nodes_unfold.
  intros [Hft Hd]%Forall_cons. destruct (Tree_IsDir (mkFileTree len root d)) eqn:Ed.
  2:{ by rewrite leaf_entries. }
  cbn [map sum foldr]. rewrite (Hf _ (Hft Ed)), Z.add_0_l. cbn [Dir] in *. clear Hft Ed.
  apply Forall_entries in Hd. change (sum (map f (entries nodes d)) = sum (map f (entries leaves d))).
  induction Hd as [|[k sub] d Hsub Hd IHd]; [done|]. apply Forall_cons in IH as [IHsub IH].
  cbn [entries flat_map fst snd] in *. rewrite !map_app, !sum_app. unfold entries in IHd.
  rewrite (IHd IH). case_decide; [done|]. by rewrite IHsub by auto.
Qed.

Lemma nodes_nonneg (f : FileTree -> Z) ft :
  (forall t, File_Length t = 0 -> f t = 0) -> Forall dir_ok (nodes ft) ->
  Forall (fun t => 0 <= f t) (leaves ft) -> Forall (fun t => 0 <= f t) (nodes ft).
Proof.
  intros Hf. induction ft as [len root d IH] using FileTree_induction. rewrite leaves_unfold, nodes_unfold.
  intros [Hft Hd]%Forall_cons. destruct (Tree_IsDir (mkFileTree len root d)) eqn:Ed.
  2:{ by rewrite leaf_entries. }
  intros Hl. constructor; [by rewrite (Hf _ (Hft Ed))|]. cbn [Dir] in *. clear Hft Ed.
  induction IH as [|[k sub] d Hsub _ IHd]; [constructor|]. cbn [entries flat_map fst snd] in *.
  apply Forall_app in Hd as [Hd1 Hd2], Hl as [Hl1 Hl2]. apply Forall_app. split; [|by apply IHd].
  case_decide; [constructor|by apply Hsub].
Qed.

Lemma spaces_round ls : Forall (Z.le 0) ls -> spaces ls <= max_size ->
  spaces ls = sum (map (fun l => round_up l pl) ls) * pl /\ Forall (Z.le 0) (map (fun l => round_up l pl) ls).
Proof.
  induction 1 as [|l ls Hl Hls IH]; [done|]. unfold spaces. cbn [map sum foldr]. fold (sum (map space ls)) (spaces ls).
  fold (sum (map (fun l => round_up l pl) ls)). intros Hsize. pose proof (spaces_nonneg _ Hls).
  destruct (space_spec l Hl) as (q & ? & Hs & ?). destruct (round_up_space l) as (Hru & _ & Hnn); [lia|].
  destruct IH as [IH1 IH2]; [lia|]. split; [rewrite Z.mul_add_distr_r; lia|]. by constructor.
Qed.

Lemma layout_snd off ls : map snd (layout off ls) = ls.
Proof. revert off. induction ls as [|l ls IH]; intros off; [done|]. cbn. by rewrite IH. Qed.

Lemma layout_bound off ls fi fs :
  Forall (Z.le 0) ls -> map place fs = layout off ls -> fi ∈ fs ->
  off <= TorrentOffset fi /\ 0 <= FLength fi /\ TorrentOffset fi + FLength fi <= off + spaces ls.
Proof.
  intros Hls. revert off fs. induction Hls as [|l ls Hl Hls IH]; intros off fs Hm Hin; destruct fs as [|f fs]; try done.
  - by apply elem_of_nil in Hin.
  - cbn [map layout] in Hm. injection Hm as Ho Hf Hm. destruct (space_spec l Hl) as (p & Hp & Hs & Hb).
    pose proof (spaces_nonneg _ Hls). unfold spaces. cbn [map sum foldr]. fold (sum (map space ls)) (spaces ls).
    apply elem_of_cons in Hin as [->|Hin]; [lia|]. destruct (IH _ _ Hm Hin) as (? & ? & ?). lia.
Qed.

Lemma layout_aligned q ls fi fs :
  Forall (Z.le 0) ls -> 0 <= q -> map place fs = layout (q * pl) ls -> fi ∈ fs ->
  exists p, 0 <= p /\ TorrentOffset fi = p * pl.
Proof.
  intros Hls. revert q fs. induction Hls as [|l ls Hl Hls IH]; intros q fs Hq Hm Hin; destruct fs as [|f fs]; try done.
  - by apply elem_of_nil in Hin.
  - cbn [map layout] in Hm. injection Hm as Ho Hf Hm. destruct (space_spec l Hl) as (p & Hp & Hs & _).
    apply elem_of_cons in Hin as [->|Hin]; [by exists q|]. apply (IH (q + p) fs); [lia| |done].
    rewrite Hm. f_equal. lia.
Qed.
End pieces.

Record wf_v2 (i : Info) : Prop := {
  wf2_version : HasV2 i = true;
  wf2_piece : 0 < PieceLength i <= max_size;
  wf2_leaves : Forall leaf_ok (leaves (Tree i));
  wf2_dirs : Forall dir_ok (nodes (Tree i));
  wf2_size : spaces (PieceLength i) (map File_Length (leaves (Tree i))) <= max_size;
}.

(** In a v2 torrent every file starts at a piece boundary and every piece
    lies in one file: [NumPieces] counts the pieces of all files, the loop of
    [Piece.Length] finds the file of a piece, empty files notwithstanding, and
    the piece is as long as the piece length or ends where its file ends. *)
Theorem pieces_follow_the_file_tree i :
  wf_v2 i ->
  exists fs n, UpvertedFiles i = Val fs /\ NumPieces i = Val n /\
  map FLength fs = map File_Length (leaves (Tree i)) /\
  (forall fi, fi ∈ fs -> exists p, 0 <= p /\ TorrentOffset fi = p * PieceLength i) /\
  (forall k, 0 <= k < n -> exists fi len, fi ∈ fs /\ Piece_Length i k = Val len /\ 0 < len <= PieceLength i /\
     TorrentOffset fi <= Offset i k /\ Offset i k + len <= TorrentOffset fi + FLength fi /\
     (len = PieceLength i \/ Offset i k + len = TorrentOffset fi + FLength fi)).
Proof.
  intros [Hv Hp Hl Hd Hs]. pose proof (leaves_lengths _ Hl) as Hnn.
  set (pl := PieceLength i) in *. set (ls := map File_Length (leaves (Tree i))) in *.
  destruct (tree_yields pl Hp (Tree i) [] 0 Hl) as (fs & Hup & Hplace); [lia|fold ls; lia|].
  fold ls in Hup, Hplace. rewrite Z.add_0_l in Hup.
  destruct (spaces_round pl Hp ls Hnn Hs) as [Hn Hru]. set (n := sum (map (fun l => round_up l pl) ls)) in *.
  assert (0 <= n <= max_size) as Hnb by (pose proof (sum_nonneg _ Hru) as Hn0; fold n in Hn0; nia).
  assert (Tree_upvertedFiles (Tree i) pl = (fs, None)) as Hit by (unfold Tree_upvertedFiles; by rewrite Hup).
  exists fs, n. split_and!.
  - unfold UpvertedFiles, UpvertedFilesIter. rewrite Hv. fold pl. by rewrite Hit.
  - unfold NumPieces. rewrite Hv. fold pl. rewrite (proj2 (Z.eqb_neq pl 0)) by lia. f_equal.
    rewrite (fold_left_map (fun ft => round_up (File_Length ft) pl) (fun num x => add64 num x)).
    assert (sum (map (fun ft => round_up (File_Length ft) pl) (nodes (Tree i))) = n) as Hsum.
    { rewrite nodes_sum; [|intros t ->; by destruct (round_up_space pl Hp 0) as (_ & -> & _); [unfold max_size; lia|apply Z.div_small; lia]|done].
      unfold n, ls. by rewrite map_map. }
    rewrite sum_fold; [f_equal; lia| |lia|lia]. apply Forall_map, nodes_nonneg; [|done|].
    + intros t ->. destruct (round_up_space pl Hp 0) as (_ & -> & _); [unfold max_size; lia|apply Z.div_small; lia].
    + unfold ls in Hru. rewrite map_map in Hru. exact (proj1 (Forall_map _ _ _) Hru).
  - change (map FLength fs) with (map (fun fi => snd (place fi)) fs). by rewrite <-map_map, Hplace, layout_snd.
  - intros fi Hin. by apply (layout_aligned pl Hp 0 ls fi fs).
  - intros k Hk. assert (0 <= k * pl <= (n - 1) * pl) by (split; [nia|apply Z.mul_le_mono_nonneg_r; lia]).
    destruct (last_file_end_spec pl Hp k 0 0 fs ls 0 Hnn Hplace) as (fi & Hin & Hpos & Hend); [lia..|].
    assert (Offset i k = k * pl) as Hoff by (unfold Offset, mul64, max_size in *; fold pl; by rewrite i64_id by lia).
    assert (0 <= TorrentOffset fi + FLength fi - k * pl <= max_size) as Hb.
    { destruct (layout_bound pl Hp 0 ls fi fs Hnn Hplace Hin) as (? & ? & ?). lia. }
    exists fi. eexists. split; [done|]. unfold Piece_Length. rewrite Hv. fold pl. rewrite Hit. cbn [fst snd].
    rewrite Hend. unfold mul64, sub64, max_size in *. rewrite (i64_id (k * pl)), i64_id by lia.
    rewrite (proj2 (Z.leb_gt (Z.min _ _) 0)) by lia. split; [done|]. rewrite Hoff. lia.
Qed.

(** A directory with an empty file between two others, in pieces of four bytes. *)
Definition sample_tree : FileTree :=
  mkFileTree 0 "" [("a", mkFileTree 5 "" []);
    ("d", mkFileTree 0 "" [("e", mkFileTree 0 "" []); ("f", mkFileTree 4 "0123456789abcdef0123456789abcdef" [])])].

Definition sample_v2 : Info := mkInfo 4 "" "debian" "" 0 None 2 sample_tree.

Lemma wf_sample_v2 : wf_v2 sample_v2.
Proof.
  constructor.
  - reflexivity.
  - unfold max_size. cbn. lia.
  - repeat (constructor; [split; [cbn; lia|eexists; reflexivity]|]). constructor.
  - repeat (constructor; [intros ?; try reflexivity; discriminate|]). constructor.
  - vm_compute. discriminate.
Qed.

Lemma pieces_follow_the_file_tree_witness :
  NumPieces sample_v2 = Val 3 /\ Piece_Length sample_v2 1 = Val 1 /\
  exists fs n, UpvertedFiles sample_v2 = Val fs /\ NumPieces sample_v2 = Val n /\
  map FLength fs = [5; 0; 4] /\
  (forall fi, fi ∈ fs -> exists p, 0 <= p /\ TorrentOffset fi = p * 4).
Proof.
  split; [vm_compute; reflexivity|]. split; [vm_compute; reflexivity|].
  destruct (pieces_follow_the_file_tree sample_v2 wf_sample_v2) as (fs & n & H1 & H2 & H3 & H4 & _).
  exists fs, n. split; [exact H1|]. split; [exact H2|]. split; [exact H3|exact H4].
Defined.
