(* ===== verification/Progress.v ===== *)
(** * Chunks, requests and progress

    How far a torrent is (src/licenses/github.com/anacrolix/torrent/torrent.go,
    piece.go, file.go, misc.go, math.go, roaring.go): pieces are downloaded in
    chunks, a request asks for one and has an index in the torrent; the client
    keeps which pieces are complete and which chunks of the others it has
    ("dirty"). Chunks, requests and their indices are [uint32], offsets [int64].
    The sets are bitmaps of a library: what the code asks of one beyond adding,
    removing and looking up is [Bitmaps]. Torrents whose pieces span files, that
    is v1; the length of a chunk is a positive constant. *)

From S2P Require Import Prelude Prog Segments Info.
From Stdlib Require Import ZArith Lia String Sorted.
From stdpp Require Import base gmap strings list sets.

Local Open Scope Z_scope.

(** The bitmaps of numbers of roaring: how many members are at most a number, a
    range turned over, and the order in which members are visited. *)
Class Bitmaps : Type := {
  Rank : gset Z -> Z -> Z;
  Flip : gset Z -> Z -> Z -> gset Z;
  Iterate : gset Z -> list Z;
}.

Class BitmapLaws `{Bitmaps} : Prop := {
  Rank_counts bm x : Rank bm x = Z.of_nat (size (filter (fun y => y <= x) bm));
  Flip_turns bm first last_ x : x ∈ Flip bm first last_ <-> (if decide (first <= x < last_) then x ∉ bm else x ∈ bm);
  Iterate_visits bm : Iterate bm ≡ₚ elements bm;
  Iterate_ascends bm : StronglySorted Z.le (Iterate bm);
}.

Module progress.

Definition res_bind {A B} (r : res A) (f : A -> res B) : res B :=
  match r with Val a => f a | Panicked m => Panicked m end.

Definition u32 (n : Z) : Z := n mod 2 ^ 32.

Definition intCeilDiv (a b : Z) : Z := u32 (a + b - 1) / b.

Record ChunkSpec : Type := mkChunkSpec { Begin : Z; Length : Z }.
Record Request : Type := mkRequest { Index : Z; Chunk : ChunkSpec }.

(** What the code knows of a torrent with its info. *)
Record Torrent : Type := mkTorrent {
  length : Z;
  PieceLength : Z;
  chunkSize : Z;
  numPieces : Z;
  completedPieces : gset Z;
  dirtyChunks : gset Z;
}.

Section torrent.
Context `{Bitmaps} (t : Torrent).

(** [Torrent.piece]: the pieces are a slice. *)
Definition piece (i : Z) : res Z :=
  if (0 <=? i) && (i <? numPieces t) then Val i else Panicked "runtime error: index out of range".

(** ** Pieces and chunks *)

Definition pieceLength (piece : Z) : Z :=
  if PieceLength t =? 0 then 0
  else if piece =? numPieces t - 1 then
    let ret := u32 (Z.rem (length t) (PieceLength t)) in
    if ret =? 0 then u32 (PieceLength t) else ret
  else u32 (PieceLength t).

Definition pieceNumChunks (piece : Z) : Z := intCeilDiv (pieceLength piece) (chunkSize t).

Definition chunksPerRegularPiece : Z := intCeilDiv (u32 (PieceLength t)) (chunkSize t).

Definition chunkIndexSpec (index pieceLength chunkSize : Z) : res ChunkSpec :=
  let begin := u32 (index * chunkSize) in
  if pieceLength <=? begin then Panicked "chunk begins behind its piece"
  else Val (mkChunkSpec begin (Z.min chunkSize (u32 (pieceLength - begin)))).

Definition pieceComplete (piece : Z) : bool := bool_decide (piece ∈ completedPieces t).

(** ** Requests *)

Definition pieceRequestIndexBegin (piece : Z) : Z := u32 (u32 piece * chunksPerRegularPiece).

Definition pieceIndexOfRequestIndex (ri : Z) : Z := ri / chunksPerRegularPiece.

Definition requestIndexToRequest (ri : Z) : res Request :=
  if chunksPerRegularPiece =? 0 then Panicked info.divide_by_zero else
  let index := pieceIndexOfRequestIndex ri in
  match chunkIndexSpec (ri mod chunksPerRegularPiece) (pieceLength index) (chunkSize t) with
  | Val c => Val (mkRequest (u32 index) c)
  | Panicked m => Panicked m
  end.

Definition requestIndexFromRequest (r : Request) : Z :=
  u32 (pieceRequestIndexBegin (Index r) + Begin (Chunk r) / chunkSize t).

Definition torrentOffsetRequest (torrentLength pieceSize chunkSize offset : Z) : option Request :=
  if (offset <? 0) || (torrentLength <=? offset) then None
  else
    let index := u32 (Z.quot offset pieceSize) in
    let begin := u32 (Z.quot (Z.rem offset pieceSize) chunkSize * chunkSize) in
    let len := Z.min (u32 chunkSize) (u32 (pieceSize - begin)) in
    let torrentLeft := info.sub64 (info.sub64 torrentLength (info.mul64 index pieceSize)) begin in
    Some (mkRequest index (mkChunkSpec begin (if torrentLeft <? len then u32 torrentLeft else len))).

Definition torrentRequestOffset (torrentLength pieceSize : Z) (r : Request) : res Z :=
  let off := info.add64 (info.mul64 (Index r) pieceSize) (Begin (Chunk r)) in
  if (off <? 0) || (torrentLength <=? off) then Panicked "invalid Request" else Val off.

Definition requestOffset (r : Request) : res Z := torrentRequestOffset (length t) (PieceLength t) r.

Definition offsetRequest (off : Z) : option Request := torrentOffsetRequest (length t) (PieceLength t) (chunkSize t) off.

Definition requestIndexBegin (ri : Z) : res Z := res_bind (requestIndexToRequest ri) requestOffset.

Definition requestIndexEnd (ri : Z) : res Z :=
  res_bind (requestIndexToRequest ri) (fun r => res_bind (requestOffset r) (fun off => Val (info.add64 off (Length (Chunk r))))).

Definition getRequestIndexContainingOffset (off : Z) : res Z :=
  match offsetRequest off with
  | Some r => Val (requestIndexFromRequest r)
  | None => Panicked "no request at the offset"
  end.

(** ** What is there of a piece *)

Definition roaringBitmapRangeCardinality (bm : gset Z) (start last_ : Z) : Z :=
  let card := Rank bm (u32 (last_ - 1)) in
  if start =? 0 then card else card - Rank bm (u32 (start - 1)).

Definition numDirtyChunks (piece : Z) : Z :=
  u32 (roaringBitmapRangeCardinality (dirtyChunks t) (pieceRequestIndexBegin piece) (pieceRequestIndexBegin (piece + 1))).

Definition chunkIndexDirty (piece chunk : Z) : bool := bool_decide (u32 (pieceRequestIndexBegin piece + chunk) ∈ dirtyChunks t).

Definition allChunksDirty (piece : Z) : bool := numDirtyChunks piece =? pieceNumChunks piece.

Definition numDirtyBytes (piece : Z) : res Z :=
  let numRegularDirtyChunks := numDirtyChunks piece in
  let lastChunkIndex := u32 (pieceNumChunks piece - 1) in
  if chunkIndexDirty piece lastChunkIndex then
    match chunkIndexSpec lastChunkIndex (pieceLength piece) (chunkSize t) with
    | Val c => Val (u32 (Length c + u32 (u32 (numRegularDirtyChunks - 1) * chunkSize t)))
    | Panicked m => Panicked m
    end
  else Val (u32 (numRegularDirtyChunks * chunkSize t)).

Definition piece_bytesLeft (piece : Z) : res Z :=
  if pieceComplete piece then Val 0
  else res_bind (numDirtyBytes piece) (fun n => Val (u32 (pieceLength piece - n))).

Definition pieceNumPendingChunks (i : Z) : res Z :=
  if pieceComplete i then Val 0 else res_bind (piece i) (fun p => Val (u32 (pieceNumChunks i - numDirtyChunks p))).

(** ** What is there of the torrent *)

(** A sum, in which a panic ends the loop. Where it is an [int64], it is made one
    at the end, which comes to the same. *)
Fixpoint sum_res (f : Z -> res Z) (l : list Z) : res Z :=
  match l with
  | [] => Val 0
  | x :: l' => res_bind (f x) (fun n => res_bind (sum_res f l') (fun m => Val (n + m)))
  end.

Definition bytesLeft : res Z :=
  res_bind (sum_res (fun x => res_bind (piece x) (fun p => res_bind (numDirtyBytes p) (fun n => Val (u32 (pieceLength p - n)))))
              (Iterate (Flip (completedPieces t) 0 (numPieces t))))
           (fun n => Val (i64 n)).

Definition bytesCompleted : res Z := res_bind bytesLeft (fun n => Val (info.sub64 (length t) n)).

Definition haveAllPieces : bool := Z.of_nat (size (completedPieces t)) =? numPieces t.

(** ** What is there of a file *)

(** What is missing of a piece that is not complete, in a file that starts at
    [off] and is [len] long. *)
Definition pieceBytesLeft (pieceSize first last_ off len completed i : Z) : Z :=
  if i =? first then
    let beginOffset := Z.rem off pieceSize in
    (pieceSize - beginOffset) - Z.max 0 (completed - beginOffset)
  else if i =? last_ - 1 then
    let endSize := Z.rem (info.add64 off len) pieceSize in
    let endSize := if endSize =? 0 then pieceSize else endSize in
    endSize - Z.min completed endSize
  else pieceSize - completed.

Definition fileBytesLeft (pieceSize first last_ off len : Z) (completedPieces : gset Z) (pieceSizeCompleted : Z -> res Z) : res Z :=
  if len =? 0 then Val 0
  else res_bind (sum_res (fun i => res_bind (pieceSizeCompleted i) (fun c => Val (pieceBytesLeft pieceSize first last_ off len c i)))
                   (Iterate (list_to_set (seqZ first (last_ - first)) ∖ completedPieces)))
         (fun left => Val (Z.min (i64 left) len)).

Definition file_bytesLeft (fi : info.FileInfo) : res Z :=
  fileBytesLeft (PieceLength t) (info.BeginPieceIndex fi (PieceLength t)) (info.EndPieceIndex fi (PieceLength t))
    (info.TorrentOffset fi) (info.FLength fi) (completedPieces t) (fun i => res_bind (piece i) numDirtyBytes).

Definition file_BytesCompleted (fi : info.FileInfo) : res Z :=
  res_bind (file_bytesLeft fi) (fun n => Val (info.sub64 (info.FLength fi) n)).

End torrent.

(** ** Changes *)

Definition with_dirty (t : Torrent) (d : gset Z) : Torrent :=
  mkTorrent (length t) (PieceLength t) (chunkSize t) (numPieces t) (completedPieces t) d.

Definition with_completed (t : Torrent) (c : gset Z) : Torrent :=
  mkTorrent (length t) (PieceLength t) (chunkSize t) (numPieces t) c (dirtyChunks t).

Definition unpendChunkIndex (t : Torrent) (piece i : Z) : Torrent :=
  with_dirty t ({[ u32 (pieceRequestIndexBegin t piece + i) ]} ∪ dirtyChunks t).

Definition pendChunkIndex (t : Torrent) (piece i : Z) : Torrent :=
  with_dirty t (dirtyChunks t ∖ {[ u32 (pieceRequestIndexBegin t piece + i) ]}).

Definition pendAllChunkSpecs (t : Torrent) (piece : Z) : Torrent :=
  with_dirty t (filter (fun r => ~ (pieceRequestIndexBegin t piece <= r < pieceRequestIndexBegin t (piece + 1))) (dirtyChunks t)).

(** What becomes of the bitmap when the storage says that a piece is complete,
    that it is not, or nothing. *)
Definition cache_completion (t : Torrent) (i : Z) (uncached : option bool) : Torrent :=
  match uncached with
  | Some true => with_completed t ({[ u32 i ]} ∪ completedPieces t)
  | _ => with_completed t (completedPieces t ∖ {[ u32 i ]})
  end.

End progress.
