(* ===== verification/ProgressFacts.v ===== *)
(** * Chunks, requests and progress, the lemmas

    Sums over ranges of numbers, which cut where pieces and chunks end; the
    lengths of pieces and chunks without the arithmetic of [uint32]; and what a
    piece has as a sum over its bytes. *)

From S2P Require Import Prelude Prog Segments Info Progress.
From Stdlib Require Import ZArith Lia String Sorted.
From stdpp Require Import base gmap strings list sets sorting.
Import progress.

Local Open Scope Z_scope.

(** ** Sums *)

Fixpoint sum_from (f : Z -> Z) (a : Z) (n : nat) : Z :=
  match n with O => 0 | S n' => f a + sum_from f (a + 1) n' end.

(** The sum of [f] over the numbers from [a] up to, but without, [b]. *)
Definition sum_range (f : Z -> Z) (a b : Z) : Z := sum_from f a (Z.to_nat (b - a)).

Lemma sum_range_empty f a b : b <= a -> sum_range f a b = 0.
Proof. intros Hab. unfold sum_range. by replace (Z.to_nat (b - a)) with 0%nat by lia. Qed.

Lemma sum_range_first f a b : a < b -> sum_range f a b = f a + sum_range f (a + 1) b.
Proof.
  intros Hab. unfold sum_range. replace (Z.to_nat (b - a)) with (S (Z.to_nat (b - (a + 1)))) by lia. done.
Qed.

Lemma range_induction (P : Z -> Prop) b : (forall a, b <= a -> P a) -> (forall a, a < b -> P (a + 1) -> P a) -> forall a, P a.
Proof.
  intros H0 H1 a. remember (Z.to_nat (b - a)) as n eqn:Hn. revert a Hn. induction n as [|n IH]; intros a Hn; [apply H0; lia|].
  apply H1; [lia|]. apply IH. lia.
Qed.

Lemma sum_range_split f a b c : a <= b <= c -> sum_range f a c = sum_range f a b + sum_range f b c.
Proof.
  revert a. apply (range_induction (fun a => a <= b <= c -> _) b); intros a Ha; [intros Hb; replace a with b by lia; by rewrite (sum_range_empty f b b) by lia|].
  intros IH Hb. rewrite (sum_range_first f a c), (sum_range_first f a b), IH by lia. lia.
Qed.

Lemma sum_range_ext f g a b : (forall x, a <= x < b -> f x = g x) -> sum_range f a b = sum_range g a b.
Proof.
  revert a. apply (range_induction (fun a => (forall x, a <= x < b -> f x = g x) -> _) b); intros a Ha; [by rewrite !sum_range_empty|].
  intros IH Hf. rewrite !(sum_range_first _ a b) by done. rewrite (Hf a) by lia. f_equal. apply IH. intros; apply Hf; lia.
Qed.

Lemma sum_range_const f k a b : a <= b -> (forall x, a <= x < b -> f x = k) -> sum_range f a b = k * (b - a).
Proof.
  revert a. apply (range_induction (fun a => a <= b -> (forall x, a <= x < b -> f x = k) -> _) b); intros a Ha.
  - intros ? _. rewrite sum_range_empty by lia. replace (b - a) with 0 by lia. lia.
  - intros IH _ Hf. rewrite sum_range_first by done. rewrite (Hf a) by lia. rewrite IH by (lia || (intros; apply Hf; lia)). lia.
Qed.

Lemma sum_range_le f g a b : (forall x, a <= x < b -> f x <= g x) -> sum_range f a b <= sum_range g a b.
Proof.
  revert a. apply (range_induction (fun a => (forall x, a <= x < b -> f x <= g x) -> _) b); intros a Ha; [by rewrite !sum_range_empty|].
  intros IH Hf. rewrite !(sum_range_first _ a b) by done. pose proof (Hf a ltac:(lia)). pose proof (IH ltac:(intros; apply Hf; lia)). lia.
Qed.

Lemma sum_range_add f g a b : sum_range (fun x => f x + g x) a b = sum_range f a b + sum_range g a b.
Proof.
  revert a. apply (range_induction (fun a => _) b); intros a Ha; [by rewrite !sum_range_empty|].
  intros IH. rewrite !(sum_range_first _ a b) by done. lia.
Qed.

Lemma sum_range_shift f k a b : sum_range (fun x => f (x + k)) a b = sum_range f (a + k) (b + k).
Proof.
  revert a. apply (range_induction (fun a => _) b); intros a Ha; [by rewrite !sum_range_empty by lia|].
  intros IH. rewrite !(sum_range_first _ a), (sum_range_first f (a + k)), IH by lia. do 2 f_equal; lia.
Qed.

(** A sum over consecutive ranges. *)
Lemma sum_range_cut f e n : 0 <= n -> (forall i, 0 <= i < n -> e i <= e (i + 1)) ->
  sum_range f (e 0) (e n) = sum_range (fun i => sum_range f (e i) (e (i + 1))) 0 n /\ e 0 <= e n.
Proof.
  intros Hn. pattern n. apply Zlt_0_ind; [|done]. clear n Hn. intros n IH Hn He.
  destruct (decide (n = 0)) as [->|Hne]; [by rewrite !sum_range_empty by lia|].
  destruct (IH (n - 1)) as [IH1 IH2]; [lia|intros; apply He; lia|].
  pose proof (He (n - 1) ltac:(lia)) as Hlast. replace (n - 1 + 1) with n in Hlast by lia. split; [|lia].
  rewrite (sum_range_split f (e 0) (e (n - 1)) (e n)), IH1, (sum_range_split _ 0 (n - 1) n) by lia. f_equal.
  rewrite (sum_range_first _ (n - 1) n), (sum_range_empty _ (n - 1 + 1)) by lia. replace (n - 1 + 1) with n by lia. lia.
Qed.

Definition count (p : Z -> bool) (a b : Z) : Z := sum_range (fun x => Z.b2z (p x)) a b.

Lemma count_bounds p a b : a <= b -> 0 <= count p a b <= b - a.
Proof.
  intros Hab. unfold count. split.
  - rewrite <-(sum_range_const (fun _ => 0) 0 a b) at 1 by done. apply sum_range_le. intros x _. by destruct (p x).
  - rewrite <-(Z.mul_1_l (b - a)), <-(sum_range_const (fun _ => 1) 1 a b) by done. apply sum_range_le. intros x _. by destruct (p x).
Qed.

Lemma count_negb p a b : a <= b -> count (fun x => negb (p x)) a b = b - a - count p a b.
Proof.
  intros Hab. unfold count. assert (sum_range (fun x => Z.b2z (negb (p x)) + Z.b2z (p x)) a b = 1 * (b - a)) as H.
  { apply sum_range_const; [done|]. intros x _. by destruct (p x). }
  rewrite (sum_range_add (fun x => Z.b2z (negb (p x)))) in H. lia.
Qed.

(** ** Bitmaps *)

Section bitmaps.
Context `{BitmapLaws}.

Lemma Rank_step bm x : Rank bm x = Rank bm (x - 1) + Z.b2z (bool_decide (x ∈ bm)).
Proof.
  rewrite ?Rank_counts. assert (filter (fun y => y <= x) bm ≡ filter (fun y => y <= x - 1) bm ∪ (if bool_decide (x ∈ bm) then {[ x ]} else ∅)) as Hs.
  { intros y. rewrite elem_of_union, !elem_of_filter. case_bool_decide as Hx; rewrite ?elem_of_singleton, ?elem_of_empty; [|split; [|naive_solver lia]].
    - split; [intros [Hy ?]; destruct (decide (y = x)); [by right|left; split; [lia|done]]|]. intros [[? ?]| ->]; split; (lia || done).
    - intros [Hy ?]. left. split; [|done]. destruct (decide (y = x)); [congruence|lia]. }
  apply leibniz_equiv in Hs. rewrite Hs. rewrite size_union.
  - case_bool_decide; rewrite ?size_singleton, ?size_empty; cbn [Z.b2z]; lia.
  - intros y Hy Hy'. apply elem_of_filter in Hy as [Hy _]. case_bool_decide; [apply elem_of_singleton in Hy'; lia|by apply elem_of_empty in Hy'].
Qed.

Lemma Rank_range bm a b : a <= b -> Rank bm (b - 1) - Rank bm (a - 1) = count (fun x => bool_decide (x ∈ bm)) a b.
Proof.
  revert a. apply (range_induction (fun a => a <= b -> _) b); intros a Ha.
  - intros ?. replace b with a by lia. unfold count. rewrite sum_range_empty by lia. lia.
  - intros IH _. unfold count. rewrite sum_range_first by done. fold (count (fun x => bool_decide (x ∈ bm)) (a + 1) b).
    rewrite <-IH by lia. replace (a + 1 - 1) with a by lia. pose proof (Rank_step bm a). lia.
Qed.

Lemma Rank_negative bm x : (forall y, y ∈ bm -> 0 <= y) -> x < 0 -> Rank bm x = 0.
Proof.
  intros Hb Hx. rewrite ?Rank_counts. assert (filter (fun y => y <= x) bm ≡ ∅) as Hs%leibniz_equiv; [|by rewrite Hs, size_empty].
  intros y. rewrite elem_of_filter, elem_of_empty. split; [|done]. intros [? Hy]. specialize (Hb y Hy). lia.
Qed.

Lemma Iterate_is bm l : StronglySorted Z.le l -> NoDup l -> (forall x, x ∈ l <-> x ∈ bm) -> Iterate bm = l.
Proof.
  intros Hs Hn Hm. apply (StronglySorted_unique Z.le); [apply Iterate_ascends|done|]. rewrite Iterate_visits.
  apply NoDup_Permutation; [apply NoDup_elements|done|]. intros x. by rewrite elem_of_elements, Hm.
Qed.

(** The members of a range, without some. *)
Lemma range_kept keep a n x : x ∈ List.filter keep (seqZ a n) <-> a <= x < a + n /\ keep x = true.
Proof. by rewrite list_elem_of_In, List.filter_In, <-list_elem_of_In, elem_of_seqZ. Qed.

Lemma kept_sorted keep l : StronglySorted Z.lt l -> StronglySorted Z.le (List.filter keep l) /\ NoDup (List.filter keep l).
Proof.
  induction 1 as [|x l _ [IH1 IH2] Hx]; [split; constructor|]. cbn [List.filter]. destruct (keep x); [|done].
  assert (forall y, y ∈ List.filter keep l -> x < y) as Hlt.
  { intros y Hy. rewrite list_elem_of_In, List.filter_In, <-list_elem_of_In in Hy. destruct Hy as [Hy _]. rewrite Forall_forall in Hx. by apply Hx. }
  split; constructor; [done| |intros Hin%Hlt; lia|done]. apply Forall_forall. intros y Hy%Hlt. lia.
Qed.

Lemma range_sorted a n : StronglySorted Z.lt (seqZ a (Z.of_nat n)).
Proof.
  revert a. induction n as [|n IH]; intros a; [constructor|]. rewrite seqZ_cons by lia. replace (Z.pred (Z.of_nat (S n))) with (Z.of_nat n) by lia.
  constructor; [apply IH|]. apply Forall_forall. intros y Hy%elem_of_seqZ. lia.
Qed.

(** What the loop over a bitmap visits, when the bitmap is a range without some. *)
Lemma visited keep a n bm : 0 <= n -> (forall x, x ∈ bm <-> a <= x < a + n /\ keep x = true) -> Iterate bm = List.filter keep (seqZ a n).
Proof.
  intros Hn Hm. assert (StronglySorted Z.lt (seqZ a n)) as [H1 H2]%(kept_sorted keep) by (replace n with (Z.of_nat (Z.to_nat n)) by lia; apply range_sorted).
  apply Iterate_is; [done|done|]. intros x. by rewrite range_kept, Hm.
Qed.
End bitmaps.

(** ** A torrent as the code keeps it *)

Section torrent.
Context `{bits : Bitmaps, laws : !BitmapLaws} (t : Torrent).

(** The chunks that a piece has, and the requests of the torrent. *)
Definition valid_request (r : Z) : Prop :=
  0 <= r /\ r / chunksPerRegularPiece t < numPieces t /\
  r mod chunksPerRegularPiece t < pieceNumChunks t (r / chunksPerRegularPiece t).

(** The pieces cover the data, the numbers of [uint32] are wide enough, and the
    sets have pieces and requests of the torrent in them. *)
Record wf : Prop := {
  wf_chunk : 0 < chunkSize t;
  wf_piece : 0 < PieceLength t;
  wf_width : PieceLength t + chunkSize t <= 2 ^ 32;
  wf_length : 0 <= length t < 2 ^ 62;
  wf_pieces : (numPieces t - 1) * PieceLength t < length t <= numPieces t * PieceLength t;
  wf_requests : numPieces t * chunksPerRegularPiece t < 2 ^ 32;
  wf_completed p : p ∈ completedPieces t -> 0 <= p < numPieces t;
  wf_dirty r : r ∈ dirtyChunks t -> valid_request r;
}.

Context (Hwf : wf).

Local Notation PL := (PieceLength t).
Local Notation cs := (chunkSize t).
Local Notation cpp := (chunksPerRegularPiece t).
Local Notation np := (numPieces t).

Lemma u32_small x : 0 <= x < 2 ^ 32 -> u32 x = x.
Proof. apply Z.mod_small. Qed.

Lemma numPieces_nonneg : 0 <= np.
Proof. destruct Hwf. nia. Qed.

(** Where a piece begins and ends in the torrent. *)
Definition piece_at (p : Z) : Z := Z.min (p * PL) (length t).

Lemma pieceLength_is p : 0 <= p < np -> pieceLength t p = Z.min PL (length t - p * PL) /\ 0 < pieceLength t p <= PL.
Proof.
  intros Hp. destruct Hwf as [Hc HP Hw Hl Hn _ _ _]. enough (pieceLength t p = Z.min PL (length t - p * PL)) as ->
    by (split; [done|]; assert (p * PL <= (np - 1) * PL) by nia; lia).
  unfold pieceLength. destruct (Z.eqb_spec PL 0); [lia|]. rewrite (u32_small PL) by lia.
  destruct (Z.eqb_spec p (np - 1)) as [->|Hlast]; [|assert ((p + 1) * PL <= (np - 1) * PL) by nia; lia].
  set (k := length t - (np - 1) * PL). assert (length t = k + (np - 1) * PL) as Hk by lia. rewrite Z.rem_mod_nonneg by lia.
  destruct (decide (k = PL)) as [He|Hne].
  - assert (length t mod PL = 0) as ->. { rewrite Hk, He. replace (PL + (np - 1) * PL) with (np * PL) by lia. by apply Z_mod_mult. }
    change (u32 0) with 0. cbn. lia.
  - assert (length t mod PL = k) as ->. { rewrite Hk, Z_mod_plus_full. apply Z.mod_small. lia. }
    rewrite u32_small by lia. destruct (Z.eqb_spec k 0); lia.
Qed.

Lemma ceil_bounds a b : 0 < a -> 0 < b -> a + b <= 2 ^ 32 -> let k := intCeilDiv a b in 1 <= k /\ (k - 1) * b < a <= k * b.
Proof.
  intros Ha Hb Hw. unfold intCeilDiv. rewrite u32_small by lia. cbv zeta. pose proof (Z.div_mod (a + b - 1) b ltac:(lia)).
  pose proof (Z.mod_pos_bound (a + b - 1) b Hb). split; nia.
Qed.

Lemma regular_chunks : 1 <= cpp /\ (cpp - 1) * cs < PL <= cpp * cs.
Proof. destruct Hwf. unfold chunksPerRegularPiece. rewrite (u32_small PL) by lia. by apply ceil_bounds. Qed.

Lemma piece_chunks p : 0 <= p < np ->
  1 <= pieceNumChunks t p <= cpp /\ (pieceNumChunks t p - 1) * cs < pieceLength t p <= pieceNumChunks t p * cs.
Proof.
  intros Hp. destruct (pieceLength_is p Hp) as [_ Hl]. destruct Hwf. pose proof regular_chunks.
  pose proof (ceil_bounds (pieceLength t p) cs ltac:(lia) ltac:(lia) ltac:(lia)) as Hk. cbv zeta in Hk. unfold pieceNumChunks. split; [|lia]. split; [lia|nia].
Qed.

(** ** Requests *)

(** The request for a chunk. *)
Definition request_at (p c : Z) : Request :=
  mkRequest p (mkChunkSpec (c * cs) (Z.min cs (pieceLength t p - c * cs))).

Lemma chunk_begins p c : 0 <= p < np -> 0 <= c < pieceNumChunks t p -> 0 <= c * cs < pieceLength t p.
Proof. intros Hp Hc. pose proof (piece_chunks p Hp). destruct Hwf. nia. Qed.

Lemma chunkIndexSpec_is p c : 0 <= p < np -> 0 <= c < pieceNumChunks t p ->
  chunkIndexSpec c (pieceLength t p) cs = Val (Chunk (request_at p c)).
Proof.
  intros Hp Hc. pose proof (chunk_begins p c Hp Hc). destruct (pieceLength_is p Hp) as [_ Hl]. destruct Hwf.
  unfold chunkIndexSpec. rewrite (u32_small (c * cs)) by lia. rewrite u32_small by lia. cbv zeta. by destruct (Z.leb_spec (pieceLength t p) (c * cs)); [lia|].
Qed.

Lemma index_bound p c : 0 <= p < np -> 0 <= c < cpp -> 0 <= p * cpp + c < np * cpp /\ (p * cpp + c) / cpp = p /\ (p * cpp + c) mod cpp = c.
Proof.
  intros Hp Hc. split_and!; [nia|nia|..]; rewrite Z.add_comm.
  - rewrite Z.div_add by lia. rewrite Z.div_small; lia.
  - rewrite Z_mod_plus_full. by apply Z.mod_small.
Qed.

Lemma valid_index p c : 0 <= p < np -> 0 <= c < pieceNumChunks t p -> valid_request (p * cpp + c).
Proof.
  intros Hp Hc. pose proof (piece_chunks p Hp). destruct (index_bound p c Hp ltac:(lia)) as (? & Hd & Hm). unfold valid_request. rewrite Hd, Hm. lia.
Qed.

(** A request of the torrent is for a chunk of a piece. *)
Lemma valid_cases r : valid_request r -> exists p c, 0 <= p < np /\ 0 <= c < pieceNumChunks t p /\ r = p * cpp + c.
Proof.
  intros (H0 & Hp & Hc). pose proof regular_chunks. exists (r / cpp), (r mod cpp). pose proof (Z.div_pos r cpp H0 ltac:(lia)).
  pose proof (Z.mod_pos_bound r cpp ltac:(lia)). pose proof (Z.div_mod r cpp ltac:(lia)). split_and!; lia.
Qed.

Lemma begin_is p : 0 <= p < np -> pieceRequestIndexBegin t p = p * cpp.
Proof.
  intros Hp. pose proof regular_chunks. destruct Hwf. unfold pieceRequestIndexBegin. rewrite (u32_small p) by nia. apply u32_small. nia.
Qed.

Lemma begin_next p : 0 <= p < np -> pieceRequestIndexBegin t (p + 1) = (p + 1) * cpp.
Proof.
  intros Hp. pose proof regular_chunks. destruct Hwf. unfold pieceRequestIndexBegin. rewrite (u32_small (p + 1)) by nia. apply u32_small. nia.
Qed.

Lemma to_request p c : 0 <= p < np -> 0 <= c < pieceNumChunks t p -> requestIndexToRequest t (p * cpp + c) = Val (request_at p c).
Proof.
  intros Hp Hc. pose proof (piece_chunks p Hp). destruct (index_bound p c Hp ltac:(lia)) as (? & Hd & Hm). unfold requestIndexToRequest, pieceIndexOfRequestIndex.
  pose proof regular_chunks. destruct (Z.eqb_spec cpp 0); [lia|]. rewrite Hd, Hm, chunkIndexSpec_is by done. destruct Hwf. rewrite (u32_small p) by nia. done.
Qed.

Lemma from_request p c : 0 <= p < np -> 0 <= c < pieceNumChunks t p -> requestIndexFromRequest t (request_at p c) = p * cpp + c.
Proof.
  intros Hp Hc. unfold requestIndexFromRequest, request_at. cbn [Index Chunk Begin]. rewrite begin_is by done. destruct Hwf.
  rewrite Z.div_mul by lia. pose proof (piece_chunks p Hp). destruct (index_bound p c Hp ltac:(lia)) as (? & _). apply u32_small. lia.
Qed.

(** The chunk a byte is in. *)
Definition chunk_of (off : Z) : Z := off mod PL / cs.

Lemma byte_place off : 0 <= off < length t -> let p := off / PL in
  0 <= p < np /\ 0 <= chunk_of off < pieceNumChunks t p /\
  p * PL + chunk_of off * cs <= off < p * PL + chunk_of off * cs + Z.min cs (pieceLength t p - chunk_of off * cs).
Proof.
  intros Ho p. destruct Hwf as [Hc HP Hw Hl Hn _ _ _]. pose proof (Z.div_mod off PL ltac:(lia)) as Hd. pose proof (Z.mod_pos_bound off PL HP) as Hm. fold p in Hd.
  assert (0 <= p < np) as Hp. { split; [apply Z.div_pos; lia|]. nia. }
  destruct (pieceLength_is p Hp) as [Hpl Hpos]. destruct (piece_chunks p Hp) as [Hk1 Hk2]. unfold chunk_of.
  pose proof (Z.div_mod (off mod PL) cs ltac:(lia)) as Hd2. pose proof (Z.mod_pos_bound (off mod PL) cs Hc) as Hm2.
  pose proof (Z.div_pos (off mod PL) cs ltac:(lia) ltac:(lia)) as Hge. assert (off mod PL < pieceLength t p) as Hlt by lia.
  set (c := off mod PL / cs) in *. split_and!; [lia|lia|lia|nia|lia|lia].
Qed.

(** Offsets of the torrent do not wrap around. *)
Lemma offset64 p b : 0 <= p < np -> 0 <= b < 2 ^ 32 ->
  info.add64 (info.mul64 p PL) b = p * PL + b /\ info.sub64 (info.sub64 (length t) (info.mul64 p PL)) b = length t - p * PL - b.
Proof.
  intros Hp Hb. destruct Hwf as [_ HP _ Hl Hn _ _ _]. assert (0 <= p * PL <= (np - 1) * PL) by nia. unfold info.add64, info.sub64, info.mul64.
  rewrite (i64_id (p * PL)) by lia. rewrite (i64_id (length t - p * PL)) by lia. rewrite !i64_id by lia. done.
Qed.

Lemma offset_request off : 0 <= off < length t -> offsetRequest t off = Some (request_at (off / PL) (chunk_of off)).
Proof.
  intros Ho. destruct (byte_place off Ho) as (Hp & Hc & Hoff). destruct (pieceLength_is _ Hp) as [Hl Hl']. pose proof (chunk_begins _ _ Hp Hc) as Hb.
  pose proof regular_chunks. destruct Hwf as [Hcs HP Hw ? Hn Hr _ _]. unfold offsetRequest, torrentOffsetRequest.
  destruct (Z.ltb_spec off 0); [lia|]. destruct (Z.leb_spec (length t) off); [lia|]. cbn [orb].
  pose proof (Z.mod_pos_bound off PL HP). rewrite (Z.quot_div_nonneg off), (Z.rem_mod_nonneg off), Z.quot_div_nonneg by lia. fold (chunk_of off).
  rewrite (u32_small (off / PL)) by nia. rewrite (u32_small (chunk_of off * cs)) by lia. rewrite (u32_small cs), (u32_small (PL - _)) by lia.
  destruct (offset64 _ (chunk_of off * cs) Hp ltac:(lia)) as [_ ->].
  unfold request_at. do 3 f_equal. set (b := chunk_of off * cs) in *. set (p := off / PL) in *. rewrite Hl in *.
  destruct (Z.ltb_spec (length t - p * PL - b) (Z.min cs (PL - b))); [rewrite u32_small by lia|]; lia.
Qed.

Lemma offset_of_request p c : 0 <= p < np -> 0 <= c < pieceNumChunks t p -> requestOffset t (request_at p c) = Val (p * PL + c * cs).
Proof.
  intros Hp Hc. pose proof (chunk_begins p c Hp Hc). destruct (pieceLength_is p Hp) as [Hl _]. destruct Hwf. unfold requestOffset, torrentRequestOffset, request_at.
  cbn [Index Chunk Begin]. destruct (offset64 p (c * cs) Hp ltac:(lia)) as [-> _]. destruct (Z.ltb_spec (p * PL + c * cs) 0); [nia|]. by destruct (Z.leb_spec (length t) (p * PL + c * cs)); [lia|].
Qed.

(** ** What a piece has *)

(** The request that asks for a byte, and whether the byte is there. *)
Definition request_of (off : Z) : Z := off / PL * cpp + chunk_of off.

Definition dirty (r : Z) : bool := bool_decide (r ∈ dirtyChunks t).

Definition there (off : Z) : bool := pieceComplete t (off / PL) || dirty (request_of off).

(** The indices of the requests of a piece. *)
Lemma requests_of_piece p : 0 <= p < np -> 0 <= p * cpp /\ p * cpp + cpp = (p + 1) * cpp /\ (p + 1) * cpp <= np * cpp < 2 ^ 32.
Proof. intros Hp. pose proof regular_chunks. pose proof (wf_requests Hwf). split_and!; [nia|lia|nia|done]. Qed.

Lemma same_piece p p' c c' : 0 <= c < cpp -> 0 <= c' < cpp -> p * cpp + c = p' * cpp + c' -> p = p'.
Proof.
  intros Hc Hc' He. destruct (Z.lt_trichotomy p p') as [Hlt|[Heq|Hlt]]; [|done|].
  - assert ((p + 1) * cpp <= p' * cpp) by (apply Z.mul_le_mono_nonneg_r; lia). lia.
  - assert ((p' + 1) * cpp <= p * cpp) by (apply Z.mul_le_mono_nonneg_r; lia). lia.
Qed.

(** Behind the last chunk of a piece, nothing is dirty. *)
Lemma nothing_behind p c : 0 <= p < np -> pieceNumChunks t p <= c < cpp -> dirty (p * cpp + c) = false.
Proof.
  intros Hp Hc. unfold dirty. apply bool_decide_eq_false_2. intros (p' & c' & Hp' & Hc' & He)%(wf_dirty Hwf)%valid_cases.
  pose proof (piece_chunks p Hp). pose proof (piece_chunks p' Hp'). assert (p = p') as <- by (apply (same_piece p p' c c'); lia). lia.
Qed.

Lemma dirty_count p : 0 <= p < np ->
  count dirty (p * cpp) ((p + 1) * cpp) = count (fun c => dirty (p * cpp + c)) 0 (pieceNumChunks t p).
Proof.
  intros Hp. destruct (piece_chunks p Hp) as [Hk1 _]. destruct (requests_of_piece p Hp) as (_ & <- & _).
  transitivity (count (fun c => dirty (p * cpp + c)) 0 cpp).
  - unfold count. rewrite (sum_range_ext (fun c => Z.b2z (dirty (p * cpp + c))) (fun c => Z.b2z (dirty (c + p * cpp)))) by (intros; by rewrite Z.add_comm).
    rewrite (sum_range_shift (fun r => Z.b2z (dirty r))). f_equal; lia.
  - unfold count. rewrite (sum_range_split _ 0 (pieceNumChunks t p) cpp) by lia. rewrite (sum_range_const _ 0 (pieceNumChunks t p) cpp); [lia|lia|].
    intros c Hc. by rewrite nothing_behind.
Qed.

Lemma numDirtyChunks_is p : 0 <= p < np ->
  numDirtyChunks t p = count (fun c => dirty (p * cpp + c)) 0 (pieceNumChunks t p) /\ 0 <= numDirtyChunks t p <= pieceNumChunks t p.
Proof.
  intros Hp. destruct (piece_chunks p Hp) as [Hk1 _]. destruct (requests_of_piece p Hp) as (Hr0 & Hr1 & Hr2). rewrite <-dirty_count by done.
  pose proof (count_bounds (fun c => dirty (p * cpp + c)) 0 (pieceNumChunks t p) ltac:(lia)) as Hbound. rewrite <-dirty_count in Hbound by done.
  enough (numDirtyChunks t p = count dirty (p * cpp) ((p + 1) * cpp)) as -> by lia.
  unfold numDirtyChunks, roaringBitmapRangeCardinality. rewrite begin_is, begin_next by done.
  assert (Rank (dirtyChunks t) (u32 ((p + 1) * cpp - 1)) - Rank (dirtyChunks t) (p * cpp - 1) = count dirty (p * cpp) ((p + 1) * cpp)) as Hrank.
  { rewrite u32_small by lia. apply Rank_range. lia. }
  destruct (Z.eqb_spec (p * cpp) 0) as [Hz|Hz].
  - rewrite (Rank_negative _ (p * cpp - 1)) in Hrank; [|intros r (? & _)%(wf_dirty Hwf); lia|lia]. rewrite Z.sub_0_r in Hrank. rewrite Hrank. apply u32_small. lia.
  - rewrite (u32_small (p * cpp - 1)) by lia. rewrite Hrank. apply u32_small. lia.
Qed.

(** The bytes that a piece has, as long as its chunks. *)
Lemma numDirtyBytes_is p : 0 <= p < np ->
  numDirtyBytes t p = Val (sum_range (fun c => Z.b2z (dirty (p * cpp + c)) * Z.min cs (pieceLength t p - c * cs)) 0 (pieceNumChunks t p)).
Proof.
  intros Hp. destruct (piece_chunks p Hp) as [Hk1 Hk2]. destruct (pieceLength_is p Hp) as [_ Hl]. destruct (numDirtyChunks_is p Hp) as [Hd Hd'].
  pose proof regular_chunks as Hreg. pose proof Hwf as [Hcs HP Hw _ Hn Hr _ _].
  set (k := pieceNumChunks t p) in *. set (pl := pieceLength t p) in *. set (last := k - 1). set (D := fun c => dirty (p * cpp + c)) in *.
  assert (sum_range (fun c => Z.b2z (dirty (p * cpp + c)) * Z.min cs (pl - c * cs)) 0 k =
    count D 0 last * cs + Z.b2z (D last) * (pl - last * cs)) as ->.
  { rewrite (sum_range_split _ 0 last k), (sum_range_first _ last k), (sum_range_empty _ (last + 1)) by lia.
    rewrite (sum_range_ext _ (fun c => Z.b2z (D c) * cs)) by (intros c Hc; fold (D c); nia). fold (D last). unfold count.
    replace (Z.min cs (pl - last * cs)) with (pl - last * cs) by lia. rewrite Z.add_0_r. f_equal. clear.
    revert last. intros last. apply (range_induction (fun a => sum_range (fun c => Z.b2z (D c) * cs) a last = sum_range (fun c => Z.b2z (D c)) a last * cs) last);
      intros a Ha; [by rewrite !sum_range_empty|]. intros IH. rewrite !(sum_range_first _ a) by done. lia. }
  assert (numDirtyChunks t p = count D 0 last + Z.b2z (D last)) as Hsplit.
  { rewrite Hd. unfold count. rewrite (sum_range_split _ 0 last k), (sum_range_first _ last k), (sum_range_empty _ (last + 1)) by lia. lia. }
  pose proof (count_bounds D 0 last ltac:(lia)) as Hcount. unfold numDirtyBytes. fold k pl. rewrite (u32_small (k - 1)) by nia. fold last.
  unfold chunkIndexDirty. rewrite begin_is by done. rewrite (u32_small (p * cpp + last)) by nia. fold (dirty (p * cpp + last)). fold (D last).
  rewrite Hsplit. destruct (D last) eqn:Hlast; cbn [Z.b2z].
  - unfold pl, last. rewrite chunkIndexSpec_is by lia. fold pl last. cbn [Chunk request_at Length]. fold pl. replace (Z.min cs (pl - last * cs)) with (pl - last * cs) by lia.
    replace (count D 0 last + 1 - 1) with (count D 0 last) by lia. rewrite (u32_small (count D 0 last)) by nia. rewrite (u32_small (count D 0 last * cs)) by nia.
    rewrite u32_small by nia. f_equal. lia.
  - rewrite u32_small by nia. f_equal. lia.
Qed.

(** The bytes of a chunk ask for its request. *)
Lemma request_of_byte p c off : 0 <= p < np -> 0 <= c < pieceNumChunks t p ->
  p * PL + c * cs <= off < p * PL + Z.min ((c + 1) * cs) (pieceLength t p) -> off / PL = p /\ request_of off = p * cpp + c.
Proof.
  intros Hp Hc Hoff. pose proof (chunk_begins p c Hp Hc) as Hb. destruct (pieceLength_is p Hp) as [_ Hl]. destruct Hwf as [Hcs HP _ _ _ _ _ _].
  assert (off = p * PL + (off - p * PL)) as He by lia. assert (off / PL = p) as Hd by (symmetry; apply (Z.div_unique off PL p (off - p * PL)); lia).
  assert (off mod PL = off - p * PL) as Hm by (symmetry; apply (Z.mod_unique off PL p); lia).
  split; [done|]. unfold request_of, chunk_of. rewrite Hd, Hm. f_equal. symmetry. apply (Z.div_unique _ cs c (off - p * PL - c * cs)); lia.
Qed.

(** The bytes that a piece has are counted right. *)
Lemma numDirtyBytes_counts p : 0 <= p < np ->
  numDirtyBytes t p = Val (count (fun off => dirty (request_of off)) (p * PL) (p * PL + pieceLength t p)).
Proof.
  intros Hp. rewrite numDirtyBytes_is by done. f_equal. destruct (piece_chunks p Hp) as [Hk1 Hk2]. destruct (pieceLength_is p Hp) as [_ Hl].
  pose proof (wf_chunk Hwf) as Hcs. set (e := fun c => p * PL + Z.min (c * cs) (pieceLength t p)).
  assert (forall c, e c <= e (c + 1)) as He by (intros c; unfold e; lia).
  destruct (sum_range_cut (fun off => Z.b2z (dirty (request_of off))) e (pieceNumChunks t p) ltac:(lia) ltac:(auto)) as [Hcut _].
  assert (e 0 = p * PL) as H0 by (unfold e; lia). assert (e (pieceNumChunks t p) = p * PL + pieceLength t p) as Hk by (unfold e; lia).
  rewrite H0, Hk in Hcut. unfold count. rewrite Hcut. apply sum_range_ext. intros c Hc. pose proof (chunk_begins p c Hp Hc) as Hb.
  rewrite (sum_range_const _ (Z.b2z (dirty (p * cpp + c))) (e c)); [f_equal; unfold e; lia|auto|].
  intros off Hoff. unfold e in Hoff. by destruct (request_of_byte p c off Hp Hc ltac:(lia)) as [_ ->].
Qed.

(** The bytes of a piece are where they are looked for. *)
Lemma there_in_piece p off : 0 <= p < np -> p * PL <= off < p * PL + pieceLength t p -> there off = pieceComplete t p || dirty (request_of off).
Proof.
  intros Hp Hoff. destruct (pieceLength_is p Hp) as [_ Hl]. unfold there. replace (off / PL) with p; [done|]. apply (Z.div_unique off PL p (off - p * PL)); lia.
Qed.

Lemma piece_missing p : 0 <= p < np ->
  count (fun off => negb (there off)) (p * PL) (p * PL + pieceLength t p) =
  if pieceComplete t p then 0 else pieceLength t p - count (fun off => dirty (request_of off)) (p * PL) (p * PL + pieceLength t p).
Proof.
  intros Hp. destruct (pieceLength_is p Hp) as [_ Hl]. unfold count at 1.
  rewrite (sum_range_ext _ (fun off => Z.b2z (negb (pieceComplete t p || dirty (request_of off))))) by (intros off Hoff; by rewrite (there_in_piece p)).
  destruct (pieceComplete t p); cbn [orb].
  - rewrite (sum_range_const _ 0) by (lia || done). lia.
  - fold (count (fun off => negb (dirty (request_of off))) (p * PL) (p * PL + pieceLength t p)). rewrite count_negb by lia. lia.
Qed.

(** A sum over the pieces that a loop skips or takes. *)
Lemma sum_res_filter keep f g a n : (forall p, a <= p < a + Z.of_nat n -> keep p = true -> f p = Val (g p)) ->
  sum_res f (List.filter keep (seqZ a (Z.of_nat n))) = Val (sum_range (fun p => if keep p then g p else 0) a (a + Z.of_nat n)).
Proof.
  revert a. induction n as [|n IH]; intros a Hf; [rewrite sum_range_empty by lia; done|].
  rewrite seqZ_cons by lia. replace (Z.pred (Z.of_nat (S n))) with (Z.of_nat n) by lia. rewrite sum_range_first by lia.
  replace (a + Z.of_nat (S n)) with (Z.succ a + Z.of_nat n) in * by lia. replace (a + 1) with (Z.succ a) by lia.
  cbn [List.filter]. destruct (keep a) eqn:Ha; [cbn [sum_res]; rewrite (Hf a) by (lia || done); cbn [res_bind]|]; rewrite IH by (intros; apply Hf; (lia || done)); done.
Qed.

Lemma flipped_is : Iterate (Flip (completedPieces t) 0 np) = List.filter (fun p => negb (pieceComplete t p)) (seqZ 0 np).
Proof.
  apply visited; [apply numPieces_nonneg|]. intros x. rewrite Flip_turns, Z.add_0_l, negb_true_iff. unfold pieceComplete. rewrite bool_decide_eq_false.
  destruct (decide (0 <= x < np)) as [Hx|Hx]; [naive_solver|]. split; [intros ?%(wf_completed Hwf); lia|lia].
Qed.

(** The pieces are laid out one after the other. *)
Lemma pieces_cut f : sum_range f 0 (length t) = sum_range (fun p => sum_range f (p * PL) (p * PL + pieceLength t p)) 0 np.
Proof.
  pose proof numPieces_nonneg as Hn. pose proof Hwf as [_ HP _ Hl Hnp _ _ _].
  destruct (sum_range_cut f piece_at np Hn ltac:(intros; unfold piece_at; lia)) as [Hcut _]. unfold piece_at at 1 2 in Hcut.
  replace (Z.min (0 * PL) (length t)) with 0 in Hcut by lia. replace (Z.min (np * PL) (length t)) with (length t) in Hcut by lia.
  rewrite Hcut. apply sum_range_ext. intros p Hp. destruct (pieceLength_is p Hp) as [Hpl Hpos]. unfold piece_at. f_equal; lia.
Qed.

Lemma piece_is p : 0 <= p < np -> piece t p = Val p.
Proof. intros Hp. unfold piece. destruct (Z.leb_spec 0 p), (Z.ltb_spec p np); (done || lia). Qed.

Lemma bytesLeft_counts : bytesLeft t = Val (count (fun off => negb (there off)) 0 (length t)).
Proof.
  pose proof numPieces_nonneg as Hn. unfold bytesLeft. rewrite flipped_is. replace np with (Z.of_nat (Z.to_nat np)) by lia.
  rewrite (sum_res_filter _ _ (fun p => pieceLength t p - count (fun off => dirty (request_of off)) (p * PL) (p * PL + pieceLength t p))).
  - rewrite Z2Nat.id, Z.add_0_l by lia. cbn [res_bind]. transitivity (Val (i64 (count (fun off => negb (there off)) 0 (length t)))).
    + do 2 f_equal. unfold count at 2. rewrite pieces_cut. apply sum_range_ext. intros p Hp.
      fold (count (fun off => negb (there off)) (p * PL) (p * PL + pieceLength t p)). rewrite piece_missing by done. by destruct (pieceComplete t p).
    + pose proof (count_bounds (fun off => negb (there off)) 0 (length t)) as Hb. destruct Hwf. rewrite i64_id by lia. done.
  - intros p Hp _. rewrite piece_is by lia. cbn [res_bind]. rewrite numDirtyBytes_counts by lia. cbn [res_bind]. f_equal. destruct (pieceLength_is p ltac:(lia)) as [_ Hl].
    pose proof (count_bounds (fun off => dirty (request_of off)) (p * PL) (p * PL + pieceLength t p) ltac:(lia)). destruct Hwf. apply u32_small. lia.
Qed.
End torrent.
