(* ===== verification/ProgressTheorems.v ===== *)
(** * Chunks, requests and progress, the theorems

    [requests_tile_the_torrent]: every byte of the torrent is in exactly one
    request, the one the code computes. [progress_counts_bytes]: what the code
    reports of the torrent and of each piece counts the bytes that are there.
    [progress_changes]: what chunks and piece completion add and take away. *)

From S2P Require Import Prelude Prog Segments Info Progress ProgressFacts.
From Stdlib Require Import ZArith Lia String Sorted.
From stdpp Require Import base gmap strings list sets sorting.
Import progress.

Local Open Scope Z_scope.

(** A byte is there when its piece is complete, or the request for it is dirty. *)
Definition has (t : Torrent) (off : Z) : bool :=
  pieceComplete t (off / PieceLength t) ||
  match getRequestIndexContainingOffset t off with
  | Val r => bool_decide (r ∈ dirtyChunks t)
  | Panicked _ => false
  end.

(** The bytes that a request asks for. *)
Definition asks_for (t : Torrent) (r off : Z) : Prop :=
  exists b e, requestIndexBegin t r = Val b /\ requestIndexEnd t r = Val e /\ b <= off < e.

Section torrent.
Context `{bits : Bitmaps, laws : !BitmapLaws} (t : Torrent) (Hwf : wf t).

Local Notation PL := (PieceLength t).
Local Notation cs := (chunkSize t).
Local Notation cpp := (chunksPerRegularPiece t).
Local Notation np := (numPieces t).

Lemma containing off : 0 <= off < length t -> getRequestIndexContainingOffset t off = Val (request_of t off).
Proof.
  intros Ho. destruct (byte_place t Hwf off Ho) as (Hp & Hc & _). unfold getRequestIndexContainingOffset. rewrite offset_request by done.
  by rewrite from_request.
Qed.

Lemma has_there off : 0 <= off < length t -> has t off = there t off.
Proof. intros Ho. unfold has. by rewrite containing. Qed.

Lemma count_there a b : 0 <= a -> b <= length t -> count (has t) a b = count (there t) a b.
Proof. intros Ha Hb. apply sum_range_ext. intros x Hx. by rewrite has_there by lia. Qed.

Lemma count_missing a b : 0 <= a -> b <= length t -> count (fun off => negb (has t off)) a b = count (fun off => negb (there t off)) a b.
Proof. intros Ha Hb. apply sum_range_ext. intros x Hx. by rewrite has_there by lia. Qed.

Lemma request_ends p c : 0 <= p < np -> 0 <= c < pieceNumChunks t p ->
  requestIndexBegin t (p * cpp + c) = Val (p * PL + c * cs) /\
  requestIndexEnd t (p * cpp + c) = Val (p * PL + Z.min ((c + 1) * cs) (pieceLength t p)).
Proof.
  intros Hp Hc. unfold requestIndexBegin, requestIndexEnd. rewrite to_request by done. cbn [res_bind]. rewrite offset_of_request by done. split; [done|].
  cbn [res_bind request_at Chunk Length]. pose proof (chunk_begins t Hwf p c Hp Hc). destruct (pieceLength_is t Hwf p Hp) as [Hl _]. destruct Hwf.
  assert (0 <= p * PL) by nia. unfold info.add64. rewrite i64_id by lia. f_equal. lia.
Qed.

Lemma piece_inside p : 0 <= p < np -> 0 <= p * PL /\ p * PL + pieceLength t p <= length t.
Proof. intros Hp. destruct (pieceLength_is t Hwf p Hp) as [Hl _]. destruct Hwf. split; [nia|lia]. Qed.

Lemma asks_for_is p c off : 0 <= p < np -> 0 <= c < pieceNumChunks t p ->
  asks_for t (p * cpp + c) off <-> 0 <= off < length t /\ request_of t off = p * cpp + c.
Proof.
  intros Hp Hc. destruct (request_ends p c Hp Hc) as [Hb He]. destruct (piece_inside p Hp) as [Hi1 Hi2]. pose proof (chunk_begins t Hwf p c Hp Hc) as Hcb. split.
  - intros (b & e & Hb' & He' & Ho). rewrite Hb in Hb'. rewrite He in He'. simplify_eq. split; [lia|]. by apply (request_of_byte t Hwf p c).
  - intros [Ho Hr]. destruct (byte_place t Hwf off Ho) as (Hp' & Hc' & Hoff). unfold request_of in Hr.
    pose proof (piece_chunks t Hwf p Hp). pose proof (piece_chunks t Hwf _ Hp').
    assert (off / PL = p) as He1 by (apply (same_piece t _ _ (chunk_of t off) c); lia). rewrite He1 in *. assert (chunk_of t off = c) as He2 by lia. rewrite He2 in *.
    unfold asks_for. exists (p * PL + c * cs), (p * PL + Z.min ((c + 1) * cs) (pieceLength t p)). split_and!; [done|done|lia|lia].
Qed.

(** C19. The requests tile the torrent: each stands for a range of at most a
    chunk of bytes and is read back from its index; a byte of the torrent is asked
    for by one request only, the one the code finds; others have none. *)
Theorem requests_tile_the_torrent :
  (forall r, valid_request t r -> exists q b e,
     requestIndexToRequest t r = Val q /\ requestIndexFromRequest t q = r /\
     requestIndexBegin t r = Val b /\ requestIndexEnd t r = Val e /\ 0 <= b /\ b < e <= length t /\
     Length (Chunk q) = e - b /\ e - b <= cs) /\
  (forall off, 0 <= off < length t -> exists r,
     getRequestIndexContainingOffset t off = Val r /\ valid_request t r /\
     forall r', valid_request t r' -> asks_for t r' off <-> r' = r) /\
  (forall off, ~ (0 <= off < length t) -> exists m, getRequestIndexContainingOffset t off = Panicked m).
Proof.
  split_and!.
  - intros r (p & c & Hp & Hc & ->)%(valid_cases t Hwf). destruct (request_ends p c Hp Hc) as [Hb He]. eexists _, _, _.
    rewrite to_request, from_request, Hb, He by done. split_and!; try reflexivity; cbn [request_at Chunk Length];
      pose proof (chunk_begins t Hwf p c Hp Hc); destruct (piece_inside p Hp); destruct Hwf; lia.
  - intros off Ho. exists (request_of t off). destruct (byte_place t Hwf off Ho) as (Hp & Hc & _). split_and!; [by apply containing|by apply valid_index|].
    intros r (p & c & Hp' & Hc' & ->)%(valid_cases t Hwf). rewrite asks_for_is by done. naive_solver.
  - intros off Ho. unfold getRequestIndexContainingOffset, offsetRequest, torrentOffsetRequest.
    destruct (Z.ltb_spec off 0), (Z.leb_spec (length t) off); cbn [orb]; first [lia|by eexists].
Qed.

Lemma piece_missing_is p : 0 <= p < np -> piece_bytesLeft t p = Val (count (fun off => negb (has t off)) (p * PL) (p * PL + pieceLength t p)).
Proof.
  intros Hp. destruct (piece_inside p Hp) as [Hi1 Hi2]. rewrite count_missing, piece_missing by done. unfold piece_bytesLeft.
  destruct (pieceComplete t p); [done|]. rewrite numDirtyBytes_counts by done. cbn [res_bind]. f_equal. destruct (pieceLength_is t Hwf p Hp) as [_ Hl].
  pose proof (count_bounds (fun off => dirty t (request_of t off)) (p * PL) (p * PL + pieceLength t p) ltac:(lia)). destruct Hwf. apply u32_small. lia.
Qed.

Lemma all_complete p : haveAllPieces t = true -> 0 <= p < np -> pieceComplete t p = true.
Proof.
  unfold haveAllPieces. intros Hs%Z.eqb_eq Hp. apply bool_decide_eq_true_2. pose proof (numPieces_nonneg t Hwf) as Hn.
  assert (completedPieces t ⊆ list_to_set (seqZ 0 np)) as Hsub. { intros x Hx%(wf_completed t Hwf). rewrite elem_of_list_to_set, elem_of_seqZ. lia. }
  assert (completedPieces t = list_to_set (seqZ 0 np)) as ->; [|rewrite elem_of_list_to_set, elem_of_seqZ; lia].
  apply leibniz_equiv, set_subseteq_size_equiv; [done|]. rewrite size_list_to_set by apply NoDup_seqZ. rewrite length_seqZ. lia.
Qed.

(** C18. What the client reports counts the bytes that are there: of the torrent,
    completed and left, and of each piece; a torrent with all pieces is complete. *)
Theorem progress_counts_bytes :
  bytesCompleted t = Val (count (has t) 0 (length t)) /\
  bytesLeft t = Val (count (fun off => negb (has t off)) 0 (length t)) /\
  (forall p, 0 <= p < np ->
     piece_bytesLeft t p = Val (count (fun off => negb (has t off)) (p * PL) (p * PL + pieceLength t p))) /\
  (haveAllPieces t = true -> bytesCompleted t = Val (length t)).
Proof.
  pose proof (wf_length t Hwf) as Hl. pose proof (count_bounds (has t) 0 (length t) ltac:(lia)) as Hb.
  assert (bytesLeft t = Val (count (fun off => negb (has t off)) 0 (length t))) as Hleft by (rewrite bytesLeft_counts by done; by rewrite count_missing by lia).
  assert (bytesCompleted t = Val (count (has t) 0 (length t))) as Hcompl.
  { unfold bytesCompleted. rewrite Hleft. cbn [res_bind]. rewrite count_negb by lia. unfold info.sub64. rewrite i64_id by lia. f_equal. lia. }
  split_and!; [done|done|apply piece_missing_is|]. intros Hall. rewrite Hcompl. f_equal. unfold count. rewrite (sum_range_const _ 1) by (lia || (intros off Ho;
    destruct (byte_place t Hwf off Ho) as (Hp & _); unfold has; by rewrite all_complete)). lia.
Qed.

(** ** Changes *)

Lemma wf_with_dirty d : (forall r, r ∈ d -> valid_request t r) -> wf (with_dirty t d).
Proof. intros Hd. destruct Hwf. by constructor. Qed.

Lemma wf_with_completed c : (forall p, p ∈ c -> 0 <= p < np) -> wf (with_completed t c).
Proof. intros Hc. destruct Hwf. by constructor. Qed.

Lemma request_valid off : 0 <= off < length t -> valid_request t (request_of t off).
Proof. intros Ho. destruct (byte_place t Hwf off Ho) as (Hp & Hc & _). by apply valid_index. Qed.

Lemma request_piece off p c : 0 <= off < length t -> 0 <= p < np -> 0 <= c < cpp -> request_of t off = p * cpp + c -> off / PL = p.
Proof.
  intros Ho Hp Hc Hr. destruct (byte_place t Hwf off Ho) as (Hp' & Hc' & _). pose proof (piece_chunks t Hwf _ Hp').
  apply (same_piece t _ _ (chunk_of t off) c); [lia|done|done].
Qed.

(** What is there after a change to the dirty chunks, or to the complete pieces. *)
Lemma has_with_dirty d off : (forall r, r ∈ d -> valid_request t r) -> 0 <= off < length t ->
  has (with_dirty t d) off = true <-> pieceComplete t (off / PL) = true \/ request_of t off ∈ d.
Proof.
  intros Hd Ho. assert (getRequestIndexContainingOffset (with_dirty t d) off = Val (request_of t off)) as Hc by exact (containing off Ho).
  unfold has. rewrite Hc. rewrite orb_true_iff, bool_decide_eq_true. done.
Qed.

Lemma has_with_completed c off : 0 <= off < length t ->
  has (with_completed t c) off = true <-> off / PL ∈ c \/ request_of t off ∈ dirtyChunks t.
Proof.
  intros Ho. assert (getRequestIndexContainingOffset (with_completed t c) off = Val (request_of t off)) as Hc by exact (containing off Ho).
  unfold has. rewrite Hc. unfold pieceComplete. rewrite orb_true_iff, !bool_decide_eq_true. done.
Qed.

Lemma has_is off : 0 <= off < length t ->
  has t off = true <-> pieceComplete t (off / PL) = true \/ request_of t off ∈ dirtyChunks t.
Proof. intros Ho. rewrite has_there by done. unfold there, dirty. rewrite orb_true_iff, bool_decide_eq_true. done. Qed.

Lemma chunk_request p c : 0 <= p < np -> 0 <= c < pieceNumChunks t p -> u32 (pieceRequestIndexBegin t p + c) = p * cpp + c.
Proof.
  intros Hp Hc. rewrite begin_is by done. destruct (requests_of_piece t Hwf p Hp) as (? & ? & ?). pose proof (piece_chunks t Hwf p Hp). apply u32_small. lia.
Qed.

Lemma chunk_arrives p c : 0 <= p < np -> 0 <= c < pieceNumChunks t p ->
  wf (unpendChunkIndex t p c) /\
  forall off, 0 <= off < length t -> has (unpendChunkIndex t p c) off = true <-> has t off = true \/ asks_for t (p * cpp + c) off.
Proof.
  intros Hp Hc. unfold unpendChunkIndex. rewrite chunk_request by done.
  assert (forall r, r ∈ {[p * cpp + c]} ∪ dirtyChunks t -> valid_request t r) as Hd.
  { intros r [->%elem_of_singleton|Hr]%elem_of_union; [by apply valid_index|by apply (wf_dirty t Hwf)]. }
  split; [by apply wf_with_dirty|]. intros off Ho. rewrite has_with_dirty, has_is, asks_for_is, elem_of_union, elem_of_singleton by done. naive_solver.
Qed.

Lemma chunk_is_lost p c : 0 <= p < np -> 0 <= c < pieceNumChunks t p ->
  wf (pendChunkIndex t p c) /\
  forall off, 0 <= off < length t ->
    has (pendChunkIndex t p c) off = true <-> pieceComplete t (off / PL) = true \/ has t off = true /\ ~ asks_for t (p * cpp + c) off.
Proof.
  intros Hp Hc. unfold pendChunkIndex. rewrite chunk_request by done.
  assert (forall r, r ∈ dirtyChunks t ∖ {[p * cpp + c]} -> valid_request t r) as Hd by (intros r [Hr _]%elem_of_difference; by apply (wf_dirty t Hwf)).
  split; [by apply wf_with_dirty|]. intros off Ho. rewrite has_with_dirty, has_is, asks_for_is, elem_of_difference, elem_of_singleton by done. naive_solver.
Qed.

Lemma chunks_are_dropped p : 0 <= p < np ->
  wf (pendAllChunkSpecs t p) /\
  forall off, 0 <= off < length t ->
    has (pendAllChunkSpecs t p) off = true <-> pieceComplete t (off / PL) = true \/ has t off = true /\ off / PL <> p.
Proof.
  intros Hp. unfold pendAllChunkSpecs. rewrite begin_is, begin_next by done. set (d := filter _ _).
  assert (forall r, r ∈ d -> valid_request t r) as Hd by (intros r [_ Hr]%elem_of_filter; by apply (wf_dirty t Hwf)).
  split; [by apply wf_with_dirty|]. intros off Ho. rewrite has_with_dirty, has_is by done. unfold d. rewrite elem_of_filter.
  destruct (byte_place t Hwf off Ho) as (Hp' & Hc' & _). pose proof (piece_chunks t Hwf _ Hp') as [Hk _]. destruct (requests_of_piece t Hwf p Hp) as (? & ? & ?).
  assert (p * cpp <= request_of t off < (p + 1) * cpp <-> off / PL = p) as Hin; [|naive_solver]. split.
  - intros Hr. apply (request_piece off p (request_of t off - p * cpp)); lia.
  - intros He. unfold request_of in *. rewrite He in *. lia.
Qed.

Lemma piece_completes p : 0 <= p < np ->
  wf (cache_completion t p (Some true)) /\
  forall off, 0 <= off < length t -> has (cache_completion t p (Some true)) off = true <-> has t off = true \/ off / PL = p.
Proof.
  intros Hp. pose proof (regular_chunks t Hwf). assert (u32 p = p) as Hu by (apply u32_small; destruct Hwf; nia). unfold cache_completion. rewrite Hu.
  assert (forall q, q ∈ {[p]} ∪ completedPieces t -> 0 <= q < np) as Hc. { intros q [->%elem_of_singleton|Hq]%elem_of_union; [done|by apply (wf_completed t Hwf)]. }
  split; [by apply wf_with_completed|]. intros off Ho. rewrite has_with_completed, has_is, elem_of_union, elem_of_singleton by done. unfold pieceComplete.
  rewrite bool_decide_eq_true. naive_solver.
Qed.

Lemma piece_is_not_complete p v : 0 <= p < np -> v <> Some true ->
  wf (cache_completion t p v) /\
  forall off, 0 <= off < length t ->
    has (cache_completion t p v) off = true <->
      off / PL <> p /\ has t off = true \/ exists r, r ∈ dirtyChunks t /\ asks_for t r off.
Proof.
  intros Hp Hv. pose proof (regular_chunks t Hwf). assert (u32 p = p) as Hu by (apply u32_small; destruct Hwf; nia).
  assert (cache_completion t p v = with_completed t (completedPieces t ∖ {[p]})) as -> by (unfold cache_completion; rewrite Hu; by destruct v as [[]|]).
  split; [apply wf_with_completed; intros q [Hq _]%elem_of_difference; by apply (wf_completed t Hwf)|].
  intros off Ho. rewrite has_with_completed, has_is, elem_of_difference, elem_of_singleton by done. unfold pieceComplete. rewrite bool_decide_eq_true.
  assert ((exists r, r ∈ dirtyChunks t /\ asks_for t r off) <-> request_of t off ∈ dirtyChunks t) as ->; [|tauto].
  split; [intros (r & Hr & Ha); destruct (valid_cases t Hwf r (wf_dirty t Hwf r Hr)) as (q & c & Hq & Hc & ->); rewrite asks_for_is in Ha by done; by destruct Ha as [_ ->]|].
  intros Hr. exists (request_of t off). split; [done|]. destruct (byte_place t Hwf off Ho) as (Hq & Hc & _). unfold request_of. by apply asks_for_is.
Qed.

(** C20. What is there changes as it should, and the torrent stays well-formed:
    a chunk adds and takes away its bytes, dropping the chunks of a piece leaves
    what is in complete pieces, a piece that completes adds its bytes, and one
    that turns out incomplete has what its chunks have. *)
Theorem progress_changes p : 0 <= p < np ->
  (forall c, 0 <= c < pieceNumChunks t p -> let t' := unpendChunkIndex t p c in
     wf t' /\ forall off, 0 <= off < length t -> has t' off = true <-> has t off = true \/ asks_for t (p * cpp + c) off) /\
  (forall c, 0 <= c < pieceNumChunks t p -> let t' := pendChunkIndex t p c in
     wf t' /\ forall off, 0 <= off < length t ->
       has t' off = true <-> pieceComplete t (off / PL) = true \/ has t off = true /\ ~ asks_for t (p * cpp + c) off) /\
  (let t' := pendAllChunkSpecs t p in
     wf t' /\ forall off, 0 <= off < length t ->
       has t' off = true <-> pieceComplete t (off / PL) = true \/ has t off = true /\ off / PL <> p) /\
  (let t' := cache_completion t p (Some true) in
     wf t' /\ forall off, 0 <= off < length t -> has t' off = true <-> has t off = true \/ off / PL = p) /\
  (forall v, v <> Some true -> let t' := cache_completion t p v in
     wf t' /\ forall off, 0 <= off < length t ->
       has t' off = true <-> off / PL <> p /\ has t off = true \/ exists r, r ∈ dirtyChunks t /\ asks_for t r off).
Proof.
  intros Hp. split_and!.
  - intros c Hc. by apply chunk_arrives.
  - intros c Hc. by apply chunk_is_lost.
  - by apply chunks_are_dropped.
  - by apply piece_completes.
  - intros v Hv. by apply piece_is_not_complete.
Qed.
End torrent.
