(* ===== verification/FileProgress.v ===== *)
(** * Progress of files

    [File.BytesCompleted] (src/licenses/github.com/anacrolix/torrent/file.go):
    what the client reports of a file from the bytes that its pieces have.
    [file_progress]: a file in several pieces counts the bytes of a piece that
    is not complete as if they were its first; a file in one piece, as if they
    were in front of where the piece would end at its usual length. *)

From S2P Require Import Prelude Prog Segments Info Progress ProgressFacts ProgressTheorems.
From Stdlib Require Import ZArith Lia String Sorted.
From stdpp Require Import base gmap strings list sets sorting.
Import progress.

Local Open Scope Z_scope.

(** ** Sums *)

Lemma sum_range_cut_from f e a n : a <= n -> (forall i, a <= i < n -> e i <= e (i + 1)) ->
  sum_range f (e a) (e n) = sum_range (fun i => sum_range f (e i) (e (i + 1))) a n.
Proof.
  intros Hn He. destruct (sum_range_cut f (fun j => e (j + a)) (n - a) ltac:(lia)) as [Hc _].
  { intros j Hj. replace (j + 1 + a) with (j + a + 1) by lia. apply He. lia. }
  cbn beta in Hc. rewrite Z.add_0_l in Hc. replace (n - a + a) with n in Hc by lia. rewrite Hc.
  rewrite (sum_range_ext _ (fun j => sum_range f (e (j + a)) (e (j + a + 1)))) by (intros j _; do 2 f_equal; lia).
  rewrite (sum_range_shift (fun i => sum_range f (e i) (e (i + 1)))). f_equal; lia.
Qed.

Lemma count_above k a b : a <= b -> count (fun x => k <=? x) a b = Z.max 0 (b - Z.max a k).
Proof.
  revert a. apply (range_induction (fun a => a <= b -> _) b); intros a Ha; [intros ?; unfold count; rewrite sum_range_empty by lia; lia|].
  intros IH _. unfold count. rewrite sum_range_first by done. fold (count (fun x => k <=? x) (a + 1) b). rewrite IH by lia.
  destruct (Z.leb_spec k a); cbn [Z.b2z]; lia.
Qed.

(** ** Files *)

(** The bytes there are of a piece. *)
Definition bytes_of (t : Torrent) (p : Z) : Z := count (has t) (p * PieceLength t) (p * PieceLength t + pieceLength t p).

(** What is taken to be missing of a file. *)
Definition file_missing (t : Torrent) (off len : Z) : Z :=
  let first := off / PieceLength t in
  if len =? 0 then 0
  else if first =? (off + len - 1) / PieceLength t then
    if pieceComplete t first then 0
    else Z.min len (PieceLength t - Z.max (off mod PieceLength t) (bytes_of t first))
  else count (fun x => negb (pieceComplete t (x / PieceLength t)) && (bytes_of t (x / PieceLength t) <=? x mod PieceLength t)) off (off + len).

Section torrent.
Context `{bits : Bitmaps, laws : !BitmapLaws} (t : Torrent) (Hwf : wf t).
Context (off len : Z) (Hoff : 0 <= off) (Hlen : 0 < len) (Hend : off + len <= length t).

Local Notation PL := (PieceLength t).
Local Notation np := (numPieces t).
Local Notation first := (off / PL).
Local Notation final := ((off + len - 1) / PL).

Lemma pieces_of_file : 0 <= first /\ first <= final /\ final < np /\ first * PL <= off < (first + 1) * PL /\ final * PL < off + len <= (final + 1) * PL.
Proof.
  destruct Hwf as [_ HP _ _ Hn _ _ _]. pose proof (Z.div_mod off PL ltac:(lia)). pose proof (Z.mod_pos_bound off PL HP).
  pose proof (Z.div_mod (off + len - 1) PL ltac:(lia)). pose proof (Z.mod_pos_bound (off + len - 1) PL HP).
  split_and!; [apply Z.div_pos; lia|apply Z.div_le_mono; lia|apply Z.div_lt_upper_bound; nia|lia|lia|lia|lia].
Qed.

Lemma usual_length p : 0 <= p -> p < final -> pieceLength t p = PL.
Proof.
  intros Hp Hlast. destruct pieces_of_file as (_ & _ & Hf & _ & Hl & _). destruct (pieceLength_is t Hwf p ltac:(lia)) as [-> _].
  assert ((p + 1) * PL <= final * PL) by (destruct Hwf; nia). lia.
Qed.

Lemma bytes_of_bounds p : 0 <= p < np -> 0 <= bytes_of t p <= PL.
Proof.
  intros Hp. destruct (pieceLength_is t Hwf p Hp) as [_ Hl]. pose proof (count_bounds (has t) (p * PL) (p * PL + pieceLength t p) ltac:(lia)). unfold bytes_of. lia.
Qed.

(** The bytes of a piece that is not complete are the dirty ones. *)
Lemma dirty_bytes p : 0 <= p < np -> pieceComplete t p = false -> numDirtyBytes t p = Val (bytes_of t p).
Proof.
  intros Hp Hc. rewrite numDirtyBytes_counts by done. f_equal. apply sum_range_ext. intros x Hx. destruct (piece_inside t Hwf p Hp).
  rewrite (has_there t Hwf) by lia. by rewrite (there_in_piece t Hwf p), Hc.
Qed.

Lemma begins fi : info.TorrentOffset fi = off -> info.FLength fi = len ->
  info.BeginPieceIndex fi PL = first /\ info.EndPieceIndex fi PL = final + 1.
Proof.
  intros Ho Hl. destruct Hwf as [Hcs HP Hw Hlt _ _ _ _]. unfold info.BeginPieceIndex, info.EndPieceIndex. rewrite Ho, Hl. destruct (Z.eqb_spec PL 0); [lia|].
  unfold info.quot64, info.sub64, info.add64. assert (0 <= first <= off) by (split; [apply Z.div_pos|apply Z.div_le_upper_bound]; nia).
  rewrite (i64_id (off + len)) by lia. rewrite (i64_id (off + len + PL)) by lia. rewrite (i64_id (off + len + PL - 1)) by lia.
  rewrite !Z.quot_div_nonneg by lia. split; [apply i64_id; lia|]. replace (off + len + PL - 1) with (off + len - 1 + 1 * PL) by lia.
  rewrite Z.div_add by lia. assert (0 <= final <= off + len - 1) by (split; [apply Z.div_pos|apply Z.div_le_upper_bound]; nia). apply i64_id. lia.
Qed.

Abbreviation missing_of i := (pieceBytesLeft PL first (final + 1) off len (bytes_of t i) i).

Lemma file_sum fi : info.TorrentOffset fi = off -> info.FLength fi = len ->
  file_bytesLeft t fi = Val (Z.min (i64 (sum_range (fun i => if pieceComplete t i then 0 else missing_of i) first (final + 1))) len).
Proof.
  intros Ho Hl. destruct pieces_of_file as (H1 & H2 & H3 & _). unfold file_bytesLeft, fileBytesLeft. destruct (begins fi Ho Hl) as [-> ->]. rewrite Ho, Hl.
  destruct (Z.eqb_spec len 0); [lia|]. rewrite (visited (fun i => negb (pieceComplete t i)) first (final + 1 - first)); [|lia|].
  - replace (final + 1 - first) with (Z.of_nat (Z.to_nat (final + 1 - first))) by lia.
    rewrite (sum_res_filter _ _ (fun i => missing_of i)).
    + cbn [res_bind]. rewrite Z2Nat.id by lia. replace (first + (final + 1 - first)) with (final + 1) by lia. do 3 f_equal. apply sum_range_ext.
      intros i _. by destruct (pieceComplete t i).
    + intros i Hi Hc%negb_true_iff. rewrite piece_is by lia. cbn [res_bind]. by rewrite dirty_bytes by (lia || done).
  - intros x. rewrite elem_of_difference, elem_of_list_to_set, elem_of_seqZ, negb_true_iff. unfold pieceComplete. by rewrite bool_decide_eq_false.
Qed.

(** Where the file is cut into pieces. *)
Definition cut (i : Z) : Z := Z.max off (Z.min (off + len) (i * PL)).

Lemma cut_bounds i : first <= i <= final -> cut i <= cut (i + 1) /\ i * PL <= cut i /\ cut (i + 1) <= (i + 1) * PL.
Proof.
  intros Hi. destruct pieces_of_file as (_ & _ & _ & Hf & Hl). pose proof (wf_piece t Hwf). assert (first * PL <= i * PL <= final * PL) by nia. unfold cut. lia.
Qed.

Lemma in_piece i x : 0 <= i -> i * PL <= x < (i + 1) * PL -> x / PL = i /\ x mod PL = x - i * PL.
Proof. intros Hi Hx. split; symmetry; [apply (Z.div_unique x PL i (x - i * PL))|apply (Z.mod_unique x PL i)]; lia. Qed.

(** The part of a file in a piece, without the first bytes of the piece. *)
Lemma part_missing i : first < final -> first <= i <= final -> let c := bytes_of t i in
  missing_of i = Z.max 0 (cut (i + 1) - i * PL - Z.max (cut i - i * PL) c) /\ 0 <= c <= PL.
Proof.
  intros Hm Hi c. destruct pieces_of_file as (H1 & _ & H3 & Hf & Hl). pose proof (bytes_of_bounds i ltac:(lia)) as Hc. fold c in Hc. split; [|done].
  pose proof (wf_piece t Hwf) as HP. pose proof (wf_length t Hwf) as Hlt. unfold pieceBytesLeft. fold c. unfold cut, info.add64. rewrite (i64_id (off + len)) by lia. rewrite !Z.rem_mod_nonneg by lia.
  destruct (in_piece first off H1 Hf) as [_ ->]. destruct (Z.eqb_spec i first) as [->|Hne]; [assert ((first + 1) * PL <= final * PL) by nia; lia|].
  assert ((first + 1) * PL <= i * PL) by nia. replace (final + 1 - 1) with final by lia. destruct (Z.eqb_spec i final) as [->|Hne'].
  - destruct (decide (off + len = (final + 1) * PL)) as [He|He].
    + assert ((off + len) mod PL = 0) as -> by (rewrite He; apply Z_mod_mult). rewrite Z.eqb_refl. lia.
    + destruct (in_piece final (off + len)) as [_ ->]; [lia|lia|]. destruct (Z.eqb_spec (off + len - final * PL) 0); lia.
  - assert ((i + 1) * PL <= final * PL) by nia. lia.
Qed.

Lemma cut_missing i : first < final -> first <= i <= final ->
  sum_range (fun x => Z.b2z (negb (pieceComplete t (x / PL)) && (bytes_of t (x / PL) <=? x mod PL))) (cut i) (cut (i + 1)) =
  if pieceComplete t i then 0 else missing_of i.
Proof.
  intros Hm Hi. destruct (cut_bounds i Hi) as (Hc1 & Hc2 & Hc3). destruct pieces_of_file as (H1 & _). destruct (part_missing i Hm Hi) as [-> Hb].
  set (c := bytes_of t i) in *. rewrite (sum_range_ext _ (fun x => Z.b2z (negb (pieceComplete t i) && (c + i * PL <=? x)))).
  - destruct (pieceComplete t i); cbn [negb andb]; [by rewrite (sum_range_const _ 0) by (lia || done)|].
    fold (count (fun x => c + i * PL <=? x) (cut i) (cut (i + 1))). rewrite count_above by done. lia.
  - intros x Hx. destruct (in_piece i x ltac:(lia) ltac:(lia)) as [-> ->]. do 2 f_equal. fold c. destruct (Z.leb_spec c (x - i * PL)), (Z.leb_spec (c + i * PL) x); (done || lia).
Qed.

Lemma several_pieces : first < final ->
  sum_range (fun i => if pieceComplete t i then 0 else missing_of i) first (final + 1) = file_missing t off len.
Proof.
  intros Hm. unfold file_missing. destruct (Z.eqb_spec len 0); [lia|]. destruct (Z.eqb_spec first final); [lia|]. destruct pieces_of_file as (H1 & H2 & H3 & Hf & Hl).
  transitivity (sum_range (fun i => sum_range (fun x => Z.b2z (negb (pieceComplete t (x / PL)) && (bytes_of t (x / PL) <=? x mod PL))) (cut i) (cut (i + 1))) first (final + 1)).
  { apply sum_range_ext. intros i Hi. symmetry. apply cut_missing; lia. }
  rewrite <-sum_range_cut_from; [|lia|intros i Hi; by destruct (cut_bounds i ltac:(lia))]. unfold count. f_equal; unfold cut; lia.
Qed.

Lemma one_piece : first = final ->
  Z.min (i64 (sum_range (fun i => if pieceComplete t i then 0 else missing_of i) first (final + 1))) len = file_missing t off len.
Proof.
  intros Hm. unfold file_missing. destruct (Z.eqb_spec len 0); [lia|]. destruct (Z.eqb_spec first final); [|lia]. rewrite <-Hm.
  rewrite sum_range_first, sum_range_empty by lia. destruct pieces_of_file as (H1 & _ & H3 & _). pose proof (bytes_of_bounds first ltac:(lia)) as Hb.
  destruct (pieceComplete t first); [rewrite i64_id by lia; lia|]. unfold pieceBytesLeft. rewrite Z.eqb_refl, Z.rem_mod_nonneg by (pose proof (wf_piece t Hwf); lia).
  pose proof (Z.mod_pos_bound off PL (wf_piece t Hwf)). rewrite i64_id; [lia|]. destruct Hwf. lia.
Qed.

Lemma file_missing_bounds : 0 <= file_missing t off len <= len.
Proof.
  unfold file_missing. destruct (Z.eqb_spec len 0); [lia|]. destruct (Z.eqb_spec first final).
  - destruct pieces_of_file as (H1 & H2 & H3 & _). pose proof (bytes_of_bounds first ltac:(lia)). pose proof (Z.mod_pos_bound off PL (wf_piece t Hwf)).
    destruct (pieceComplete t first); lia.
  - pose proof (count_bounds (fun x => negb (pieceComplete t (x / PL)) && (bytes_of t (x / PL) <=? x mod PL)) off (off + len) ltac:(lia)). lia.
Qed.

Lemma file_bytesLeft_is fi : info.TorrentOffset fi = off -> info.FLength fi = len -> file_bytesLeft t fi = Val (file_missing t off len).
Proof.
  intros Ho Hl. rewrite (file_sum fi Ho Hl). f_equal. destruct pieces_of_file as (_ & H2 & _). destruct (decide (first = final)) as [He|He]; [by apply one_piece|].
  rewrite several_pieces by lia. pose proof file_missing_bounds. pose proof (wf_length t Hwf). rewrite i64_id by lia. lia.
Qed.

Lemma count_zero p a b x : count p a b = 0 -> a <= x < b -> p x = false.
Proof.
  intros Hz Hx. unfold count in Hz. rewrite (sum_range_split _ a x b), (sum_range_first _ x b) in Hz by lia.
  fold (count p a x) in Hz. fold (count p (x + 1) b) in Hz. pose proof (count_bounds p a x ltac:(lia)). pose proof (count_bounds p (x + 1) b ltac:(lia)).
  destruct (p x); [cbn [Z.b2z] in Hz; lia|done].
Qed.

(** When its pieces are complete or have nothing, a file is reported as it is. *)
Lemma whole_pieces : (forall p, first <= p <= final -> pieceComplete t p = true \/ bytes_of t p = 0) ->
  file_missing t off len = count (fun x => negb (has t x)) off (off + len).
Proof.
  intros Hw. destruct pieces_of_file as (H1 & H2 & H3 & Hf & Hl). pose proof (wf_piece t Hwf) as HP.
  assert (forall x, off <= x < off + len -> has t x = pieceComplete t (x / PL) /\ first <= x / PL <= final) as Hhas.
  { intros x Hx. assert (first <= x / PL <= final) as Hp by (split; apply Z.div_le_mono; lia). split; [|done].
    destruct (Hw (x / PL) Hp) as [Hc|Hz]; [unfold has; by rewrite Hc|]. destruct (byte_place t Hwf x ltac:(lia)) as (Hp' & _ & Hin).
    destruct (pieceLength_is t Hwf (x / PL) Hp') as [Hpl _]. pose proof (Z.div_mod x PL ltac:(lia)). pose proof (Z.mod_pos_bound x PL HP).
    assert (has t x = false) as Hfalse by (apply (count_zero _ _ _ x Hz); lia). rewrite Hfalse. unfold has in Hfalse. by apply orb_false_iff in Hfalse as [-> _]. }
  unfold file_missing. destruct (Z.eqb_spec len 0); [lia|]. destruct (Z.eqb_spec first final) as [He|Hne].
  - assert (forall x, off <= x < off + len -> Z.b2z (negb (has t x)) = Z.b2z (negb (pieceComplete t first))) as Hext.
    { intros x Hx. destruct (Hhas x Hx) as [-> Hp]. do 3 f_equal. lia. }
    unfold count. rewrite (sum_range_const _ _ off (off + len) ltac:(lia) Hext). destruct (Hw first ltac:(lia)) as [->|Hz]; [cbn [negb Z.b2z]; lia|].
    pose proof (Z.mod_pos_bound off PL HP). pose proof (Z.div_mod off PL ltac:(lia)).
    rewrite Hz. destruct (pieceComplete t first); cbn [negb Z.b2z]; [lia|]. rewrite <-He in Hl. lia.
  - apply sum_range_ext. intros x Hx. destruct (Hhas x Hx) as [-> Hp]. destruct (Hw _ Hp) as [->| ->]; [done|].
    pose proof (Z.mod_pos_bound x PL HP). destruct (Z.leb_spec 0 (x mod PL)); [by rewrite andb_true_r|lia].
Qed.
End torrent.

(** What is reported of a file is between nothing and its length, and right
    when each of its pieces is complete or has nothing. *)
Theorem file_progress `{bits : Bitmaps, laws : !BitmapLaws} t fi :
  let off := info.TorrentOffset fi in let len := info.FLength fi in
  wf t -> 0 <= off -> 0 <= len -> off + len <= length t ->
  file_bytesLeft t fi = Val (file_missing t off len) /\
  file_BytesCompleted t fi = Val (len - file_missing t off len) /\
  0 <= file_missing t off len <= len /\
  ((forall p, off / PieceLength t <= p <= (off + len - 1) / PieceLength t -> pieceComplete t p = true \/ bytes_of t p = 0) ->
   file_BytesCompleted t fi = Val (count (has t) off (off + len))).
Proof.
  intros off len Hwf Hoff Hlen Hend.
  assert (file_bytesLeft t fi = Val (file_missing t off len) /\ 0 <= file_missing t off len <= len) as [Hl Hb].
  { destruct (decide (len = 0)) as [He|Hne].
    - unfold file_bytesLeft, fileBytesLeft, file_missing. fold off len. rewrite He. cbn [Z.eqb]. split; [done|lia].
    - split; [by apply file_bytesLeft_is; (done || lia)|apply file_missing_bounds; (done || lia)]. }
  assert (file_BytesCompleted t fi = Val (len - file_missing t off len)) as Hc.
  { unfold file_BytesCompleted. rewrite Hl. cbn [res_bind]. fold len. unfold info.sub64. rewrite i64_id; [done|]. pose proof (wf_length t Hwf). lia. }
  split_and!; [done|done|lia|lia|]. intros Hw. rewrite Hc. f_equal. destruct (decide (len = 0)) as [He|Hne].
  - assert (count (has t) off (off + len) = 0) as -> by (apply sum_range_empty; lia). unfold file_missing. rewrite He, Z.eqb_refl. lia.
  - rewrite whole_pieces by (done || lia). rewrite count_negb by lia. lia.
Qed.

(** ** Chunks, requests and progress, a torrent

    A torrent of 100 bytes in four pieces, the last of four bytes, with bitmaps
    computed as sets, on which the theorems are applied; and a file of one piece
    that is half there and reported as not begun. *)

Module progress_sample.

Definition range (a b : Z) : gset Z := list_to_set (seqZ a (b - a)).

#[export] Instance sets : Bitmaps := {
  Rank bm x := Z.of_nat (size (filter (fun y => y <= x) bm));
  Flip bm a b := (bm ∖ range a b) ∪ (range a b ∖ bm);
  Iterate bm := merge_sort Z.le (elements bm);
}.

#[export] Instance sets_laws : BitmapLaws.
Proof.
  constructor; cbn [Rank Flip Iterate sets].
  - done.
  - intros bm a b x. unfold range. rewrite elem_of_union, !elem_of_difference, elem_of_list_to_set, elem_of_seqZ.
    replace (a + (b - a)) with b by lia. case_decide; tauto.
  - intros bm. apply merge_sort_Permutation.
  - intros bm. apply (StronglySorted_merge_sort Z.le).
Qed.

Definition torrent (dirty : gset Z) : Torrent := mkTorrent 100 32 8 4 {[ 2 ]} dirty.

(** The third chunk of the first piece, the second of the second, and the last. *)
Definition some : Torrent := torrent {[ 2; 5; 12 ]}.

Definition file : info.FileInfo := info.mkFileInfo 60 [] [] None 20.

Definition valid_request_b (t : Torrent) (r : Z) : bool :=
  (0 <=? r) && (r / chunksPerRegularPiece t <? numPieces t) &&
  (r mod chunksPerRegularPiece t <? pieceNumChunks t (r / chunksPerRegularPiece t)).

Lemma valid_request_b_true t r : valid_request_b t r = true -> valid_request t r.
Proof. unfold valid_request_b, valid_request. rewrite !andb_true_iff. lia. Qed.

Lemma wf_some : wf some.
Proof.
  constructor; cbn [length PieceLength chunkSize numPieces some torrent].
  1-5: lia.
  - by vm_compute.
  - intros p. cbn [completedPieces some torrent]. rewrite elem_of_singleton. lia.
  - intros r. cbn [dirtyChunks some torrent]. rewrite !elem_of_union, !elem_of_singleton. intros [[->| ->]| ->]; by apply valid_request_b_true.
Qed.

Example some_is_there : bytesCompleted some = Val 52 /\ bytesLeft some = Val 48 /\ pieceNumPendingChunks some 0 = Val 3.
Proof. vm_compute. done. Qed.

Lemma requests_tile_the_torrent_witness :
  wf some /\ getRequestIndexContainingOffset some 99 = Val 12 /\ valid_request some 12 /\
  exists r, getRequestIndexContainingOffset some 99 = Val r /\ asks_for some r 99.
Proof.
  pose proof (requests_tile_the_torrent some wf_some) as (_ & H & _). destruct (H 99 ltac:(cbn; lia)) as (r & Hr & Hv & Hu).
  split; [exact wf_some|]. split; [by vm_compute|]. split; [by apply valid_request_b_true|]. exists r. split; [exact Hr|]. by apply (Hu r Hv).
Defined.

Lemma progress_counts_bytes_witness :
  wf some /\ bytesCompleted some = Val (count (has some) 0 (length some)) /\ count (has some) 0 (length some) = 52 /\
  piece_bytesLeft some 3 = Val 0.
Proof.
  pose proof (progress_counts_bytes some wf_some) as (H1 & _ & H2 & _). split; [exact wf_some|]. split; [exact H1|]. split; [by vm_compute|].
  rewrite H2 by (cbn; lia). by vm_compute.
Defined.

Lemma progress_changes_witness :
  wf some /\ has some 0 = false /\ wf (unpendChunkIndex some 0 0) /\ has (unpendChunkIndex some 0 0) 7 = true /\
  wf (cache_completion some 0 (Some true)) /\ bytesCompleted (cache_completion some 0 (Some true)) = Val 76.
Proof.
  pose proof (progress_changes some wf_some 0 ltac:(cbn; lia)) as (H1 & _ & _ & H2 & _). destruct (H1 0 ltac:(vm_compute; split; congruence)) as [Hw Hh].
  split; [exact wf_some|]. split; [by vm_compute|]. split; [exact Hw|]. split; [apply (Hh 7 ltac:(cbn; lia)); right; exists 0, 8; by vm_compute|].
  split; [exact (proj1 H2)|]. by vm_compute.
Defined.

Lemma file_progress_witness :
  wf some /\ file_BytesCompleted some file = Val (60 - file_missing some 20 60) /\ file_missing some 20 60 = 36 /\
  count (has some) 20 80 = 28.
Proof.
  pose proof (file_progress some file wf_some) as H. cbn [info.TorrentOffset info.FLength file] in H.
  destruct (H ltac:(lia) ltac:(lia) ltac:(cbn; lia)) as (_ & Hc & _). split; [exact wf_some|]. split; [exact Hc|]. by vm_compute.
Defined.

(** A file that is the whole torrent, half the length of a piece, with one of its
    two chunks: the torrent has eight bytes completed, the file none. *)
Definition short_torrent : Torrent := mkTorrent 16 32 8 1 ∅ {[ 0 ]}.

Example one_piece_is_not_begun :
  bytesCompleted short_torrent = Val 8 /\
  file_BytesCompleted short_torrent (info.mkFileInfo 16 [] [] None 0) = Val 0.
Proof. by vm_compute. Qed.

End progress_sample.
