(* ===== verification/Merkle.v ===== *)
(** * Merkle trees

    The hashes of files in v2 torrents (src/licenses/github.com/anacrolix/
    torrent/merkle/merkle.go, hash.go): the root of a layer of hashes, computed
    layer by layer, and a hash that is written to in any portions and sums to
    the root over the blocks of the data. SHA-256 is a parameter; what was
    written to its state is the state. A slice that is appended to is not used
    after that, so that slices are values.
    [Sum_is_the_root]: the sum is the root of the tree over the blocks, as it is
    defined from the top ([tree]). *)

From S2P Require Import Prelude Prog Bytes.
From Stdlib Require Import ZArith Lia Ascii String.
From stdpp Require Import base strings list.

Local Open Scope Z_scope.

Class Sha256 : Type := { Sum256 : list ascii -> list ascii }.

Module merkle.
Section sha256.
Context `{Sha256}.

Definition BlockSize : nat := 2 ^ 14.

(** [bits.Len]. *)
Definition bits_Len (n : Z) : Z := if n =? 0 then 0 else Z.log2 n + 1.

Definition RoundUpToPowerOfTwo (n : Z) : Z := Z.shiftl 1 (bits_Len ((n - 1) mod 2 ^ 64)) mod 2 ^ 64.

Definition Log2RoundingUp (n : Z) : Z := bits_Len ((n - 1) mod 2 ^ 64).

(** The layer above. *)
Fixpoint next_layer (hashes : list (list ascii)) : res (list (list ascii)) :=
  match hashes with
  | [] => Val []
  | [_] => Panicked "runtime error: index out of range"
  | l :: r :: hashes' =>
      match next_layer hashes' with
      | Val next => Val (Sum256 (l ++ r) :: next)
      | Panicked m => Panicked m
      end
  end.

Fixpoint Root_run (fuel : nat) (hashes : list (list ascii)) : res (list ascii) :=
  match fuel with
  | O => Panicked "out of fuel"
  | S fuel' =>
      match hashes with
      | [] => Val (Sum256 [])
      | [h] => Val h
      | _ =>
          if negb (Z.of_nat (length hashes) =? RoundUpToPowerOfTwo (Z.of_nat (length hashes)))
          then Panicked "expected power of two number of hashes"
          else match next_layer hashes with
               | Val next => Root_run fuel' next
               | Panicked m => Panicked m
               end
      end
  end.

Definition Root (hashes : list (list ascii)) : res (list ascii) := Root_run (S (length hashes)) hashes.

Fixpoint pad_run (fuel : nat) (hashes : list (list ascii)) (padHash : list ascii) : list (list ascii) :=
  match fuel with
  | O => hashes
  | S fuel' =>
      if Z.of_nat (length hashes) <? RoundUpToPowerOfTwo (Z.of_nat (length hashes))
      then pad_run fuel' (hashes ++ [padHash]) padHash
      else hashes
  end.

Definition RootWithPadHash (hashes : list (list ascii)) (padHash : list ascii) : res (list ascii) :=
  Root (pad_run (length hashes) hashes padHash).

(** Each round has 32 bytes to copy: the error for an incomplete hash is out of
    reach, and bytes that are too few for one are left out. *)
Fixpoint slice_hashes (n : nat) (i : nat) (compactLayer : list ascii) : outcome nat (list (list ascii)) :=
  match n with
  | O => Ok []
  | S n' =>
      let hash := take 32 (drop (i * 32) compactLayer) in
      if (length hash =? 32)%nat
      then match slice_hashes n' (S i) compactLayer with
           | Ok hashes => Ok (hash :: hashes)
           | Err at_ => Err at_
           end
      else Err i
  end.

Definition CompactLayerToSliceHashes (compactLayer : list ascii) : outcome nat (list (list ascii)) :=
  slice_hashes (length compactLayer / 32) 0 compactLayer.

(** ** The hash *)

Record Hash : Type := mkHash {
  blocks : list (list ascii);
  nextBlock : list ascii;
  nextBlockWritten : nat;
}.

Definition NewHash : Hash := mkHash [] [] 0.

Definition remaining (h : Hash) : nat := BlockSize - nextBlockWritten h.

Definition nextBlockSum (h : Hash) : list ascii := Sum256 (nextBlock h).

(** One round of the loop in [Write], and the bytes it took. *)
Definition write_round (h : Hash) (p : list ascii) : Hash * nat :=
  let n1 := Nat.min (length p) (remaining h) in
  let h1 := mkHash (blocks h) (nextBlock h ++ take n1 p) (nextBlockWritten h + n1) in
  (if (remaining h1 =? 0)%nat then mkHash (blocks h1 ++ [nextBlockSum h1]) [] 0 else h1, n1).

Fixpoint Write_run (fuel : nat) (h : Hash) (p : list ascii) (n : nat) : Hash * nat :=
  match fuel, p with
  | S fuel', _ :: _ => let '(h', n1) := write_round h p in Write_run fuel' h' (drop n1 p) (n + n1)
  | _, _ => (h, n)
  end.

Definition Write (h : Hash) (p : list ascii) : Hash * nat := Write_run (length p) h p 0.

Definition curBlocks (h : Hash) : list (list ascii) :=
  if (nextBlockWritten h =? 0)%nat then blocks h else blocks h ++ [nextBlockSum h].

Definition zero : list ascii := replicate 32 (of_byte 0).

Definition Sum (h : Hash) (b : list ascii) : res (list ascii) :=
  match RootWithPadHash (curBlocks h) zero with
  | Val sum => Val (b ++ sum)
  | Panicked m => Panicked m
  end.

Definition SumMinLength (h : Hash) (b : list ascii) (length_ : Z) : res (list ascii) :=
  let blocks := curBlocks h in
  let minBlocks := Z.quot (length_ + Z.of_nat BlockSize - 1) (Z.of_nat BlockSize) in
  if minBlocks - Z.of_nat (length blocks) <? 0 then Panicked "runtime error: makeslice: len out of range"
  else match RootWithPadHash (blocks ++ replicate (Z.to_nat (minBlocks - Z.of_nat (length blocks))) zero) zero with
       | Val sum => Val (b ++ sum)
       | Panicked m => Panicked m
       end.

Definition Reset (h : Hash) : Hash := mkHash [] [] 0.

(** ** The tree *)

(** The root over [2 ^ d] hashes. *)
Fixpoint tree (d : nat) (hashes : list (list ascii)) : list ascii :=
  match d with
  | O => match hashes with [h] => h | _ => [] end
  | S d' => Sum256 (tree d' (take (2 ^ d') hashes) ++ tree d' (drop (2 ^ d') hashes))
  end.

(** The height of the smallest tree with [n] leaves. *)
Definition height (n : nat) : nat := Z.to_nat (Z.log2_up (Z.of_nat n)).

Definition padded (hashes : list (list ascii)) (padHash : list ascii) : list (list ascii) :=
  hashes ++ replicate (2 ^ height (length hashes) - length hashes) padHash.

Definition padded_root (hashes : list (list ascii)) (padHash : list ascii) : list ascii :=
  match hashes with [] => Sum256 [] | _ => tree (height (length hashes)) (padded hashes padHash) end.

Fixpoint split_blocks (fuel : nat) (data : list ascii) : list (list ascii) :=
  match fuel, data with
  | S fuel', _ :: _ => take BlockSize data :: split_blocks fuel' (drop BlockSize data)
  | _, _ => []
  end.

(** The hashes of the blocks of the data, of which the last may be short. *)
Definition leaves (data : list ascii) : list (list ascii) := map Sum256 (split_blocks (length data) data).

(** ** Powers of two *)

Lemma height_bounds n : (1 <= n)%nat -> (n <= 2 ^ height n < 2 * n)%nat.
Proof.
  intros Hn. unfold height. pose proof (Z.log2_up_nonneg (Z.of_nat n)) as H0. apply Nat2Z.inj_le in Hn as Hz.
  assert (Z.of_nat n <= 2 ^ Z.log2_up (Z.of_nat n) < 2 * Z.of_nat n) as Hb.
  { destruct (decide (n = 1%nat)) as [->|Hne]; [change (Z.log2_up (Z.of_nat 1)) with 0; lia|]. pose proof (Z.log2_up_spec (Z.of_nat n) ltac:(lia)) as [H1 H2]. split; [done|].
    pose proof (Z.log2_up_pos (Z.of_nat n) ltac:(lia)). replace (Z.log2_up (Z.of_nat n)) with (Z.succ (Z.pred (Z.log2_up (Z.of_nat n)))) by lia.
    rewrite Z.pow_succ_r by lia. lia. }
  assert (Z.of_nat (2 ^ Z.to_nat (Z.log2_up (Z.of_nat n))) = 2 ^ Z.log2_up (Z.of_nat n)) as He by (rewrite Nat2Z.inj_pow, Z2Nat.id by done; done).
  lia.
Qed.

Lemma round_up_is n : (1 <= n)%nat -> Z.of_nat n < 2 ^ 63 -> RoundUpToPowerOfTwo (Z.of_nat n) = Z.of_nat (2 ^ height n).
Proof.
  intros Hn Hb. unfold RoundUpToPowerOfTwo. rewrite (Z.mod_small (Z.of_nat n - 1)) by lia. assert (bits_Len (Z.of_nat n - 1) = Z.log2_up (Z.of_nat n)) as ->.
  { unfold bits_Len, Z.log2_up. destruct (Z.eqb_spec (Z.of_nat n - 1) 0); destruct (Z.compare_spec 1 (Z.of_nat n)); first [lia|done|rewrite <-Z.sub_1_r; lia]. }
  pose proof (height_bounds n Hn) as Hh. assert (Z.of_nat (2 ^ height n) = 2 ^ Z.log2_up (Z.of_nat n)) as ->.
  { unfold height. rewrite Nat2Z.inj_pow, Z2Nat.id by apply Z.log2_up_nonneg. done. }
  rewrite Z.shiftl_1_l. apply Z.mod_small. split; [apply Z.pow_nonneg; lia|].
  assert (Z.log2_up (Z.of_nat n) <= 63) by (apply Z.log2_up_le_pow2; lia). pose proof (Z.pow_le_mono_r 2 (Z.log2_up (Z.of_nat n)) 63). lia.
Qed.

Lemma height_pow2 d : height (2 ^ d) = d.
Proof. unfold height. rewrite Nat2Z.inj_pow. change (Z.of_nat 2) with 2. rewrite Z.log2_up_pow2 by lia. lia. Qed.

Lemma height_next n : (1 <= n)%nat -> (n < 2 ^ height n)%nat -> height (S n) = height n.
Proof.
  intros Hn Hlt. unfold height at 1 2. f_equal. destruct (decide (n = 1%nat)) as [->|Hne]; [change (height 1) with 0%nat in Hlt; change (2 ^ 0)%nat with 1%nat in Hlt; lia|].
  pose proof (Z.log2_up_spec (Z.of_nat n) ltac:(lia)) as [H1 H2]. pose proof (Z.log2_up_pos (Z.of_nat n) ltac:(lia)) as H3.
  apply Z.log2_up_unique; [done|]. assert (Z.of_nat (2 ^ height n) = 2 ^ Z.log2_up (Z.of_nat n)) as He.
  { unfold height. rewrite Nat2Z.inj_pow, Z2Nat.id by lia. done. }
  lia.
Qed.

(** ** Layers *)

Lemma next_layer_app d a b : length a = (2 * d)%nat ->
  next_layer (a ++ b) = match next_layer a, next_layer b with
                        | Val x, Val y => Val (x ++ y) | Panicked m, _ => Panicked m | _, Panicked m => Panicked m end.
Proof.
  revert a. induction d as [|d IH]; intros a Ha; [destruct a; [cbn [app next_layer]; by destruct (next_layer b)|cbn in Ha; lia]|].
  destruct a as [|x [|y a]]; [done|cbn in Ha; lia|]. cbn [app next_layer]. rewrite IH by (cbn in Ha; lia).
  destruct (next_layer a); [|done]. by destruct (next_layer b).
Qed.

Lemma next_layer_tree d hashes : length hashes = (2 ^ S d)%nat ->
  exists next, next_layer hashes = Val next /\ length next = (2 ^ d)%nat /\ tree (S d) hashes = tree d next.
Proof.
  revert hashes. induction d as [|d IH]; intros hashes Hl.
  - destruct hashes as [|x [|y [|z l]]]; try done. by exists [Sum256 (x ++ y)].
  - pose proof (Nat.pow_nonzero 2 (S d) ltac:(lia)) as Hpos. assert (2 ^ S (S d) = 2 ^ S d + 2 ^ S d)%nat as H2 by (cbn [Nat.pow]; lia).
    destruct (IH (take (2 ^ S d) hashes)) as (a & Ha & Hla & Hta); [rewrite length_take; lia|].
    destruct (IH (drop (2 ^ S d) hashes)) as (b & Hb & Hlb & Htb); [rewrite length_drop; lia|]. exists (a ++ b). split; [|split].
    + rewrite <-(take_drop (2 ^ S d) hashes) at 1. rewrite (next_layer_app (2 ^ d)) by (rewrite length_take; cbn [Nat.pow] in *; lia). by rewrite Ha, Hb.
    + rewrite length_app, Hla, Hlb. cbn [Nat.pow]. lia.
    + change (tree (S (S d)) hashes) with (Sum256 (tree (S d) (take (2 ^ S d) hashes) ++ tree (S d) (drop (2 ^ S d) hashes))).
      rewrite Hta, Htb. cbn [tree]. by rewrite take_app_length', drop_app_length' by done.
Qed.

Lemma Root_run_step fuel hashes : (2 <= length hashes)%nat ->
  Root_run (S fuel) hashes =
  if negb (Z.of_nat (length hashes) =? RoundUpToPowerOfTwo (Z.of_nat (length hashes))) then Panicked "expected power of two number of hashes"
  else match next_layer hashes with Val next => Root_run fuel next | Panicked m => Panicked m end.
Proof. intros Hl. destruct hashes as [|x [|y l]]; [cbn in Hl; lia|cbn in Hl; lia|done]. Qed.

Lemma Root_run_tree d fuel hashes : length hashes = (2 ^ d)%nat -> Z.of_nat (length hashes) < 2 ^ 63 -> (d < fuel)%nat ->
  Root_run fuel hashes = Val (tree d hashes).
Proof.
  revert fuel hashes. induction d as [|d IH]; intros [|fuel] hashes Hl Hb Hf; try lia.
  - destruct hashes as [|x [|y l]]; done.
  - destruct (next_layer_tree d hashes Hl) as (next & Hn & Hln & Ht). pose proof (Nat.pow_nonzero 2 d ltac:(lia)).
    assert (length hashes = 2 * 2 ^ d)%nat as Hl2 by (rewrite Hl; done). rewrite Root_run_step, round_up_is by lia.
    replace (height (length hashes)) with (S d) by (by rewrite Hl, height_pow2). rewrite <-Hl, Z.eqb_refl. cbn [negb]. rewrite Hn, Ht. apply IH; lia.
Qed.

Lemma Root_tree d hashes : length hashes = (2 ^ d)%nat -> Z.of_nat (length hashes) < 2 ^ 63 -> Root hashes = Val (tree d hashes).
Proof. intros Hl Hb. apply Root_run_tree; [done|done|]. rewrite Hl. pose proof (Nat.pow_gt_lin_r 2 d ltac:(lia)). lia. Qed.

(** Other numbers of hashes are refused. *)
Lemma Root_panics hashes : (2 <= length hashes)%nat -> Z.of_nat (length hashes) < 2 ^ 63 -> (forall d, length hashes <> (2 ^ d)%nat) ->
  exists m, Root hashes = Panicked m.
Proof.
  intros Hl Hb Hd. unfold Root. rewrite Root_run_step, round_up_is by lia. destruct (Z.eqb_spec (Z.of_nat (length hashes)) (Z.of_nat (2 ^ height (length hashes)))); [|by eexists].
  by destruct (Hd (height (length hashes))); lia.
Qed.

(** ** Padding *)

Lemma pad_run_is fuel hashes p : (1 <= length hashes)%nat -> Z.of_nat (2 ^ height (length hashes)) < 2 ^ 63 ->
  (2 ^ height (length hashes) - length hashes <= fuel)%nat -> pad_run fuel hashes p = padded hashes p.
Proof.
  revert hashes. induction fuel as [|fuel IH]; intros hashes Hl Hb Hf; pose proof (height_bounds (length hashes) Hl) as Hh; unfold padded.
  - replace (2 ^ height (length hashes) - length hashes)%nat with 0%nat by lia. by rewrite app_nil_r.
  - cbn [pad_run]. rewrite round_up_is by lia. destruct (Z.ltb_spec (Z.of_nat (length hashes)) (Z.of_nat (2 ^ height (length hashes)))) as [Hlt|Hge].
    + assert (height (length (hashes ++ [p])) = height (length hashes)) as He by (rewrite length_app, Nat.add_1_r; apply height_next; lia).
      assert (length (hashes ++ [p]) = S (length hashes)) as Hlen by (rewrite length_app; cbn; lia).
      rewrite IH by (rewrite ?He; lia). unfold padded. rewrite He, Hlen, <-app_assoc. f_equal.
      replace (2 ^ height (length hashes) - length hashes)%nat with (S (2 ^ height (length hashes) - S (length hashes))) by lia. done.
    + replace (2 ^ height (length hashes) - length hashes)%nat with 0%nat by lia. by rewrite app_nil_r.
Qed.

Lemma length_padded hashes p : (1 <= length hashes)%nat -> length (padded hashes p) = (2 ^ height (length hashes))%nat.
Proof. intros Hl. pose proof (height_bounds (length hashes) Hl). unfold padded. rewrite length_app, length_replicate. lia. Qed.

Lemma RootWithPadHash_is hashes p : Z.of_nat (length hashes) < 2 ^ 62 -> RootWithPadHash hashes p = Val (padded_root hashes p).
Proof.
  intros Hb. unfold RootWithPadHash. destruct hashes as [|x l]; [done|]. set (hs := x :: l) in *. assert (1 <= length hs)%nat as Hl by (cbn; lia).
  pose proof (height_bounds (length hs) Hl). rewrite pad_run_is by lia. by rewrite (Root_tree (height (length hs))) by (rewrite length_padded by done; lia).
Qed.

(** ** Writing *)

Lemma BlockSize_pos : (0 < BlockSize)%nat.
Proof. unfold BlockSize. pose proof (Nat.pow_nonzero 2 14). lia. Qed.

#[local] Opaque BlockSize.

(** A state that data was written to: whole blocks and the beginning of one. *)
Definition holds (h : Hash) (data : list ascii) : Prop := exists bs,
  data = concat bs ++ nextBlock h /\ Forall (fun b => length b = BlockSize) bs /\ blocks h = map Sum256 bs /\
  nextBlockWritten h = length (nextBlock h) /\ (length (nextBlock h) < BlockSize)%nat.

Lemma NewHash_holds : holds NewHash [].
Proof. exists []. pose proof BlockSize_pos. by split_and!; try constructor. Qed.

Lemma write_round_holds h data p : p <> [] -> holds h data ->
  let '(h', n1) := write_round h p in (0 < n1 <= length p)%nat /\ holds h' (data ++ take n1 p).
Proof.
  intros Hp (bs & -> & Hbs & Hb & Hw & Hlt). unfold write_round, remaining. rewrite Hw. set (n1 := Nat.min (length p) (BlockSize - length (nextBlock h))).
  assert (0 < length p)%nat by (destruct p; [done|cbn; lia]). split; [lia|]. cbn [nextBlockWritten].
  assert (length (nextBlock h ++ take n1 p) = length (nextBlock h) + n1)%nat as Hlen by (rewrite length_app, length_take; lia).
  destruct (Nat.eqb_spec (BlockSize - (length (nextBlock h) + n1)) 0) as [He|He].
  - exists (bs ++ [nextBlock h ++ take n1 p]). cbn [nextBlock blocks nextBlockWritten nextBlockSum]. split_and!.
    + rewrite concat_app. cbn [concat]. by rewrite !app_nil_r, app_assoc.
    + apply Forall_app. split; [done|]. constructor; [lia|constructor].
    + by rewrite Hb, map_app.
    + done.
    + cbn. lia.
  - exists bs. cbn [nextBlock blocks nextBlockWritten]. split_and!; [by rewrite app_assoc|done|done|lia|lia].
Qed.

Lemma Write_run_holds fuel h data p n : (length p <= fuel)%nat -> holds h data ->
  holds (fst (Write_run fuel h p n)) (data ++ p) /\ snd (Write_run fuel h p n) = (n + length p)%nat.
Proof.
  revert h data p n. induction fuel as [|fuel IH]; intros h data p n Hf Hh.
  - destruct p; [|cbn in Hf; lia]. cbn. rewrite app_nil_r. split; [done|lia].
  - destruct p as [|c p]; [cbn; rewrite app_nil_r; split; [done|lia]|]. set (q := c :: p) in *. change (Write_run (S fuel) h q n) with
      (let '(h', n1) := write_round h q in Write_run fuel h' (drop n1 q) (n + n1)).
    pose proof (write_round_holds h data q ltac:(done) Hh) as Hr. destruct (write_round h q) as [h' n1]. destruct Hr as [Hn Hh'].
    destruct (IH h' (data ++ take n1 q) (drop n1 q) (n + n1)%nat) as [H1 H2]; [rewrite length_drop; lia|done|].
    rewrite <-app_assoc, take_drop in H1. split; [done|]. rewrite H2, length_drop. lia.
Qed.

Lemma split_blocks_app fuel bs rest : Forall (fun b => length b = BlockSize) bs -> (length rest < BlockSize)%nat ->
  (length (concat bs ++ rest) <= fuel)%nat -> split_blocks fuel (concat bs ++ rest) = bs ++ (match rest with [] => [] | _ => [rest] end).
Proof.
  intros Hbs Hr. pose proof BlockSize_pos as Hpos. revert fuel. induction Hbs as [|b bs Hb Hbs IH]; intros fuel Hf.
  - cbn [concat app] in *. destruct rest as [|c rest]; [by destruct fuel|]. destruct fuel as [|fuel]; [cbn in Hf; lia|].
    cbn [split_blocks]. rewrite take_ge, drop_ge by lia. by destruct fuel.
  - cbn [concat]. rewrite <-app_assoc. destruct b as [|c b]; [cbn in Hb; lia|]. cbn [concat] in Hf. rewrite <-app_assoc, length_app in Hf.
    destruct fuel as [|fuel]; [cbn in Hf; lia|]. assert (forall x : list ascii, split_blocks (S fuel) ((c :: b) ++ x) = take BlockSize ((c :: b) ++ x) :: split_blocks fuel (drop BlockSize ((c :: b) ++ x))) as -> by done.
    rewrite take_app_length', drop_app_length' by done. rewrite IH by lia. done.
Qed.

Lemma holds_leaves h data : holds h data -> curBlocks h = leaves data.
Proof.
  intros (bs & -> & Hbs & Hb & Hw & Hlt). unfold curBlocks, leaves. rewrite split_blocks_app by done. rewrite map_app, Hb, Hw.
  destruct (nextBlock h) eqn:Hn; cbn [length Nat.eqb map]; [by rewrite app_nil_r|]. unfold nextBlockSum. by rewrite Hn.
Qed.

Lemma writes_hold ws : holds (foldl (fun h p => fst (Write h p)) NewHash ws) (concat ws).
Proof.
  enough (forall h data, holds h data -> holds (foldl (fun h p => fst (Write h p)) h ws) (data ++ concat ws)) as He by apply (He NewHash [] NewHash_holds).
  induction ws as [|p ws IH]; intros h data Hh; [by rewrite app_nil_r|]. cbn [foldl concat]. rewrite app_assoc. apply IH.
  by destruct (Write_run_holds (length p) h data p 0 ltac:(lia) Hh).
Qed.

(** ** The sums *)

Lemma length_leaves data : (length (leaves data) <= length data)%nat.
Proof.
  unfold leaves. rewrite length_map. enough (forall fuel d, (length (split_blocks fuel d) <= fuel)%nat) as He by apply He.
  induction fuel as [|fuel IH]; intros [|c d]; cbn [split_blocks length]; try lia. specialize (IH (drop BlockSize (c :: d))). lia.
Qed.

(** The blocks of so many bytes. *)
Definition blocks_of (n : Z) : Z := (n + Z.of_nat BlockSize - 1) / Z.of_nat BlockSize.

Lemma SumMinLength_is h b n : Z.of_nat (length (curBlocks h)) < 2 ^ 61 -> 0 <= n < 2 ^ 61 ->
  (blocks_of n < Z.of_nat (length (curBlocks h)) -> exists m, SumMinLength h b n = Panicked m) /\
  (Z.of_nat (length (curBlocks h)) <= blocks_of n ->
   SumMinLength h b n = Val (b ++ padded_root (curBlocks h ++ replicate (Z.to_nat (blocks_of n) - length (curBlocks h)) zero) zero)).
Proof.
  intros Hb Hn. pose proof BlockSize_pos as Hpos. unfold SumMinLength. rewrite Z.quot_div_nonneg by lia. fold (blocks_of n).
  assert (0 <= blocks_of n <= n) as Hbn. { unfold blocks_of. split; [apply Z.div_pos; lia|]. apply Z.lt_succ_r, Z.div_lt_upper_bound; [lia|]. nia. }
  split; intros Hc; destruct (Z.ltb_spec (blocks_of n - Z.of_nat (length (curBlocks h))) 0); try lia; [by eexists|].
  rewrite RootWithPadHash_is by (rewrite length_app, length_replicate; lia). do 5 f_equal. lia.
Qed.

(** However data is written to the hash, its sum is the root of the tree
    over the hashes of the blocks of the data, filled up with zero hashes to a
    power of two; with a minimum length the missing blocks are zero hashes too,
    and more data than that panics; every write takes all of its bytes. *)
Theorem Sum_is_the_root ws b n : let data := concat ws in let h := foldl (fun h p => fst (Write h p)) NewHash ws in
  Z.of_nat (length data) < 2 ^ 61 -> 0 <= n < 2 ^ 61 ->
  Sum h b = Val (b ++ padded_root (leaves data) zero) /\
  (blocks_of n < Z.of_nat (length (leaves data)) -> exists m, SumMinLength h b n = Panicked m) /\
  (Z.of_nat (length (leaves data)) <= blocks_of n ->
   SumMinLength h b n = Val (b ++ padded_root (leaves data ++ replicate (Z.to_nat (blocks_of n) - length (leaves data)) zero) zero)) /\
  (forall p, snd (Write h p) = length p).
Proof.
  intros data h Hb Hn. pose proof (writes_hold ws) as Hh. fold h data in Hh. pose proof (length_leaves data). split.
  - unfold Sum. rewrite (holds_leaves h data Hh), RootWithPadHash_is by lia. done.
  - destruct (SumMinLength_is h b n) as [H1 H2]; [rewrite (holds_leaves h data Hh); lia|done|]. rewrite (holds_leaves h data Hh) in H1, H2.
    split_and!; [done|done|]. intros p. by destruct (Write_run_holds (length p) h data p 0 ltac:(lia) Hh).
Qed.

(** The hashes of a layer: never an error; what is too short for a hash is left
    out. *)
Lemma CompactLayer_reads compactLayer : exists hashes,
  CompactLayerToSliceHashes compactLayer = Ok hashes /\ concat hashes = take (length compactLayer / 32 * 32) compactLayer.
Proof.
  unfold CompactLayerToSliceHashes. pose proof (Nat.div_mod (length compactLayer) 32 ltac:(lia)) as Hd. pose proof (Nat.mod_upper_bound (length compactLayer) 32 ltac:(lia)).
  set (k := (length compactLayer / 32)%nat) in *.
  enough (forall n i, (i + n = k)%nat -> exists hashes, slice_hashes n i compactLayer = Ok hashes /\ concat hashes = take (n * 32) (drop (i * 32) compactLayer)) as He by apply (He k 0%nat eq_refl).
  induction n as [|n IH]; intros i Hi; [by exists []|]. destruct (IH (S i) ltac:(lia)) as (hashes & Hh & Hc). cbn [slice_hashes].
  rewrite length_take, length_drop. replace (Nat.min 32 (length compactLayer - i * 32)) with 32%nat by lia. cbn [Nat.eqb]. rewrite Hh. eexists. split; [done|].
  cbn [concat]. rewrite Hc. replace (S i * 32)%nat with (i * 32 + 32)%nat by lia. rewrite <-drop_drop. replace (S n * 32)%nat with (32 + n * 32)%nat by lia.
  by rewrite take_take_drop.
Qed.
End sha256.

(** ** A hash function *)

Module merkle_sample.

(** As many times the first byte as there are bytes. *)
Definition short : Sha256 := {| Sum256 data := replicate 32 (of_byte (Z.of_nat (length data) mod 256)) |}.

#[local] Existing Instance short.

Definition text : list ascii := replicate 5 (of_byte 7).

Lemma Sum_is_the_root_witness :
  Z.of_nat (length (concat [text; []; text])) < 2 ^ 61 /\
  Sum (fst (Write (fst (Write (fst (Write NewHash text)) [])) text)) [] = Val ([] ++ padded_root (leaves (text ++ text)) zero) /\
  SumMinLength (fst (Write (fst (Write (fst (Write NewHash text)) [])) text)) [] 16385 = Val (padded_root (leaves (text ++ text) ++ [zero]) zero).
Proof.
  assert (Z.of_nat (length (concat [text; []; text])) < 2 ^ 61) as Hb by (vm_compute; reflexivity).
  pose proof (Sum_is_the_root [text; []; text] [] 16385 Hb ltac:(lia)) as (H1 & _ & H2 & _). split; [exact Hb|]. split; [exact H1|].
  refine (eq_trans (H2 ltac:(vm_compute; discriminate)) _). vm_compute. reflexivity.
Defined.

Example Root_of_four : Root [text; text; text; text] = Val (Sum256 (Sum256 (text ++ text) ++ Sum256 (text ++ text))).
Proof. vm_compute. reflexivity. Qed.

End merkle_sample.
End merkle.
