(* ===== verification/Iplist.v ===== *)
(** * Lists of addresses to block

    [iplist] (src/licenses/github.com/anacrolix/torrent/iplist/iplist.go,
    packed.go): ranges of addresses, read from a text list, looked up by binary
    search, and packed into bytes that are looked up as they are. An address is
    its bytes, [nil] none; [net.ParseIP] and [bytes.TrimSpace] are parameters.
    [Lookup_is_the_search]: in ranges that are sorted and apart, the range found
    is the one that has the address. [packed_list_answers]: a packed list answers
    as the list of the same ranges with 16 bytes an address. A list with addresses
    of four bytes is searched for the 16 bytes of an address, too, and compares
    them byte by byte: [zero_net_blocks_all]. *)

From S2P Require Import Prelude Prog Segments Bytes.
From Stdlib Require Import ZArith Lia Ascii String Sorted.
From stdpp Require Import base strings list gmap.

Local Open Scope Z_scope.

(** What the text of a list is read with. *)
Class NetText : Type := {
  ParseIP : list ascii -> list ascii;
  TrimSpace : list ascii -> list ascii;
}.

Module iplist.

Abbreviation IP := (list ascii).

Record Range : Type := mkRange { First : IP; Last : IP; Description : list ascii }.

Definition no_range : Range := mkRange [] [] [].

(** ** Addresses *)

Fixpoint Compare (a b : list ascii) : comparison :=
  match a, b with
  | [], [] => Eq
  | [], _ => Lt
  | _, [] => Gt
  | x :: a', y :: b' => match Z.compare (byte_of x) (byte_of y) with Eq => Compare a' b' | c => c end
  end.

Definition le (a b : list ascii) : bool := match Compare a b with Gt => false | _ => true end.
Definition lt (a b : list ascii) : bool := match Compare a b with Lt => true | _ => false end.

Definition v4InV6Prefix : list ascii := replicate 10 (of_byte 0) ++ [of_byte 255; of_byte 255].

(** [net.IP.To4], [net.IP.To16]. *)
Definition To4 (ip : IP) : option IP :=
  if (length ip =? 4)%nat then Some ip
  else if (length ip =? 16)%nat && bool_decide (take 12 ip = v4InV6Prefix) then Some (drop 12 ip)
  else None.

Definition To16 (ip : IP) : option IP :=
  if (length ip =? 4)%nat then Some (v4InV6Prefix ++ ip)
  else if (length ip =? 16)%nat then Some ip
  else None.

(** ** Looking up *)

Definition bind {A B} (r : res A) (f : A -> res B) : res B := match r with Val a => f a | Panicked m => Panicked m end.

(** [sort.Search], by a function that may panic: [less h] says that it is false
    at [h]. *)
Fixpoint Search_run (fuel : nat) (less : nat -> res bool) (i j : nat) : res nat :=
  match fuel with
  | O => Val i
  | S fuel' =>
      if (i <? j)%nat then
        let h := ((i + j) / 2)%nat in
        bind (less h) (fun b => if b then Search_run fuel' less (h + 1) j else Search_run fuel' less i h)
      else Val i
  end.

(** The ranges as functions of the index, and their number. *)
Definition lookup (first : nat -> res IP) (full : nat -> res Range) (n : Z) (ip : IP) : res (Range * bool) :=
  bind (Search_run (Z.to_nat n)
          (fun i => if n <=? Z.of_nat i + 1 then Val false
                    else bind (first (i + 1)%nat) (fun f => Val (negb (lt ip f)))) 0 (Z.to_nat n)) (fun i =>
  if Z.of_nat i =? n then Val (no_range, false)
  else bind (full i) (fun r => Val (r, le (First r) ip && le ip (Last r)))).

Definition nth_range (ranges : list Range) (i : nat) : res Range :=
  match ranges !! i with Some r => Val r | None => Panicked "runtime error: index out of range" end.

Definition IPList_lookup (ranges : list Range) (ip : IP) : res (Range * bool) :=
  lookup (fun i => bind (nth_range ranges i) (fun r => Val (First r))) (nth_range ranges) (Z.of_nat (length ranges)) ip.

Definition bad_ip : list ascii := list_ascii_of_string "bad IP".

(** What is looked up when the address has no four bytes or is not found by them. *)
Definition Lookup16 (ranges : list Range) (ip : IP) : res (Range * bool) :=
  match To16 ip with
  | Some v6 => IPList_lookup ranges v6
  | None => match To4 ip with
            | None => Val (mkRange [] [] bad_ip, true)
            | Some _ => Val (no_range, false)
            end
  end.

(** The list is a pointer. *)
Definition Lookup (ipl : option (list Range)) (ip : IP) : res (Range * bool) :=
  match ipl with
  | None => Val (no_range, false)
  | Some ranges =>
      match To4 ip with
      | Some v4 =>
          match IPList_lookup ranges v4 with
          | Val (r, true) => Val (r, true)
          | Val _ => Lookup16 ranges ip
          | Panicked m => Panicked m
          end
      | None => Lookup16 ranges ip
      end
  end.

Definition NumRanges (ipl : option (list Range)) : nat := match ipl with None => 0 | Some ranges => length ranges end.

(** ** Reading a list *)

Definition minifyIP (ip : IP) : IP := match To4 ip with Some v4 => v4 | None => ip end.

(** [bytes.IndexByte] and [bytes.LastIndexAny]. *)
Fixpoint IndexByte (l : list ascii) (c : ascii) : option nat :=
  match l with
  | [] => None
  | x :: l' => if bool_decide (x = c) then Some 0%nat else S <$> IndexByte l' c
  end.

Fixpoint LastIndexByte (l : list ascii) (c : ascii) : option nat :=
  match l with
  | [] => None
  | x :: l' => match LastIndexByte l' c with
               | Some i => Some (S i)
               | None => if bool_decide (x = c) then Some 0%nat else None
               end
  end.

Section read.
Context `{NetText}.

Inductive line_error : Type := MissingColon | MissingHyphen | BadIPRange.

Definition ParseBlocklistP2PLine (l : list ascii) : outcome line_error (option Range) :=
  let l := TrimSpace l in
  match l with
  | [] => Ok None
  | c :: _ =>
      if bool_decide (c = "#"%char) then Ok None
      else match LastIndexByte l ":"%char with
           | None => Err MissingColon
           | Some colon =>
               let addrs := drop (colon + 1) l in
               match IndexByte addrs "-"%char with
               | None => Err MissingHyphen
               | Some hyphen =>
                   let first := minifyIP (ParseIP (take hyphen addrs)) in
                   let last_ := minifyIP (ParseIP (drop (hyphen + 1) addrs)) in
                   if bool_decide (first = []) || bool_decide (last_ = []) || negb (length first =? length last_)%nat
                   then Err BadIPRange
                   else Ok (Some (mkRange first last_ (take colon l)))
               end
           end
  end.

(** The lines that a scanner gives, and the error it ends with. *)
Fixpoint scan_lines {E} (lines : list (list ascii)) (lineNum : Z) (ranges : list Range) (scanErr : option E) : outcome (E + Z * line_error) (list Range) :=
  match lines with
  | [] => match scanErr with Some e => Err (inl e) | None => Ok ranges end
  | l :: lines' =>
      match ParseBlocklistP2PLine l with
      | Err e => Err (inr (lineNum, e))
      | Ok None => scan_lines lines' (lineNum + 1) ranges scanErr
      | Ok (Some r) => scan_lines lines' (lineNum + 1) (ranges ++ [r]) scanErr
      end
  end.

Definition NewFromReader {E} (lines : list (list ascii)) (scanErr : option E) : outcome (E + Z * line_error) (list Range) :=
  scan_lines lines 1 [] scanErr.
End read.

(** ** Packed lists *)

(** Little-endian integers. *)
Definition put (n : nat) (z : Z) : list ascii := rev (be n z).
Definition get (l : list ascii) : Z := of_be (rev l).

Definition packedRangesOffset : Z := 8.
Definition packedRangeLen : Z := 44.

(** What the writer got, the offsets of descriptions, the descriptions in order
    and where the next one goes. The writer takes everything. *)
Record packing : Type := mkPacking {
  written : list ascii;
  descOffsets : gmap (list ascii) Z;
  descs : list (list ascii);
  nextOffset : Z;
}.

Definition write (p : packing) (b : list ascii) (expectedLen : nat) : res packing :=
  if (length b =? expectedLen)%nat then Val (mkPacking (written p ++ b) (descOffsets p) (descs p) (nextOffset p))
  else Panicked "short write".

Definition add_desc (p : packing) (d : list ascii) : packing * Z :=
  match descOffsets p !! d with
  | Some off => (p, off)
  | None => (mkPacking (written p) (<[d := nextOffset p]> (descOffsets p)) (descs p ++ [d]) (i64 (nextOffset p + Z.of_nat (length d))), nextOffset p)
  end.

Definition bytes16 (ip : IP) : list ascii := match To16 ip with Some v6 => v6 | None => [] end.

Definition write_range (p : packing) (r : Range) : res packing :=
  bind (write p (bytes16 (First r)) 16) (fun p =>
  bind (write p (bytes16 (Last r)) 16) (fun p =>
  let '(p, descOff) := add_desc p (Description r) in
  bind (write p (put 8 (descOff mod 2 ^ 64)) 8) (fun p =>
  write p (put 4 (Z.of_nat (length (Description r)) mod 2 ^ 32)) 4))).

Fixpoint write_ranges (p : packing) (ranges : list Range) : res packing :=
  match ranges with [] => Val p | r :: ranges' => bind (write_range p r) (fun p => write_ranges p ranges') end.

Fixpoint write_descs (p : packing) (ds : list (list ascii)) : res packing :=
  match ds with [] => Val p | d :: ds' => bind (write p d (length d)) (fun p => write_descs p ds') end.

Definition WritePacked (ranges : list Range) : res (list ascii) :=
  bind (write (mkPacking [] ∅ [] 0) (put 8 (Z.of_nat (length ranges) mod 2 ^ 64)) 8) (fun p =>
  bind (write_ranges p ranges) (fun p =>
  bind (write_descs p (descs p)) (fun p => Val (written p)))).

(** A slice of the bytes, which have no spare capacity. *)
Definition slice (b : list ascii) (from to : Z) : list ascii := take (Z.to_nat (to - from)) (drop (Z.to_nat from) b).

Definition slice_ok (b : list ascii) (from to : Z) : bool := (0 <=? from) && (from <=? to) && (to <=? Z.of_nat (length b)).

Definition sub (b : list ascii) (from to : Z) : res (list ascii) :=
  if slice_ok b from to then Val (slice b from to) else Panicked "runtime error: slice bounds out of range".

(** Of the bytes [NewFromPacked] accepts. *)
Definition PackedLen (pil : list ascii) : Z := i64 (get (slice pil 0 8)).

Definition NewFromPacked (b : list ascii) : res (list ascii) :=
  if Z.of_nat (length b) <? 8 then Panicked "runtime error: slice bounds out of range"
  else if Z.of_nat (length b) <? i64 (packedRangesOffset + PackedLen b * packedRangeLen) then Panicked "packed len"
  else Val b.

Definition getFirst (pil : list ascii) (i : nat) : res IP :=
  let off := i64 (packedRangesOffset + packedRangeLen * Z.of_nat i) in sub pil off (i64 (off + 16)).

Definition getRange (pil : list ascii) (i : nat) : res Range :=
  let rOff := i64 (packedRangesOffset + packedRangeLen * Z.of_nat i) in
  bind (sub pil (i64 (rOff + 16)) (i64 (rOff + 32))) (fun last_ =>
  bind (sub pil (i64 (rOff + 32)) (i64 (rOff + 40))) (fun descOff =>
  bind (sub pil (i64 (rOff + 40)) (i64 (rOff + 44))) (fun descLen =>
  let descOff := i64 (i64 (get descOff) + (packedRangesOffset + packedRangeLen * PackedLen pil)) in
  bind (getFirst pil i) (fun first =>
  bind (sub pil descOff (i64 (descOff + get descLen))) (fun desc => Val (mkRange first last_ desc)))))).

Definition PackedLookup (pil : list ascii) (ip : IP) : res (Range * bool) :=
  match To16 ip with
  | None => Panicked "not an address"
  | Some ip16 => lookup (getFirst pil) (getRange pil) (PackedLen pil) ip16
  end.


(** ** The order of addresses *)

Lemma Compare_refl a : Compare a a = Eq.
Proof. induction a as [|x a IH]; [done|]. cbn [Compare]. by rewrite Z.compare_refl. Qed.

Lemma Compare_sym a b : Compare b a = CompOpp (Compare a b).
Proof.
  revert b. induction a as [|x a IH]; intros [|y b]; try done. cbn [Compare]. rewrite (Z.compare_antisym (byte_of x)).
  destruct (byte_of x ?= byte_of y); [apply IH|done|done].
Qed.

Lemma Compare_eq a b : Compare a b = Eq -> a = b.
Proof.
  revert b. induction a as [|x a IH]; intros [|y b]; try done. cbn [Compare]. destruct (Z.compare_spec (byte_of x) (byte_of y)) as [He| |]; try done.
  intros Hc. f_equal; [by apply byte_of_inj|by apply IH].
Qed.

Lemma Compare_lt_trans a b c : Compare a b = Lt -> Compare b c = Lt -> Compare a c = Lt.
Proof.
  revert b c. induction a as [|x a IH]; intros [|y b] [|z c]; try done. cbn [Compare].
  destruct (Z.compare_spec (byte_of x) (byte_of y)) as [H1|H1|H1], (Z.compare_spec (byte_of y) (byte_of z)) as [H2|H2|H2]; try done;
    destruct (Z.compare_spec (byte_of x) (byte_of z)); try lia; try done. apply IH.
Qed.

Lemma le_refl a : le a a = true.
Proof. unfold le. by rewrite Compare_refl. Qed.

Lemma lt_le a b : lt a b = true -> le a b = true.
Proof. unfold lt, le. by destruct (Compare a b). Qed.

(** [le a b] is [a < b] or [a = b]. *)
Lemma le_cases a b : le a b = true -> lt a b = true \/ a = b.
Proof. unfold lt, le. destruct (Compare a b) eqn:E; [right; by apply Compare_eq|by left|done]. Qed.

Lemma lt_trans a b c : lt a b = true -> lt b c = true -> lt a c = true.
Proof.
  unfold lt. destruct (Compare a b) eqn:E1, (Compare b c) eqn:E2; try done. by rewrite (Compare_lt_trans a b c).
Qed.

Lemma le_lt_trans a b c : le a b = true -> lt b c = true -> lt a c = true.
Proof. intros [H| ->]%le_cases Hc; [by apply (lt_trans a b c)|done]. Qed.

Lemma lt_le_trans a b c : lt a b = true -> le b c = true -> lt a c = true.
Proof. intros Ha [H| ->]%le_cases; [by apply (lt_trans a b c)|done]. Qed.

Lemma lt_not_le a b : lt a b = negb (le b a).
Proof. unfold lt, le. rewrite (Compare_sym a b). by destruct (Compare a b). Qed.

(** ** The search *)

Definition contains (ip : IP) (r : Range) : bool := le (First r) ip && le ip (Last r).

(** Ranges in order, none of them empty, and no two with an address in common. *)
Definition ordered (ranges : list Range) : Prop :=
  Forall (fun r => le (First r) (Last r) = true) ranges /\ StronglySorted (fun a b => lt (Last a) (First b) = true) ranges.

(** The first range, in a list, with an address. *)
Definition search (ranges : list Range) (ip : IP) : option Range := List.find (contains ip) ranges.

Lemma ordered_lookup ranges i j a b : ordered ranges -> (i < j)%nat -> ranges !! i = Some a -> ranges !! j = Some b -> lt (Last a) (First b) = true.
Proof.
  intros [_ Hs]. revert i j. induction Hs as [|x l Hs IH Hx]; intros i j Hij Ha Hb; [done|].
  destruct j as [|j]; [lia|]. cbn in Hb. destruct i as [|i]; [|apply (IH i j); [lia|done|done]]. injection Ha as <-.
  rewrite Forall_forall in Hx. apply Hx. by apply list_elem_of_lookup_2 in Hb.
Qed.

Lemma ordered_range ranges i a : ordered ranges -> ranges !! i = Some a -> le (First a) (Last a) = true.
Proof. intros [Hf _] Ha. rewrite Forall_forall in Hf. apply Hf. by apply list_elem_of_lookup_2 in Ha. Qed.

Lemma ordered_first ranges i j a b : ordered ranges -> (i <= j)%nat -> ranges !! i = Some a -> ranges !! j = Some b -> le (First a) (First b) = true.
Proof.
  intros Ho Hij Ha Hb. destruct (decide (i = j)) as [->|Hne]; [rewrite Ha in Hb; simplify_eq; apply le_refl|].
  apply lt_le, (le_lt_trans _ (Last a)); [by apply (ordered_range ranges i)|]. apply (ordered_lookup ranges i j); [done|lia|done|done].
Qed.

Lemma search_unique ranges ip i r : ordered ranges -> ranges !! i = Some r -> contains ip r = true -> search ranges ip = Some r.
Proof.
  intros Ho Hr Hc. unfold search. destruct (List.find (contains ip) ranges) as [r'|] eqn:E.
  - apply List.find_some in E as [Hin Hc']. apply list_elem_of_In, list_elem_of_lookup_1 in Hin as [j Hj].
    apply andb_true_iff in Hc as [H1 H2], Hc' as [H1' H2'].
    destruct (Nat.lt_trichotomy i j) as [Hlt|[->|Hlt]]; [|congruence|].
    + pose proof (ordered_lookup ranges i j r r' Ho Hlt Hr Hj) as Hb. rewrite lt_not_le in Hb. pose proof (le_lt_trans ip (Last r) (First r') H2 ltac:(by rewrite lt_not_le)) as Hb'.
      rewrite lt_not_le, H1' in Hb'. done.
    + pose proof (ordered_lookup ranges j i r' r Ho Hlt Hj Hr) as Hb. pose proof (le_lt_trans ip (Last r') (First r) H2' Hb) as Hb'. rewrite lt_not_le, H1 in Hb'. done.
  - apply list_elem_of_lookup_2, list_elem_of_In in Hr. by rewrite (List.find_none _ _ E r Hr) in Hc.
Qed.

(** The range behind [i] does not start behind the address. *)
Definition starts_before (ranges : list Range) (ip : IP) (i : nat) : Prop := exists b, ranges !! (i + 1)%nat = Some b /\ le (First b) ip = true.

Lemma found_at ranges ip k r : ordered ranges -> ranges !! k = Some r -> contains ip r = true ->
  ~ starts_before ranges ip k /\ forall h, (h < k)%nat -> starts_before ranges ip h.
Proof.
  intros Ho Hr [H1 H2]%andb_true_iff. split.
  - intros (b & Hb & Hle). pose proof (ordered_lookup ranges k (k + 1) r b Ho ltac:(lia) Hr Hb) as Hlt.
    pose proof (le_lt_trans _ _ _ H2 Hlt) as Hc. by rewrite lt_not_le, Hle in Hc.
  - intros h Hh. apply lookup_lt_Some in Hr as Hl. destruct (lookup_lt_is_Some_2 ranges (h + 1)) as [b Hb]; [lia|]. exists b. split; [done|].
    pose proof (ordered_first ranges (h + 1) k b r Ho ltac:(lia) Hb Hr) as Hbr. destruct (le_cases _ _ Hbr) as [Hlt| ->]; [|done]. by apply lt_le, (lt_le_trans _ (First r)).
Qed.

Lemma starts_before_mono ranges ip h k : ordered ranges -> (h <= k)%nat -> starts_before ranges ip k -> starts_before ranges ip h.
Proof.
  intros Ho Hhk (b & Hb & Hle). apply lookup_lt_Some in Hb as Hl. destruct (lookup_lt_is_Some_2 ranges (h + 1)) as [a Ha]; [lia|].
  exists a. split; [done|]. pose proof (ordered_first ranges (h + 1) (k + 1) a b Ho ltac:(lia) Ha Hb) as Hab.
  destruct (le_cases _ _ Hab) as [Hlt| ->]; [|done]. by apply lt_le, (lt_le_trans _ (First b)).
Qed.

Lemma Search_run_is fuel less less' i j : (forall h, less h = Val (less' h)) ->
  Search_run fuel less i j = Val (segments.binary_search fuel less' i j).
Proof.
  intros Hl. revert i j. induction fuel as [|fuel IH]; intros i j; [done|]. cbn [Search_run segments.binary_search].
  destruct (i <? j)%nat; [|done]. rewrite Hl. cbn [bind]. by destruct (less' _).
Qed.

(** The binary search over ranges that are looked at by index finds it. *)
Lemma lookup_is_search ranges first full ip : ordered ranges ->
  (forall i r, ranges !! i = Some r -> first i = Val (First r) /\ full i = Val r) ->
  exists r0, lookup first full (Z.of_nat (length ranges)) ip = Val (match search ranges ip with Some r => (r, true) | None => (r0, false) end).
Proof.
  intros Ho Hfn. unfold lookup. rewrite Nat2Z.id.
  set (less := fun i => match ranges !! (i + 1)%nat with Some r => negb (lt ip (First r)) | None => false end).
  rewrite (Search_run_is _ _ less).
  2:{ intros h. unfold less. destruct (Z.leb_spec (Z.of_nat (length ranges)) (Z.of_nat h + 1)); [by rewrite lookup_ge_None_2 by lia|].
      destruct (lookup_lt_is_Some_2 ranges (h + 1)) as [r Hr]; [lia|]. rewrite Hr. by destruct (Hfn _ _ Hr) as [-> _]. }
  cbn [bind]. assert (forall i, less i = true <-> starts_before ranges ip i) as Hless.
  { intros i. unfold less, starts_before. destruct (ranges !! (i + 1)%nat) as [r|]; [|by split; [|intros (? & ? & _)]].
    rewrite lt_not_le, negb_involutive. split; [by exists r|]. by intros (? & [= <-] & ?). }
  destruct (segments.binary_search_spec (length ranges) less 0 (length ranges)) as (Hi & Hlo & Hhi); [|lia|lia|lia| |].
  - intros h k Hhk Hk%Hless. apply Hless. by apply (starts_before_mono ranges ip h k).
  - intros h Hh. apply not_true_is_false. intros (b & Hb & _)%Hless. apply lookup_lt_Some in Hb. lia.
  - set (i := segments.binary_search _ _ _ _) in *. destruct (Z.eqb_spec (Z.of_nat i) (Z.of_nat (length ranges))) as [He|He].
    + exists no_range. destruct ranges as [|r l]; [done|]. pose proof (Hlo (length l) ltac:(cbn [length] in *; lia)) as (b & Hb & _)%Hless.
      apply lookup_lt_Some in Hb. cbn [length] in Hb. lia.
    + destruct (lookup_lt_is_Some_2 ranges i) as [r Hr]; [lia|]. exists r. destruct (Hfn _ _ Hr) as [_ ->]. cbn [bind]. fold (contains ip r).
      destruct (contains ip r) eqn:Hc; [by rewrite (search_unique ranges ip i r)|]. destruct (search ranges ip) as [r'|] eqn:Hs; [|done].
      apply List.find_some in Hs as [Hin Hc']. apply list_elem_of_In, list_elem_of_lookup_1 in Hin as [k Hk].
      destruct (found_at ranges ip k r' Ho Hk Hc') as [Hn Hb]. destruct (Nat.lt_trichotomy i k) as [Hlt|[->|Hlt]]; [|congruence|].
      * apply Hb, Hless in Hlt. by rewrite (Hhi i) in Hlt.
      * destruct Hn. by apply Hless, Hlo.
Qed.

Lemma IPList_lookup_is ranges ip : ordered ranges ->
  exists r0, IPList_lookup ranges ip = Val (match search ranges ip with Some r => (r, true) | None => (r0, false) end).
Proof. intros Ho. apply lookup_is_search; [done|]. intros i r Hr. unfold nth_range. by rewrite Hr. Qed.

(** In a list of ranges that are in order and apart, looking up an address
    gives the range that has its four bytes, if any, or else the one that has its
    16 bytes; bytes that are no address count as blocked; no list blocks none. *)
Theorem Lookup_is_the_search ranges ip : ordered ranges ->
  exists r0, Lookup (Some ranges) ip =
    Val (match To4 ip, To16 ip with
         | Some v4, Some v6 =>
             match search ranges v4, search ranges v6 with
             | Some r, _ => (r, true) | None, Some r => (r, true) | None, None => (r0, false) end
         | None, Some v6 => match search ranges v6 with Some r => (r, true) | None => (r0, false) end
         | _, None => (mkRange [] [] bad_ip, true)
         end) /\ Lookup None ip = Val (no_range, false).
Proof.
  intros Ho. unfold Lookup, Lookup16. assert (To16 ip = None -> To4 ip = None) as H46 by (unfold To16, To4; destruct (length ip =? 4)%nat, (length ip =? 16)%nat; done).
  destruct (To4 ip) as [v4|], (To16 ip) as [v6|]; [| |destruct (IPList_lookup_is ranges v6 Ho) as [r0 ->]; by exists r0|by exists no_range].
  - destruct (IPList_lookup_is ranges v4 Ho) as [r0 ->]. destruct (IPList_lookup_is ranges v6 Ho) as [r1 ->]. exists r1.
    destruct (search ranges v4); [done|]. by destruct (search ranges v6).
  - by discriminate (H46 eq_refl).
Qed.

(** ** Packing *)

Lemma length_put n z : length (put n z) = n.
Proof. unfold put. by rewrite length_rev, be_length. Qed.

Lemma get_put n z : 0 <= z < 256 ^ Z.of_nat n -> get (put n z) = z.
Proof. intros Hz. unfold get, put. rewrite rev_involutive. by apply of_be_be. Qed.

Lemma slice_at a m c from to : from = Z.of_nat (length a) -> to = from + Z.of_nat (length m) -> slice (a ++ m ++ c) from to = m.
Proof.
  intros -> ->. unfold slice. replace (Z.to_nat (Z.of_nat (length a) + Z.of_nat (length m) - Z.of_nat (length a))) with (length m) by lia.
  rewrite Nat2Z.id, drop_app_length. apply take_app_length.
Qed.

Lemma sub_at b a m c from to : b = a ++ m ++ c -> from = Z.of_nat (length a) -> to = from + Z.of_nat (length m) -> sub b from to = Val m.
Proof.
  intros -> Hf Ht. unfold sub. rewrite (slice_at a m c from to Hf Ht).
  assert (slice_ok (a ++ m ++ c) from to = true) as ->; [|done]. unfold slice_ok. rewrite !andb_true_iff, !Z.leb_le, !length_app. lia.
Qed.

(** A range of a packed list, and the range that it is read as. *)
Definition entry (r : Range) (off : Z) : list ascii :=
  bytes16 (First r) ++ bytes16 (Last r) ++ put 8 off ++ put 4 (Z.of_nat (length (Description r))).

Definition widen (r : Range) : Range := mkRange (bytes16 (First r)) (bytes16 (Last r)) (Description r).

Definition range_ok (r : Range) : Prop :=
  is_Some (To16 (First r)) /\ is_Some (To16 (Last r)) /\ Z.of_nat (length (Description r)) < 2 ^ 32.

Lemma length_bytes16 ip : is_Some (To16 ip) -> length (bytes16 ip) = 16%nat.
Proof.
  intros [v Hv]. unfold bytes16. rewrite Hv. unfold To16 in Hv. destruct (Nat.eqb_spec (length ip) 4) as [He|_]; simplify_eq; [by rewrite length_app, He|].
  destruct (Nat.eqb_spec (length ip) 16); by simplify_eq.
Qed.

Lemma length_entry r off : range_ok r -> length (entry r off) = 44%nat.
Proof. intros (H1 & H2 & _). unfold entry. rewrite !length_app, !length_put, !length_bytes16 by done. done. Qed.

(** The descriptions are where they are looked for. *)
Record packs (p : packing) : Prop := {
  packs_next : nextOffset p = Z.of_nat (length (concat (descs p)));
  packs_at d off : descOffsets p !! d = Some off -> 0 <= off /\ exists a c, concat (descs p) = a ++ d ++ c /\ off = Z.of_nat (length a);
}.

Lemma write_is p b n : length b = n -> write p b n = Val (mkPacking (written p ++ b) (descOffsets p) (descs p) (nextOffset p)).
Proof. intros Hl. unfold write. by rewrite Hl, Nat.eqb_refl. Qed.

Lemma packs_written p w : packs p -> packs (mkPacking w (descOffsets p) (descs p) (nextOffset p)).
Proof. intros [H1 H2]. by constructor. Qed.

Lemma add_desc_packs p d : packs p -> nextOffset p + Z.of_nat (length d) < 2 ^ 62 ->
  let '(p', off) := add_desc p d in
  packs p' /\ written p' = written p /\ descOffsets p' !! d = Some off /\ descOffsets p ⊆ descOffsets p' /\
  nextOffset p <= nextOffset p' <= nextOffset p + Z.of_nat (length d) /\ 0 <= off < 2 ^ 62.
Proof.
  intros [Hn Ha] Hb. unfold add_desc. destruct (descOffsets p !! d) as [off|] eqn:Hd.
  - split_and!; [by constructor|done|done|done|lia|lia|by apply (Ha d)|]. destruct (Ha d off Hd) as (_ & a & c & Hc & ->).
    apply (f_equal length) in Hc. rewrite !length_app in Hc. lia.
  - assert (nextOffset p + Z.of_nat (length d) = Z.of_nat (length (concat (descs p ++ [d])))) as Hl by (rewrite concat_app, length_app; cbn [concat]; rewrite app_nil_r; lia).
    split_and!; cbn [written descOffsets descs nextOffset]; [|done|by rewrite lookup_insert_eq|by apply insert_subseteq|rewrite ?i64_id by lia; lia|rewrite ?i64_id by lia; lia|lia|lia].
    constructor; cbn [descOffsets descs nextOffset]; [rewrite i64_id by lia; done|]. intros d' off. rewrite concat_app. cbn [concat]. rewrite app_nil_r.
    destruct (decide (d = d')) as [<-|Hne].
    + rewrite lookup_insert_eq. intros [= <-]. split; [lia|]. exists (concat (descs p)), []. by rewrite app_nil_r.
    + rewrite lookup_insert_ne by done. intros Hoff. destruct (Ha d' off Hoff) as (H0 & a & c & Hc & Ho). split; [done|]. exists a, (c ++ d). split; [|done]. by rewrite Hc, <-!app_assoc.
Qed.

Lemma write_range_packs p r : packs p -> range_ok r -> nextOffset p + Z.of_nat (length (Description r)) < 2 ^ 62 ->
  exists p' off, write_range p r = Val p' /\ packs p' /\ written p' = written p ++ entry r off /\
    descOffsets p' !! Description r = Some off /\ descOffsets p ⊆ descOffsets p' /\
    nextOffset p <= nextOffset p' <= nextOffset p + Z.of_nat (length (Description r)) /\ 0 <= off < 2 ^ 62.
Proof.
  intros Hp (H1 & H2 & H3) Hb. unfold write_range. rewrite (write_is p) by (by apply length_bytes16). cbn [bind].
  rewrite write_is by (by apply length_bytes16). cbn [bind written descOffsets descs nextOffset].
  match goal with |- context [add_desc ?q _] => set (p1 := q); pose proof (add_desc_packs p1 (Description r) (packs_written p _ Hp) Hb) as Hadd end.
  destruct (add_desc p1 (Description r)) as [p' off]. destruct Hadd as (Hp' & Hw & Hd & Hsub & Hn & Ho).
  rewrite !Z.mod_small by lia. rewrite write_is by apply length_put. cbn [bind]. rewrite write_is by apply length_put. eexists _, off. split; [reflexivity|].
  cbn [written descOffsets descs nextOffset]. split_and!; [by apply packs_written| |done|done|apply Hn|apply Hn|lia|lia].
  rewrite Hw. unfold p1, entry. cbn [written]. by rewrite <-!app_assoc.
Qed.

(** The lengths of the descriptions, all together. *)
Definition desc_bytes (ranges : list Range) : Z := foldr (fun r n => Z.of_nat (length (Description r)) + n) 0 ranges.

Lemma desc_bytes_nonneg ranges : 0 <= desc_bytes ranges.
Proof. induction ranges as [|r l IH]; cbn; [lia|]. unfold desc_bytes in IH. lia. Qed.

Lemma write_ranges_packs ranges p : packs p -> Forall range_ok ranges -> nextOffset p + desc_bytes ranges < 2 ^ 62 ->
  exists p' offs, write_ranges p ranges = Val p' /\ packs p' /\ written p' = written p ++ concat (zip_with entry ranges offs) /\
    descOffsets p ⊆ descOffsets p' /\ nextOffset p' <= nextOffset p + desc_bytes ranges /\
    Forall2 (fun r off => descOffsets p' !! Description r = Some off /\ 0 <= off < 2 ^ 62) ranges offs.
Proof.
  intros Hp Hok. revert p Hp. induction Hok as [|r l Hr Hl IH]; intros p Hp Hb.
  - exists p, []. cbn. rewrite app_nil_r. split_and!; [done|done|done|done|lia|constructor].
  - pose proof (desc_bytes_nonneg l) as H0. cbn [desc_bytes foldr] in Hb. fold (desc_bytes l) in Hb.
    destruct (write_range_packs p r Hp Hr ltac:(lia)) as (p1 & off & Hw & Hp1 & Hwr & Hd & Hsub & Hn & Ho).
    destruct (IH p1 Hp1 ltac:(lia)) as (p2 & offs & Hw2 & Hp2 & Hwr2 & Hsub2 & Hn2 & Hall). exists p2, (off :: offs). cbn [write_ranges]. rewrite Hw. cbn [bind].
    split_and!; [done|done| |by etransitivity|cbn [desc_bytes foldr]; fold (desc_bytes l); lia|].
    + rewrite Hwr2, Hwr. cbn [zip_with concat]. by rewrite <-app_assoc.
    + constructor; [|done]. split; [|done]. by apply (lookup_weaken _ _ _ _ Hd).
Qed.

Lemma write_descs_is p ds : write_descs p ds = Val (mkPacking (written p ++ concat ds) (descOffsets p) (descs p) (nextOffset p)).
Proof.
  revert p. induction ds as [|d ds IH]; intros p; cbn [write_descs concat]; [rewrite app_nil_r; by destruct p|].
  rewrite write_is by done. cbn [bind]. rewrite IH. cbn [written descOffsets descs nextOffset]. by rewrite <-app_assoc.
Qed.

(** What is written: the number of ranges, an entry for each, the descriptions. *)
Lemma WritePacked_is ranges : Forall range_ok ranges -> Z.of_nat (length ranges) < 2 ^ 56 -> desc_bytes ranges < 2 ^ 62 ->
  exists offs text, WritePacked ranges = Val (put 8 (Z.of_nat (length ranges)) ++ concat (zip_with entry ranges offs) ++ text) /\
    Z.of_nat (length text) < 2 ^ 62 /\
    Forall2 (fun r off => 0 <= off < 2 ^ 62 /\ exists a c, text = a ++ Description r ++ c /\ off = Z.of_nat (length a)) ranges offs.
Proof.
  intros Hok Hn Hb. unfold WritePacked. rewrite Z.mod_small by lia. rewrite write_is by apply length_put. cbn [bind written descOffsets descs nextOffset app].
  destruct (write_ranges_packs ranges (mkPacking (put 8 (Z.of_nat (length ranges))) ∅ [] 0)) as (p & offs & Hw & Hp & Hwr & _ & Hnx & Hall); [|done|done|].
  { constructor; [done|]. intros d off. cbn [descOffsets]. by rewrite lookup_empty. }
  rewrite Hw. cbn [bind]. rewrite write_descs_is. cbn [bind written]. exists offs, (concat (descs p)). split_and!.
  - rewrite Hwr. cbn [written]. by rewrite <-app_assoc.
  - rewrite (packs_next p Hp) in Hnx. cbn [nextOffset] in Hnx. lia.
  - eapply Forall2_impl; [exact Hall|]. cbn beta. intros r off [Hd Ho]. split; [done|]. by destruct (packs_at p Hp _ _ Hd) as (_ & a & c & Hc & He); exists a, c.
Qed.

(** ** Reading what was packed *)

Section packed.
Context (ranges : list Range) (offs : list Z) (text : list ascii).
Hypothesis Hok : Forall range_ok ranges.
Hypothesis Hn : Z.of_nat (length ranges) < 2 ^ 56.
Hypothesis Htext : Z.of_nat (length text) < 2 ^ 62.
Hypothesis Hoffs : Forall2 (fun r off => 0 <= off < 2 ^ 62 /\ exists a c, text = a ++ Description r ++ c /\ off = Z.of_nat (length a)) ranges offs.

Local Notation b := (put 8 (Z.of_nat (length ranges)) ++ concat (zip_with entry ranges offs) ++ text).

Lemma length_entries l os : Forall range_ok l -> length os = length l -> length (concat (zip_with entry l os)) = (44 * length l)%nat.
Proof.
  intros Hl. revert os. induction Hl as [|r l Hr Hl IH]; intros [|o os] Hlen; try done. cbn [zip_with concat length] in *.
  rewrite length_app, length_entry, IH by (done || lia). lia.
Qed.

Lemma length_offs : length offs = length ranges.
Proof. symmetry. by apply Forall2_length in Hoffs. Qed.

Lemma PackedLen_is : PackedLen b = Z.of_nat (length ranges).
Proof.
  unfold PackedLen. assert (slice b 0 8 = put 8 (Z.of_nat (length ranges))) as -> by (apply (slice_at []); rewrite ?length_put; done).
  rewrite get_put by (change (256 ^ Z.of_nat 8) with (2 ^ 64); lia). apply i64_id. lia.
Qed.

Lemma NewFromPacked_is : NewFromPacked b = Val b.
Proof.
  unfold NewFromPacked. rewrite PackedLen_is. rewrite !length_app, length_put, length_entries by (done || apply length_offs).
  unfold packedRangesOffset, packedRangeLen. rewrite i64_id by lia.
  destruct (Z.ltb_spec (Z.of_nat (8 + (44 * length ranges + length text))) 8); [lia|].
  destruct (Z.ltb_spec (Z.of_nat (8 + (44 * length ranges + length text))) (8 + Z.of_nat (length ranges) * 44)); [lia|done].
Qed.

(** Where an entry is. *)
Lemma entry_at i r : ranges !! i = Some r -> exists off x y, offs !! i = Some off /\ b = x ++ entry r off ++ y /\ Z.of_nat (length x) = 8 + 44 * Z.of_nat i.
Proof.
  intros Hr. apply lookup_lt_Some in Hr as Hl. destruct (lookup_lt_is_Some_2 offs i) as [off Ho]; [by rewrite length_offs|].
  exists off, (put 8 (Z.of_nat (length ranges)) ++ concat (zip_with entry (take i ranges) (take i offs))),
    (concat (zip_with entry (drop (S i) ranges) (drop (S i) offs)) ++ text).
  split; [done|]. split.
  - rewrite <-(take_drop_middle ranges i r Hr) at 2. rewrite <-(take_drop_middle offs i off Ho) at 1.
    rewrite zip_with_app by (rewrite !length_take, length_offs; lia). rewrite concat_app. cbn [zip_with concat]. by rewrite <-!app_assoc.
  - rewrite length_app, length_put, length_entries by (first [by apply Forall_take|rewrite !length_take, length_offs; lia]). rewrite length_take. lia.
Qed.

Lemma getRange_is i r : ranges !! i = Some r -> getFirst b i = Val (First (widen r)) /\ getRange b i = Val (widen r).
Proof.
  intros Hr. destruct (entry_at i r Hr) as (off & x & y & Ho & Hb & Hx). pose proof (proj1 (Forall_lookup _ _) Hok i r Hr) as (H1 & H2 & H3).
  pose proof (length_bytes16 _ H1) as L1. pose proof (length_bytes16 _ H2) as L2.
  destruct (Forall2_lookup_lr _ _ _ _ _ _ Hoffs Hr Ho) as (Hob & ta & tc & Ht & Hta). apply lookup_lt_Some in Hr as Hi.
  assert (Z.of_nat (length b) = 8 + 44 * Z.of_nat (length ranges) + Z.of_nat (length text)) as Hlb
    by (rewrite !length_app, length_put, length_entries by (done || apply length_offs); lia).
  set (rOff := 8 + 44 * Z.of_nat i) in *.
  assert (getFirst b i = Val (bytes16 (First r))) as Hf.
  { unfold getFirst, packedRangesOffset, packedRangeLen. fold rOff. rewrite !i64_id by lia. apply (sub_at b x _ (bytes16 (Last r) ++ put 8 off ++ put 4 (Z.of_nat (length (Description r))) ++ y)); [|lia..].
    rewrite Hb. unfold entry. by rewrite <-!app_assoc. }
  split; [done|]. unfold getRange. rewrite Hf, PackedLen_is. unfold packedRangesOffset, packedRangeLen. fold rOff. rewrite (i64_id rOff), !(i64_id (rOff + _)) by lia.
  rewrite (sub_at b (x ++ bytes16 (First r)) (bytes16 (Last r)) (put 8 off ++ put 4 (Z.of_nat (length (Description r))) ++ y))
    by (first [rewrite Hb; unfold entry; by rewrite <-!app_assoc|rewrite ?length_app; lia]).
  cbn [bind]. rewrite (sub_at b (x ++ bytes16 (First r) ++ bytes16 (Last r)) (put 8 off) (put 4 (Z.of_nat (length (Description r))) ++ y))
    by (first [rewrite Hb; unfold entry; by rewrite <-!app_assoc|rewrite ?length_app, ?length_put; lia]).
  cbn [bind]. rewrite (sub_at b (x ++ bytes16 (First r) ++ bytes16 (Last r) ++ put 8 off) (put 4 (Z.of_nat (length (Description r)))) y)
    by (first [rewrite Hb; unfold entry; by rewrite <-!app_assoc|rewrite ?length_app, ?length_put; lia]).
  cbn [bind]. rewrite !get_put by (first [change (256 ^ Z.of_nat 8) with (2 ^ 64); lia|change (256 ^ Z.of_nat 4) with (2 ^ 32); lia]).
  assert (length ta + length (Description r) <= length text)%nat by (apply (f_equal length) in Ht; rewrite !length_app in Ht; lia).
  rewrite (i64_id off) by lia. rewrite (i64_id (off + (8 + 44 * Z.of_nat (length ranges)))) by lia. rewrite i64_id by lia.
  rewrite (sub_at b (put 8 (Z.of_nat (length ranges)) ++ concat (zip_with entry ranges offs) ++ ta) (Description r) tc); [done|..].
  - rewrite Ht. by rewrite <-!app_assoc.
  - rewrite !length_app, length_put, length_entries by (done || apply length_offs). lia.
  - lia.
Qed.
End packed.

(** Ranges of addresses of four or 16 bytes are packed; the packed list is
    accepted, has the ranges, with 16 bytes an address, and, when they are in
    order and apart, looks up what has the 16 bytes of an address. *)
Theorem packed_list_answers ranges : Forall range_ok ranges -> Z.of_nat (length ranges) < 2 ^ 56 -> desc_bytes ranges < 2 ^ 62 ->
  exists b, WritePacked ranges = Val b /\ NewFromPacked b = Val b /\ PackedLen b = Z.of_nat (length ranges) /\
    (forall i r, ranges !! i = Some r -> getRange b i = Val (widen r)) /\
    (ordered (map widen ranges) -> forall ip ip16, To16 ip = Some ip16 -> exists r0,
       PackedLookup b ip = Val (match search (map widen ranges) ip16 with Some r => (r, true) | None => (r0, false) end)).
Proof.
  intros Hok Hn Hb. destruct (WritePacked_is ranges Hok Hn Hb) as (offs & text & Hw & Htext & Hoffs). eexists. split; [exact Hw|].
  match goal with |- NewFromPacked ?x = _ /\ _ => set (b := x) end. assert (PackedLen b = Z.of_nat (length ranges)) as Hlen by by apply PackedLen_is.
  assert (forall i r, ranges !! i = Some r -> getFirst b i = Val (First (widen r)) /\ getRange b i = Val (widen r)) as Hget by (intros i r Hr; by apply getRange_is).
  split_and!; [by apply NewFromPacked_is|done|intros i r Hr; by apply Hget|]. intros Ho ip ip16 Hip. unfold PackedLookup.
  rewrite Hip, Hlen, <-(length_map widen ranges). apply lookup_is_search; [done|].
  intros i r Hr. rewrite list_lookup_fmap in Hr. destruct (ranges !! i) as [r'|] eqn:Hr'; [|done]. cbn in Hr. injection Hr as <-. by apply Hget.
Qed.

(** ** Addresses of four bytes among those of 16 *)

Definition ip4 (a b c d : Z) : IP := map of_byte [a; b; c; d].

(** An address of four bytes that is in none of the ranges is looked up by its
    16 bytes, too, and those compare as less than [0.255.255.255]: a list with the
    range that every block list has blocks every address. *)
Example zero_net_blocks_all :
  let zero_net := mkRange (ip4 0 0 0 0) (ip4 0 255 255 255) (list_ascii_of_string "reserved") in
  let other := mkRange (ip4 1 2 3 0) (ip4 1 2 3 255) (list_ascii_of_string "other") in
  search [zero_net; other] (ip4 8 8 8 8) = None /\ Lookup (Some [zero_net; other]) (ip4 8 8 8 8) = Val (zero_net, true).
Proof. vm_compute. done. Qed.

Module iplist_sample.

Definition ranges : list Range := [
  mkRange (ip4 1 2 3 0) (ip4 1 2 3 255) (list_ascii_of_string "one");
  mkRange (ip4 1 2 4 0) (ip4 1 2 4 7) (list_ascii_of_string "two");
  mkRange (ip4 9 0 0 0) (ip4 9 255 255 255) (list_ascii_of_string "one")].

Lemma ranges_ordered : ordered ranges /\ ordered (map widen ranges).
Proof. split; (split; [repeat constructor|repeat (constructor; [|repeat constructor]); repeat constructor]). Qed.

Lemma ranges_ok : Forall range_ok ranges.
Proof. repeat constructor; (eexists; reflexivity) || (vm_compute; reflexivity). Qed.

Lemma Lookup_is_the_search_witness :
  ordered ranges /\ Lookup (Some ranges) (ip4 1 2 4 5) = Val (mkRange (ip4 1 2 4 0) (ip4 1 2 4 7) (list_ascii_of_string "two"), true).
Proof.
  split; [exact (proj1 ranges_ordered)|]. destruct (Lookup_is_the_search ranges (ip4 1 2 4 5) (proj1 ranges_ordered)) as (r0 & H & _).
  refine (eq_trans H _). vm_compute. reflexivity.
Defined.

Lemma packed_list_answers_witness :
  Forall range_ok ranges /\ exists b, WritePacked ranges = Val b /\
    PackedLookup b (ip4 9 1 2 3) = Val (widen (mkRange (ip4 9 0 0 0) (ip4 9 255 255 255) (list_ascii_of_string "one")), true).
Proof.
  split; [exact ranges_ok|]. destruct (packed_list_answers ranges ranges_ok ltac:(vm_compute; reflexivity) ltac:(vm_compute; reflexivity)) as (b & Hw & _ & _ & _ & Hl).
  exists b. split; [exact Hw|]. destruct (Hl (proj2 ranges_ordered) (ip4 9 1 2 3) _ eq_refl) as [r0 H]. refine (eq_trans H _). vm_compute. reflexivity.
Defined.

End iplist_sample.
End iplist.
