(* ===== verification/Disk.v ===== *)
(** * Files

    What package os, the mapping of files into memory and the piece completion
    do under the file storage (src/licenses/github.com/anacrolix/torrent/
    storage): files are inodes that names lead to, with a content, a write
    permission and a parent directory. A descriptor is the inode it was opened
    on, so that it outlives a rename. Any call of the system may fail, as the
    list of faults of the machine has it. Descriptors and mappings are released
    without a trace. *)

From S2P Require Import Prelude GoErrors Prog FilePath Segments.
From Stdlib Require Import ZArith Lia Ascii String.
From stdpp Require Import base gmap strings list.

Local Open Scope Z_scope.

(** ** Contents *)

Definition zero_byte : ascii := "000"%char.

(** [data[off:off+len]], as far as there is data. *)
Definition slice (data : list ascii) (off len : Z) : list ascii :=
  take (Z.to_nat len) (drop (Z.to_nat off) data).

(** The content after [p] was written at [off]. *)
Definition splice (data p : list ascii) (off : Z) : list ascii :=
  let o := Z.to_nat off in
  match p with
  | [] => data
  | _ => take o data ++ replicate (o - length data) zero_byte ++ p ++ drop (o + length p) data
  end.

(** The content cut or filled up to [size] bytes. *)
Definition resize_to (data : list ascii) (size : Z) : list ascii :=
  let n := Z.to_nat size in take n data ++ replicate (n - length data) zero_byte.

Definition size_of (data : list ascii) : Z := Z.of_nat (length data).

Lemma slice_length data off len : 0 <= off -> 0 <= len ->
  size_of (slice data off len) = Z.max 0 (Z.min len (size_of data - off)).
Proof. intros Ho Hl. unfold slice, size_of. rewrite length_take, length_drop. lia. Qed.

Lemma slice_lookup data off len i : 0 <= off -> 0 <= i < len ->
  slice data off len !! Z.to_nat i = data !! Z.to_nat (off + i).
Proof. intros Ho Hi. unfold slice. rewrite lookup_take_lt, lookup_drop by lia. f_equal. lia. Qed.

Lemma splice_length data p off : 0 <= off -> p <> [] ->
  size_of (splice data p off) = Z.max (size_of data) (off + size_of p).
Proof.
  intros Ho Hp. unfold splice, size_of. destruct p as [|c p]; [done|].
  rewrite !length_app, length_take, length_replicate, length_drop. lia.
Qed.

(** Where bytes were written they are read, and elsewhere what was there. *)
Lemma splice_lookup data p off i : 0 <= off -> 0 <= i ->
  splice data p off !! Z.to_nat i =
  if (off <=? i) && (i <? off + size_of p) then p !! Z.to_nat (i - off)
  else if i <? size_of data then data !! Z.to_nat i
  else if (i <? off) && negb (bool_decide (p = [])) then Some zero_byte else None.
Proof.
  intros Ho Hi. unfold splice, size_of. destruct p as [|c p'].
  { cbn [length]. destruct (Z.leb_spec off i), (Z.ltb_spec i (off + Z.of_nat 0)); try lia; cbn [andb];
      (destruct (Z.ltb_spec i (Z.of_nat (length data))); [done|]);
      rewrite andb_false_r, lookup_ge_None_2 by lia; done. }
  set (p := c :: p'). rewrite bool_decide_false by done. cbn [negb]. rewrite andb_true_r.
  assert (0 < Z.of_nat (length p)) by (cbn; lia).
  destruct (Z.leb_spec off i) as [H1|H1]; cbn [andb].
  - rewrite lookup_app_r by (rewrite length_take; lia). rewrite length_take.
    rewrite lookup_app_r by (rewrite length_replicate; lia). rewrite length_replicate.
    destruct (Z.ltb_spec i (off + Z.of_nat (length p))) as [H2|H2].
    + rewrite lookup_app_l by lia. f_equal. lia.
    + rewrite lookup_app_r by lia. rewrite lookup_drop.
      destruct (Z.ltb_spec i (Z.of_nat (length data))) as [H3|H3]; [f_equal; lia|].
      rewrite (proj2 (Z.ltb_ge i off)) by lia. apply lookup_ge_None_2. lia.
  - destruct (Z.ltb_spec i (Z.of_nat (length data))) as [H3|H3].
    + rewrite lookup_app_l by (rewrite length_take; lia). by rewrite lookup_take_lt by lia.
    + rewrite lookup_app_r by (rewrite length_take; lia). rewrite length_take.
      rewrite lookup_app_l by (rewrite length_replicate; lia). rewrite lookup_replicate_2 by lia.
      by rewrite (proj2 (Z.ltb_lt i off)) by lia.
Qed.

Lemma resize_length data size : 0 <= size -> size_of (resize_to data size) = size.
Proof. intros Hs. unfold resize_to, size_of. rewrite length_app, length_take, length_replicate. lia. Qed.

Lemma resize_lookup data size i : 0 <= i < size ->
  resize_to data size !! Z.to_nat i =
  if i <? size_of data then data !! Z.to_nat i else Some zero_byte.
Proof.
  intros Hi. unfold resize_to, size_of. destruct (Z.ltb_spec i (Z.of_nat (length data))) as [H|H].
  - rewrite lookup_app_l by (rewrite length_take; lia). by rewrite lookup_take_lt by lia.
  - rewrite lookup_app_r by (rewrite length_take; lia). rewrite length_take.
    rewrite lookup_replicate_2 by lia. done.
Qed.

Lemma resize_same data : resize_to data (size_of data) = data.
Proof.
  unfold resize_to, size_of. rewrite Nat2Z.id, Nat.sub_diag, take_ge by lia. apply app_nil_r.
Qed.

Lemma slice_splice data p off : 0 <= off -> slice (splice data p off) off (size_of p) = p.
Proof.
  intros Ho. destruct p as [|c p']; [done|]. set (p := c :: p'). unfold slice, splice, size_of. fold p.
  change (match p with [] => data | _ :: _ => ?x end) with x.
  rewrite app_assoc, drop_app_length', take_app_length'; [done|lia|].
  rewrite length_app, length_take, length_replicate. lia.
Qed.

(** ** The piece completion

    [storage.Completion] and the interface [PieceCompletion]; [pc_range] is the
    optional [GetRange] of a piece completion that has one. *)

Record Completion : Type := mkCompletion {
  CErr : option error;
  COk : bool;
  Complete : bool;
}.

Abbreviation PieceKey := (string * Z)%type (only parsing).

Class PieceCompletion (S : Type) : Type := {
  pc_get : PieceKey -> S -> res (result Completion) * S;
  pc_set : PieceKey -> bool -> S -> res (option error) * S;
  pc_range : option (string -> Z -> Z -> S -> list Completion);
  pc_persistent : bool;
}.

(** What is recorded of a piece, and when the completion is in order. *)
Class PieceCompletionLaws (S : Type) `{PieceCompletion S} : Type := {
  pc_ok : S -> Prop;
  pc_view : S -> gmap PieceKey bool;
  pc_get_spec : forall k s, 0 <= snd k -> pc_ok s -> exists s',
    pc_get k s = (Val (Ok (match pc_view s !! k with
                           | Some c => mkCompletion None true c
                           | None => mkCompletion None false false
                           end)), s') /\ pc_ok s' /\ pc_view s' = pc_view s;
  pc_set_spec : forall k b s, 0 <= snd k -> pc_ok s -> exists r s',
    pc_set k b s = (Val r, s') /\ pc_ok s' /\
    pc_view s' = match r with None => <[k := b]> (pc_view s) | Some _ => pc_view s end;
  pc_range_spec : forall f, pc_range = Some f -> forall h b e s, 0 <= b -> pc_ok s ->
    (exists i, is_Some (pc_view s !! (h, i))) ->
    f h b e s = map (fun i => match pc_view s !! (h, b + Z.of_nat i) with
                              | Some c => mkCompletion None true c
                              | None => mkCompletion None false false
                              end) (seq 0 (Z.to_nat (e - b)));
}.

(** ** The system *)

Module os.

Record inode : Type := mkInode { data : list ascii; writable : bool }.

(** A call that fails: with which error, and how many bytes it had moved. *)
Record fault : Type := mkFault { f_error : error; f_done : nat }.

(** A file mapped into memory, as the storage keeps it ([fileMmap]). *)
Record fileMmap : Type := mkMmap { mm_file : nat; mm_len : Z; mm_writable : bool }.

Record machine {S : Type} : Type := mkMachine {
  m_names : gmap string nat;
  m_inodes : gmap nat inode;
  m_next : nat;
  m_dirs : gset string;
  m_paths : gmap string fileMmap;
  m_faults : list (option fault);
  m_pc : S;
}.
Arguments machine : clear implicits.

Inductive osE : Type -> Type :=
| Open (name : string) : osE (result nat)
| OpenFile (name : string) (creat trunc : bool) : osE (result nat)
| MkdirAll (dir : string) : osE (option error)
| Chmod (name : string) (w : bool) : osE (option error)
| Stat (name : string) : osE (result Z)
| Rename (from to : string) : osE (option error)
| Truncate (f : nat) (size : Z) : osE (option error)
| Pread (f : nat) (len off : Z) : osE (list ascii * option error)
| ReadToEnd (f : nat) (off : Z) : osE (list ascii * option error)
| Pwrite (f : nat) (p : list ascii) (off : Z) : osE (Z * option error)
| Fsync (f : nat) : osE (option error)
| Close (f : nat) : osE (option error)
| SeekData (f : nat) (off : Z) : osE (result Z)
| SeekEnd (f : nat) : osE (result Z)
| Mmap (f : nat) : osE (result Z)
| Munmap (f : nat) : osE (option error)
| Msync (f : nat) (off len : Z) : osE (option error)
| Load (f : nat) (mapped off len : Z) : osE (list ascii)
| PathsLookup (name : string) : osE (option fileMmap)
| PathsStore (name : string) (v : fileMmap) : osE unit
| PathsDelete (name : string) : osE unit
| PcGet (k : PieceKey) : osE (result Completion)
| PcSet (k : PieceKey) (complete : bool) : osE (option error)
| PcRange (infoHash : string) (b e : Z) : osE (option (list Completion))
| PcPersistent : osE bool
| Panic (msg : string) : osE Empty_set.

(** The library that maps files (mmap-go) may refuse an empty one. *)
Class MmapLib : Type := { mmap_empty : option error }.

(** Where the next data is that is not in a hole ([lseek] with [SEEK_DATA]);
    [None] is [ENXIO]. *)
Class Holes : Type := { next_data : list ascii -> Z -> option Z }.

Class HolesLaws `{Holes} : Prop := {
  next_data_zeros : forall d off r, 0 <= off -> next_data d off = Some r ->
    off <= r < size_of d /\ forall k, off <= k < r -> d !! Z.to_nat k = Some zero_byte;
  next_data_none : forall d off, 0 <= off -> next_data d off = None ->
    forall k, off <= k < size_of d -> d !! Z.to_nat k = Some zero_byte;
}.

(** [filepath.Dir] *)
Fixpoint dir_part (p : string) : string :=
  match p with
  | "" => ""
  | String c p' =>
      let d := dir_part p' in
      if negb (bool_decide (d = "")) || bool_decide (c = path.sep) then String c d else ""
  end.

Definition Dir (p : string) : string := path.Clean (dir_part p).

Definition enoent (op name : string) : error := EWrap (op +:+ " " +:+ name +:+ ": ") (ESentinel FsErrNotExist) "".
Definition eacces (op name : string) : error := EWrap (op +:+ " " +:+ name +:+ ": ") (ESentinel FsErrPermission) "".
Definition bad_descriptor : error := EOpaque "bad file descriptor".
Definition negative_offset : error := EOpaque "negative offset".

Section handler.
Context {S : Type} `{PieceCompletion S} `{MmapLib} `{Holes}.

Definition with_names (m : machine S) x := mkMachine S x (m_inodes m) (m_next m) (m_dirs m) (m_paths m) (m_faults m) (m_pc m).
Definition with_inodes (m : machine S) x := mkMachine S (m_names m) x (m_next m) (m_dirs m) (m_paths m) (m_faults m) (m_pc m).
Definition with_dirs (m : machine S) x := mkMachine S (m_names m) (m_inodes m) (m_next m) x (m_paths m) (m_faults m) (m_pc m).
Definition with_paths (m : machine S) x := mkMachine S (m_names m) (m_inodes m) (m_next m) (m_dirs m) x (m_faults m) (m_pc m).
Definition with_faults (m : machine S) x := mkMachine S (m_names m) (m_inodes m) (m_next m) (m_dirs m) (m_paths m) x (m_pc m).
Definition with_pc (m : machine S) x := mkMachine S (m_names m) (m_inodes m) (m_next m) (m_dirs m) (m_paths m) (m_faults m) x.

(** A new empty file under a name. *)
Definition create (name : string) (m : machine S) : machine S :=
  mkMachine S (<[name := m_next m]> (m_names m)) (<[m_next m := mkInode [] true]> (m_inodes m)) (m_next m + 1)
    (m_dirs m) (m_paths m) (m_faults m) (m_pc m).

Definition set_data (f : nat) (d : list ascii) (m : machine S) : machine S :=
  match m_inodes m !! f with
  | Some i => with_inodes m (<[f := mkInode d (writable i)]> (m_inodes m))
  | None => m
  end.

(** A system call, which the next fault may hit. *)
Definition faulty {B} (m : machine S) (fail : fault -> machine S -> B * machine S)
    (body : machine S -> B * machine S) : res B * machine S :=
  let '(b, m') :=
    match m_faults m with
    | Some f :: l => fail f (with_faults m l)
    | None :: l => body (with_faults m l)
    | [] => body m
    end in
  (Val b, m').

Definition failing {B} (m : machine S) (body : machine S -> outcome error B * machine S) :=
  faulty m (fun f m' => (Err (f_error f), m')) body.
Definition failing_opt (m : machine S) (body : machine S -> option error * machine S) :=
  faulty m (fun f m' => (Some (f_error f), m')) body.

(** The directories [os.MkdirAll] makes sure of: all on the way. *)
Definition mkdirs (dir : string) : gset string :=
  list_to_set (map (fun k => path.render (path.rooted dir) (take k (path.comps dir)))
                 (seq 0 (Datatypes.S (length (path.comps dir))))).

Definition open_file (name : string) (create_ trunc : bool) (m : machine S) : outcome error nat * machine S :=
  match m_names m !! name with
  | Some f =>
      match m_inodes m !! f with
      | Some i =>
          if writable i then (Ok f, if trunc then set_data f [] m else m) else (Err (eacces "open" name), m)
      | None => (Err (enoent "open" name), m)
      end
  | None =>
      if create_ && bool_decide (Dir name ∈ m_dirs m) then (Ok (m_next m), create name m)
      else (Err (enoent "open" name), m)
  end.

Definition content (m : machine S) (f : nat) : list ascii :=
  match m_inodes m !! f with Some i => data i | None => [] end.

Definition on_file {B} (f : nat) (m : machine S) (body : inode -> outcome error B * machine S) :=
  match m_inodes m !! f with
  | Some i => body i
  | None => (Err bad_descriptor, m)
  end.

Definition pread (d : list ascii) (len off : Z) : list ascii * option error :=
  if off <? 0 then ([], Some negative_offset)
  else
    let b := slice d off len in
    (b, if size_of b <? len then Some (ESentinel IoEOF) else None).

Definition seek_data (d : list ascii) (off : Z) : result Z :=
  match next_data d off with
  | Some r => Ok r
  | None => Err (ESentinel IoEOF)
  end.

Definition os_handler : handler osE (machine S) := fun B e =>
  match e in osE B0 return machine S -> res B0 * machine S with
  | Open name => fun m =>
      failing m (fun m =>
        match m_names m !! name with
        | Some f => (Ok f, m)
        | None => (Err (enoent "open" name), m)
        end)
  | OpenFile name create_ trunc => fun m => failing m (open_file name create_ trunc)
  | MkdirAll dir => fun m => failing_opt m (fun m => (None, with_dirs m (m_dirs m ∪ mkdirs dir)))
  | Chmod name w => fun m =>
      failing_opt m (fun m =>
        match m_names m !! name with
        | Some f =>
            match m_inodes m !! f with
            | Some i => (None, with_inodes m (<[f := mkInode (data i) w]> (m_inodes m)))
            | None => (Some (enoent "chmod" name), m)
            end
        | None => (Some (enoent "chmod" name), m)
        end)
  | Stat name => fun m =>
      failing m (fun m =>
        match m_names m !! name with
        | Some f => (Ok (size_of (content m f)), m)
        | None => (Err (enoent "stat" name), m)
        end)
  | Rename from to => fun m =>
      failing_opt m (fun m =>
        match m_names m !! from with
        | Some f => (None, with_names m (<[to := f]> (delete from (m_names m))))
        | None => (Some (enoent "rename" from), m)
        end)
  | Truncate f size => fun m =>
      failing_opt m (fun m => (None, set_data f (resize_to (content m f) size) m))
  | Pread f len off => fun m =>
      faulty m (fun ft m' => ((take (f_done ft) (fst (pread (content m f) len off)), Some (f_error ft)), m'))
        (fun m => (pread (content m f) len off, m))
  | ReadToEnd f off => fun m =>
      let rest := drop (Z.to_nat off) (content m f) in
      faulty m (fun ft m' => ((take (f_done ft) rest, Some (f_error ft)), m')) (fun m => ((rest, None), m))
  | Pwrite f p off => fun m =>
      if off <? 0 then (Val (0, Some negative_offset), m)
      else
        faulty m
          (fun ft m' => ((size_of (take (f_done ft) p), Some (f_error ft)),
                         set_data f (splice (content m f) (take (f_done ft) p) off) m'))
          (fun m => ((size_of p, None), set_data f (splice (content m f) p off) m))
  | Fsync _ | Close _ | Munmap _ | Msync _ _ _ => fun m => failing_opt m (fun m => (None, m))
  | SeekData f off => fun m => failing m (fun m => (seek_data (content m f) off, m))
  | SeekEnd f => fun m => failing m (fun m => (Ok (size_of (content m f)), m))
  | Mmap f => fun m =>
      failing m (fun m =>
        let n := size_of (content m f) in
        match mmap_empty with
        | Some err => if n =? 0 then (Err err, m) else (Ok n, m)
        | None => (Ok n, m)
        end)
  | Load f mapped off len => fun m =>
      if (off <? 0) || (mapped <? off) then (Panicked "runtime error: slice bounds out of range", m)
      else
        let n := Z.min len (mapped - off) in
        if size_of (content m f) <? off + n then (Panicked "unexpected fault address", m)
        else (Val (slice (content m f) off n), m)
  | PathsLookup name => fun m => (Val (m_paths m !! name), m)
  | PathsStore name v => fun m => (Val tt, with_paths m (<[name := v]> (m_paths m)))
  | PathsDelete name => fun m => (Val tt, with_paths m (delete name (m_paths m)))
  | PcGet k => fun m => let '(r, s') := pc_get k (m_pc m) in (r, with_pc m s')
  | PcSet k b => fun m => let '(r, s') := pc_set k b (m_pc m) in (r, with_pc m s')
  | PcRange h b e => fun m => (Val (option_map (fun f => f h b e (m_pc m)) pc_range), m)
  | PcPersistent => fun m => (Val pc_persistent, m)
  | Panic msg => fun m => (Panicked msg, m)
  end.
End handler.

End os.
