(* ===== verification/MapCompletion.v ===== *)
(** * The piece completion in memory

    [mapPieceCompletion] (src/licenses/github.com/anacrolix/torrent/storage/
    map-piece-completion.go), the piece completion a file storage uses when it
    is given none: per torrent a list of what is known of its pieces, which
    grows. It implements the interface of [Disk.v]. *)

From S2P Require Import Prelude GoErrors Prog Disk.
From Stdlib Require Import ZArith Lia Ascii String.
From stdpp Require Import base gmap strings list.

Local Open Scope Z_scope.

Module mapcompletion.

Abbreviation justComplete := (option bool) (only parsing).
Abbreviation memoryTorrentJustComplete := (list justComplete) (only parsing).
Abbreviation mapPieceCompletion := (gmap string (list (option bool))) (only parsing).

Definition NewMapPieceCompletion : mapPieceCompletion := ∅.

(** An index that is negative panics. *)
Definition getLocked (state : memoryTorrentJustComplete) (i : Z) : res justComplete :=
  if Z.of_nat (length state) <=? i then Val None
  else if i <? 0 then Panicked "runtime error: index out of range"
  else Val (default None (state !! Z.to_nat i)).

Definition Set_ (state : memoryTorrentJustComplete) (i : Z) (complete : bool) : res memoryTorrentJustComplete :=
  if i <? 0 then Panicked "runtime error: index out of range"
  else
    let state := state ++ replicate (Z.to_nat (i + 1) - length state) None in
    Val (<[Z.to_nat i := Some complete]> state).

Definition completion_of (jc : justComplete) : Completion :=
  mkCompletion None (bool_decide (is_Some jc)) (default false jc).

Definition Get (pk : PieceKey) (me : mapPieceCompletion) : res (result Completion) * mapPieceCompletion :=
  match me !! fst pk with
  | None => (Val (Ok (mkCompletion None false false)), me)
  | Some jcs =>
      match getLocked jcs (snd pk) with
      | Val jc => (Val (Ok (completion_of jc)), me)
      | Panicked m => (Panicked m, me)
      end
  end.

Definition Set_piece (pk : PieceKey) (complete : bool) (me : mapPieceCompletion) : res (option error) * mapPieceCompletion :=
  let jcs := default [] (me !! fst pk) in
  match Set_ jcs (snd pk) complete with
  | Val jcs' => (Val None, <[fst pk := jcs']> me)
  | Panicked m => (Panicked m, <[fst pk := jcs]> me)
  end.

(** What the iterator of the range yields; the indices of files are not
    negative. *)
Definition GetRange (ih : string) (begin end_ : Z) (me : mapPieceCompletion) : list Completion :=
  match me !! ih with
  | None => []
  | Some t =>
      map (fun k => completion_of (default None (t !! Z.to_nat (begin + Z.of_nat k))))
        (seq 0 (Z.to_nat (end_ - begin)))
  end.

Definition Persistent : bool := false.

#[export] Instance map_completion : PieceCompletion mapPieceCompletion := {
  pc_get := Get;
  pc_set := Set_piece;
  pc_range := Some GetRange;
  pc_persistent := Persistent;
}.

(** What is known, by piece. *)
Definition known (me : mapPieceCompletion) : gmap PieceKey bool :=
  map_uncurry ((fun l : list (option bool) => omap id (map_seqZ 0 l : gmap Z (option bool))) <$> me).

Lemma known_lookup me h i : 0 <= i ->
  known me !! (h, i) = (me !! h) ≫= fun l => (l !! Z.to_nat i) ≫= id.
Proof.
  intros Hi. unfold known. rewrite lookup_map_uncurry, lookup_fmap.
  destruct (me !! h) as [l|]; [|done]. cbn. rewrite lookup_omap, lookup_map_seqZ.
  rewrite option_guard_True by done. by rewrite Z.sub_0_r.
Qed.

Lemma known_negative me h i : i < 0 -> known me !! (h, i) = None.
Proof.
  intros Hi. unfold known. rewrite lookup_map_uncurry, lookup_fmap. destruct (me !! h) as [l|]; [|done].
  cbn. rewrite lookup_omap, lookup_map_seqZ, option_guard_False by lia. done.
Qed.

Lemma completion_of_known me h i : 0 <= i ->
  completion_of (default None ((default [] (me !! h)) !! Z.to_nat i)) =
  match known me !! (h, i) with Some c => mkCompletion None true c | None => mkCompletion None false false end.
Proof.
  intros Hi. rewrite known_lookup by done. destruct (me !! h) as [l|]; cbn; [|done].
  destruct (l !! Z.to_nat i) as [[c|]|]; done.
Qed.

Lemma getLocked_ok l i : 0 <= i -> getLocked l i = Val (default None (l !! Z.to_nat i)).
Proof.
  intros Hi. unfold getLocked. destruct (Z.leb_spec (Z.of_nat (length l)) i).
  - by rewrite lookup_ge_None_2 by lia.
  - by rewrite (proj2 (Z.ltb_ge i 0)).
Qed.

Lemma Set_lookup l i c j : 0 <= i ->
  (exists l', Set_ l i c = Val l' /\ (l' !! j) ≫= id = if decide (j = Z.to_nat i) then Some c else (l !! j) ≫= id).
Proof.
  intros Hi. unfold Set_. rewrite (proj2 (Z.ltb_ge i 0)) by done. eexists. split; [done|].
  set (l2 := l ++ _). assert (Z.to_nat i < length l2)%nat as Hlen.
  { unfold l2. rewrite length_app, length_replicate. lia. }
  destruct (decide (j = Z.to_nat i)) as [->|Hne]; [by rewrite list_lookup_insert_eq|].
  rewrite list_lookup_insert_ne by done. unfold l2. destruct (decide (j < length l)%nat).
  - by rewrite lookup_app_l.
  - rewrite lookup_app_r by lia. rewrite (lookup_ge_None_2 l) by lia.
    destruct (replicate _ _ !! _) as [x|] eqn:E; [|done]. apply lookup_replicate in E as [-> _]. done.
Qed.

Lemma known_set me h i c l' : 0 <= i -> Set_ (default [] (me !! h)) i c = Val l' ->
  known (<[h := l']> me) = <[(h, i) := c]> (known me).
Proof.
  intros Hi Hl. apply map_eq. intros [h' j]. destruct (decide (0 <= j)) as [Hj|Hj].
  2:{ rewrite lookup_insert_ne, !known_negative; [done|lia|lia|]. intros [= _ <-]. lia. }
  rewrite known_lookup by done. destruct (decide (h' = h)) as [->|Hne].
  - rewrite lookup_insert_eq. cbn. destruct (Set_lookup (default [] (me !! h)) i c (Z.to_nat j) Hi) as (l2 & Hl2 & Hx).
    rewrite Hl in Hl2. injection Hl2 as <-. rewrite Hx.
    destruct (decide (j = i)) as [->|Hji]; [by rewrite decide_True, lookup_insert_eq|].
    rewrite decide_False by lia. rewrite lookup_insert_ne by congruence. rewrite known_lookup by done.
    by destruct (me !! h).
  - rewrite lookup_insert_ne by done. rewrite lookup_insert_ne by congruence. by rewrite known_lookup.
Qed.

#[export] Program Instance map_completion_laws : PieceCompletionLaws mapPieceCompletion := {
  pc_ok := fun me => True;
  pc_view := known;
}.
Next Obligation.
  intros [h i] me Hi _. exists me. split_and!; [|done|done]. cbn [pc_get map_completion]. unfold Get. cbn [fst snd] in *.
  rewrite <-completion_of_known by done. destruct (me !! h) as [l|]; [|done]. by rewrite getLocked_ok.
Qed.
Next Obligation.
  intros [h i] c me Hi _. cbn [pc_set map_completion]. unfold Set_piece. cbn [fst snd] in *.
  destruct (Set_lookup (default [] (me !! h)) i c 0 Hi) as (l' & Hl & _). rewrite Hl.
  exists None, (<[h := l']> me). split_and!; [done|done|]. by apply known_set.
Qed.
Next Obligation.
  intros f [= <-] h b e me Hb _ [i Hex]. unfold GetRange.
  destruct (decide (0 <= i)) as [Hi|Hi]; [|by rewrite known_negative in Hex by lia; destruct Hex].
  rewrite known_lookup in Hex by done. destruct (me !! h) as [l|] eqn:El; [|by destruct Hex].
  apply map_ext. intros k. pose proof (completion_of_known me h (b + Z.of_nat k) ltac:(lia)) as Hc.
  rewrite El in Hc. exact Hc.
Qed.

End mapcompletion.
