(* ===== verification/FileIo.v ===== *)
(** * File handles

    The interface [fileIo] of the file storage with its two implementations
    (src/licenses/github.com/anacrolix/torrent/storage/file-io.go,
    file-io-common.go, file-io-classic.go, file-io-mmap.go): the classic one
    opens a file for every access, the other one, which is the default, keeps
    the files it opened mapped into memory, by name. Reference counts decide
    when a mapping is released; here a handle is closed before the next one is
    opened, so that only the store's own reference is ever dropped. *)

From S2P Require Import Prelude GoErrors Prog FilePath Segments Disk.
From Stdlib Require Import ZArith Lia Ascii String.
From stdpp Require Import base gmap strings list pretty.
Import os.

Local Open Scope Z_scope.
Local Open Scope prog_scope.

Module fileio.

(** A [fileReader], [fileWriter] or [sharedFileIf]: a descriptor, and the
    length of the mapping when there is one. *)
Record handle : Type := mkHandle { h_file : nat; h_map : option Z }.

(** The calls of the storage: those of [fileIo] and of its handles, and the
    system's. A reader's position is an argument of [writeToN], and what it
    writes to the writer is an answer. *)
Inductive ioE : Type -> Type :=
| openForSharedRead (name : string) : ioE (result handle)
| openForRead (name : string) : ioE (result handle)
| openForWrite (name : string) (size : Z) : ioE (result handle)
| flush (name : string) (offset nbytes : Z) : ioE (option error)
| rename (from to : string) : ioE (option error)
| ReadAt (h : handle) (len off : Z) : ioE (list ascii * option error)
| WriteAt (h : handle) (p : list ascii) (off : Z) : ioE (Z * option error)
| CloseHandle (h : handle) : ioE (option error)
| seekDataOrEof (h : handle) (offset : Z) : ioE (Z * option error)
| writeToN (h : handle) (pos n : Z) : ioE (list ascii * option error)
| Os {B} (e : osE B) : ioE B.

Definition panic {A} (msg : string) : prog osE A := Vis (Panic msg) (fun x : Empty_set => match x with end).

(** ** Common *)

(** Opens a file for writing, creates directories and fixes permissions. *)
Definition openFileExtra (p : string) : prog osE (result nat) :=
  r <- call (OpenFile p true false);;
  match r with
  | Ok f => Ret (Ok f)
  | Err err =>
      if error_is err FsErrNotExist then
        e <- call (MkdirAll (Dir p));;
        match e with
        | Some err => Ret (Err err)
        | None => call (OpenFile p true false)
        end
      else if error_is err FsErrPermission then
        e <- call (Chmod p true);;
        match e with
        | Some err => Ret (Err err)
        | None => call (OpenFile p true false)
        end
      else Ret (Err err)
  end.

Definition fsync (filePath : string) : prog osE (option error) :=
  r <- call (OpenFile filePath false false);;
  match r with
  | Err err => Ret (Some err)
  | Ok f =>
      e <- call (Fsync f);;
      match e with
      | Some err => call (Close f);; Ret (Some err)
      | None => call (Close f)
      end
  end.

(** The helper that creates the files no data is ever written to. *)
Definition CreateNativeZeroLengthFile (name : string) : prog osE (option error) :=
  call (MkdirAll (Dir name));;
  r <- call (OpenFile name true true);;
  match r with
  | Err err =>
      stat <- call (Stat name);;
      match stat with
      | Ok size => if size =? 0 then Ret None else Ret (Some err)
      | Err _ => Ret (Some err)
      end
  | Ok f => call (Close f)
  end.

(** ** The classic files *)

(** [limitWriter.Write], over a writer that takes everything: what is passed
    on, what is left of the limit, and the error. *)
Definition limitWriter_Write (rem : Z) (p : list ascii) : list ascii * Z * option error :=
  let q := slice p 0 (Z.min (size_of p) rem) in
  (q, rem - size_of q, if size_of q <? size_of p then Some (ESentinel IoErrShortWrite) else None).

Definition seekData (f : nat) (offset : Z) : prog osE (result Z) := call (SeekData f offset).

Definition classic_open (name : string) : prog osE (result handle) :=
  r <- call (Open name);; Ret (outcome_map (fun f => mkHandle f None) r).

Definition classicFileIo B (e : ioE B) : prog osE B :=
  match e in ioE B0 return prog osE B0 with
  | openForSharedRead name => classic_open name
  | openForRead name => classic_open name
  | openForWrite name _ => r <- openFileExtra name;; Ret (outcome_map (fun f => mkHandle f None) r)
  | flush name _ _ => fsync name
  | rename from to =>
      c <- call (Rename from to);;
      Ret (match c with Some err => Some (EJoin [err]) | None => None end)
  | ReadAt h len off => call (Pread (h_file h) len off)
  | WriteAt h p off => call (Pwrite (h_file h) p off)
  | CloseHandle h => call (Close (h_file h))
  | seekDataOrEof h offset =>
      r <- seekData (h_file h) offset;;
      match r with
      | Ok ret => Ret (ret, None)
      | Err (ESentinel IoEOF) =>
          r <- call (SeekEnd (h_file h));;
          Ret (match r with Ok ret => (ret, None) | Err err => (0, Some err) end)
      | Err err => Ret (-1, Some err)
      end
  | writeToN h pos n =>
      r <- call (ReadToEnd (h_file h) pos);;
      let '(q, _, err) := limitWriter_Write n (fst r) in
      Ret (if size_of (fst r) =? 0 then ([], snd r)
           else (q, match err with Some err => Some err | None => snd r end))
  | Os e => call e
  end.

(** ** The mapped files *)

(** What dropping the store's reference does. *)
Definition mmap_dec (v : fileMmap) : prog osE (option error) :=
  a <- call (Munmap (mm_file v));;
  b <- call (Close (mm_file v));;
  Ret (match a, b with None, None => None | _, _ => Some (EJoin (option_list a ++ option_list b)) end).

Definition mmap_close (name : string) : prog osE unit :=
  v <- call (PathsLookup name);;
  match v with
  | None => Ret tt
  | Some v =>
      e <- mmap_dec v;;
      match e with
      | Some err => panic (error_text err)
      | None => call (PathsDelete name)
      end
  end.

Definition newMmapFile (v : fileMmap) : handle := mkHandle (mm_file v) (Some (mm_len v)).

Definition addNewMmap (name : string) (v : fileMmap) : prog osE handle :=
  call (PathsStore name v);; Ret (newMmapFile v).

Definition openReadOnly (name : string) : prog osE (result handle) :=
  v <- call (PathsLookup name);;
  match v with
  | Some v => Ret (Ok (newMmapFile v))
  | None =>
      r <- call (Open name);;
      match r with
      | Err err => Ret (Err err)
      | Ok f =>
          mm <- call (Mmap f);;
          match mm with
          | Err err => call (Close f);; Ret (Err (EWrap "mapping file: " err ""))
          | Ok n => h <- addNewMmap name (mkMmap f n false);; Ret (Ok h)
          end
      end
  end.

(** The part of [openForWrite] after the lookup. *)
Definition mmap_create (name : string) (size : Z) : prog osE (result handle) :=
  r <- openFileExtra name;;
  match r with
  | Err err => Ret (Err err)
  | Ok f =>
      e <- call (Truncate f size);;
      match e with
      | Some err => call (Close f);; Ret (Err (EWrap "error truncating file: " err ""))
      | None =>
          mm <- call (Mmap f);;
          match mm with
          | Err err => call (Close f);; Ret (Err err)
          | Ok n =>
              if n =? size then h <- addNewMmap name (mkMmap f n true);; Ret (Ok h)
              else
                call (Munmap f);;
                call (Close f);;
                Ret (Err (EOpaque ("new mmap has wrong size " +:+ pretty n +:+ ", expected " +:+ pretty size)))
          end
      end
  end.

Definition mmap_openForWrite (name : string) (size : Z) : prog osE (result handle) :=
  v <- call (PathsLookup name);;
  match v with
  | Some v =>
      if (mm_len v =? size) && mm_writable v then Ret (Ok (newMmapFile v))
      else mmap_dec v;; call (PathsDelete name);; mmap_create name size
  | None => mmap_create name size
  end.

Definition mmap_flush (name : string) (offset nbytes : Z) : prog osE (option error) :=
  v <- call (PathsLookup name);;
  match v with
  | None => Ret None
  | Some v =>
      if mm_writable v then
        if (offset <? 0) || (nbytes <? 0) || (mm_len v <? offset + nbytes) then panic "runtime error: slice bounds out of range"
        else call (Msync (mm_file v) offset nbytes)
      else Ret None
  end.

Definition mapped (h : handle) : Z := default 0 (h_map h).

Definition mmap_ReadAt (h : handle) (len off : Z) : prog osE (list ascii * option error) :=
  b <- call (Load (h_file h) (mapped h) off len);;
  Ret (b, if off + size_of b =? mapped h then Some (ESentinel IoEOF) else None).

Definition mmap_seekDataOrEof (h : handle) (offset : Z) : prog osE (Z * option error) :=
  r <- seekData (h_file h) offset;;
  Ret (match r with
       | Ok ret => (ret, None)
       | Err (ESentinel IoEOF) => (mapped h, None)
       | Err err => (0, Some err)
       end).

Definition mmap_writeToN (h : handle) (pos n : Z) : prog osE (list ascii * option error) :=
  if mapped h <=? pos then Ret ([], None)
  else b <- call (Load (h_file h) (mapped h) pos (Z.min (mapped h - pos) n));; Ret (b, None).

Definition mmapFileIo B (e : ioE B) : prog osE B :=
  match e in ioE B0 return prog osE B0 with
  | openForSharedRead name => openReadOnly name
  | openForRead name => openReadOnly name
  | openForWrite name size => mmap_openForWrite name size
  | flush name offset nbytes => mmap_flush name offset nbytes
  | rename from to => mmap_close from;; mmap_close to;; call (Rename from to)
  | ReadAt h len off => mmap_ReadAt h len off
  | WriteAt h p off => call (Pwrite (h_file h) p off)
  | CloseHandle _ => Ret None
  | seekDataOrEof h offset => mmap_seekDataOrEof h offset
  | writeToN h pos n => mmap_writeToN h pos n
  | Os e => call e
  end.

Inductive kind : Type := Classic | Mapped.

#[export] Instance kind_eq_dec : EqDecision kind.
Proof. solve_decision. Defined.

Definition implementation (k : kind) B (e : ioE B) : prog osE B :=
  match k with Classic => classicFileIo B e | Mapped => mmapFileIo B e end.

Section handler.
Context {S : Type} `{PieceCompletion S} `{MmapLib} `{Holes}.

Definition io_handler (k : kind) : handler ioE (machine S) :=
  fun B e => run os_handler (implementation k B e).
End handler.

End fileio.
