(* ===== verification/FileIoSpec.v ===== *)
(** * What the storage may rely on from its files

    The calls of [FileIo.v] specified over the names, contents and recorded
    pieces alone, without mappings, permissions or directories, when no system
    call fails. [classic_satisfies] and [mmap_satisfies]: both implementations
    of [fileIo] satisfy it, the mapped one because its mappings always have the
    length of the file the name leads to. *)

From S2P Require Import Prelude GoErrors Prog FilePath Segments Disk FileIo.
From Stdlib Require Import ZArith Lia Ascii String.
From stdpp Require Import base gmap strings list.
Import os fileio.

Local Open Scope Z_scope.
Local Open Scope prog_scope.

(** ** The view *)

Record fsview : Type := mkFs {
  fv_names : gmap string nat;
  fv_data : gmap nat (list ascii);
  fv_done : gmap PieceKey bool;
}.

Definition file_of (v : fsview) (name : string) : option (nat * list ascii) :=
  match fv_names v !! name with
  | Some f => match fv_data v !! f with Some d => Some (f, d) | None => None end
  | None => None
  end.

Definition content_at (v : fsview) (name : string) : option (list ascii) := snd <$> file_of v name.

Definition set_content (v : fsview) (f : nat) (d : list ascii) : fsview :=
  mkFs (fv_names v) (<[f := d]> (fv_data v)) (fv_done v).

Definition handle_for (k : kind) (f : nat) (d : list ascii) : handle :=
  mkHandle f (match k with Classic => None | Mapped => Some (size_of d) end).

Definition handle_ok (k : kind) (v : fsview) (h : handle) (d : list ascii) : Prop :=
  fv_data v !! h_file h = Some d /\ h = handle_for k (h_file h) d.

Definition not_exist (e : error) : Prop := error_is e FsErrNotExist = true.

Definition recorded (v : fsview) (k : PieceKey) : Completion :=
  match fv_done v !! k with
  | Some c => mkCompletion None true c
  | None => mkCompletion None false false
  end.

Definition recorded_range (v : fsview) (h : string) (b e : Z) : list Completion :=
  map (fun i => recorded v (h, b + Z.of_nat i)) (seq 0 (Z.to_nat (e - b))).

(** The content a file has when it was opened for writing. *)
Definition opened (k : kind) (d : list ascii) (size : Z) : list ascii :=
  match k with Classic => d | Mapped => resize_to d size end.

Section spec.
Context `{MmapLib}.

(** Files without bytes that the mapping library refuses. *)
Definition refused (k : kind) (size : Z) : option error :=
  match k with Classic => None | Mapped => if size =? 0 then mmap_empty else None end.

Definition read_spec (k : kind) (name : string) (v : fsview) (Q : res (result handle) -> fsview -> Prop) : Prop :=
  match file_of v name with
  | None => forall err, not_exist err -> Q (Val (Err err)) v
  | Some (f, d) =>
      match refused k (size_of d) with
      | None => Q (Val (Ok (handle_for k f d))) v
      | Some err => Q (Val (Err (EWrap "mapping file: " err ""))) v
      end
  end.

Definition write_spec (k : kind) (name : string) (size : Z) (v : fsview) (Q : res (result handle) -> fsview -> Prop) : Prop :=
  0 <= size /\ refused k size = None /\
  forall f d, match file_of v name with
              | Some fd => fd = (f, d)
              | None => d = [] /\ forall name', fv_names v !! name' <> Some f
              end ->
    Q (Val (Ok (handle_for k f (opened k d size))))
      (mkFs (<[name := f]> (fv_names v)) (<[f := opened k d size]> (fv_data v)) (fv_done v)).

Definition os_spec B (e : osE B) (v : fsview) : (res B -> fsview -> Prop) -> Prop :=
  match e in osE B0 return (res B0 -> fsview -> Prop) -> Prop with
  | Stat name => fun Q =>
      match content_at v name with
      | Some d => Q (Val (Ok (size_of d))) v
      | None => forall err, not_exist err -> Q (Val (Err err)) v
      end
  | Chmod _ _ | MkdirAll _ => fun Q => forall r, Q (Val r) v
  | Close _ => fun Q => forall r, Q (Val r) v
  | OpenFile name true true => fun Q =>
      (match content_at v name with Some d => d = [] | None => True end) /\
      (forall err, Q (Val (Err err)) v) /\
      (forall f, match file_of v name with
                 | Some fd => fst fd = f
                 | None => forall name', fv_names v !! name' <> Some f
                 end ->
         Q (Val (Ok f)) (mkFs (<[name := f]> (fv_names v)) (<[f := []]> (fv_data v)) (fv_done v)))
  | PcGet k => fun Q => 0 <= snd k /\ Q (Val (Ok (recorded v k))) v
  | PcSet k b => fun Q =>
      0 <= snd k /\ (forall err, Q (Val (Some err)) v) /\
      Q (Val None) (mkFs (fv_names v) (fv_data v) (<[k := b]> (fv_done v)))
  | PcRange h b e => fun Q =>
      0 <= b /\ (exists i, is_Some (fv_done v !! (h, i))) /\
      Q (Val None) v /\ Q (Val (Some (recorded_range v h b e))) v
  | PcPersistent => fun Q => forall b, Q (Val b) v
  | Panic msg => fun Q => Q (Panicked msg) v
  | _ => fun _ => False
  end.

Definition io_spec (k : kind) : spec ioE fsview := fun B e v =>
  match e in ioE B0 return (res B0 -> fsview -> Prop) -> Prop with
  | openForSharedRead name => read_spec k name v
  | openForRead name => read_spec k name v
  | openForWrite name size => write_spec k name size v
  | flush name off n => fun Q =>
      (0 <= off /\ 0 <= n /\
       forall d, content_at v name = Some d -> k = Mapped -> off + n <= size_of d) /\
      forall r, Q (Val r) v
  | rename from to => fun Q =>
      from <> to /\
      match fv_names v !! from with
      | Some f => Q (Val None) (mkFs (<[to := f]> (delete from (fv_names v))) (fv_data v) (fv_done v))
      | None => forall err, not_exist err -> Q (Val (Some err)) v
      end
  | ReadAt h len off => fun Q =>
      exists d, handle_ok k v h d /\ 0 <= len /\ 0 <= off <= size_of d /\
      forall err, (err = None \/ err = Some (ESentinel IoEOF)) ->
        (size_of (slice d off len) < len -> err = Some (ESentinel IoEOF)) ->
        Q (Val (slice d off len, err)) v
  | WriteAt h p off => fun Q =>
      exists d, handle_ok k v h d /\ 0 <= off /\ (k = Mapped -> off + size_of p <= size_of d) /\
      Q (Val (size_of p, None)) (set_content v (h_file h) (splice d p off))
  | CloseHandle h => fun Q => Q (Val None) v
  | seekDataOrEof h off => fun Q =>
      exists d, handle_ok k v h d /\ 0 <= off /\
      forall r, (off <= size_of d -> off <= r <= size_of d /\
                 forall i, off <= i < r -> d !! Z.to_nat i = Some zero_byte) ->
        (size_of d < off -> r = size_of d) -> Q (Val (r, None)) v
  | writeToN h pos n => fun Q =>
      exists d, handle_ok k v h d /\ 0 <= pos /\ 0 <= n /\
      Q (Val (slice d pos n,
              if bool_decide (k = Classic) && (pos + n <? size_of d) then Some (ESentinel IoErrShortWrite) else None)) v
  | Os e => os_spec _ e v
  end.

#[export] Instance io_spec_mono k : SpecMono (io_spec k).
Proof.
  intros B e v P Q HPQ.
  destruct e as [n|n|n s|n o l|n n'|h l o|h p o|h|h o|h o l|B e]; cbn [io_spec];
    unfold read_spec, write_spec; try (repeat case_match; naive_solver).
  destruct e; cbn [os_spec]; repeat case_match; naive_solver.
Qed.
End spec.
