(* ===== verification/FileIoFacts.v ===== *)
(** * The two file implementations keep their promise

    [classic_satisfies] and [mmap_satisfies] discharge the specification of
    [FileIoSpec.v] for every machine on which no system call fails. *)

From S2P Require Import Prelude GoErrors Prog FilePath Segments Disk FileIo FileIoSpec.
From Stdlib Require Import ZArith Lia Ascii String.
From stdpp Require Import base gmap strings list.
Import os fileio.

Local Open Scope Z_scope.
Local Open Scope prog_scope.

Section facts.
Context {S : Type} {PC : PieceCompletion S} {PCL : PieceCompletionLaws S} {ML : MmapLib} {HO : Holes} {HOL : HolesLaws}.

Definition view_of (m : machine S) : fsview := mkFs (m_names m) (data <$> m_inodes m) (pc_view (m_pc m)).

Record inv (k : kind) (m : machine S) : Prop := {
  inv_faults : m_faults m = [];
  inv_pc : pc_ok (m_pc m);
  inv_files : forall n f, m_names m !! n = Some f -> is_Some (m_inodes m !! f);
  inv_next : forall f, is_Some (m_inodes m !! f) -> (f < m_next m)%nat;
  inv_inj : forall n n' f, m_names m !! n = Some f -> m_names m !! n' = Some f -> n = n';
  inv_paths : k = Mapped -> forall n mm, m_paths m !! n = Some mm ->
    m_names m !! n = Some (mm_file mm) /\ mm_len mm = size_of (content m (mm_file mm)) /\
    refused Mapped (mm_len mm) = None;
}.

(** ** The view of a machine *)

Lemma file_of_view k m name : inv k m ->
  file_of (view_of m) name = (fun f => (f, content m f)) <$> (m_names m !! name).
Proof.
  intros Hi. unfold file_of. cbn [fv_names fv_data view_of]. destruct (m_names m !! name) as [f|] eqn:E; [|done].
  destruct (inv_files _ _ Hi _ _ E) as [i Ei]. rewrite lookup_fmap, Ei. cbn. unfold content. by rewrite Ei.
Qed.

Lemma fresh_name k m name : inv k m -> m_names m !! name <> Some (m_next m).
Proof. intros Hi E. apply (inv_files _ _ Hi) in E. apply (inv_next _ _ Hi) in E. lia. Qed.

Lemma handle_content k m h d : handle_ok k (view_of m) h d ->
  content m (h_file h) = d /\ is_Some (m_inodes m !! h_file h) /\ h = handle_for k (h_file h) d.
Proof.
  intros [Hd Hh]. cbn [fv_data view_of] in Hd. rewrite lookup_fmap in Hd. unfold content.
  destruct (m_inodes m !! h_file h) as [i|]; [|done]. injection Hd as <-. done.
Qed.

(** ** Files that change *)

Lemma set_data_view m f d : is_Some (m_inodes m !! f) ->
  view_of (set_data f d m) = set_content (view_of m) f d.
Proof.
  intros [i Ei]. unfold set_data, view_of, set_content. rewrite Ei. cbn. by rewrite fmap_insert.
Qed.

(** A change of one inode leaves the machine in order when a mapped file keeps
    its size. *)
Lemma inv_inode k m f i i' : inv k m -> m_inodes m !! f = Some i ->
  (k = Mapped -> forall n mm, m_paths m !! n = Some mm -> mm_file mm = f -> size_of (data i') = size_of (data i)) ->
  inv k (with_inodes m (<[f := i']> (m_inodes m))).
Proof.
  intros [H1 H2 H3 H4 H5 H6] Ei Hsize. constructor; cbn.
  - done.
  - done.
  - intros n f' Hn. destruct (decide (f' = f)) as [->|Hne]; [rewrite lookup_insert_eq; by eexists|].
    rewrite lookup_insert_ne by done. by apply (H3 n).
  - intros f' [x Hx]. destruct (decide (f' = f)) as [->|Hne]; [apply H4; by eexists|].
    rewrite lookup_insert_ne in Hx by done. apply H4. by eexists.
  - done.
  - intros Hk n mm Hn. destruct (H6 Hk n mm Hn) as (Ha & Hb & Hc). split_and!; [done| |done].
    rewrite Hb. unfold content. cbn. destruct (decide (mm_file mm = f)) as [Hf|Hne].
    + rewrite Hf, Ei, lookup_insert_eq. symmetry. by apply (Hsize Hk n mm).
    + by rewrite lookup_insert_ne.
Qed.

Lemma inv_create k m name : inv k m -> m_names m !! name = None -> inv k (create name m).
Proof.
  intros Hi Hname. pose proof Hi as [H1 H2 H3 H4 H5 H6]. constructor; cbn.
  - done.
  - done.
  - intros n f Hn. destruct (decide (f = m_next m)) as [->|Hne]; [rewrite lookup_insert_eq; by eexists|].
    rewrite lookup_insert_ne by done. apply (H3 n). destruct (decide (n = name)) as [->|Hn'].
    + rewrite lookup_insert_eq in Hn. congruence.
    + by rewrite lookup_insert_ne in Hn.
  - intros f [x Hx]. destruct (decide (f = m_next m)) as [->|Hne]; [lia|].
    rewrite lookup_insert_ne in Hx by done. assert (f < m_next m)%nat by (apply H4; by eexists). lia.
  - intros n n' f Hn Hn'. destruct (decide (n = name)) as [->|Hne], (decide (n' = name)) as [->|Hne']; [done|..].
    + rewrite lookup_insert_eq in Hn. injection Hn as <-. rewrite lookup_insert_ne in Hn' by done.
      by apply (fresh_name k m) in Hn'.
    + rewrite lookup_insert_eq in Hn'. injection Hn' as <-. rewrite lookup_insert_ne in Hn by done.
      by apply (fresh_name k m) in Hn.
    + rewrite lookup_insert_ne in Hn, Hn' by done. by apply (H5 n n' f).
  - intros Hk n mm Hn. destruct (H6 Hk n mm Hn) as (Ha & Hb & Hc). split_and!; [| |done].
    + rewrite lookup_insert_ne; [done|]. intros <-. congruence.
    + rewrite Hb. unfold content. cbn. rewrite lookup_insert_ne; [done|].
      intros Hf. apply (fresh_name k m n Hi). by rewrite Ha, Hf.
Qed.

Lemma create_view m name : view_of (create name m) =
  mkFs (<[name := m_next m]> (m_names m)) (<[m_next m := []]> (data <$> m_inodes m)) (pc_view (m_pc m)).
Proof. unfold view_of. cbn. by rewrite fmap_insert. Qed.

Lemma inv_pc_set k m s' : inv k m -> pc_ok s' -> inv k (with_pc m s').
Proof. intros [H1 H2 H3 H4 H5 H6] Hs. by constructor. Qed.

Lemma inv_dirs k m ds : inv k m -> inv k (with_dirs m ds).
Proof. intros [H1 H2 H3 H4 H5 H6]. by constructor. Qed.

(** Fewer mappings. *)
Lemma inv_unmap k m name : inv k m -> inv k (with_paths m (delete name (m_paths m))).
Proof.
  intros [H1 H2 H3 H4 H5 H6]. constructor; [done..|]. cbn. intros Hk n mm Hn.
  apply lookup_delete_Some in Hn as [_ Hn]. by apply H6.
Qed.

Lemma inv_map m name f :
  inv Mapped m -> m_names m !! name = Some f -> refused Mapped (size_of (content m f)) = None ->
  forall w, inv Mapped (with_paths m (<[name := mkMmap f (size_of (content m f)) w]> (m_paths m))).
Proof.
  intros [H1 H2 H3 H4 H5 H6] Hname Hr w. constructor; [done..|]. cbn. intros Hk n mm Hn.
  destruct (decide (n = name)) as [->|Hne]; [|rewrite lookup_insert_ne in Hn by done; by apply H6].
  rewrite lookup_insert_eq in Hn. injection Hn as <-. done.
Qed.

Lemma inv_rename k m from to f : inv k m -> from <> to -> m_names m !! from = Some f ->
  (k = Mapped -> m_paths m !! from = None /\ m_paths m !! to = None) ->
  inv k (with_names m (<[to := f]> (delete from (m_names m)))).
Proof.
  intros Hi Hne Hf Hp. pose proof Hi as [H1 H2 H3 H4 H5 H6].
  assert (forall n g, <[to := f]> (delete from (m_names m)) !! n = Some g ->
    (n = to /\ g = f) \/ (n <> to /\ n <> from /\ m_names m !! n = Some g)) as Hl.
  { intros n g Hn. destruct (decide (n = to)) as [->|Hn'].
    - rewrite lookup_insert_eq in Hn. injection Hn as <-. by left.
    - rewrite lookup_insert_ne in Hn by done. apply lookup_delete_Some in Hn as [? ?]. right. by split_and!. }
  constructor; cbn; [done|done| |done| |].
  - intros n g [[-> ->]|(_ & _ & Hn)]%Hl; [by apply (H3 from)|by apply (H3 n)].
  - intros n n' g [[-> ->]|(Ha & Hb & Hn)]%Hl [[-> Hg]|(Ha' & Hb' & Hn')]%Hl; [done|..].
    + by destruct (Hb' (H5 _ _ _ Hn' Hf)).
    + subst g. by destruct (Hb (H5 _ _ _ Hn Hf)).
    + by apply (H5 n n' g).
  - intros Hk n mm Hn. destruct (H6 Hk n mm Hn) as (Ha & Hb & Hc). destruct (Hp Hk) as [Hp1 Hp2].
    split_and!; [|done|done]. rewrite lookup_insert_ne by (intros <-; congruence).
    rewrite lookup_delete_ne; [done|]. intros <-. congruence.
Qed.

(** One system call of a program, none of which fails. *)
Ltac os_step Hf :=
  cbn [run pbind call os_handler]; unfold failing, failing_opt, faulty;
  cbn [m_faults m_names m_inodes m_dirs m_next m_pc m_paths with_names with_inodes with_dirs with_paths with_pc];
  rewrite ?Hf.

(** ** Opening for writing *)

Lemma Dir_made name ds : Dir name ∈ ds ∪ mkdirs (Dir name).
Proof.
  apply elem_of_union_r. unfold mkdirs. apply elem_of_list_to_set, list_elem_of_fmap.
  exists (length (path.comps (Dir name))). split.
  - rewrite take_ge by lia. symmetry. apply path.Clean_idempotent.
  - apply elem_of_seq. lia.
Qed.

Lemma openFileExtra_ok k m name : inv k m ->
  exists f m', run os_handler (openFileExtra name) m = (Val (Ok f), m') /\ inv k m' /\
    m_paths m' = m_paths m /\ m_names m' !! name = Some f /\
    match m_names m !! name with
    | Some g => f = g /\ view_of m' = view_of m
    | None => f = m_next m /\ view_of m' =
        mkFs (<[name := f]> (m_names m)) (<[f := []]> (data <$> m_inodes m)) (pc_view (m_pc m))
    end.
Proof.
  intros Hi. pose proof (inv_faults _ _ Hi) as Hf. unfold openFileExtra. os_step Hf. unfold open_file at 1.
  destruct (m_names m !! name) as [f|] eqn:En.
  - destruct (inv_files _ _ Hi _ _ En) as [i Ei]. rewrite Ei. destruct (writable i) eqn:Ew; cbn [run].
    { eexists _, _. split; [done|]. by split_and!. }
    assert (error_is (eacces "open" name) FsErrNotExist = false) as -> by done.
    assert (error_is (eacces "open" name) FsErrPermission = true) as -> by done.
    os_step Hf. rewrite En, Ei. os_step Hf. unfold open_file. cbn [m_names m_inodes with_inodes].
    rewrite En, lookup_insert_eq. cbn [writable].
    eexists _, _. split; [reflexivity|]. split_and!; [|done|done|done|].
    + by apply (inv_inode k m f i).
    + unfold view_of. cbn. f_equal. rewrite fmap_insert. cbn. rewrite insert_id; [done|].
      by rewrite lookup_fmap, Ei.
  - cbn [andb]. destruct (bool_decide (Dir name ∈ m_dirs m)) eqn:Ed; cbn [run].
    { eexists _, _. split; [reflexivity|]. split_and!; [by apply inv_create|done| |done|apply create_view].
      cbn. by rewrite lookup_insert_eq. }
    assert (error_is (enoent "open" name) FsErrNotExist = true) as -> by done.
    os_step Hf. os_step Hf. unfold open_file. cbn [m_names m_inodes with_dirs m_dirs].
    rewrite En, bool_decide_true by apply Dir_made. cbn [andb].
    eexists _, _. split; [reflexivity|]. split_and!; [apply inv_create; [by apply inv_dirs|done]|done| |done|apply (create_view (with_dirs m _))].
    cbn. by rewrite lookup_insert_eq.
Qed.

(** What a run of a call ends in. *)
Definition good {B} (k : kind) (Q : res B -> fsview -> Prop) (rm : res B * machine S) : Prop :=
  inv k (snd rm) /\ Q (fst rm) (view_of (snd rm)).

Lemma content_at_view k m name : inv k m ->
  content_at (view_of m) name = content m <$> (m_names m !! name).
Proof. intros Hi. unfold content_at. rewrite (file_of_view k) by done. by destruct (m_names m !! name). Qed.

Lemma os_satisfies k B (e : osE B) m Q :
  inv k m -> os_spec B e (view_of m) Q -> good k Q (os_handler B e m).
Proof.
  intros Hi. pose proof (inv_faults _ _ Hi) as Hf. unfold good.
  destruct e; cbn [os_spec]; try done; intros HQ; cbn [os_handler]; unfold failing, failing_opt, faulty; rewrite ?Hf.
  - (* OpenFile *) destruct creat, trunc; try done. destruct HQ as (Hc & Herr & Hok).
    rewrite (file_of_view k) in Hok by done. rewrite (content_at_view k) in Hc by done. unfold open_file.
    destruct (m_names m !! name) as [f|] eqn:En; cbn [andb].
    + destruct (inv_files _ _ Hi _ _ En) as [i Ei]. rewrite Ei. destruct (writable i); cbn [fst snd]; [|by split].
      cbn in Hc. unfold content in Hc. rewrite Ei in Hc.
      specialize (Hok f eq_refl). unfold set_data. rewrite Ei. split.
      * apply (inv_inode k m f i); [done|done|]. intros _ _ _ _ _. cbn. by rewrite Hc.
      * unfold view_of. cbn. by rewrite fmap_insert, <-(insert_id (m_names m) name f En).
    + case_bool_decide; cbn [fst snd]; [|by split]. split; [by apply inv_create|]. rewrite create_view.
      apply Hok. intros n. by apply (fresh_name k).
  - (* MkdirAll *) split; [by apply inv_dirs|apply HQ].
  - (* Chmod *) destruct (m_names m !! name) as [f|] eqn:En; cbn [fst snd]; [|by split].
    destruct (m_inodes m !! f) as [i|] eqn:Ei; cbn [fst snd]; [|by split].
    split; [by apply (inv_inode k m f i)|]. assert (view_of _ = view_of m) as ->; [|apply HQ].
    unfold view_of. cbn. f_equal. rewrite fmap_insert, insert_id; [done|]. by rewrite lookup_fmap, Ei.
  - (* Stat *) rewrite (content_at_view k) in HQ by done.
    destruct (m_names m !! name) as [f|] eqn:En; cbn [fst snd fmap option_fmap option_map] in *; split; try done.
    by apply HQ.
  - (* Close *) split; [done|apply HQ].
  - (* PcGet *) destruct HQ as [Hk0 HQ]. destruct (pc_get_spec k0 (m_pc m) Hk0 (inv_pc _ _ Hi)) as (s' & -> & Hs & Hv). cbn [fst snd].
    split; [by apply inv_pc_set|]. unfold recorded in HQ. cbn [fv_done view_of] in HQ.
    unfold view_of. cbn. by rewrite Hv.
  - (* PcSet *) destruct HQ as (Hk0 & Herr & Hok).
    destruct (pc_set_spec k0 complete (m_pc m) Hk0 (inv_pc _ _ Hi)) as (r & s' & -> & Hs & Hv). cbn [fst snd].
    split; [by apply inv_pc_set|]. unfold view_of in *. cbn in *. rewrite Hv. destruct r; [apply Herr|apply Hok].
  - (* PcRange *) destruct HQ as (Hb0 & Hex & Hnone & Hsome). split; [done|]. cbn [fst snd].
    destruct pc_range as [f|] eqn:Er; cbn [option_map]; [|done].
    by rewrite (pc_range_spec f Er infoHash b e (m_pc m) Hb0 (inv_pc _ _ Hi) Hex).
  - (* PcPersistent *) split; [done|apply HQ].
Qed.

Lemma good_ret {B} k (Q : res B -> fsview -> Prop) r m :
  inv k m -> Q r (view_of m) -> good k Q (r, m).
Proof. done. Qed.

(** ** The classic files *)

Lemma classic_open_ok m n Q :
  inv Classic m -> read_spec Classic n (view_of m) Q -> good Classic Q (run os_handler (classic_open n) m).
Proof.
  intros Hi HQ. pose proof (inv_faults _ _ Hi) as Hf. unfold read_spec in HQ. rewrite (file_of_view Classic) in HQ by done.
  unfold classic_open. os_step Hf. destruct (m_names m !! n) as [f|]; cbn in *; apply good_ret; try done.
  by apply HQ.
Qed.

Lemma pread_ok d len off err : 0 <= len -> 0 <= off <= size_of d ->
  err = snd (pread d len off) -> fst (pread d len off) = slice d off len /\
  (err = None \/ err = Some (ESentinel IoEOF)) /\ (size_of (slice d off len) < len -> err = Some (ESentinel IoEOF)).
Proof.
  intros Hl Ho ->. unfold pread. rewrite (proj2 (Z.ltb_ge off 0)) by lia. cbn [fst snd]. split; [done|].
  destruct (Z.ltb_spec (size_of (slice d off len)) len); (split; [tauto|]); [done|lia].
Qed.

(** Writing to a file whose mappings keep their length. *)
Lemma pwrite_ok k m h d p off Q :
  inv k m -> handle_ok k (view_of m) h d -> 0 <= off -> (k = Mapped -> off + size_of p <= size_of d) ->
  Q (Val (size_of p, None)) (set_content (view_of m) (h_file h) (splice d p off)) ->
  good k Q (run os_handler (call (Pwrite (h_file h) p off)) m).
Proof.
  intros Hi Hh Ho Hk HQ. pose proof (inv_faults _ _ Hi) as Hf.
  destruct (handle_content _ _ _ _ Hh) as (Hc & [i Ei] & _). os_step Hf. rewrite (proj2 (Z.ltb_ge off 0)) by lia.
  cbn [run]. rewrite Hc. split; cbn [fst snd]; [|by rewrite set_data_view by by eexists].
  unfold set_data. rewrite Ei. apply (inv_inode k m _ i); [done|done|]. intros Hk' n mm _ _. cbn [data].
  unfold content in Hc. rewrite Ei in Hc. rewrite Hc. destruct (decide (p = [])) as [->|Hp]; [done|].
  rewrite splice_length by done. specialize (Hk Hk'). lia.
Qed.

Lemma seek_ok d off : 0 <= off ->
  match seek_data d off with
  | Ok r => (off <= size_of d -> off <= r <= size_of d /\ forall i, off <= i < r -> d !! Z.to_nat i = Some zero_byte) /\
      (size_of d < off -> r = size_of d)
  | Err err => err = ESentinel IoEOF /\ forall i, off <= i < size_of d -> d !! Z.to_nat i = Some zero_byte
  end.
Proof.
  intros Ho. unfold seek_data. destruct (next_data d off) as [r|] eqn:E.
  - destruct (next_data_zeros _ _ _ Ho E) as [Hr Hz]. split; [intros _; split; [lia|done]|lia].
  - split; [done|]. by apply next_data_none.
Qed.

Lemma fsync_ok k m n : inv k m -> exists r, run os_handler (fsync n) m = (Val r, m).
Proof.
  intros Hi. pose proof (inv_faults _ _ Hi) as Hf. unfold fsync. os_step Hf. unfold open_file. cbn [andb].
  destruct (m_names m !! n) as [f|]; [|by eexists].
  destruct (m_inodes m !! f) as [i|]; [|by eexists]. destruct (writable i); [|by eexists].
  os_step Hf. os_step Hf. by eexists.
Qed.

(** What the limited writer lets through of the rest of a file. *)
Lemma limit_ok d pos n : 0 <= pos -> 0 <= n ->
  let rest := drop (Z.to_nat pos) d in
  (let '(q, _, err) := limitWriter_Write n rest in
   if size_of rest =? 0 then ([], None) else (q, match err with Some err => Some err | None => None end)) =
  (slice d pos n, if bool_decide (Classic = Classic) && (pos + n <? size_of d) then Some (ESentinel IoErrShortWrite) else None).
Proof.
  intros Hp Hn rest. unfold limitWriter_Write. rewrite bool_decide_true by done. cbn [andb].
  assert (size_of rest = Z.max 0 (size_of d - pos)) as Hr by (unfold rest, size_of; rewrite length_drop; lia).
  destruct (Z.eqb_spec (size_of rest) 0) as [Hz|Hz].
  - rewrite (proj2 (Z.ltb_ge (pos + n) (size_of d))) by lia. f_equal. unfold slice. fold rest.
    destruct rest; [by rewrite take_nil|]. unfold size_of in Hz. cbn in Hz. lia.
  - assert (slice rest 0 (Z.min (size_of rest) n) = slice d pos n) as ->.
    { unfold slice. rewrite drop_0. fold rest. destruct (Z.le_ge_cases n (size_of rest)) as [?|?].
      - by rewrite Z.min_r by lia.
      - rewrite Z.min_l by lia. unfold size_of in *. rewrite !take_ge by lia. done. }
    rewrite slice_length by lia. f_equal.
    destruct (Z.ltb_spec (Z.max 0 (Z.min n (size_of d - pos))) (size_of rest)), (Z.ltb_spec (pos + n) (size_of d)); done || lia.
Qed.

Lemma classic_satisfies : satisfies (io_spec Classic) (io_handler Classic) (inv Classic) view_of.
Proof.
  intros B e m Q Hi HQ. change (good Classic Q (io_handler Classic B e m)).
  pose proof (inv_faults _ _ Hi) as Hf. unfold io_handler. cbn [implementation].
  destruct e as [n|n|n sz|n o l|n n'|h l o|h p o|h|h o|h o l|B e]; cbn [classicFileIo io_spec] in *.
  - by apply classic_open_ok.
  - by apply classic_open_ok.
  - destruct HQ as (Hs & _ & HQ). destruct (openFileExtra_ok Classic m n Hi) as (f & m' & Hr & Hi' & _ & Hn & Hv).
    rewrite run_bind, Hr. apply good_ret; [done|]. cbn. rewrite (file_of_view Classic) in HQ by done.
    destruct (m_names m !! n) as [g|] eqn:En; destruct Hv as [-> ->]; cbn in HQ.
    + specialize (HQ g (content m g) eq_refl). cbn in HQ. destruct (inv_files _ _ Hi _ _ En) as [i Ei].
      rewrite !insert_id in HQ; [exact HQ|rewrite lookup_fmap, Ei; unfold content; by rewrite Ei|done].
    + specialize (HQ (m_next m) []). apply HQ. split; [done|]. intros n'. by apply (fresh_name Classic).
  - destruct (fsync_ok Classic m n Hi) as (r & ->). destruct HQ as [_ HQ]. by apply good_ret.
  - destruct HQ as [Hne HQ]. os_step Hf. cbn [fv_names view_of] in HQ.
    destruct (m_names m !! n) as [f|] eqn:En; cbn [run]; (apply good_ret; [|try by apply HQ]).
    + by apply (inv_rename Classic m n n' f).
    + done.
  - destruct HQ as (d & Hh & Hl & Ho & HQ). destruct (handle_content _ _ _ _ Hh) as (Hc & _ & _). os_step Hf.
    rewrite Hc. destruct (pread_ok d l o _ Hl Ho eq_refl) as (H1 & H2 & H3). apply good_ret; [done|].
    rewrite (surjective_pairing (pread d l o)), H1. by apply HQ.
  - destruct HQ as (d & Hh & Ho & Hk & HQ). by apply (pwrite_ok Classic m h d).
  - os_step Hf. by apply good_ret.
  - destruct HQ as (d & Hh & Ho & HQ). destruct (handle_content _ _ _ _ Hh) as (Hc & _ & _).
    unfold seekData. os_step Hf. rewrite Hc. pose proof (seek_ok d o Ho) as Hs.
    destruct (seek_data d o) as [r|err]; cbn [run].
    + apply good_ret; [done|]. apply HQ; apply Hs.
    + destruct Hs as [-> Hz]. os_step Hf. cbn [run]. apply good_ret; [done|]. rewrite Hc. apply HQ; [|done].
      intros. split; [lia|done].
  - destruct HQ as (d & Hh & Ho & Hl & HQ). destruct (handle_content _ _ _ _ Hh) as (Hc & _ & _).
    os_step Hf. rewrite Hc. cbn [fst snd]. pose proof (limit_ok d o l Ho Hl) as Hlim. cbn zeta in Hlim.
    destruct (limitWriter_Write l _) as [[q r] err]. cbn [run]. apply good_ret; [done|].
    rewrite Hlim. exact HQ.
  - os_step Hf. destruct (os_handler B e m) as [[b|msg] m'] eqn:E; pose proof (os_satisfies Classic B e m Q Hi HQ) as Hg;
      rewrite E in Hg; exact Hg.
Qed.

(** ** The mapped files *)

Lemma openReadOnly_ok m n Q :
  inv Mapped m -> read_spec Mapped n (view_of m) Q -> good Mapped Q (run os_handler (openReadOnly n) m).
Proof.
  intros Hi HQ. pose proof (inv_faults _ _ Hi) as Hf. unfold read_spec in HQ. rewrite (file_of_view Mapped) in HQ by done.
  unfold openReadOnly. os_step Hf. destruct (m_paths m !! n) as [v|] eqn:Ep; cbn [run].
  { destruct (inv_paths _ _ Hi eq_refl _ _ Ep) as (Hn & Hl & Hr). rewrite Hn in HQ. cbn [fmap option_fmap option_map] in HQ.
    rewrite <-Hl, Hr in HQ. apply good_ret; [done|]. unfold newMmapFile. unfold handle_for in HQ. by rewrite Hl. }
  os_step Hf. destruct (m_names m !! n) as [f|] eqn:En; cbn [fmap option_fmap option_map] in HQ.
  2:{ cbn [run]. apply good_ret; [done|]. by apply HQ. }
  os_step Hf. unfold refused in HQ. destruct (mmap_empty) as [err|] eqn:Em.
  - destruct (Z.eqb_spec (size_of (content m f)) 0) as [Hz|Hz].
    + os_step Hf. os_step Hf. apply good_ret; done.
    + os_step Hf. apply good_ret; [|exact HQ]. apply inv_map; [done|done|]. unfold refused.
      by rewrite (proj2 (Z.eqb_neq _ _) Hz).
  - os_step Hf. apply good_ret; [|by destruct (_ =? 0)]. apply inv_map; [done|done|]. unfold refused.
    rewrite Em. by destruct (_ =? 0).
Qed.

(** Mapping a file of the right size after it was opened. *)
Lemma mmap_create_ok m n sz Q :
  inv Mapped m -> write_spec Mapped n sz (view_of m) Q -> m_paths m !! n = None ->
  good Mapped Q (run os_handler (mmap_create n sz) m).
Proof.
  intros Hi (Hs & Hr & HQ) Hp. unfold mmap_create. rewrite run_bind.
  destruct (openFileExtra_ok Mapped m n Hi) as (f & m' & -> & Hi' & Hpaths & Hn & Hv).
  pose proof (inv_faults _ _ Hi') as Hf. os_step Hf.
  destruct (inv_files _ _ Hi' _ _ Hn) as [i Ei].
  set (d := content m' f). set (m2 := set_data f (resize_to d sz) m').
  assert (inv Mapped m2) as Hi2.
  { unfold m2, set_data. rewrite Ei. apply (inv_inode _ _ _ i); [done|done|]. intros _ n' mm Hn' Hmm. exfalso.
    destruct (inv_paths _ _ Hi' eq_refl _ _ Hn') as (Hnn & _ & _). rewrite Hmm in Hnn.
    rewrite (inv_inj _ _ Hi' _ _ _ Hnn Hn), Hpaths in Hn'. congruence. }
  assert (content m2 f = resize_to d sz) as Hc2.
  { unfold m2, set_data, content. rewrite Ei. cbn. by rewrite lookup_insert_eq. }
  assert (m_names m2 = m_names m') as Hn2 by (unfold m2, set_data; by rewrite Ei).
  pose proof (inv_faults _ _ Hi2) as Hf2. os_step Hf2. rewrite Hc2, resize_length by done.
  assert (refused Mapped (size_of (content m2 f)) = None) as Hr2 by by rewrite Hc2, resize_length.
  assert ((match mmap_empty with Some err => if sz =? 0 then (Err err, m2) else (Ok sz, m2) | None => (Ok sz, m2) end)
    = (Ok sz, m2 : machine S)) as ->.
  { unfold refused in Hr. destruct mmap_empty; [|done]. destruct (sz =? 0); done. }
  cbn [run pbind]. rewrite Z.eqb_refl. os_step Hf2. apply good_ret.
  - pose proof (inv_map m2 n f Hi2 ltac:(by rewrite Hn2) Hr2 true) as Hx. by rewrite Hc2, resize_length in Hx.
  - unfold newMmapFile. cbn [mm_file mm_len].
    assert (view_of (with_paths m2 (<[n := mkMmap f sz true]> (m_paths m2))) = set_content (view_of m') f (resize_to d sz)) as ->.
    { unfold m2. rewrite <-set_data_view by by eexists. done. }
    rewrite (file_of_view Mapped) in HQ by done. unfold handle_for, opened in HQ.
    destruct (m_names m !! n) as [g|] eqn:En; destruct Hv as [Hg Hview].
    + subst f. specialize (HQ g d). cbn in HQ. rewrite resize_length in HQ by done.
      assert (content m g = d) as Hd.
      { unfold d. apply (f_equal fv_data) in Hview. cbn in Hview. unfold content.
        apply (f_equal (lookup g)) in Hview. rewrite !lookup_fmap in Hview.
        destruct (inv_files _ _ Hi _ _ En) as [j Ej]. rewrite Ej in *. rewrite Ei in *. by injection Hview. }
      rewrite Hd in HQ. specialize (HQ eq_refl). rewrite insert_id in HQ by done.
      rewrite Hview. exact HQ.
    + specialize (HQ f []). cbn in HQ. assert (d = []) as Hd.
      { unfold d, content. rewrite Ei. apply (f_equal fv_data), (f_equal (lookup f)) in Hview. cbn in Hview.
        rewrite lookup_fmap, Ei, lookup_insert_eq in Hview. by injection Hview. }
      rewrite resize_length in HQ by done. rewrite Hd. rewrite Hview. unfold set_content. cbn.
      rewrite insert_insert_eq. apply HQ. split; [done|]. intros n' Hn'. subst f. by apply (fresh_name _ _ n' Hi).
Qed.

Lemma mmap_close_ok m n : inv Mapped m ->
  exists m', run os_handler (mmap_close n) m = (Val tt, m') /\ inv Mapped m' /\ view_of m' = view_of m /\
    m_names m' = m_names m /\ m_paths m' !! n = None /\ forall x, m_paths m !! x = None -> m_paths m' !! x = None.
Proof.
  intros Hi. pose proof (inv_faults _ _ Hi) as Hf. unfold mmap_close. os_step Hf.
  destruct (m_paths m !! n) as [v|] eqn:Ep; [|by eexists]. unfold mmap_dec. os_step Hf. os_step Hf.
  eexists. split; [reflexivity|]. split_and!; [by apply inv_unmap|done|done|apply lookup_delete_eq|].
  intros x Hx. apply lookup_delete_None. by right.
Qed.

(** Reading a mapping of the whole file. *)
Lemma load_ok m f d off len :
  content m f = d -> 0 <= off <= size_of d -> 0 <= len ->
  os_handler _ (Load f (size_of d) off len) m = (Val (slice d off len), m).
Proof.
  intros Hc Ho Hl. cbn [os_handler]. rewrite (proj2 (Z.ltb_ge off 0)), (proj2 (Z.ltb_ge _ off)), Hc by lia.
  cbn [orb]. rewrite (proj2 (Z.ltb_ge _ _)) by lia. do 2 f_equal. unfold slice, size_of in *.
  destruct (Z.le_ge_cases len (Z.of_nat (length d) - off)); [by rewrite Z.min_l|].
  rewrite Z.min_r by lia. rewrite !take_ge; [done|rewrite length_drop; lia..].
Qed.

Lemma mmap_satisfies : satisfies (io_spec Mapped) (io_handler Mapped) (inv Mapped) view_of.
Proof.
  intros B e m Q Hi HQ. change (good Mapped Q (io_handler Mapped B e m)).
  pose proof (inv_faults _ _ Hi) as Hf. unfold io_handler. cbn [implementation].
  destruct e as [n|n|n sz|n o l|n n'|h l o|h p o|h|h o|h o l|B e]; cbn [mmapFileIo io_spec] in *.
  - by apply openReadOnly_ok.
  - by apply openReadOnly_ok.
  - unfold mmap_openForWrite. os_step Hf. destruct (m_paths m !! n) as [v|] eqn:Ep; [|by apply mmap_create_ok].
    destruct (inv_paths _ _ Hi eq_refl _ _ Ep) as (Hn & Hl & Hr).
    destruct (Z.eqb_spec (mm_len v) sz) as [Hz|Hz]; [destruct (mm_writable v)|]; cbn [andb].
    + destruct HQ as (Hs & _ & HQ). apply good_ret; [done|]. rewrite (file_of_view Mapped) in HQ by done.
      rewrite Hn in HQ. specialize (HQ (mm_file v) (content m (mm_file v)) eq_refl).
      unfold opened in HQ. rewrite <-Hz, Hl, resize_same in HQ.
      destruct (inv_files _ _ Hi _ _ Hn) as [i Ei]. cbn in HQ.
      rewrite !insert_id in HQ; [|rewrite lookup_fmap, Ei; unfold content; by rewrite Ei|done].
      unfold newMmapFile, handle_for in *. by rewrite Hl.
    + unfold mmap_dec. os_step Hf. os_step Hf. os_step Hf. apply mmap_create_ok; [by apply inv_unmap|exact HQ|apply lookup_delete_eq].
    + unfold mmap_dec. os_step Hf. os_step Hf. os_step Hf. apply mmap_create_ok; [by apply inv_unmap|exact HQ|apply lookup_delete_eq].
  - destruct HQ as [(Ho & Hl & Hsz) HQ]. unfold mmap_flush. os_step Hf.
    destruct (m_paths m !! n) as [v|] eqn:Ep; [|by apply good_ret]. destruct (mm_writable v); [|by apply good_ret].
    destruct (inv_paths _ _ Hi eq_refl _ _ Ep) as (Hn & Hlen & _). rewrite (content_at_view Mapped) in Hsz by done.
    rewrite Hn in Hsz. specialize (Hsz _ eq_refl eq_refl).
    rewrite (proj2 (Z.ltb_ge o 0)), (proj2 (Z.ltb_ge l 0)), (proj2 (Z.ltb_ge _ _)) by lia. cbn [orb]. os_step Hf.
    by apply good_ret.
  - destruct HQ as [Hne HQ]. rewrite run_bind. destruct (mmap_close_ok m n Hi) as (m1 & -> & Hi1 & Hv1 & Hn1 & Hp1 & _).
    rewrite run_bind. destruct (mmap_close_ok m1 n' Hi1) as (m2 & -> & Hi2 & Hv2 & Hn2 & Hp2 & Hx).
    rewrite <-Hv1, <-Hv2 in HQ. pose proof (inv_faults _ _ Hi2) as Hf2. os_step Hf2. cbn [fv_names view_of] in HQ.
    destruct (m_names m2 !! n) as [f|] eqn:En; cbn [run].
    + apply good_ret; [|exact HQ]. apply (inv_rename Mapped m2 n n' f); [done|done|done|]. intros _. split; [by apply Hx|done].
    + apply good_ret; [done|]. by apply HQ.
  - destruct HQ as (d & Hh & Hl & Ho & HQ). destruct (handle_content _ _ _ _ Hh) as (Hc & _ & Heq).
    unfold mmap_ReadAt. assert (mapped h = size_of d) as -> by (by rewrite Heq). cbn [run pbind call].
    rewrite (load_ok m _ d o l) by done. cbn [run]. apply good_ret; [done|]. apply HQ; [by destruct (_ =? _); tauto|].
    intros Hlt. rewrite slice_length in * by lia. rewrite (proj2 (Z.eqb_eq _ _)); [done|]. lia.
  - destruct HQ as (d & Hh & Ho & Hk & HQ). by apply (pwrite_ok Mapped m h d).
  - by apply good_ret.
  - destruct HQ as (d & Hh & Ho & HQ). destruct (handle_content _ _ _ _ Hh) as (Hc & _ & Heq).
    unfold mmap_seekDataOrEof, seekData. os_step Hf. rewrite Hc. pose proof (seek_ok d o Ho) as Hs.
    assert (mapped h = size_of d) as -> by (by rewrite Heq).
    destruct (seek_data d o) as [r|err]; cbn [run].
    + apply good_ret; [done|]. apply HQ; apply Hs.
    + destruct Hs as [-> Hz]. apply good_ret; [done|]. apply HQ; [|done]. intros. split; [lia|done].
  - destruct HQ as (d & Hh & Ho & Hl & HQ). destruct (handle_content _ _ _ _ Hh) as (Hc & _ & Heq).
    unfold mmap_writeToN. assert (mapped h = size_of d) as -> by (by rewrite Heq).
    rewrite bool_decide_false in HQ by done. cbn [andb] in HQ. destruct (Z.leb_spec (size_of d) o) as [Hle|Hgt].
    + apply good_ret; [done|]. assert (slice d o l = []) as Hs; [|by rewrite Hs in HQ].
      unfold slice, size_of in *. rewrite drop_ge by lia. apply take_nil.
    + cbn [run pbind call]. rewrite (load_ok m _ d o) by (done || lia). cbn [run]. apply good_ret; [done|].
      assert (slice d o (Z.min (size_of d - o) l) = slice d o l) as ->; [|exact HQ].
      unfold slice, size_of in *. destruct (Z.le_ge_cases l (Z.of_nat (length d) - o)); [by rewrite Z.min_r|].
      rewrite Z.min_l by lia. rewrite !take_ge; [done|rewrite length_drop; lia..].
  - os_step Hf. destruct (os_handler B e m) as [[b|msg] m'] eqn:E; pose proof (os_satisfies Mapped B e m Q Hi HQ) as Hg;
      rewrite E in Hg; exact Hg.
Qed.

Lemma implementation_satisfies k : satisfies (io_spec k) (io_handler k) (inv k) view_of.
Proof. destruct k; [apply classic_satisfies|apply mmap_satisfies]. Qed.
End facts.
