(* ===== verification/FileStorage.v ===== *)
(** * The file storage

    The storage of the torrent client that keeps the data of a torrent in the
    files the torrent describes (src/licenses/github.com/anacrolix/torrent/
    storage/file-client.go, file-torrent.go, file-torrent-io.go, file-piece.go,
    file-misc.go, piece-completion.go and wrappers.go). A file is written under
    its name with ".part" appended until all its pieces are complete. A read
    answers the bytes that were read, their number included; what is written to
    a writer is the answer too. Log messages are left out. *)

From S2P Require Import Prelude GoErrors Prog FilePath Segments Info Disk FileIo.
From Stdlib Require Import ZArith Lia Ascii String.
From stdpp Require Import base gmap strings list pretty.
Import os fileio.

Local Open Scope Z_scope.
Local Open Scope prog_scope.

Module filestorage.

Abbreviation Extent := segments.Extent (only parsing).
Abbreviation Start := segments.Start (only parsing).
Abbreviation ELength := segments.Length (only parsing).

Definition fpanic {A} (msg : string) : prog ioE A := Vis (Os (Panic msg)) (fun x : Empty_set => match x with end).

(** A computation that may panic. *)
Definition must {A} (r : res A) : prog ioE A :=
  match r with Val a => Ret a | Panicked m => fpanic m end.

Definition out_of_range : string := "runtime error: index out of range".
Definition slice_bounds : string := "runtime error: slice bounds out of range".

Definition EOF : error := ESentinel IoEOF.

(** [errors.Is] of an error that may be nil. *)
Definition is_not_exist (e : error) : bool := error_is e FsErrNotExist.

(** ** Completion *)

(** [errors.Join] of two errors, one of which may be nil. *)
Definition join2 (a b : option error) : option error :=
  match option_list a ++ option_list b with [] => None | l => Some (EJoin l) end.

(** ** A torrent's storage *)

Record fileTorrentImpl : Type := mkFts {
  fts_info : info.Info;
  files : list string;                        (* [fileExtra.safeOsPath] *)
  metainfoFileInfos : list info.FileInfo;
  segmentLocater : segments.Index;
  infoHash : string;
  partFiles : bool;
}.

(** What is known of a file: [metainfo.FileInfo], [fileExtra] and the length of
    pieces. *)
Record file : Type := mkFile {
  f_pieceLength : Z;
  f_info : info.FileInfo;
  safeOsPath : string;
}.

Definition beginPieceIndex (f : file) : Z := info.BeginPieceIndex (f_info f) (f_pieceLength f).
Definition endPieceIndex (f : file) : Z := info.EndPieceIndex (f_info f) (f_pieceLength f).
Definition flength (f : file) : Z := info.FLength (f_info f).
Definition torrentOffset (f : file) : Z := info.TorrentOffset (f_info f).
Definition partFilePath (f : file) : string := safeOsPath f +:+ ".part".

Section storage.
Context (fts : fileTorrentImpl).

Definition file_at (index : nat) : option file :=
  match metainfoFileInfos fts !! index, files fts !! index with
  | Some fi, Some p => Some (mkFile (info.PieceLength (fts_info fts)) fi p)
  | _, _ => None
  end.

(** [fts.file(index)] *)
Definition file_ (index : nat) : prog ioE file :=
  match file_at index with Some f => Ret f | None => fpanic out_of_range end.

Definition pieceCompletionKey (p : Z) : PieceKey := (infoHash fts, p).

Definition setPieceCompletion (p : Z) (complete : bool) : prog ioE (option error) :=
  call (Os (PcSet (pieceCompletionKey p) complete)).

Definition getCompletion (piece : Z) : prog ioE Completion :=
  r <- call (Os (PcGet (pieceCompletionKey piece)));;
  Ret (match r with
       | Ok c => mkCompletion (join2 (CErr c) None) (COk c) (Complete c)
       | Err err => mkCompletion (join2 None (Some err)) false false
       end).

Definition pathForWrite (f : file) : string := if partFiles fts then partFilePath f else safeOsPath f.

(** The name with ".part" is tried first. *)
Definition open_either (open : string -> ioE (result handle)) (f : file) : prog ioE (result handle) :=
  if partFiles fts then
    r <- call (open (partFilePath f));;
    match r with
    | Err err => if is_not_exist err then call (open (safeOsPath f)) else Ret (Err err)
    | Ok h => Ret (Ok h)
    end
  else call (open (safeOsPath f)).

Definition openSharedFile (f : file) : prog ioE (result handle) := open_either openForSharedRead f.
Definition openFile (f : file) : prog ioE (result handle) := open_either openForRead f.

Definition openForWrite_ (f : file) : prog ioE (result handle) := call (openForWrite (pathForWrite f) (flength f)).

(** *** [fileTorrentImplIO] *)

(** The loop of [readFileAt]; every round reads at least a byte or is the last,
    so [len + 1] rounds are enough. *)
Fixpoint read_loop (fuel : nat) (h : handle) (length : Z) (b : list ascii) (len off : Z) : prog ioE (list ascii * option error) :=
  match fuel with
  | O => Ret (b, None)
  | S fuel' =>
      if (off <? length) && negb (len =? 0) then
        r <- call (ReadAt h len off);;
        let '(b1, err1) := r in
        if size_of b1 =? 0 then Ret (b, err1)
        else read_loop fuel' h length (b ++ b1) (len - size_of b1) (off + size_of b1)
      else Ret (b, None)
  end.

Definition readFileAt (f : file) (len off : Z) : prog ioE (list ascii * option error) :=
  r <- openSharedFile f;;
  match r with
  | Err err => Ret ([], Some (if is_not_exist err then EOF else err))
  | Ok h =>
      let rest := flength f - off in
      if (rest <? len) && (rest <? 0) then fpanic slice_bounds
      else
        let len := if rest <? len then rest else len in
        ret <- read_loop (S (Z.to_nat len)) h (flength f) [] len off;;
        call (CloseHandle h);;
        Ret ret
  end.

(** The loop of [ReadAt] over the segments: [b] was read, [len] bytes are to be
    read. *)
Fixpoint read_segments (segs : list (nat * Extent)) (b : list ascii) (len : Z) : prog ioE (list ascii * option error) :=
  match segs with
  | [] => Ret (b, if len =? 0 then None else Some EOF)
  | (i, e) :: segs' =>
      f <- file_ i;;
      if (ELength e <? 0) || (len <? ELength e) then fpanic slice_bounds
      else
        r <- readFileAt f (ELength e) (Start e);;
        let '(b1, err1) := r in
        if size_of b1 =? ELength e then
          match err1 with
          | None | Some (ESentinel IoEOF) => read_segments segs' (b ++ b1) (len - size_of b1)
          | Some err => Ret (b ++ b1, Some err)
          end
        else
          match err1 with
          | None => fpanic "nil"
          | Some err => Ret (b ++ b1, Some err)
          end
  end.

Definition io_ReadAt (len off : Z) : prog ioE (list ascii * option error) :=
  read_segments (segments.LocateIter (segmentLocater fts) (segments.mkExtent off len)) [] len.

(** The body of the loop of [WriteAt]: what was written to a file. *)
Definition write_file (f : file) (p : list ascii) (e : Extent) : prog ioE (Z * option error) :=
  r <- openForWrite_ f;;
  match r with
  | Err err => Ret (0, Some err)
  | Ok h =>
      if (ELength e <? 0) || (size_of p <? ELength e) then fpanic slice_bounds
      else
        w <- call (WriteAt h (slice p 0 (ELength e)) (Start e));;
        let '(n1, err) := w in
        closeErr <- call (CloseHandle h);;
        let err := match err with Some err => Some err | None => closeErr end in
        Ret (n1, match err with
                 | Some err => Some err
                 | None => if n1 =? ELength e then None else Some (ESentinel IoErrShortWrite)
                 end)
  end.

Fixpoint write_segments (segs : list (nat * Extent)) (p : list ascii) (n : Z) : prog ioE (Z * option error) :=
  match segs with
  | [] => Ret (n, None)
  | (i, e) :: segs' =>
      f <- file_ i;;
      w <- write_file f p e;;
      let '(n1, err) := w in
      match err with
      | Some err => Ret (n + n1, Some err)
      | None => write_segments segs' (drop (Z.to_nat n1) p) (n + n1)
      end
  end.

Definition io_WriteAt (p : list ascii) (off : Z) : prog ioE (Z * option error) :=
  write_segments (segments.LocateIter (segmentLocater fts) (segments.mkExtent off (size_of p))) p 0.

(** *** Pieces: [filePieceImpl] of the piece with index [p] *)

Section piece.
Context (p : Z).

Definition piece_extent : prog ioE Extent :=
  len <- must (info.Piece_Length (fts_info fts) p);;
  Ret (segments.mkExtent (info.Offset (fts_info fts) p) len).

Definition fileExtents : prog ioE (list (nat * Extent)) :=
  e <- piece_extent;; Ret (segments.LocateIter (segmentLocater fts) e).

Fixpoint flush_extents (segs : list (nat * Extent)) : prog ioE (option error) :=
  match segs with
  | [] => Ret None
  | (i, e) :: segs' =>
      f <- file_ i;;
      let name := pathForWrite f in
      err1 <- call (flush name (Start e) (ELength e));;
      match err1 with
      | None => flush_extents segs'
      | Some err1 =>
          Ret (Some (EJoin [EWrap ("flushing " +:+ quote name +:+ ":" +:+ pretty (Start e) +:+ "+" +:+
                                     pretty (ELength e) +:+ ": ") err1 ""]))
      end
  end.

Definition Flush : prog ioE (option error) := segs <- fileExtents;; flush_extents segs.

(** The loop of [markIncompletePieces] over [n] pieces. *)
Fixpoint mark_range (p : Z) (n : nat) : prog ioE unit :=
  match n with
  | O => Ret tt
  | S n' =>
      err <- setPieceCompletion p false;;
      match err with
      | Some _ => Ret tt
      | None => mark_range (p + 1) n'
      end
  end.

Definition markIncompletePieces (f : file) (size : Z) : prog ioE unit :=
  if flength f <=? size then Ret tt
  else
    let pieceLength := info.PieceLength (fts_info fts) in
    if pieceLength =? 0 then fpanic info.divide_by_zero
    else
      let begin := info.quot64 (info.add64 (torrentOffset f) size) pieceLength in
      let end_ := info.quot64 (info.sub64 (info.add64 (info.add64 (torrentOffset f) (flength f)) pieceLength) 1) pieceLength in
      mark_range begin (Z.to_nat (end_ - begin)).

Definition stat_either (f : file) : prog ioE (result Z) :=
  s <- call (Os (Stat (safeOsPath f)));;
  match s with
  | Ok n => Ret (Ok n)
  | Err err => if partFiles fts && is_not_exist err then call (Os (Stat (partFilePath f))) else Ret (Err err)
  end.

Fixpoint check_sizes (segs : list (nat * Extent)) (whole : Extent) (empty : bool) : prog ioE Completion :=
  match segs with
  | [] =>
      if Bool.eqb empty (ELength whole =? 0) then Ret (mkCompletion None true true) else fpanic "equal"
  | (i, e) :: segs' =>
      f <- file_ i;;
      s <- stat_either f;;
      match s with
      | Err err =>
          if is_not_exist err then markIncompletePieces f 0;; Ret (mkCompletion None true false)
          else Ret (mkCompletion (Some (EWrap ("checking file " +:+ safeOsPath f +:+ ": ") err "")) true false)
      | Ok size =>
          if size <? segments.End_ e then markIncompletePieces f size;; Ret (mkCompletion None true false)
          else check_sizes segs' whole false
      end
  end.

Definition checkCompleteFileSizes : prog ioE Completion :=
  e <- piece_extent;; check_sizes (segments.LocateIter (segmentLocater fts) e) e true.

Definition piece_Completion : prog ioE Completion :=
  c <- getCompletion p;;
  if negb (COk c) || bool_decide (is_Some (CErr c)) then Ret c
  else if Complete c then checkCompleteFileSizes else Ret c.

(** The completion of the pieces of a file, one after the other: [cs] is what
    an optimised [GetRange] yields, [None] when there is none. *)
Fixpoint all_complete (cs : option (list Completion)) (p : Z) (n : nat) : prog ioE (result bool) :=
  match n with
  | O => match cs with Some (_ :: _) => fpanic "true" | _ => Ret (Ok true) end
  | S n' =>
      next <- (match cs with
               | Some [] => fpanic "false"
               | Some (c :: cs') => Ret (c, Some cs')
               | None =>
                   r <- call (Os (PcGet (pieceCompletionKey p)));;
                   Ret (match r with Ok c => c | Err err => mkCompletion (Some err) false false end, None)
               end);;
      let '(c, cs') := next in
      match CErr c with
      | Some err => Ret (Err (EWrap ("error getting completion for piece " +:+ pretty p +:+ ": ") err ""))
      | None => if negb (COk c) || negb (Complete c) then Ret (Ok false) else all_complete cs' (p + 1) n'
      end
  end.

Definition allFilePiecesComplete (f : file) : prog ioE (result bool) :=
  cs <- call (Os (PcRange (infoHash fts) (beginPieceIndex f) (endPieceIndex f)));;
  all_complete cs (beginPieceIndex f) (Z.to_nat (endPieceIndex f - beginPieceIndex f)).

Definition exclRenameIfExists (from to : string) : prog ioE (bool * option error) :=
  err <- call (rename from to);;
  match err with
  | Some err => Ret (false, if is_not_exist err then None else Some err)
  | None => Ret (true, None)
  end.

Definition promotePartFile (f : file) : prog ioE (option error) :=
  call (flush (partFilePath f) 0 (flength f));;
  if negb (partFiles fts) then Ret None
  else
    r <- exclRenameIfExists (partFilePath f) (safeOsPath f);;
    let '(renamed, err) := r in
    match err with
    | Some err => Ret (Some err)
    | None => if renamed then call (Os (Chmod (safeOsPath f) false));; Ret None else Ret None
    end.

Definition onFileNotComplete (f : file) : prog ioE (option error) :=
  if negb (partFiles fts) then Ret None
  else
    r <- exclRenameIfExists (safeOsPath f) (partFilePath f);;
    Ret (match snd r with Some err => Some (EWrap "restoring part file: " err "") | None => None end).

Fixpoint promote_files (segs : list (nat * Extent)) : prog ioE (option error) :=
  match segs with
  | [] => Ret None
  | (i, _) :: segs' =>
      f <- file_ i;;
      r <- allFilePiecesComplete f;;
      match r with
      | Err err => Ret (Some err)
      | Ok false => promote_files segs'
      | Ok true =>
          err <- promotePartFile f;;
          match err with
          | Some err => Ret (Some (EWrap ("error promoting part file " +:+ quote (safeOsPath f) +:+ ": ") err ""))
          | None => promote_files segs'
          end
      end
  end.

Definition MarkComplete : prog ioE (option error) :=
  err <- setPieceCompletion p true;;
  match err with
  | Some err => Ret (Some err)
  | None =>
      persistent <- call (Os PcPersistent);;
      (if persistent : bool then pbind Flush (fun _ => Ret tt) else Ret tt);;
      segs <- fileExtents;;
      promote_files segs
  end.

Fixpoint demote_files (segs : list (nat * Extent)) : prog ioE (option error) :=
  match segs with
  | [] => Ret None
  | (i, _) :: segs' =>
      f <- file_ i;;
      err <- onFileNotComplete f;;
      match err with
      | Some err => Ret (Some (EWrap ("preparing incomplete file " +:+ quote (safeOsPath f) +:+ ": ") err ""))
      | None => demote_files segs'
      end
  end.

Definition MarkNotComplete : prog ioE (option error) :=
  err <- setPieceCompletion p false;;
  match err with
  | Some err => Ret (Some err)
  | None => segs <- fileExtents;; demote_files segs
  end.

(** [writeZeroes], to a writer that takes everything. *)
Definition writeZeroes (n : Z) : list ascii := replicate (Z.to_nat n) zero_byte.

Definition writeFileTo (i : nat) (e : Extent) : prog ioE (list ascii * option error) :=
  if ELength e =? 0 then Ret ([], None)
  else
    f <- file_ i;;
    r <- openFile f;;
    match r with
    | Err err => Ret ([], if is_not_exist err then None else Some err)
    | Ok h =>
        if flength f <? segments.End_ e then fpanic "greater than"
        else
          d <- call (seekDataOrEof h (Start e));;
          let '(dataOffset, err) := d in
          match err with
          | Some err => call (CloseHandle h);; Ret ([], Some (EWrap "seeking to start of extent: " err ""))
          | None =>
              if dataOffset <? Start e then call (CloseHandle h);; Ret ([], None)
              else
                let n := Z.min (dataOffset - Start e) (ELength e) in
                w <- call (writeToN h dataOffset (ELength e - n));;
                call (CloseHandle h);;
                Ret (writeZeroes n ++ fst w, snd w)
          end
    end.

Fixpoint write_to (segs : list (nat * Extent)) (whole : Extent) (empty : bool) (n : list ascii) : prog ioE (list ascii * option error) :=
  match segs with
  | [] => if Bool.eqb empty (ELength whole =? 0) then Ret (n, None) else fpanic "equal"
  | (i, e) :: segs' =>
      r <- writeFileTo i e;;
      let '(n1, err) := r in
      match err with
      | Some err => Ret (n ++ n1, Some err)
      | None =>
          if ELength e <? size_of n1 then fpanic "greater than"
          else if size_of n1 <? ELength e then Ret (n ++ n1, None)
          else write_to segs' whole false (n ++ n1)
      end
  end.

Definition WriteTo : prog ioE (list ascii * option error) :=
  e <- piece_extent;; write_to (segments.LocateIter (segmentLocater fts) e) e true [].

(** *** [storage.Piece]: the piece as the client sees it *)

(** [io.SectionReader.ReadAt] on the section of the piece. *)
Definition section_ReadAt (len off : Z) : prog ioE (list ascii * option error) :=
  e <- piece_extent;;
  if (off <? 0) || (ELength e <=? off) then Ret ([], Some EOF)
  else
    let max := ELength e - off in
    if max <? len then
      r <- io_ReadAt max (Start e + off);;
      Ret (fst r, match snd r with None => Some EOF | err => err end)
    else io_ReadAt len (Start e + off).

Definition Piece_ReadAt (len off : Z) : prog ioE (list ascii * option error) :=
  if off <? 0 then Ret ([], Some (ESentinel FsErrInvalid))
  else
    length <- must (info.Piece_Length (fts_info fts) p);;
    if length <=? off then Ret ([], Some EOF)
    else
      let len := Z.min len (length - off) in
      if len =? 0 then Ret ([], None)
      else
        r <- section_ReadAt len off;;
        let '(b, err) := r in
        if len <? size_of b then fpanic (pretty (size_of b))
        else if (size_of b =? 0) && bool_decide (err = None) then fpanic "io.Copy will get stuck"
        else
          (match err with
           | Some (ESentinel IoEOF) =>
               if off + size_of b <? length then pbind MarkNotComplete (fun _ => Ret tt) else Ret tt
           | _ => Ret tt
           end);;
          Ret (b, err).

(** [section] is the library's writer to a section of the torrent, which starts
    at [Offset] and has the length of the piece. *)
Definition Piece_WriteAt (section : (list ascii -> Z -> prog ioE (Z * option error)) -> Z -> Z ->
      list ascii -> Z -> prog ioE (Z * option error)) (b : list ascii) (off : Z) : prog ioE (Z * option error) :=
  length <- must (info.Piece_Length (fts_info fts) p);;
  if length <? off + size_of b then fpanic "write overflows piece"
  else section io_WriteAt (info.Offset (fts_info fts) p) length b off.

End piece.

(** *** What the names of the files say at the start *)

Fixpoint mark_not_complete (n : nat) (i : Z) (notComplete : list bool) : prog ioE (list bool) :=
  match n with
  | O => Ret notComplete
  | S n' =>
      if (0 <=? i) && (i <? Z.of_nat (length notComplete))
      then mark_not_complete n' (i + 1) (<[Z.to_nat i := true]> notComplete)
      else fpanic out_of_range
  end.

(** The loop over [n] files, of which [i] is the first. *)
Fixpoint check_files (n i : nat) (notComplete : list bool) : prog ioE (list bool) :=
  match n with
  | O => Ret notComplete
  | S n' =>
      f <- file_ i;;
      fi <- call (Os (Stat (safeOsPath f)));;
      let marked := mark_not_complete (Z.to_nat (endPieceIndex f - beginPieceIndex f)) (beginPieceIndex f) notComplete in
      match fi with
      | Ok size => if size =? flength f then check_files n' (S i) notComplete else nc <- marked;; check_files n' (S i) nc
      | Err _ => nc <- marked;; check_files n' (S i) nc
      end
  end.

Fixpoint set_completions (i : Z) (notComplete : list bool) : prog ioE (option error) :=
  match notComplete with
  | [] => Ret None
  | true :: l =>
      c <- getCompletion i;;
      if Complete c then
        err <- setPieceCompletion i false;;
        match err with
        | Some err => fpanic (error_text err)
        | None => set_completions (i + 1) l
        end
      else set_completions (i + 1) l
  | false :: l =>
      err <- setPieceCompletion i true;;
      match err with
      | Some err => Ret (Some (EWrap ("setting piece " +:+ pretty i +:+ " completion: ") err ""))
      | None => set_completions (i + 1) l
      end
  end.

Definition setCompletionFromPartFiles : prog ioE (option error) :=
  n <- must (info.NumPieces (fts_info fts));;
  if n <? 0 then fpanic "runtime error: makeslice: len out of range"
  else
    nc <- check_files (length (files fts)) 0 (replicate (Z.to_nat n) false);;
    set_completions 0 nc.
End storage.

(** ** The client *)

Definition run_os {B} (p : prog osE B) : prog ioE B := interp (fun B e => call (Os e)) p.

(** The loop of [OpenTorrent] over the files, [i] being the next index. *)
Fixpoint place_files (dir name : string) (i : nat) (fs : list info.FileInfo) : prog ioE (result (list string)) :=
  match fs with
  | [] => Ret (Ok [])
  | fi :: fs' =>
      let filePath := path.Join [dir; storage.FilePathMaker name (info.BestPath fi)] in
      if storage.isSubFilepath dir filePath then
        err <- (if info.FLength fi =? 0 then run_os (CreateNativeZeroLengthFile filePath) else Ret None);;
        match err with
        | Some err => Ret (Err (EWrap "creating zero length file: " err ""))
        | None => r <- place_files dir name (S i) fs';; Ret (outcome_map (cons filePath) r)
        end
      else
        Ret (Err (EOpaque ("file " +:+ pretty (Z.of_nat i) +:+ ": path " +:+ quote filePath +:+
                             " is not sub path of " +:+ quote dir)))
  end.

Definition OpenTorrent (baseDir : string) (usePartFiles : bool) (i : info.Info) (infoHash : string)
    : prog ioE (result fileTorrentImpl) :=
  let dir := storage.defaultPathMaker baseDir in
  infos <- must (info.UpvertedFiles i);;
  r <- place_files dir (info.BestName i) 0 infos;;
  match r with
  | Err err => Ret (Err err)
  | Ok paths =>
      index <- must (info.FileSegmentsIndex i);;
      let t := mkFts i paths infos index infoHash usePartFiles in
      if usePartFiles then
        err <- setCompletionFromPartFiles t;;
        match err with
        | Some err => Ret (Err (EWrap "setting completion from part files: " err ""))
        | None => Ret (Ok t)
        end
      else Ret (Ok t)
  end.

End filestorage.
