(* ===== verification/StorageFacts.v ===== *)
(** * Reading and writing the data of a torrent

    The file storage against its specification of files: which bytes of the
    torrent are stored, that [WriteAt] stores the bytes it is given where they
    belong and leaves the others, and that [ReadAt] reads what is stored. *)

From S2P Require Import Prelude GoErrors Prog FilePath Segments Info InfoTheorems Disk FileIo FileIoSpec FileStorage.
From Stdlib Require Import ZArith Lia Ascii String.
From stdpp Require Import base gmap strings list.
Import os fileio filestorage segments.

Local Open Scope Z_scope.
Local Open Scope prog_scope.

(** ** Names and contents *)

Record wf_view (v : fsview) : Prop := {
  wfv_data : forall n f, fv_names v !! n = Some f -> is_Some (fv_data v !! f);
  wfv_inj : forall n n' f, fv_names v !! n = Some f -> fv_names v !! n' = Some f -> n = n';
}.

Lemma file_of_content v name f d : file_of v name = Some (f, d) ->
  fv_names v !! name = Some f /\ fv_data v !! f = Some d /\ content_at v name = Some d.
Proof.
  intros E. unfold content_at. rewrite E. unfold file_of in E. destruct (fv_names v !! name) as [g|]; [|done].
  destruct (fv_data v !! g) as [d'|] eqn:Ed; [|done]. by injection E as -> ->.
Qed.

Lemma file_of_none v name : wf_view v -> file_of v name = None -> fv_names v !! name = None /\ content_at v name = None.
Proof.
  intros Hv E. unfold content_at. rewrite E. split; [|done]. unfold file_of in E.
  destruct (fv_names v !! name) as [g|] eqn:En; [|done]. destruct (wfv_data _ Hv _ _ En) as [d Ed]. by rewrite Ed in E.
Qed.

Lemma content_file v name d : content_at v name = Some d -> exists f, file_of v name = Some (f, d).
Proof. unfold content_at. destruct (file_of v name) as [[f d']|]; intros [= <-]. by eexists. Qed.

(** One name gets a content, of its own file or of a new one. *)
Lemma content_put v name f d done' :
  wf_view v -> (fv_names v !! name = Some f \/ forall n, fv_names v !! n <> Some f) ->
  let v' := mkFs (<[name := f]> (fv_names v)) (<[f := d]> (fv_data v)) done' in
  wf_view v' /\ content_at v' name = Some d /\ file_of v' name = Some (f, d) /\
  forall n, n <> name -> content_at v' n = content_at v n.
Proof.
  intros Hv Hf v'. assert (forall n g, n <> name -> fv_names v !! n = Some g -> g <> f) as Hother.
  { intros n g Hn Hg ->. destruct Hf as [Hf|Hf]; [|by destruct (Hf n)]. by destruct (Hn (wfv_inj _ Hv _ _ _ Hg Hf)). }
  assert (file_of v' name = Some (f, d)) as Hname.
  { unfold file_of, v'. cbn. by rewrite !lookup_insert_eq. }
  split_and!.
  - constructor; unfold v'; cbn.
    + intros n g Hn. destruct (decide (g = f)) as [->|Hg]; [rewrite lookup_insert_eq; by eexists|].
      rewrite lookup_insert_ne by done. destruct (decide (n = name)) as [->|Hne].
      * rewrite lookup_insert_eq in Hn. congruence.
      * rewrite lookup_insert_ne in Hn by done. by apply (wfv_data _ Hv n).
    + intros n n' g Hn Hn'. destruct (decide (n = name)) as [->|Hne], (decide (n' = name)) as [->|Hne']; [done|..];
        rewrite ?lookup_insert_eq in *; rewrite ?lookup_insert_ne in * by done.
      * injection Hn as <-. by destruct (Hother _ _ Hne' Hn').
      * injection Hn' as <-. by destruct (Hother _ _ Hne Hn).
      * by apply (wfv_inj _ Hv n n' g).
  - unfold content_at. by rewrite Hname.
  - done.
  - intros n Hne. unfold content_at, file_of, v'. cbn. rewrite lookup_insert_ne by done.
    destruct (fv_names v !! n) as [g|] eqn:En; [|done]. by rewrite lookup_insert_ne by (by apply not_eq_sym, (Hother n)).
Qed.

Lemma content_set v name f d d' :
  wf_view v -> file_of v name = Some (f, d) ->
  wf_view (set_content v f d') /\ content_at (set_content v f d') name = Some d' /\
  (forall n, n <> name -> content_at (set_content v f d') n = content_at v n).
Proof.
  intros Hv E. destruct (file_of_content _ _ _ _ E) as (Hn & _ & _).
  destruct (content_put v name f d' (fv_done v) Hv (or_introl Hn)) as (H1 & H2 & _ & H3).
  unfold set_content. rewrite (insert_id (fv_names v)) in H1, H2, H3 by done. by split_and!.
Qed.

Lemma content_rename v from to f :
  wf_view v -> from <> to -> fv_names v !! from = Some f ->
  let v' := mkFs (<[to := f]> (delete from (fv_names v))) (fv_data v) (fv_done v) in
  wf_view v' /\ content_at v' to = content_at v from /\ content_at v' from = None /\
  forall n, n <> from -> n <> to -> content_at v' n = content_at v n.
Proof.
  intros Hv Hne Hf v'. split_and!.
  - constructor; unfold v'; cbn.
    + intros n g Hn. destruct (decide (n = to)) as [->|Hn']; rewrite ?lookup_insert_eq in *; rewrite ?lookup_insert_ne in * by done.
      * injection Hn as <-. by apply (wfv_data _ Hv from).
      * apply lookup_delete_Some in Hn as [_ Hn]. by apply (wfv_data _ Hv n).
    + intros n n' g Hn Hn'. destruct (decide (n = to)) as [->|Hne1], (decide (n' = to)) as [->|Hne2]; [done|..];
        rewrite ?lookup_insert_eq in *; rewrite ?lookup_insert_ne in * by done.
      * injection Hn as <-. apply lookup_delete_Some in Hn' as [Hd Hn']. by destruct (Hd (wfv_inj _ Hv _ _ _ Hf Hn')).
      * injection Hn' as <-. apply lookup_delete_Some in Hn as [Hd Hn]. by destruct (Hd (wfv_inj _ Hv _ _ _ Hf Hn)).
      * apply lookup_delete_Some in Hn as [_ Hn]. apply lookup_delete_Some in Hn' as [_ Hn']. by apply (wfv_inj _ Hv n n' g).
  - unfold content_at, file_of, v'. cbn. by rewrite lookup_insert_eq, Hf.
  - unfold content_at, file_of, v'. cbn. rewrite lookup_insert_ne by done. by rewrite lookup_delete_eq.
  - intros n H1 H2. unfold content_at, file_of, v'. cbn. rewrite lookup_insert_ne by done. by rewrite lookup_delete_ne.
Qed.

(** ** A torrent *)

Section torrent.
Context {ML : MmapLib} (k : kind) (i : info.Info) (n : Z) (t : fileTorrentImpl).

Abbreviation ls := (lengths i).
Definition start_of (j : nat) : Z := sum (take j ls).
Definition final_name (j : nat) : string := default "" (files t !! j).
Definition part_name (j : nat) : string := final_name j +:+ ".part".

(** What [OpenTorrent] made of a v1 torrent; no two files share a name, and the
    library maps files without bytes if there are any. *)
Record layout : Prop := {
  lay_info : fts_info t = i;
  lay_wf : wf_v1 i n;
  lay_infos : metainfoFileInfos t = fst (info.UpvertedV1Files i);
  lay_files : length (files t) = length ls;
  lay_index : segmentLocater t = NewIndex ls;
  lay_part : partFiles t = true;
  lay_names : NoDup (files t ++ map (fun p => p +:+ ".part") (files t));
  lay_empty : Forall (fun l => refused k l = None) ls;
}.

(** The byte of a file at an offset, and of the torrent. *)
Definition data_of (v : fsview) (j : nat) : option (list ascii) :=
  match content_at v (part_name j) with
  | Some d => Some d
  | None => content_at v (final_name j)
  end.

Definition stored (v : fsview) (j : nat) (o : Z) : option ascii :=
  match data_of v j with Some d => d !! Z.to_nat o | None => None end.

Fixpoint find_file (j : nat) (s : Z) (l : list Z) (g : Z) : option (nat * Z) :=
  match l with
  | [] => None
  | x :: l' => if (s <=? g) && (g <? s + x) then Some (j, g - s) else find_file (S j) (s + x) l' g
  end.

Definition byte_at (v : fsview) (g : Z) : option ascii :=
  match find_file 0 0 ls g with Some (j, o) => stored v j o | None => None end.

(** A file on disk is as long as the torrent says, or shorter. *)
Definition sized_files (v : fsview) : Prop :=
  forall j l name d, ls !! j = Some l -> (name = final_name j \/ name = part_name j) ->
    content_at v name = Some d -> size_of d <= l /\ (k = Mapped -> size_of d = l).

Context (Hlay : layout).

Lemma lengths_nonneg : Forall (Z.le 0) ls.
Proof. apply (wf_lengths _ _ (lay_wf Hlay)). Qed.

Lemma lengths_size : sum ls <= max_size.
Proof. apply (wf_size _ _ (lay_wf Hlay)). Qed.

Lemma find_file_spec j s l g j' o : Forall (Z.le 0) l ->
  find_file j s l g = Some (j', o) <->
  exists m x, j' = (j + m)%nat /\ l !! m = Some x /\ o = g - (s + sum (take m l)) /\ 0 <= o < x.
Proof.
  intros Hl. revert j s. induction Hl as [|x l Hx Hl IH]; intros j s; cbn [find_file].
  { split; [done|]. by intros (m & x & _ & ? & _). }
  destruct (Z.leb_spec s g), (Z.ltb_spec g (s + x)); cbn [andb].
  1:{ split.
      - intros [= <- <-]. exists 0%nat, x. split; [lia|]. split; [done|]. cbn. lia.
      - intros (m & y & -> & Hm & -> & Hb). destruct m as [|m]; [cbn; do 2 f_equal; lia|]. exfalso.
        cbn [take sum foldr] in Hb. fold (sum (take m l)) in Hb.
        pose proof (sum_nonneg (take m l) (Forall_take _ _ _ Hl)). lia. }
  all: rewrite IH; split.
  all: try (intros (m & y & -> & Hm & -> & Hb); exists (S m), y; cbn [take sum foldr]; fold (sum (take m l));
            split; [lia|]; split; [done|]; split; [lia|lia]).
  all: intros (m & y & -> & Hm & -> & Hb); destruct m as [|m];
    [cbn in Hm; injection Hm as <-; cbn [take sum foldr] in Hb; lia|];
    exists m, y; cbn [take sum foldr] in *; fold (sum (take m l)) in *; split; [lia|]; split; [done|]; split; lia.
Qed.

(** The byte at an offset of a file is the torrent's byte there. *)
Lemma byte_at_file v j l o : ls !! j = Some l -> 0 <= o < l -> byte_at v (start_of j + o) = stored v j o.
Proof.
  intros Hj Ho. unfold byte_at.
  assert (find_file 0 0 ls (start_of j + o) = Some (j, o)) as ->; [|done].
  apply find_file_spec; [apply lengths_nonneg|]. exists j, l. unfold start_of. split; [lia|]. split; [done|]. lia.
Qed.

Lemma file_at_spec j l : ls !! j = Some l ->
  exists f, file_at t j = Some f /\ flength f = l /\ torrentOffset f = start_of j /\
    f_pieceLength f = info.PieceLength i /\ safeOsPath f = final_name j /\ partFilePath f = part_name j.
Proof.
  intros Hj. destruct (v1_files i n (lay_wf Hlay)) as (He & Hm & _).
  assert (map (fun fi => mkExtent (info.TorrentOffset fi) (info.FLength fi)) (metainfoFileInfos t) !! j =
    Some (mkExtent (start_of j) l)) as Hx.
  { rewrite (lay_infos Hlay), He, NewIndex_lookup, Hj by apply lengths_nonneg || apply lengths_size. done. }
  rewrite list_lookup_fmap in Hx. unfold file_at. destruct (metainfoFileInfos t !! j) as [fi|] eqn:Ef; [|done].
  injection Hx as Ho Hl. destruct (lookup_lt_is_Some_2 (files t) j) as [p Hp].
  { rewrite (lay_files Hlay). by apply lookup_lt_Some in Hj. }
  rewrite Hp. eexists. split; [done|]. unfold flength, torrentOffset, partFilePath, part_name, final_name. cbn.
  rewrite Hp, (lay_info Hlay). by split_and!.
Qed.

Lemma names_differ j j' l l' : ls !! j = Some l -> ls !! j' = Some l' ->
  final_name j <> part_name j' /\ (j <> j' -> final_name j <> final_name j' /\ part_name j <> part_name j').
Proof.
  intros Hj Hj'. assert (forall a x, ls !! a = Some x -> exists p, files t !! a = Some p) as Hf.
  { intros a x Ha. apply lookup_lt_is_Some_2. rewrite (lay_files Hlay). by apply lookup_lt_Some in Ha. }
  destruct (Hf _ _ Hj) as [p Hp], (Hf _ _ Hj') as [p' Hp']. unfold part_name, final_name. rewrite Hp, Hp'. cbn.
  pose proof (lay_names Hlay) as Hnd. apply NoDup_app in Hnd as (Hnd & Hdis & Hnd').
  split; [|intros Hne; split].
  - intros E. apply (Hdis p); [by apply list_elem_of_lookup_2 with j|]. rewrite E.
    apply list_elem_of_In, in_map_iff. exists p'. split; [done|]. apply list_elem_of_In. by apply list_elem_of_lookup_2 with j'.
  - intros ->. apply Hne. by apply (NoDup_lookup _ _ _ _ Hnd Hp Hp').
  - intros E. apply Hne. eapply (NoDup_lookup _ j j' _ Hnd'); rewrite list_lookup_fmap; [by rewrite Hp|by rewrite Hp', E].
Qed.

(** ** Reading *)

Lemma data_sized v j l d : sized_files v -> ls !! j = Some l -> data_of v j = Some d ->
  size_of d <= l /\ (k = Mapped -> size_of d = l) /\ refused k (size_of d) = None.
Proof.
  intros Hs Hj Hd. assert (size_of d <= l /\ (k = Mapped -> size_of d = l)) as [H1 H2].
  { unfold data_of in Hd. destruct (content_at v (part_name j)) eqn:E.
    - injection Hd as <-. apply (Hs j l (part_name j)); auto.
    - apply (Hs j l (final_name j)); auto. }
  split_and!; [done|done|]. pose proof (Forall_lookup_1 _ _ _ _ (lay_empty Hlay) Hj) as Hr.
  destruct k; [done|]. by rewrite H2.
Qed.

Lemma open_either_ok (open : string -> ioE (result handle)) v j l f :
  open = openForSharedRead \/ open = openForRead ->
  wf_view v -> sized_files v -> ls !! j = Some l -> file_at t j = Some f ->
  wpt (io_spec k) (open_either t open f)
    (fun r v' => v' = v /\
      match data_of v j with
      | Some d => exists h, r = Val (Ok h) /\ handle_ok k v h d
      | None => exists err, r = Val (Err err) /\ not_exist err
      end) v.
Proof.
  intros Hopen Hv Hs Hj Hf. destruct (file_at_spec j l Hj) as (f' & Hf' & _ & _ & _ & Hfin & Hpart).
  rewrite Hf in Hf'. injection Hf' as <-. unfold open_either. rewrite (lay_part Hlay), Hpart, Hfin.
  assert (forall name Q, wpt (io_spec k) (call (open name)) Q v <-> read_spec k name v Q) as Hcall.
  { intros name Q. destruct Hopen as [-> | ->]; cbn; (split; intros Hw; eapply (spec_mono (R := io_spec k) _ (openForSharedRead name)); try exact Hw); by intros [?|?] ?. }
  assert (forall name d, content_at v name = Some d -> refused k (size_of d) = None ->
    exists f0, file_of v name = Some (f0, d) /\ handle_ok k v (handle_for k f0 d) d) as Hok.
  { intros name d Hc _. destruct (content_file _ _ _ Hc) as (f0 & Hf0). exists f0. split; [done|].
    destruct (file_of_content _ _ _ _ Hf0) as (_ & ? & _). done. }
  apply wpt_bind; [apply _|]. apply Hcall. unfold read_spec.
  destruct (content_at v (part_name j)) as [d|] eqn:Ep.
  - assert (data_of v j = Some d) as Hd by (unfold data_of; by rewrite Ep).
    destruct (data_sized v j l d Hs Hj Hd) as (_ & _ & Hr). destruct (Hok _ _ Ep Hr) as (f0 & -> & Hh). rewrite Hr.
    cbn [after_value wpt]. rewrite Hd. split; [done|]. by eexists.
  - assert (file_of v (part_name j) = None) as ->.
    { unfold content_at in Ep. by destruct (file_of v (part_name j)). }
    intros err Herr. cbn [after_value]. unfold is_not_exist. rewrite Herr. apply Hcall. unfold read_spec.
    unfold data_of. rewrite Ep. destruct (content_at v (final_name j)) as [d|] eqn:Ef.
    + assert (data_of v j = Some d) as Hd by (unfold data_of; by rewrite Ep).
      destruct (data_sized v j l d Hs Hj Hd) as (_ & _ & Hr). destruct (Hok _ _ Ef Hr) as (f0 & -> & Hh). rewrite Hr.
      split; [done|]. by eexists.
    + assert (file_of v (final_name j) = None) as ->; [|eauto].
      unfold content_at in Ef. by destruct (file_of v (final_name j)).
Qed.

Lemma read_loop_ok v h d length b len off fuel :
  handle_ok k v h d -> size_of d <= length -> 0 <= off -> 0 <= len -> off + len <= size_of d ->
  (Z.to_nat len < fuel)%nat ->
  wpt (io_spec k) (read_loop fuel h length b len off) (fun r v' => v' = v /\ r = Val (b ++ slice d off len, None)) v.
Proof.
  intros Hh Hd Ho Hl Hsz Hfuel. assert (forall o, slice d o 0 = []) as Hz by (intros o; apply take_0).
  destruct fuel as [|fuel]; [lia|]. cbn [read_loop].
  destruct (Z.eqb_spec len 0) as [->|Hne]; [rewrite andb_false_r, Hz, app_nil_r; done|].
  rewrite (proj2 (Z.ltb_lt off length)) by lia. cbn [andb negb]. apply wpt_bind; [apply _|]. cbn.
  exists d. split; [done|]. split; [lia|]. split; [lia|]. intros err _ _.
  pose proof (slice_length d off len Ho Hl) as Hs. rewrite (proj2 (Z.eqb_neq _ 0)) by lia.
  destruct fuel as [|fuel]; [lia|]. cbn [read_loop]. replace (len - size_of (slice d off len)) with 0 by lia.
  rewrite Z.eqb_refl, andb_false_r. done.
Qed.

Lemma readFileAt_ok v j l f len off :
  wf_view v -> sized_files v -> ls !! j = Some l -> file_at t j = Some f -> 0 <= off -> 0 <= len -> off + len <= l ->
  match data_of v j with Some d => off + len <= size_of d | None => len = 0 end ->
  wpt (io_spec k) (readFileAt t f len off)
    (fun r v' => v' = v /\ exists err, r = Val (match data_of v j with Some d => slice d off len | None => [] end, err) /\
       (err = None \/ err = Some EOF)) v.
Proof.
  intros Hv Hs Hj Hf Ho Hl Hol Hd. destruct (file_at_spec j l Hj) as (f' & Hf' & Hlen & _).
  rewrite Hf in Hf'. injection Hf' as <-.
  unfold readFileAt. apply wpt_bind; [apply _|]. eapply wpt_mono; [apply _| |apply (open_either_ok openForSharedRead v j l f); auto].
  intros r v' [-> Hr]. destruct (data_of v j) as [d|] eqn:Ed; destruct Hr as (x & -> & Hx); cbn [after_value].
  2:{ cbn [wpt]. unfold is_not_exist. rewrite Hx. split; [done|]. eexists. split; [done|]. by right. }
  destruct (data_sized v j l d Hs Hj Ed) as (Hsz & _ & _). rewrite Hlen.
  rewrite (proj2 (Z.ltb_ge (l - off) len)), andb_false_l by lia.
  apply wpt_bind; [apply _|]. eapply wpt_mono; [apply _| |apply (read_loop_ok v x d l [] len off); [done|lia..]].
  intros r v' [-> ->]. cbn [after_value]. apply wpt_bind; [apply _|]. cbn. split; [done|]. eexists. split; [done|]. by left.
Qed.

Lemma start_of_S j x : ls !! j = Some x -> start_of (S j) = start_of j + x.
Proof. intros Hj. unfold start_of. by apply sum_take_S. Qed.

Lemma slice_stored v j x d a len :
  data_of v j = Some d -> ls !! j = Some x -> 0 <= a - start_of j -> 0 <= len -> a - start_of j + len <= x ->
  forall y, 0 <= y < len -> slice d (a - start_of j) len !! Z.to_nat y = byte_at v (a + y).
Proof.
  intros Hd Hj Ha Hl Hx y Hy. rewrite slice_lookup by lia. replace (a + y) with (start_of j + (a - start_of j + y)) by lia.
  rewrite (byte_at_file v j x) by (done || lia). unfold stored. by rewrite Hd.
Qed.

(** ** Segments that tile an extent *)

(** The segments cover the bytes from [a] to [fin], one after the other. *)
Inductive tiles : Z -> list (nat * Extent) -> Z -> Prop :=
| tiles_nil a : tiles a [] a
| tiles_cons a fin j x o len segs :
    ls !! j = Some x -> a = start_of j + o -> 0 <= o -> 0 <= len -> o + len <= x -> (len = 0 -> x = 0) ->
    tiles (a + len) segs fin -> tiles a ((j, mkExtent o len) :: segs) fin.

Lemma tiles_le a segs fin : tiles a segs fin -> a <= fin.
Proof. induction 1; lia. Qed.

Lemma located_tiles e l j :
  sized e -> segments.Start e + segments.Length e <= sum ls -> drop j ls = l ->
  let a := Z.max (Start e) (start_of j) in a <= Start e + segments.Length e ->
  tiles a (located j (start_of j) l e) (Start e + segments.Length e).
Proof.
  intros (HS & HL & HE) Htot. revert j. induction l as [|x l IH]; intros j Hdrop a Ha.
  - cbn [located]. assert (a = Start e + segments.Length e) as ->; [|constructor].
    assert (start_of j = sum ls); [|lia]. unfold start_of. rewrite take_ge; [done|].
    apply (f_equal length) in Hdrop. rewrite length_drop in Hdrop. cbn in Hdrop. lia.
  - assert (ls !! j = Some x) as Hj by (rewrite <-(Nat.add_0_r j), <-lookup_drop, Hdrop; done).
    assert (drop (S j) ls = l) as Hdrop' by (rewrite (drop_S ls x j Hj) in Hdrop; by injection Hdrop).
    pose proof (start_of_S j x Hj) as HSj. pose proof (Forall_lookup_1 _ _ _ _ lengths_nonneg Hj) as Hx. cbn in Hx.
    assert (Forall (Z.le 0) (x :: l)) as Hfl by (rewrite <-Hdrop; apply Forall_drop, lengths_nonneg).
    destruct (Z.eq_dec a (Start e + segments.Length e)) as [Hend|Hmore].
    { rewrite located_past by (done || lia). rewrite Hend. constructor. }
    cbn [located]. rewrite <-HSj. specialize (IH (S j) Hdrop'). cbn zeta in IH.
    destruct (meets e (start_of j) x) eqn:Em; cbn [app].
    + apply meets_spec in Em. unfold overlap. fold a. econstructor; [exact Hj|lia|lia|lia|lia|lia|].
      destruct (Z.le_gt_cases (Start e + segments.Length e) (start_of j + x)) as [Hle|Hgt].
      * rewrite located_past by (inversion Hfl; done || lia). rewrite Z.min_l by lia.
        replace (a + _) with (Start e + segments.Length e) by lia. constructor.
      * replace (a + _) with (Z.max (Start e) (start_of (S j))) by lia. apply IH. lia.
    + assert (~ _) as Hn by (intros Hm; apply (proj2 (meets_spec e (start_of j) x)) in Hm; congruence).
      replace a with (Z.max (Start e) (start_of (S j))) by lia. apply IH. lia.
Qed.

(** What the storage locates of an extent of the torrent. *)
Lemma locate_tiles e : sized e -> segments.Start e + segments.Length e <= sum ls ->
  tiles (Start e) (LocateIter (segmentLocater t) e) (Start e + segments.Length e).
Proof.
  intros He Htot. rewrite (lay_index Hlay), LocateIter_overlaps by (apply lengths_nonneg || apply lengths_size || done).
  pose proof He as (HS & HL & _). pose proof (located_tiles e ls 0 He Htot eq_refl) as Ht. cbn zeta in Ht.
  change (start_of 0) with 0 in Ht. rewrite Z.max_l in Ht by lia. apply Ht. lia.
Qed.

(** A file with bytes that are stored is long enough. *)
Lemma tile_data v j x o len :
  ls !! j = Some x -> 0 <= o -> 0 <= len -> o + len <= x -> (len = 0 -> x = 0) ->
  (forall g, start_of j + o <= g < start_of j + o + len -> is_Some (byte_at v g)) ->
  match data_of v j with Some d => o + len <= size_of d | None => len = 0 end.
Proof.
  intros Hj Ho Hl Hx Hz Hb. destruct (Z.eq_dec len 0) as [Hz'|Hz'].
  { destruct (data_of v j) as [d|]; [|done]. specialize (Hz Hz'). unfold size_of. lia. }
  destruct (Hb (start_of j + (o + (len - 1)))) as [c Hc]; [lia|].
  rewrite (byte_at_file v j x) in Hc by (done || lia). unfold stored in Hc.
  destruct (data_of v j) as [d|]; [|done]. apply lookup_lt_Some in Hc. unfold size_of. lia.
Qed.

(** Bytes of a file, then the rest. *)
Lemma bytes_app v a len fin b1 b2 :
  0 <= len -> a + len <= fin -> size_of b1 = len -> (forall y, 0 <= y < len -> b1 !! Z.to_nat y = byte_at v (a + y)) ->
  size_of b2 = fin - (a + len) -> (forall y, 0 <= y < fin - (a + len) -> b2 !! Z.to_nat y = byte_at v (a + len + y)) ->
  size_of (b1 ++ b2) = fin - a /\ forall y, 0 <= y < fin - a -> (b1 ++ b2) !! Z.to_nat y = byte_at v (a + y).
Proof.
  intros Hl Hf H1 Hb1 H2 Hb2. unfold size_of in *. split; [rewrite length_app; lia|]. intros y Hy.
  destruct (Z.lt_ge_cases y len).
  - rewrite lookup_app_l by lia. apply Hb1. lia.
  - rewrite lookup_app_r by lia. replace (Z.to_nat y - length b1)%nat with (Z.to_nat (y - len)) by lia.
    rewrite Hb2 by lia. f_equal. lia.
Qed.

Definition reads (v : fsview) (a fin : Z) (b b' : list ascii) : Prop :=
  exists b1, b' = b ++ b1 /\ size_of b1 = fin - a /\ forall y, 0 <= y < fin - a -> b1 !! Z.to_nat y = byte_at v (a + y).

Lemma reads_nil v a b : reads v a a b b.
Proof. exists []. rewrite app_nil_r. split_and!; [done|unfold size_of; cbn; lia|lia]. Qed.

(** What was read of one file starts what was read. *)
Lemma reads_cons v j x o len fin b b' d :
  ls !! j = Some x -> 0 <= o -> 0 <= len -> o + len <= x -> start_of j + o + len <= fin ->
  match data_of v j with Some e => d = e /\ o + len <= size_of e | None => d = [] /\ len = 0 end ->
  reads v (start_of j + o + len) fin (b ++ slice d o len) b' -> reads v (start_of j + o) fin b b'.
Proof.
  intros Hj Ho Hl Hx Hf Hd (b2 & -> & Hs & Hb). exists (slice d o len ++ b2). rewrite app_assoc. split; [done|].
  apply (bytes_app v _ len); [done|done| | |done|done].
  - rewrite slice_length by done. destruct (data_of v j); destruct Hd as [-> ?]; [lia|]. unfold size_of. cbn. lia.
  - intros y Hy. destruct (data_of v j) as [e|] eqn:E; destruct Hd as [-> ?]; [|lia].
    replace o with (start_of j + o - start_of j) at 1 by lia. apply (slice_stored v j x); done || lia.
Qed.

Lemma read_segments_ok v a segs fin b :
  wf_view v -> sized_files v -> tiles a segs fin -> (forall g, a <= g < fin -> is_Some (byte_at v g)) ->
  wpt (io_spec k) (read_segments t segs b (fin - a))
    (fun r v' => v' = v /\ exists b', r = Val (b', None) /\ reads v a fin b b') v.
Proof.
  intros Hv Hs Ht. revert b. induction Ht as [a|a fin j x o len segs Hj Ha Ho Hl Hx Hz Ht IH]; intros b Hb; cbn [read_segments].
  { rewrite Z.sub_diag, Z.eqb_refl. cbn [wpt]. split; [done|]. exists b. split; [done|apply reads_nil]. }
  destruct (file_at_spec j x Hj) as (f & Hf & _). unfold file_. rewrite Hf. cbn [pbind segments.Length segments.Start].
  pose proof (tiles_le _ _ _ Ht). rewrite (proj2 (Z.ltb_ge len 0)), (proj2 (Z.ltb_ge (fin - a) len)) by lia. cbn [orb].
  pose proof (tile_data v j x o len Hj Ho Hl Hx Hz ltac:(intros; apply Hb; lia)) as Hd.
  apply wpt_bind; [apply _|]. eapply wpt_mono; [apply _| |apply (readFileAt_ok v j x f len o); done].
  intros r v' [-> (err & -> & Herr)]. cbn [after_value].
  set (d := default [] (data_of v j)).
  assert (match data_of v j with Some e => slice e o len | None => [] end = slice d o len) as ->.
  { unfold d. destruct (data_of v j); [done|]. cbn. unfold slice. by rewrite drop_nil, take_nil. }
  assert (size_of (slice d o len) = len) as ->.
  { rewrite slice_length by done. unfold d. destruct (data_of v j); cbn; [lia|]. unfold size_of. cbn. lia. }
  rewrite Z.eqb_refl.
  assert (wpt (io_spec k) (read_segments t segs (b ++ slice d o len) (fin - a - len))
    (fun r v' => v' = v /\ exists b', r = Val (b', None) /\ reads v a fin b b') v) as Hrest.
  2:{ destruct Herr as [-> | ->]; exact Hrest. }
  replace (fin - a - len) with (fin - (a + len)) by lia.
  eapply wpt_mono; [apply _| |apply IH; intros; apply Hb; lia].
  intros r v' (-> & b' & -> & Hr). split; [done|]. exists b'. split; [done|]. subst a.
  apply (reads_cons v j x o len fin b b' d); try done.
  unfold d. destruct (data_of v j); done.
Qed.

Lemma io_ReadAt_ok v off len :
  wf_view v -> sized_files v -> 0 <= off -> 0 <= len -> off + len <= sum ls ->
  (forall g, off <= g < off + len -> is_Some (byte_at v g)) ->
  wpt (io_spec k) (io_ReadAt t len off)
    (fun r v' => v' = v /\ exists b, r = Val (b, None) /\ reads v off (off + len) [] b) v.
Proof.
  intros Hv Hs Ho Hl Htot Hb. unfold io_ReadAt.
  assert (sized (mkExtent off len)) as Hsz by (pose proof lengths_size; split_and!; cbn; lia).
  pose proof (read_segments_ok v _ _ _ [] Hv Hs (locate_tiles _ Hsz Htot) Hb) as Hr. cbn [segments.Start segments.Length] in Hr.
  replace (off + len - off) with len in Hr by lia. exact Hr.
Qed.

(** ** Writing *)

Definition put (v v' : fsview) (name : string) (d : list ascii) : Prop :=
  wf_view v' /\ fv_done v' = fv_done v /\ content_at v' name = Some d /\
  forall name', name' <> name -> content_at v' name' = content_at v name'.

Lemma write_file_ok v j x f p e :
  wf_view v -> ls !! j = Some x -> file_at t j = Some f ->
  0 <= segments.Start e -> 0 <= segments.Length e <= size_of p -> segments.Start e + segments.Length e <= x ->
  wpt (io_spec k) (write_file t f p e)
    (fun r v' => r = Val (segments.Length e, None) /\
       put v v' (part_name j) (splice (opened k (default [] (content_at v (part_name j))) x)
                                 (slice p 0 (segments.Length e)) (segments.Start e))) v.
Proof.
  intros Hv Hj Hf Hs Hl Hx. destruct (file_at_spec j x Hj) as (f' & Hf' & Hlen & _ & _ & _ & Hpart).
  rewrite Hf in Hf'. injection Hf' as <-.
  pose proof (Forall_lookup_1 _ _ _ _ lengths_nonneg Hj) as Hx0. cbn in Hx0.
  assert (size_of (slice p 0 (segments.Length e)) = segments.Length e) as Hsl by (rewrite slice_length; lia).
  unfold write_file, openForWrite_, pathForWrite. rewrite (lay_part Hlay), Hpart, Hlen. apply wpt_bind; [apply _|]. cbn.
  split; [done|]. split; [apply (Forall_lookup_1 _ _ _ _ (lay_empty Hlay) Hj)|]. intros g d Hg.
  assert (fv_names v !! part_name j = Some g \/ (forall n', fv_names v !! n' <> Some g)) as Hput.
  { destruct (file_of v (part_name j)) as [fd|] eqn:E; [left|right; apply Hg]. subst fd.
    by destruct (file_of_content _ _ _ _ E). }
  assert (d = default [] (content_at v (part_name j))) as ->.
  { destruct (file_of v (part_name j)) as [fd|] eqn:E.
    - subst fd. destruct (file_of_content _ _ _ _ E) as (_ & _ & ->). done.
    - destruct (file_of_none _ _ Hv E) as [_ ->]. by destruct Hg. }
  set (d := opened k _ x). destruct (content_put v (part_name j) g d (fv_done v) Hv Hput) as (Hv1 & Hc1 & Hf1 & Hother1).
  set (v1 := mkFs _ _ _) in *. cbn [after_value].
  rewrite (proj2 (Z.ltb_ge _ 0)), (proj2 (Z.ltb_ge (size_of p) _)) by lia. cbn [orb].
  exists d. split.
  { split; [|done]. by destruct (file_of_content _ _ _ _ Hf1) as (_ & ? & _). }
  split; [done|]. split.
  { rewrite Hsl. intros ->. unfold d. cbn. rewrite resize_length; lia. }
  cbn. rewrite Hsl, Z.eqb_refl. split; [done|].
  destruct (content_set v1 (part_name j) g d (splice d (slice p 0 (segments.Length e)) (segments.Start e)) Hv1 Hf1) as (Hv2 & Hc2 & Hother2).
  split_and!; [done|done|done|]. intros name' Hne. rewrite Hother2, Hother1; done.
Qed.

(** What a write does to a byte it does not write: nothing, or it fills a
    file up with zeros. *)
Definition keeps (x y : option ascii) : Prop := y = x \/ x = None /\ y = Some zero_byte.

Lemma keeps_trans x y z : keeps x y -> keeps y z -> keeps x z.
Proof. unfold keeps. intros [-> | [-> ->]] [-> | [? ->]]; naive_solver. Qed.

(** Writing to a file does not hide its data. *)
Definition openable (v : fsview) (j : nat) : Prop :=
  content_at v (part_name j) = None -> content_at v (final_name j) = None.

Lemma opened_lookup d0 x o : 0 <= o < x -> keeps (d0 !! Z.to_nat o) (opened k d0 x !! Z.to_nat o).
Proof.
  intros Ho. unfold opened. destruct k; [by left|]. rewrite resize_lookup by done.
  unfold size_of. destruct (Z.ltb_spec o (Z.of_nat (length d0))); [by left|right]. split; [|done].
  apply lookup_ge_None_2. lia.
Qed.

Lemma written_lookup d0 x o q y : 0 <= o -> o + size_of q <= x -> 0 <= y < x ->
  if (o <=? y) && (y <? o + size_of q) then splice (opened k d0 x) q o !! Z.to_nat y = q !! Z.to_nat (y - o)
  else keeps (d0 !! Z.to_nat y) (splice (opened k d0 x) q o !! Z.to_nat y).
Proof.
  intros Ho Hq Hy. rewrite splice_lookup by lia. destruct ((o <=? y) && (y <? o + size_of q)); [done|].
  apply (keeps_trans _ (opened k d0 x !! Z.to_nat y)); [by apply opened_lookup|].
  destruct (Z.ltb_spec y (size_of (opened k d0 x))); [by left|]. unfold size_of in *.
  rewrite (lookup_ge_None_2 (opened k d0 x)) by lia. destruct ((y <? o) && _); [by right|by left].
Qed.

Lemma written_size d0 x o q : 0 <= o -> o + size_of q <= x -> size_of d0 <= x -> 0 <= x ->
  size_of (splice (opened k d0 x) q o) <= x /\ (k = Mapped -> size_of (splice (opened k d0 x) q o) = x).
Proof.
  intros Ho Hq Hd Hx. assert (size_of (opened k d0 x) <= x /\ (k = Mapped -> size_of (opened k d0 x) = x)) as [H1 H2].
  { unfold opened. destruct k; [done|]. rewrite resize_length; [split; [lia|done]|done]. }
  destruct (decide (q = [])) as [->|Hne]; [done|]. rewrite splice_length by done.
  split; [lia|]. intros Hk. specialize (H2 Hk). lia.
Qed.

Lemma put_other v v' j d : put v v' (part_name j) d -> forall j' x x', ls !! j = Some x -> ls !! j' = Some x' ->
  content_at v' (final_name j') = content_at v (final_name j') /\
  (j' <> j -> content_at v' (part_name j') = content_at v (part_name j') /\ data_of v' j' = data_of v j').
Proof.
  intros (_ & _ & _ & Ho) j' x x' Hj Hj'. destruct (names_differ _ _ _ _ Hj' Hj) as [H1 H2].
  assert (content_at v' (final_name j') = content_at v (final_name j')) as Hf by by apply Ho.
  split; [done|]. intros Hne. destruct (H2 Hne) as [_ H3].
  assert (content_at v' (part_name j') = content_at v (part_name j')) as Hp by by apply Ho.
  split; [done|]. unfold data_of. by rewrite Hp, Hf.
Qed.

Lemma put_sized v v' j x d : sized_files v -> ls !! j = Some x -> put v v' (part_name j) d ->
  size_of d <= x /\ (k = Mapped -> size_of d = x) -> sized_files v'.
Proof.
  intros Hs Hj Hp Hd j' x' name d' Hj' Hname Hc. pose proof Hp as (_ & _ & Hcd & Ho).
  destruct (decide (name = part_name j)) as [->|Hne].
  - rewrite Hcd in Hc. injection Hc as <-. destruct (decide (j' = j)) as [->|Hjj]; [by assert (x' = x) as -> by congruence|].
    destruct (names_differ _ _ _ _ Hj' Hj) as [H1 H2], (H2 Hjj) as [_ H3]. by destruct Hname.
  - rewrite Ho in Hc by done. by apply (Hs j' x' name d').
Qed.

Lemma find_offset g : 0 <= g < sum ls -> exists j x, ls !! j = Some x /\ 0 <= g - start_of j < x.
Proof.
  intros Hg. destruct (located_one 0 0 ls g lengths_nonneg) as [[Hp _]|(j & x & Hj & Ho & _)]; [lia|lia|].
  exists j, x. split; [done|]. unfold start_of. cbn zeta in Ho. lia.
Qed.

Record wrote (v v' : fsview) (e : Extent) (lo : Z) (p : list ascii) : Prop := {
  wr_view : wf_view v';
  wr_sized : sized_files v';
  wr_done : fv_done v' = fv_done v;
  wr_bytes : forall g, 0 <= g < sum ls ->
    if (lo <=? g) && (g <? lo + size_of p) then byte_at v' g = p !! Z.to_nat (g - lo)
    else keeps (byte_at v g) (byte_at v' g);
  wr_final : forall j x, ls !! j = Some x -> content_at v' (final_name j) = content_at v (final_name j);
  wr_part : forall j x, ls !! j = Some x ->
    content_at v' (part_name j) = content_at v (part_name j) \/ meets e (start_of j) x = true;
  wr_kept : forall j x, ls !! j = Some x -> is_Some (data_of v j) -> is_Some (data_of v' j);
}.

Lemma wrote_nothing v e lo p : wf_view v -> sized_files v -> size_of p = 0 -> wrote v v e lo p.
Proof.
  intros Hv Hs Hp. constructor; try done; [|by left]. intros g Hg. rewrite Hp.
  destruct (Z.leb_spec lo g), (Z.ltb_spec g (lo + 0)); try (by left). lia.
Qed.

(** The bytes after a segment of a file was written. *)
Lemma put_bytes v v1 j x a m p j' x' o :
  ls !! j = Some x -> (0 < x -> openable v j) -> 0 <= a - start_of j -> 0 <= m <= size_of p -> a + m <= start_of j + x ->
  put v v1 (part_name j) (splice (opened k (default [] (content_at v (part_name j))) x) (slice p 0 m) (a - start_of j)) ->
  ls !! j' = Some x' -> 0 <= o < x' ->
  let g := start_of j' + o in
  if (a <=? g) && (g <? a + m) then byte_at v1 g = p !! Z.to_nat (g - a) else keeps (byte_at v g) (byte_at v1 g).
Proof.
  intros Hj Hopen Ha Hmp Hax Hput Hj' Ho' g. set (d0 := default [] _) in *.
  assert (size_of (slice p 0 m) = m) as Hsl by (rewrite slice_length; lia).
  unfold g. rewrite !(byte_at_file _ j' x') by done. destruct (decide (j' = j)) as [->|Hne].
  - assert (x' = x) as -> by congruence. pose proof Hput as (_ & _ & Hc & _).
    pose proof (written_lookup d0 x (a - start_of j) (slice p 0 m) o Ha ltac:(lia) Ho') as Hw. rewrite Hsl in Hw.
    assert (stored v1 j o = splice (opened k d0 x) (slice p 0 m) (a - start_of j) !! Z.to_nat o) as ->.
    { unfold stored, data_of. by rewrite Hc. }
    assert (stored v j o = d0 !! Z.to_nat o) as ->.
    { unfold stored, data_of, d0. specialize (Hopen ltac:(lia)). unfold openable in Hopen.
      destruct (content_at v (part_name j)); [done|]. by rewrite Hopen. }
    destruct (Z.leb_spec a (start_of j + o)), (Z.leb_spec (a - start_of j) o); try lia; cbn [andb] in *; [|exact Hw].
    destruct (Z.ltb_spec (start_of j + o) (a + m)), (Z.ltb_spec o (a - start_of j + m)); try lia; [|exact Hw].
    rewrite Hw. rewrite slice_lookup by lia. f_equal. lia.
  - destruct (put_other _ _ _ _ Hput j' x x' Hj Hj') as [_ H2]. destruct (H2 Hne) as [_ Hd].
    assert (stored v1 j' o = stored v j' o) as -> by (unfold stored; by rewrite Hd).
    destruct ((a <=? start_of j' + o) && (start_of j' + o <? a + m)) eqn:E; [|by left]. exfalso.
    apply andb_true_iff in E as [E1%Z.leb_le E2%Z.ltb_lt].
    destruct (find_file_spec 0 0 ls (start_of j' + o) j' o lengths_nonneg) as [_ F1].
    destruct (find_file_spec 0 0 ls (start_of j' + o) j (start_of j' + o - start_of j) lengths_nonneg) as [_ F2].
    rewrite F1 in F2; [|exists j', x'; unfold start_of; split_and!; [lia|done|lia|lia|lia]].
    assert (Some (j', o) = Some (j, start_of j' + o - start_of j)) as F3; [|congruence].
    apply F2. exists j, x. unfold start_of in *. split_and!; [lia|done|lia|lia|lia].
Qed.

(** A segment of a file, then the rest. *)
Lemma wrote_cons v v1 v2 e j x a m a' p :
  ls !! j = Some x -> meets e (start_of j) x = true -> (0 < x -> openable v j) ->
  0 <= a - start_of j -> 0 <= m <= size_of p -> a + m <= start_of j + x -> (m < size_of p -> a' = a + m) ->
  put v v1 (part_name j) (splice (opened k (default [] (content_at v (part_name j))) x) (slice p 0 m) (a - start_of j)) ->
  wrote v1 v2 e a' (drop (Z.to_nat m) p) -> wrote v v2 e a p.
Proof.
  intros Hj Hm Hopen Ha Hmp Hax Ha' Hput [W1 W2 W3 W4 W5 W6 W7].
  assert (size_of (drop (Z.to_nat m) p) = size_of p - m) as Hdrop by (unfold size_of in *; rewrite length_drop; lia).
  constructor; [done|done| | | | |].
  - destruct Hput as (_ & Hd & _). by rewrite W3.
  - intros g Hg. specialize (W4 g Hg). rewrite Hdrop in W4. destruct (find_offset g Hg) as (j' & x' & Hj' & Ho').
    pose proof (put_bytes v v1 j x a m p j' x' (g - start_of j') Hj Hopen Ha Hmp Hax Hput Hj' Ho') as H1. cbn zeta in H1.
    replace (start_of j' + (g - start_of j')) with g in H1 by lia.
    destruct ((a <=? g) && (g <? a + m)) eqn:E1.
    + apply andb_true_iff in E1 as [E1%Z.leb_le E2%Z.ltb_lt]. rewrite (proj2 (Z.leb_le a g)), (proj2 (Z.ltb_lt g _)) by lia. cbn [andb].
      assert (byte_at v1 g = byte_at v2 g) as <-; [|done].
      destruct ((a' <=? g) && (g <? a' + (size_of p - m))) eqn:E3.
      * apply andb_true_iff in E3 as [E3%Z.leb_le E4%Z.ltb_lt]. lia.
      * destruct W4 as [W4|[W4 _]]; [done|]. rewrite H1 in W4. apply lookup_ge_None_1 in W4. unfold size_of in *. lia.
    + destruct ((a' <=? g) && (g <? a' + (size_of p - m))) eqn:E3.
      * apply andb_true_iff in E3 as [E3%Z.leb_le E4%Z.ltb_lt].
        rewrite (proj2 (Z.leb_le a g)), (proj2 (Z.ltb_lt g _)) by lia. cbn [andb]. rewrite W4, lookup_drop. f_equal. lia.
      * assert ((a <=? g) && (g <? a + size_of p) = false) as ->; [|by eapply keeps_trans].
        apply andb_false_iff in E1, E3. apply andb_false_iff. rewrite !Z.leb_gt, !Z.ltb_ge in *. lia.
  - intros j' x' Hj'. rewrite (W5 j' x' Hj'). by apply (put_other _ _ _ _ Hput j' x x').
  - intros j' x' Hj'. destruct (decide (j' = j)) as [->|Hne]; [right; by assert (x' = x) as -> by congruence|].
    destruct (put_other _ _ _ _ Hput j' x x' Hj Hj') as [_ H2]. destruct (H2 Hne) as [<- _]. by apply (W6 j' x').
  - intros j' x' Hj' Hd. apply (W7 j' x' Hj'). destruct (decide (j' = j)) as [->|Hne].
    + destruct Hput as (_ & _ & Hc & _). unfold data_of. rewrite Hc. by eexists.
    + destruct (put_other _ _ _ _ Hput j' x x' Hj Hj') as [_ H2]. by destruct (H2 Hne) as [_ ->].
Qed.

Lemma write_segments_ok e l : sized e -> segments.Start e + segments.Length e <= sum ls -> forall j v p n,
  drop j ls = l -> wf_view v -> sized_files v ->
  (forall j' x, (j <= j')%nat -> ls !! j' = Some x -> 0 < x -> meets e (start_of j') x = true -> openable v j') ->
  let a := Z.max (Start e) (start_of j) in size_of p = Z.max 0 (Start e + segments.Length e - a) ->
  wpt (io_spec k) (write_segments t (located j (start_of j) l e) p n)
    (fun r v' => r = Val (n + size_of p, None) /\ wrote v v' e a p) v.
Proof.
  intros (HS & HL & HE) Htot. induction l as [|x l IH]; intros j v p nn Hdrop Hv Hs Hopen a Hp.
  - cbn [located write_segments wpt]. assert (size_of p = 0) as Hp0.
    { assert (start_of j = sum ls); [|lia]. unfold start_of. rewrite take_ge; [done|].
      apply (f_equal length) in Hdrop. rewrite length_drop in Hdrop. cbn in Hdrop. lia. }
    rewrite Hp0, Z.add_0_r. split; [done|]. by apply wrote_nothing.
  - assert (ls !! j = Some x) as Hj by (rewrite <-(Nat.add_0_r j), <-lookup_drop, Hdrop; done).
    assert (drop (S j) ls = l) as Hdrop' by (rewrite (drop_S ls x j Hj) in Hdrop; by injection Hdrop).
    pose proof (start_of_S j x Hj) as HSj. pose proof (Forall_lookup_1 _ _ _ _ lengths_nonneg Hj) as Hx. cbn in Hx.
    assert (Forall (Z.le 0) (x :: l)) as Hfl by (rewrite <-Hdrop; apply Forall_drop, lengths_nonneg).
    destruct (Z.le_gt_cases (Start e + segments.Length e) a) as [Hend|Hmore].
    { rewrite located_past by done. cbn [write_segments wpt]. assert (size_of p = 0) as Hp0 by lia.
      rewrite Hp0, Z.add_0_r. split; [done|]. by apply wrote_nothing. }
    cbn [located]. rewrite <-HSj. destruct (meets e (start_of j) x) eqn:Em.
    2:{ cbn [app]. assert (~ _) as Hn by (intros Hm; apply (proj2 (meets_spec e (start_of j) x)) in Hm; congruence).
        specialize (IH (S j) v p nn Hdrop' Hv Hs). cbn zeta in IH.
        replace (Z.max (Start e) (start_of (S j))) with a in IH by lia.
        apply IH; [|done]. intros j' y Hjj. apply Hopen. lia. }
    cbn [app write_segments]. destruct (file_at_spec j x Hj) as (f & Hf & _). unfold file_. rewrite Hf. cbn [pbind].
    pose proof Em as Em'. apply meets_spec in Em'. unfold overlap. cbn zeta. fold a.
    set (m := Z.min (Start e + segments.Length e) (start_of j + x) - a). assert (0 <= m <= size_of p) as Hm by lia.
    apply wpt_bind; [apply _|]. eapply wpt_mono; [apply _| |apply (write_file_ok v j x f p); cbn; done || lia].
    intros r v1 [-> Hput]. cbn [after_value segments.Length segments.Start] in *.
    assert (size_of (drop (Z.to_nat m) p) = size_of p - m) as Hdp by (unfold size_of in *; rewrite length_drop; lia).
    eapply wpt_mono; [apply _| |apply (IH (S j) v1 (drop (Z.to_nat m) p) (nn + m) Hdrop')].
    + intros r v2 [-> Hw]. rewrite Hdp. replace (nn + m + (size_of p - m)) with (nn + size_of p) by lia. split; [done|].
      eapply (wrote_cons v v1 v2 e j x a m _ p); [done|done|intros; by apply (Hopen j x)|lia|done|lia| |exact Hput|exact Hw]. lia.
    + apply Hput.
    + eapply put_sized; [exact Hs|exact Hj|exact Hput|].
      assert (size_of (slice p 0 m) = m) as Hsl by (rewrite slice_length; lia). apply written_size; [lia|lia| |done].
      destruct (content_at v (part_name j)) as [d|] eqn:Ed; cbn; [|unfold size_of; cbn; lia]. apply (Hs j x (part_name j)); auto.
    + intros j' y Hjj Hy Hpos Hmeets. destruct (put_other _ _ _ _ Hput j' x y Hj Hy) as [Hfin Hrest].
      destruct Hrest as [Hpart _]; [lia|]. unfold openable. rewrite Hfin, Hpart. apply (Hopen j' y); [lia|done..].
    + cbn zeta. rewrite Hdp. lia.
Qed.

Lemma io_WriteAt_ok v p off :
  wf_view v -> sized_files v -> 0 <= off -> off + size_of p <= sum ls ->
  let e := mkExtent off (size_of p) in
  (forall j x, ls !! j = Some x -> 0 < x -> meets e (start_of j) x = true -> openable v j) ->
  wpt (io_spec k) (io_WriteAt t p off) (fun r v' => r = Val (size_of p, None) /\ wrote v v' e off p) v.
Proof.
  intros Hv Hs Ho Htot e Hopen. unfold io_WriteAt. rewrite (lay_index Hlay). fold e.
  assert (0 <= size_of p) by (unfold size_of; lia).
  assert (sized e) as Hsz by (pose proof lengths_size; split_and!; cbn; lia).
  rewrite LocateIter_overlaps by (apply lengths_nonneg || apply lengths_size || done).
  pose proof (write_segments_ok e ls Hsz Htot 0 v p 0 eq_refl Hv Hs) as Hw. cbn zeta in Hw. change (start_of 0) with 0 in Hw.
  change (Start e) with off in Hw. change (segments.Length e) with (size_of p) in Hw. rewrite !(Z.max_l off 0) in Hw by lia.
  replace (0 + size_of p) with (size_of p) in Hw by lia. apply Hw; [intros j x _; apply Hopen|lia].
Qed.
End torrent.
