(* ===== verification/StorageMarks.v ===== *)
(** * Marking pieces of a torrent

    What [WriteTo], [MarkComplete], [MarkNotComplete] and [Completion] of the
    file storage do to the names of the files and to the recorded pieces, and
    that none of them changes a byte of the torrent. *)

From S2P Require Import Prelude GoErrors Prog FilePath Segments Info InfoTheorems Disk FileIo FileIoSpec FileStorage StorageFacts.
From Stdlib Require Import ZArith Lia Ascii String.
From stdpp Require Import base gmap strings list.
Import os fileio filestorage segments.

Local Open Scope Z_scope.
Local Open Scope prog_scope.

(** Zeros in front of data, as in a file with a hole. *)
Lemma slice_zeros d off len r :
  0 <= off -> 0 <= len -> off <= r <= size_of d -> off + len <= size_of d ->
  (forall i, off <= i < r -> d !! Z.to_nat i = Some zero_byte) ->
  let m := Z.min (r - off) len in writeZeroes m ++ slice d r (len - m) = slice d off len.
Proof.
  intros Ho Hl Hr Hlen Hz m. assert (slice d off len = slice d off m ++ slice d (off + m) (len - m)) as ->.
  { unfold slice. replace (Z.to_nat (off + m)) with (Z.to_nat off + Z.to_nat m)%nat by lia.
    rewrite <-drop_drop, take_take_drop. f_equal. lia. }
  assert (slice d off m = writeZeroes m) as ->.
  { apply list_eq. intros y. unfold writeZeroes. destruct (decide (Z.of_nat y < m)) as [Hy|Hy].
    - rewrite lookup_replicate_2 by lia. replace y with (Z.to_nat (Z.of_nat y)) by lia.
      rewrite slice_lookup by lia. apply Hz. lia.
    - pose proof (slice_length d off m Ho ltac:(lia)) as Hs. unfold size_of in Hs.
      rewrite !lookup_ge_None_2; [done|rewrite length_replicate; lia|lia]. }
  f_equal. destruct (Z.eq_dec m len) as [->|Hne].
  - rewrite Z.sub_diag. unfold slice. by rewrite !take_0.
  - replace (off + m) with r by lia. done.
Qed.

Section torrent.
Context {ML : MmapLib} (k : kind) (i : info.Info) (n : Z) (t : fileTorrentImpl) (Hlay : layout k i n t).

Abbreviation ls := (lengths i).
Abbreviation pl := (info.PieceLength i).
Abbreviation start_of := (start_of i).
Abbreviation part := (part_name t).
Abbreviation final := (final_name t).
Abbreviation byte_at := (byte_at i t).
Abbreviation data_of := (data_of t).
Abbreviation sized_files := (sized_files k i t).

(** ** Pieces *)

Definition piece_len (p : Z) : Z := Z.min pl (sum ls - p * pl).
Definition the_extent (p : Z) : segments.Extent := segments.mkExtent (p * pl) (piece_len p).

Lemma piece_facts p : 0 <= p < n ->
  0 < pl /\ 0 <= p * pl /\ 0 < piece_len p <= pl /\ p * pl + piece_len p <= sum ls /\ p * pl <= max_size.
Proof.
  intros Hp. pose proof (lay_wf _ _ _ _ Hlay) as [Hv Hl Hs Hpl Hh Hc]. unfold piece_len.
  assert (0 <= p * pl <= (n - 1) * pl) by (split; [nia|apply Z.mul_le_mono_nonneg_r; lia]).
  unfold max_size in *. lia.
Qed.

Lemma piece_extent_ok p : 0 <= p < n ->
  piece_extent t p = Ret (the_extent p) /\ sized (the_extent p) /\
  segments.Start (the_extent p) + segments.Length (the_extent p) <= sum ls.
Proof.
  intros Hp. destruct (piece_facts p Hp) as (H1 & H2 & H3 & H4 & H5).
  pose proof (v1_piece i n p (lay_wf _ _ _ _ Hlay) Hp) as Hlen.
  pose proof (lengths_size k i n t Hlay). split_and!.
  - unfold piece_extent. rewrite (lay_info _ _ _ _ Hlay), Hlen. cbn. unfold the_extent, info.Offset, info.mul64.
    unfold max_size in *. by rewrite i64_id by lia.
  - unfold sized, the_extent. cbn. unfold max_size in *. lia.
  - cbn. lia.
Qed.

(** ** Hashing a piece *)

(** The classic files report a short write when there is more in the file. *)
Definition hash_spec (v : fsview) (a fin : Z) (b : list ascii) (r : res (list ascii * option error)) (v' : fsview) : Prop :=
  v' = v /\ exists b' err, r = Val (b', err) /\ (k = Mapped -> err = None) /\ (err = None -> reads i t v a fin b b').

Lemma writeFileTo_ok v j x o len :
  wf_view v -> sized_files v -> ls !! j = Some x -> 0 <= o -> 0 <= len -> o + len <= x -> (len = 0 -> x = 0) ->
  match data_of v j with Some d => o + len <= size_of d | None => len = 0 end ->
  wpt (io_spec k) (writeFileTo t j (mkExtent o len))
    (fun r v' => v' = v /\ exists err, r = Val (slice (default [] (data_of v j)) o len, err) /\ (k = Mapped -> err = None)) v.
Proof.
  intros Hv Hs Hj Ho Hl Hx Hz Hd. unfold writeFileTo. cbn [segments.Length segments.Start].
  destruct (Z.eqb_spec len 0) as [->|Hne]; [cbn; split; [done|]; exists None; unfold slice; by rewrite take_0|].
  destruct (file_at_spec k i n t Hlay j x Hj) as (f & Hf & Hlen & _). unfold file_. rewrite Hf. cbn [pbind].
  apply wpt_bind; [apply _|]. eapply wpt_mono; [apply _| |apply (open_either_ok k i n t Hlay openForRead v j x f); auto].
  intros r v' [-> Hr]. destruct (data_of v j) as [d|] eqn:Ed; [|lia]. destruct Hr as (h & -> & Hh). cbn [after_value].
  rewrite Hlen. pose proof (Forall_lookup_1 _ _ _ _ (lengths_nonneg k i n t Hlay) Hj). cbn in *.
  pose proof (sum_take_S _ _ _ Hj) as HS. pose proof (sum_take_le ls (lengths_nonneg k i n t Hlay) (S j)) as HSle.
  pose proof (sum_take_le ls (lengths_nonneg k i n t Hlay) j). pose proof (lengths_size k i n t Hlay).
  assert (x <= max_size) as Hxm by lia.
  assert (segments.End_ (mkExtent o len) = o + len) as ->.
  { unfold segments.End_. cbn. unfold max_size in *. by rewrite i64_id by lia. }
  rewrite (proj2 (Z.ltb_ge x _)) by lia. cbn. exists d. split; [done|]. split; [lia|]. intros r Hr _.
  destruct Hr as [Hr Hzero]; [lia|]. cbn. rewrite (proj2 (Z.ltb_ge r o)) by lia. cbn.
  exists d. split; [done|]. split; [lia|]. split; [lia|]. cbn. split; [done|].
  eexists. split; [do 2 f_equal; by apply slice_zeros|]. by intros ->.
Qed.

Lemma write_to_ok v a segs fin whole empty b :
  wf_view v -> sized_files v -> tiles i a segs fin -> (forall g, a <= g < fin -> is_Some (byte_at v g)) ->
  0 < segments.Length whole -> (segs = [] -> empty = false) ->
  wpt (io_spec k) (write_to t segs whole empty b) (hash_spec v a fin b) v.
Proof.
  intros Hv Hs Ht. revert empty b. induction Ht as [a|a fin j x o len segs Hj Ha Ho Hl Hx Hz Ht IH]; intros empty b Hb Hw He; cbn [write_to].
  { rewrite (He eq_refl), (proj2 (Z.eqb_neq _ 0)) by lia. cbn. split; [done|]. do 2 eexists. split; [done|]. split; [done|]. intros _. apply reads_nil. }
  subst a. pose proof (tiles_le _ _ _ _ Ht).
  pose proof (tile_data k i n t Hlay v j x o len Hj Ho Hl Hx Hz ltac:(intros; apply Hb; lia)) as Hd.
  apply wpt_bind; [apply _|]. eapply wpt_mono; [apply _| |by apply (writeFileTo_ok v j x o len)].
  intros r v' (-> & err & -> & Herr). cbn [after_value segments.Length].
  destruct err as [err|]; [cbn; split; [done|]; by do 2 eexists|].
  assert (size_of (slice (default [] (data_of v j)) o len) = len) as ->.
  { rewrite slice_length by done. destruct (data_of v j); cbn; [lia|]. unfold size_of. cbn. lia. }
  rewrite (proj2 (Z.ltb_ge len len)) by lia.
  eapply wpt_mono; [apply _| |apply IH; [intros; apply Hb; lia|done|done]].
  intros r v' (-> & b' & err & -> & Hk & Hr). split; [done|]. exists b', err. split; [done|]. split; [done|]. intros Hn.
  apply (reads_cons k i n t Hlay v j x o len fin b b' (default [] (data_of v j))); try done; [|by apply Hr].
  by destruct (data_of v j).
Qed.

Lemma tiles_nonempty a segs fin : tiles i a segs fin -> a < fin -> segs <> [].
Proof. intros Ht Hlt ->. inversion Ht. lia. Qed.

Lemma WriteTo_ok v p :
  wf_view v -> sized_files v -> 0 <= p < n ->
  (forall g, p * pl <= g < p * pl + piece_len p -> is_Some (byte_at v g)) ->
  wpt (io_spec k) (WriteTo t p) (hash_spec v (p * pl) (p * pl + piece_len p) []) v.
Proof.
  intros Hv Hs Hp Hb. destruct (piece_extent_ok p Hp) as (He & Hsz & Htot). unfold WriteTo. rewrite He. cbn [pbind].
  destruct (piece_facts p Hp) as (_ & _ & Hlen & _ & _). pose proof (locate_tiles k i n t Hlay _ Hsz Htot) as Ht.
  apply (write_to_ok v _ _ _ (the_extent p) true [] Hv Hs Ht Hb); [cbn; lia|].
  intros Hn. by destruct (tiles_nonempty _ _ _ Ht ltac:(cbn; lia)).
Qed.

(** ** What is recorded *)

Definition done_at (v : fsview) (q : Z) : option bool := fv_done v !! (infoHash t, q).

(** All pieces a file has bytes in are recorded as complete. *)
Definition all_done (v : fsview) (j : nat) (x : Z) : Prop :=
  forall q, start_of j < (q + 1) * pl -> q * pl < start_of j + x -> done_at v q = Some true.

Lemma recorded_complete v q :
  let c := recorded v (infoHash t, q) in
  CErr c = None /\ negb (COk c) || negb (Complete c) = negb (bool_decide (done_at v q = Some true)).
Proof.
  unfold recorded, done_at. destruct (fv_done v !! _) as [[]|]; (split; [done|]); by case_bool_decide.
Qed.

Definition cs_of (v : fsview) (p : Z) (m : nat) (cs : option (list Completion)) : Prop :=
  cs = None \/ cs = Some (map (fun y => recorded v (infoHash t, p + Z.of_nat y)) (seq 0 m)).

Lemma all_complete_ok v m p cs : 0 <= p -> cs_of v p m cs ->
  wpt (io_spec k) (all_complete t cs p m)
    (fun r v' => v' = v /\ exists b, r = Val (Ok b) /\
       (b = true <-> forall q, p <= q < p + Z.of_nat m -> done_at v q = Some true)) v.
Proof.
  revert p cs. induction m as [|m IH]; intros p cs Hp Hcs; cbn [all_complete].
  { assert (wpt (io_spec k) (Ret (Ok true) : prog ioE (result bool))
      (fun r v' => v' = v /\ exists b, r = Val (Ok b) /\
         (b = true <-> forall q, p <= q < p + Z.of_nat 0 -> done_at v q = Some true)) v).
    { cbn. split; [done|]. exists true. split; [done|]. split; [intros _ q; lia|done]. }
    by destruct Hcs as [-> | ->]. }
  assert (forall cs', cs_of v (p + 1) m cs' ->
    wpt (io_spec k) (let c := recorded v (infoHash t, p) in
      match CErr c with
      | Some err => Ret (Err (EWrap ("error getting completion for piece " +:+ pretty.pretty p +:+ ": ") err ""))
      | None => if negb (COk c) || negb (Complete c) then Ret (Ok false) else all_complete t cs' (p + 1) m
      end)
    (fun r v' => v' = v /\ exists b, r = Val (Ok b) /\
       (b = true <-> forall q, p <= q < p + Z.of_nat (S m) -> done_at v q = Some true)) v) as Hgo.
  { intros cs' Hcs'. cbn zeta. destruct (recorded_complete v p) as [-> ->]. case_bool_decide as Hd; cbn [negb].
    - eapply wpt_mono; [apply _| |apply IH; [lia|done]]. intros r v' (-> & b & -> & Hb). split; [done|]. exists b.
      split; [done|]. rewrite Hb. split; [|intros H q Hq; apply H; lia]. intros H q Hq.
      destruct (Z.eq_dec q p) as [->|]; [done|]. apply H. lia.
    - cbn. split; [done|]. exists false. split; [done|]. split; [done|]. intros H. destruct Hd. apply H. lia. }
  apply wpt_bind; [apply _|]. destruct Hcs as [-> | ->].
  - cbn. split; [done|]. apply (Hgo None). by left.
  - cbn [seq map]. cbn [wpt after_value]. replace (p + Z.of_nat 0) with p by lia. apply Hgo. right. do 1 f_equal.
    rewrite <-seq_shift, map_map. apply map_ext. intros y. do 2 f_equal. lia.
Qed.

(** The pieces a file has bytes in, as the code computes them. *)
Lemma piece_range j x f : ls !! j = Some x -> file_at t j = Some f ->
  0 <= beginPieceIndex f <= n /\ endPieceIndex f <= n /\
  forall q, beginPieceIndex f <= q < endPieceIndex f <-> start_of j < (q + 1) * pl /\ q * pl < start_of j + x.
Proof.
  intros Hj Hf. destruct (file_at_spec k i n t Hlay j x Hj) as (f' & Hf' & Hlen & Hoff & Hpl & _).
  rewrite Hf in Hf'. injection Hf' as <-.
  pose proof (lay_wf _ _ _ _ Hlay) as [_ _ _ Hplr _ Hc]. pose proof (lengths_size k i n t Hlay) as Hsize.
  pose proof (sum_take_le ls (lengths_nonneg k i n t Hlay) (S j)) as HSle. rewrite (sum_take_S _ _ _ Hj) in HSle.
  pose proof (sum_take_le ls (lengths_nonneg k i n t Hlay) j) as Hst. fold (start_of j) in *.
  pose proof (Forall_lookup_1 _ _ _ _ (lengths_nonneg k i n t Hlay) Hj) as Hx. cbn in Hx.
  unfold flength, torrentOffset in *.
  assert (forall q, beginPieceIndex f <= q < endPieceIndex f <-> start_of j < (q + 1) * pl /\ q * pl < start_of j + x) as Hrange.
  { intros q. unfold beginPieceIndex, endPieceIndex. rewrite Hpl. rewrite file_pieces by lia. by rewrite Hoff, Hlen. }
  assert (0 <= beginPieceIndex f <= n) as Hb0.
  { unfold beginPieceIndex, info.BeginPieceIndex, info.quot64. rewrite Hpl, Hoff, (proj2 (Z.eqb_neq pl 0)) by lia.
    rewrite Z.quot_div_nonneg by lia. assert (0 <= start_of j / pl <= start_of j) by
      (split; [apply Z.div_pos; lia|apply Z.div_le_upper_bound; nia]).
    assert (start_of j / pl <= n) by (apply Z.div_le_upper_bound; lia). unfold max_size in *. rewrite i64_id; lia. }
  split; [done|]. split; [|done].
  assert (endPieceIndex f = (start_of j + x + pl - 1) / pl) as ->.
  { unfold endPieceIndex, info.EndPieceIndex, info.quot64, info.sub64, info.add64. rewrite Hpl, Hoff, Hlen, (proj2 (Z.eqb_neq pl 0)) by lia.
    unfold max_size in *. rewrite (i64_id (start_of j + x)), (i64_id (_ + pl)), (i64_id (_ - 1)) by lia.
    rewrite Z.quot_div_nonneg by lia. apply i64_id. split; [apply (Z.le_trans _ 0); [lia|apply Z.div_pos; lia]|].
    apply Z.div_lt_upper_bound; nia. }
  apply Z.lt_succ_r, Z.div_lt_upper_bound; lia.
Qed.

Lemma allFilePiecesComplete_ok v j x f :
  ls !! j = Some x -> file_at t j = Some f -> (exists q, is_Some (fv_done v !! (infoHash t, q))) ->
  wpt (io_spec k) (allFilePiecesComplete t f)
    (fun r v' => v' = v /\ exists b, r = Val (Ok b) /\ (b = true <-> all_done v j x)) v.
Proof.
  intros Hj Hf Hex. destruct (piece_range j x f Hj Hf) as (Hb0 & _ & Hrange).
  unfold allFilePiecesComplete. apply wpt_bind; [apply _|].
  cbn. split; [lia|]. split; [done|]. set (m := Z.to_nat (endPieceIndex f - beginPieceIndex f)).
  assert (forall cs, cs_of v (beginPieceIndex f) m cs -> wpt (io_spec k) (all_complete t cs (beginPieceIndex f) m)
    (fun r v' => v' = v /\ exists b, r = Val (Ok b) /\ (b = true <-> all_done v j x)) v) as Hgo.
  { intros cs Hcs. eapply wpt_mono; [apply _| |apply all_complete_ok; [lia|exact Hcs]].
    intros r v' (-> & b & -> & Hb). split; [done|]. exists b. split; [done|]. rewrite Hb. unfold all_done, m. split.
    - intros H q H1 H2. apply H. destruct (Hrange q) as [_ Hr]. specialize (Hr (conj H1 H2)). lia.
    - intros H q Hq. destruct (Hrange q) as [Hr _]. apply H; apply Hr; lia. }
  split; apply Hgo; [by left|by right].
Qed.

(** ** Renaming *)

(** The file is under the other name, or nothing happened. *)
Definition same (v v' : fsview) (j : nat) : Prop :=
  content_at v' (part j) = content_at v (part j) /\ content_at v' (final j) = content_at v (final j).
Definition promoted (v v' : fsview) (j : nat) : Prop :=
  exists d, content_at v (part j) = Some d /\ content_at v' (part j) = None /\ content_at v' (final j) = Some d.
Definition demoted (v v' : fsview) (j : nat) : Prop :=
  exists d, content_at v (final j) = Some d /\ content_at v' (final j) = None /\ content_at v' (part j) = Some d.

(** Only names of the torrent's files changed, as [R] says. *)
Record renamed (R : nat -> Z -> Prop) (v v' : fsview) : Prop := {
  rn_view : wf_view v';
  rn_done : fv_done v' = fv_done v;
  rn_files : forall j x, ls !! j = Some x -> same v v' j \/ R j x;
}.

Lemma rename_ok v j x from to :
  wf_view v -> ls !! j = Some x -> (from = part j /\ to = final j \/ from = final j /\ to = part j) ->
  wpt (io_spec k) (exclRenameIfExists from to)
    (fun r v' => exists b, r = Val (b, None) /\ wf_view v' /\ fv_done v' = fv_done v /\
       (forall j' x', ls !! j' = Some x' -> j' <> j -> same v v' j') /\
       match content_at v from with
       | Some d => b = true /\ content_at v' to = Some d /\ content_at v' from = None
       | None => b = false /\ v' = v
       end) v.
Proof.
  intros Hv Hj Hnames. assert (from <> to) as Hne.
  { destruct (names_differ k i n t Hlay j j x x Hj Hj) as [H _]. destruct Hnames as [[-> ->]|[-> ->]]; auto. }
  unfold exclRenameIfExists. apply wpt_bind; [apply _|]. cbn. split; [done|]. destruct (fv_names v !! from) as [f|] eqn:En.
  - destruct (content_rename v from to f Hv Hne En) as (H1 & H2 & H3 & H4). cbn. exists true. split; [done|].
    split; [done|]. split; [done|]. split.
    + intros j' x' Hj' Hjj. destruct (names_differ k i n t Hlay j j' x x' Hj Hj') as [Ha Hb].
      destruct (names_differ k i n t Hlay j' j x' x Hj' Hj) as [Hc Hd]. destruct (Hb (not_eq_sym Hjj)) as [He Hf].
      split; apply H4; destruct Hnames as [[-> ->]|[-> ->]]; auto.
    + destruct (wfv_data _ Hv _ _ En) as [d Ed]. assert (content_at v from = Some d) as Hc.
      { unfold content_at, file_of. by rewrite En, Ed. }
      rewrite Hc. rewrite Hc in H2. done.
  - intros err Herr. unfold not_exist in Herr. cbn. unfold is_not_exist. rewrite Herr. exists false. split; [done|].
    split; [done|]. split; [done|]. split; [done|].
    assert (content_at v from = None) as ->; [|done]. unfold content_at, file_of. by rewrite En.
Qed.

Lemma promotePartFile_ok v j x f :
  wf_view v -> sized_files v -> ls !! j = Some x -> file_at t j = Some f -> all_done v j x ->
  wpt (io_spec k) (promotePartFile t f)
    (fun r v' => r = Val None /\ renamed (fun j x => promoted v v' j /\ all_done v j x) v v' /\ content_at v' (part j) = None) v.
Proof.
  intros Hv Hs Hj Hf Hall. destruct (file_at_spec k i n t Hlay j x Hj) as (f' & Hf' & Hlen & _ & _ & Hfin & Hpart).
  rewrite Hf in Hf'. injection Hf' as <-. unfold promotePartFile. rewrite (lay_part _ _ _ _ Hlay), Hpart, Hfin, Hlen.
  pose proof (Forall_lookup_1 _ _ _ _ (lengths_nonneg k i n t Hlay) Hj) as Hx. cbn in Hx.
  apply wpt_bind; [apply _|]. cbn. split.
  { split; [lia|]. split; [done|]. intros d Hd Hk. destruct (Hs j x (part j) d Hj (or_intror eq_refl) Hd) as [_ ->]; [lia|done]. }
  intros _. change (wpt (io_spec k) (r <- exclRenameIfExists (part j) (final j);;
    (let '(renamed, err) := r in match err with Some err => Ret (Some err) | None => if renamed then call (Os (Chmod (final j) false));; Ret None else Ret None end))
    (fun r v' => r = Val None /\ renamed (fun j x => promoted v v' j /\ all_done v j x) v v' /\ content_at v' (part j) = None) v).
  apply wpt_bind; [apply _|]. eapply wpt_mono; [apply _| |apply (rename_ok v j x (part j) (final j)); auto].
  intros r v' (b & -> & Hv' & Hd' & Hother & Hcase). cbn [after_value].
  assert (renamed (fun j x => promoted v v' j /\ all_done v j x) v v' /\ content_at v' (part j) = None) as Hr.
  { split; [|destruct (content_at v (part j)) eqn:Ed; [tauto|destruct Hcase; congruence]]. constructor; [done|done|]. intros j' x' Hj'. destruct (decide (j' = j)) as [->|Hne]; [|left; by apply (Hother j' x')].
    assert (x' = x) as -> by congruence. destruct (content_at v (part j)) as [d|] eqn:Ed.
    - right. destruct Hcase as (_ & H1 & H2). split; [|done]. by exists d.
    - left. destruct Hcase as [_ ->]. done. }
  destruct b; [|by cbn]. apply wpt_bind; [apply _|]. cbn. by intros _.
Qed.

Lemma renamed_sized R v v' : sized_files v -> renamed R v v' ->
  (forall j x, ls !! j = Some x -> R j x -> promoted v v' j \/ demoted v v' j) -> sized_files v'.
Proof.
  intros Hs [_ _ Hf] HR j x name d Hj Hname Hc. destruct (Hf j x Hj) as [[Hp Hfi]|HRj].
  - apply (Hs j x name d Hj Hname). destruct Hname as [-> | ->]; congruence.
  - destruct (HR j x Hj HRj) as [(e & H1 & H2 & H3)|(e & H1 & H2 & H3)]; destruct Hname as [-> | ->];
      try congruence; rewrite H3 in Hc; injection Hc as <-.
    + by apply (Hs j x (part j)); auto.
    + by apply (Hs j x (final j)); auto.
Qed.

Lemma promote_files_ok segs v :
  wf_view v -> sized_files v -> (exists q, is_Some (fv_done v !! (infoHash t, q))) ->
  Forall (fun s => is_Some (ls !! fst s)) segs ->
  wpt (io_spec k) (promote_files t segs)
    (fun r v' => r = Val None /\ renamed (fun j x => promoted v v' j /\ all_done v j x) v v' /\
       Forall (fun s => forall x, ls !! fst s = Some x -> all_done v (fst s) x -> content_at v' (part (fst s)) = None) segs) v.
Proof.
  intros Hv Hs Hex Hsegs. revert v Hv Hs Hex. induction Hsegs as [|[j e] segs [x Hj] _ IH]; intros v Hv Hs Hex; cbn [promote_files].
  { cbn. split; [done|]. split; [|constructor]. constructor; [done|done|]. intros. left. done. }
  cbn in Hj. destruct (file_at_spec k i n t Hlay j x Hj) as (f & Hf & _). unfold file_. rewrite Hf. cbn [pbind].
  apply wpt_bind; [apply _|]. eapply wpt_mono; [apply _| |by apply (allFilePiecesComplete_ok v j x f)].
  intros r v' (-> & b & -> & Hb). cbn [after_value]. destruct b.
  2:{ eapply wpt_mono; [apply _| |by apply IH]. intros r v' (-> & Hr & Hall). split; [done|]. split; [done|].
      constructor; [|done]. cbn. intros y Hy Hd. assert (y = x) as -> by congruence. apply Hb in Hd. done. }
  apply wpt_bind; [apply _|]. eapply wpt_mono; [apply _| |apply (promotePartFile_ok v j x f); auto; by apply Hb].
  intros r v1 (-> & H1 & Hpart). cbn [after_value].
  assert (sized_files v1) as Hs1 by (eapply renamed_sized; [exact Hs|exact H1|]; intros ?? _ [? _]; by left).
  pose proof H1 as [Hv1 Hd1 Hf1]. eapply wpt_mono; [apply _| |apply IH; [done|done|by rewrite Hd1]].
  intros r v2 (-> & H2 & Hall2). split; [done|]. pose proof H2 as [Hv2 Hd2 Hf2].
  assert (forall j' y, all_done v1 j' y <-> all_done v j' y) as Hall by (intros; unfold all_done, done_at; by rewrite Hd1).
  split.
  2:{ constructor; [|eapply Forall_impl; [exact Hall2|]; cbn; intros s Hs2 y Hy Hd; apply (Hs2 y Hy); by apply Hall].
      cbn. intros y Hy _. destruct (Hf2 j y Hy) as [[-> _]|[(d & _ & Hn & _) _]]; done. }
  constructor; [done|congruence|]. intros j' x' Hj'.
  destruct (Hf1 j' x' Hj') as [[Ha Hb']|[(d & Ha & Hb' & Hc) Hd]], (Hf2 j' x' Hj') as [[Ha2 Hb2]|[(d2 & Ha2 & Hb2 & Hc2) Hd2']].
  - left. split; congruence.
  - right. split; [|by apply Hall]. exists d2. split_and!; congruence.
  - right. split; [|done]. exists d. split_and!; congruence.
  - congruence.
Qed.

Lemma onFileNotComplete_ok v j x f :
  wf_view v -> ls !! j = Some x -> file_at t j = Some f ->
  wpt (io_spec k) (onFileNotComplete t f)
    (fun r v' => r = Val None /\ renamed (fun j _ => demoted v v' j) v v' /\ content_at v' (final j) = None) v.
Proof.
  intros Hv Hj Hf. destruct (file_at_spec k i n t Hlay j x Hj) as (f' & Hf' & _ & _ & _ & Hfin & Hpart).
  rewrite Hf in Hf'. injection Hf' as <-. unfold onFileNotComplete. rewrite (lay_part _ _ _ _ Hlay), Hpart, Hfin. cbn [negb].
  apply wpt_bind; [apply _|]. eapply wpt_mono; [apply _| |apply (rename_ok v j x (final j) (part j)); auto].
  intros r v' (b & -> & Hv' & Hd' & Hother & Hcase). cbn. split; [done|].
  destruct (content_at v (final j)) as [d|] eqn:Ed.
  - destruct Hcase as (_ & H1 & H2). split; [|done]. constructor; [done|done|].
    intros j' x' Hj'. destruct (decide (j' = j)) as [->|Hne]; [|left; by apply (Hother j' x')]. right. by exists d.
  - destruct Hcase as [_ ->]. split; [|done]. constructor; [done|done|]. intros. by left.
Qed.

Lemma demote_files_ok segs v :
  wf_view v -> Forall (fun s => is_Some (ls !! fst s)) segs ->
  wpt (io_spec k) (demote_files t segs)
    (fun r v' => r = Val None /\ renamed (fun j _ => demoted v v' j) v v' /\
       Forall (fun s => content_at v' (final (fst s)) = None) segs) v.
Proof.
  intros Hv Hsegs. revert v Hv. induction Hsegs as [|[j e] segs [x Hj] Hsegs IH]; intros v Hv; cbn [demote_files].
  { cbn. split; [done|]. split; [|constructor]. constructor; [done|done|]. intros. left. done. }
  cbn in Hj. destruct (file_at_spec k i n t Hlay j x Hj) as (f & Hf & _). unfold file_. rewrite Hf. cbn [pbind].
  apply wpt_bind; [apply _|]. eapply wpt_mono; [apply _| |by apply (onFileNotComplete_ok v j x f)].
  intros r v1 (-> & [Hv1 Hd1 Hf1] & Hnone). cbn [after_value].
  eapply wpt_mono; [apply _| |by apply IH]. intros r v2 (-> & [Hv2 Hd2 Hf2] & Hall). split; [done|]. split.
  - constructor; [done|congruence|]. intros j' x' Hj'.
    destruct (Hf1 j' x' Hj') as [[Ha Hb]|(d & Ha & Hb & Hc)], (Hf2 j' x' Hj') as [[Ha2 Hb2]|(d2 & Ha2 & Hb2 & Hc2)].
    + left. split; congruence.
    + right. exists d2. split_and!; congruence.
    + right. exists d. split_and!; congruence.
    + congruence.
  - constructor; [|done]. cbn. destruct (Hf2 j x Hj) as [[_ ->]|(d2 & _ & -> & _)]; done.
Qed.
End torrent.
