(* ===== verification/StorageSafety.v ===== *)
(** * The storage as a state machine

    The operations the client performs on the storage of a torrent, the
    contract under which it does (it does not write to complete pieces, and
    marks a piece as complete when it has all of it), and the invariant they
    keep: a file is under its own name only when all its pieces are recorded as
    complete, and the bytes of complete pieces are there. *)

From S2P Require Import Prelude GoErrors Prog FilePath Segments Info InfoTheorems Disk FileIo FileIoSpec FileStorage StorageFacts StorageMarks.
From Stdlib Require Import ZArith Lia Ascii String.
From stdpp Require Import base gmap strings list.
Import os fileio filestorage segments.

Local Open Scope Z_scope.
Local Open Scope prog_scope.

Lemma located_member i s l e m x : l !! m = Some x -> meets e (s + sum (take m l)) x = true ->
  exists y, ((i + m)%nat, y) ∈ located i s l e.
Proof.
  revert i s m. induction l as [|z l IH]; intros i s m Hm Hmeet; [done|]. cbn [located].
  destruct m as [|m]; cbn in Hm.
  - injection Hm as ->. cbn in Hmeet. rewrite Z.add_0_r in Hmeet. rewrite Hmeet, Nat.add_0_r.
    eexists. apply elem_of_app. left. by apply list_elem_of_singleton.
  - cbn [take sum foldr] in Hmeet. fold (sum (take m l)) in Hmeet. rewrite Z.add_assoc in Hmeet.
    destruct (IH (S i) (s + z) m Hm Hmeet) as [y Hy]. exists y. apply elem_of_app. right.
    by replace (i + S m)%nat with (S i + m)%nat by lia.
Qed.

Section torrent.
Context {ML : MmapLib} (k : kind) (i : info.Info) (n : Z) (t : fileTorrentImpl) (Hlay : layout k i n t).

Abbreviation ls := (lengths i).
Abbreviation pl := (info.PieceLength i).
Abbreviation start_of := (start_of i).
Abbreviation part := (part_name t).
Abbreviation final := (final_name t).
Abbreviation byte_at := (byte_at i t).
Abbreviation data_of := (data_of t).
Abbreviation sized_files := (sized_files k i t).
Abbreviation done_at := (done_at t).
Abbreviation piece_len := (piece_len i).
Abbreviation all_done := (all_done i t).

(** All bytes of a piece are stored. *)
Definition piece_stored (v : fsview) (q : Z) : Prop :=
  forall g, q * pl <= g < q * pl + piece_len q -> is_Some (byte_at v g).

Record ok (v : fsview) : Prop := {
  ok_view : wf_view v;
  ok_sized : sized_files v;
  ok_one_name : forall j x, ls !! j = Some x -> 0 < x -> content_at v (part j) = None \/ content_at v (final j) = None;
  ok_visible : forall j x, ls !! j = Some x -> 0 < x -> content_at v (final j) <> None -> all_done v j x;
  ok_stored : forall q, 0 <= q < n -> done_at v q = Some true -> piece_stored v q;
  ok_empty : forall j, ls !! j = Some 0 -> is_Some (data_of v j);
}.

(** ** Marking *)

Definition set_done (v : fsview) (q : Z) (b : bool) : fsview :=
  mkFs (fv_names v) (fv_data v) (<[(infoHash t, q) := b]> (fv_done v)).

Lemma set_done_view v q b : wf_view v -> wf_view (set_done v q b).
Proof. intros [H1 H2]. by constructor. Qed.

Lemma done_at_set v q b q' : done_at (set_done v q b) q' = if decide (q' = q) then Some b else done_at v q'.
Proof.
  unfold StorageMarks.done_at, set_done. cbn. destruct (decide (q' = q)) as [->|Hne]; [by rewrite lookup_insert_eq|].
  rewrite lookup_insert_ne; [done|]. congruence.
Qed.

Lemma tiles_files a segs fin : tiles i a segs fin -> Forall (fun s => is_Some (ls !! fst s)) segs.
Proof. induction 1 as [|a fin j x o len segs Hj]; constructor; [by eexists|done]. Qed.

Lemma fileExtents_ok p : 0 <= p < n ->
  fileExtents t p = Ret (LocateIter (segmentLocater t) (the_extent i p)) /\
  tiles i (p * pl) (LocateIter (segmentLocater t) (the_extent i p)) (p * pl + piece_len p).
Proof.
  intros Hp. destruct (piece_extent_ok k i n t Hlay p Hp) as (He & Hsz & Htot). unfold fileExtents. rewrite He. split; [done|].
  apply (locate_tiles k i n t Hlay (the_extent i p) Hsz Htot).
Qed.

(** The loop over the extents of a piece comes by every file with bytes in it. *)
Lemma located_all p (P : nat -> Prop) : 0 <= p < n ->
  Forall (fun s => P (fst s)) (LocateIter (segmentLocater t) (the_extent i p)) ->
  forall j x, ls !! j = Some x -> 0 < x -> start_of j < (p + 1) * pl -> p * pl < start_of j + x -> P j.
Proof.
  intros Hp Hall j x Hj Hx H1 H2.
  destruct (piece_extent_ok k i n t Hlay p Hp) as (_ & Hsz & _). destruct (piece_facts k i n t Hlay p Hp) as (_ & _ & Hlen & _ & _).
  rewrite (lay_index _ _ _ _ Hlay), LocateIter_overlaps in Hall
    by (done || apply (lengths_nonneg k i n t Hlay) || apply (lengths_size k i n t Hlay)).
  pose proof (sum_take_le ls (lengths_nonneg k i n t Hlay) (S j)) as HS. rewrite (sum_take_S _ _ _ Hj) in HS.
  destruct (located_member 0 0 ls (the_extent i p) j x Hj) as [y Hy].
  { apply meets_spec. left. cbn. unfold StorageFacts.start_of, StorageMarks.piece_len in *. lia. }
  rewrite Forall_forall in Hall. apply (Hall _ Hy).
Qed.

Lemma flush_extents_ok v a segs fin : sized_files v -> tiles i a segs fin ->
  wpt (io_spec k) (flush_extents t segs) (fun r v' => v' = v /\ exists err, r = Val err) v.
Proof.
  intros Hs. induction 1 as [|a fin j x o len segs Hj Ha Ho Hl Hx Hz Ht IH]; cbn [flush_extents].
  { cbn. split; [done|]. by eexists. }
  destruct (file_at_spec k i n t Hlay j x Hj) as (f & Hf & _ & _ & _ & _ & Hpart). unfold file_. rewrite Hf. cbn [pbind].
  unfold pathForWrite. rewrite (lay_part _ _ _ _ Hlay), Hpart. cbn. split.
  { split; [done|]. split; [done|]. intros d Hd Hk. destruct (Hs j x (part j) d Hj (or_intror eq_refl) Hd) as [_ ->]; [lia|done]. }
  intros [err|]; cbn; [|exact IH]. split; [done|]. by eexists.
Qed.

Lemma MarkComplete_ok v p : wf_view v -> sized_files v -> 0 <= p < n ->
  let v1 := set_done v p true in
  wpt (io_spec k) (MarkComplete t p)
    (fun r v' => (exists err, r = Val (Some err) /\ v' = v) \/
       r = Val None /\ renamed i t (fun j x => promoted t v1 v' j /\ all_done v1 j x) v1 v' /\
       forall j x, ls !! j = Some x -> 0 < x -> start_of j < (p + 1) * pl -> p * pl < start_of j + x ->
         all_done v1 j x -> content_at v' (part j) = None) v.
Proof.
  intros Hv Hs Hp v1. destruct (fileExtents_ok p Hp) as [He Ht]. unfold MarkComplete, setPieceCompletion.
  apply wpt_bind; [apply _|]. cbn. split; [lia|]. split; [intros err; left; by eexists|]. fold v1.
  assert (wf_view v1) as Hv1 by by apply set_done_view. assert (sized_files v1) as Hs1 by exact Hs.
  assert (wpt (io_spec k) (segs <- fileExtents t p;; promote_files t segs)
    (fun r v' => r = Val None /\ renamed i t (fun j x => promoted t v1 v' j /\ all_done v1 j x) v1 v' /\
       forall j x, ls !! j = Some x -> 0 < x -> start_of j < (p + 1) * pl -> p * pl < start_of j + x ->
         all_done v1 j x -> content_at v' (part j) = None) v1) as Hrest.
  { rewrite He. cbn [pbind]. eapply wpt_mono; [apply _| |apply (promote_files_ok k i n t Hlay); [done|done| |by eapply tiles_files]].
    2:{ exists p. unfold v1, set_done. cbn. rewrite lookup_insert_eq. by eexists. }
    intros r v' (-> & Hr & Hall). split; [done|]. split; [done|]. intros j x Hj Hx H1 H2.
    by apply (located_all p (fun j' => forall y, ls !! j' = Some y -> all_done v1 j' y -> content_at v' (part j') = None) Hp Hall j x). }
  intros persistent. apply (wpt_bind (io_spec k)).
  assert (wpt (io_spec k) (if persistent then Flush t p;; Ret tt else Ret tt) (fun r v' => v' = v1 /\ r = Val tt) v1) as Hflush.
  { destruct persistent; [|by cbn]. apply wpt_bind; [apply _|]. unfold Flush. rewrite He. cbn [pbind].
    eapply wpt_mono; [apply _| |by eapply flush_extents_ok]. by intros r v' (-> & err & ->). }
  eapply wpt_mono; [apply _| |exact Hflush]. intros r v' [-> ->]. cbn [after_value].
  eapply wpt_mono; [apply _| |exact Hrest]. by right.
Qed.

Lemma MarkNotComplete_ok v p : wf_view v -> 0 <= p < n ->
  let v1 := set_done v p false in
  wpt (io_spec k) (MarkNotComplete t p)
    (fun r v' => (exists err, r = Val (Some err) /\ v' = v) \/
       r = Val None /\ renamed i t (fun j _ => demoted t v1 v' j) v1 v' /\
       forall j x, ls !! j = Some x -> 0 < x -> start_of j < (p + 1) * pl -> p * pl < start_of j + x ->
         content_at v' (final j) = None) v.
Proof.
  intros Hv Hp v1. destruct (fileExtents_ok p Hp) as [He Ht]. unfold MarkNotComplete, setPieceCompletion.
  apply wpt_bind; [apply _|]. cbn. split; [lia|]. split; [intros err; left; by eexists|]. fold v1. rewrite He. cbn [pbind].
  eapply wpt_mono; [apply _| |apply (demote_files_ok k i n t Hlay); [by apply set_done_view|by eapply tiles_files]].
  intros r v' (-> & Hr & Hall). right. split; [done|]. split; [done|]. intros j x Hj Hx H1 H2.
  by apply (located_all p (fun j' => content_at v' (final j') = None) Hp Hall j x).
Qed.

(** ** What renaming leaves *)

Lemma data_same v v' j : same t v v' j -> data_of v' j = data_of v j.
Proof. intros [H1 H2]. unfold StorageFacts.data_of. by rewrite H1, H2. Qed.

Lemma data_promoted v v' j : promoted t v v' j -> data_of v' j = data_of v j.
Proof. intros (d & H1 & H2 & H3). unfold StorageFacts.data_of. by rewrite H1, H2, H3. Qed.

Lemma data_demoted v v' j x : ok v -> ls !! j = Some x -> demoted t v v' j -> data_of v' j = data_of v j.
Proof.
  intros Hok Hj (d & H1 & H2 & H3). unfold StorageFacts.data_of. rewrite H3.
  destruct (content_at v (part j)) as [e|] eqn:E; [|by rewrite H1].
  destruct (Z.lt_ge_cases 0 x) as [Hx|Hx]; [destruct (ok_one_name _ Hok j x Hj Hx); congruence|].
  destruct (ok_sized _ Hok j x (part j) e Hj (or_intror eq_refl) E) as [He _].
  destruct (ok_sized _ Hok j x (final j) d Hj (or_introl eq_refl) H1) as [Hd _].
  unfold size_of in *. destruct e; [|cbn in He; lia]. destruct d; [done|cbn in Hd; lia].
Qed.

Lemma bytes_of_data v v' : (forall j x, ls !! j = Some x -> data_of v' j = data_of v j) -> forall g, byte_at v' g = byte_at v g.
Proof.
  intros Hd g. unfold StorageFacts.byte_at. destruct (find_file 0 0 ls g) as [[j o]|] eqn:E; [|done].
  apply (find_file_spec 0 0 ls g j o (lengths_nonneg k i n t Hlay)) in E as (m & x & -> & Hm & _).
  rewrite Nat.add_0_l. unfold stored. by rewrite (Hd m x Hm).
Qed.

(** A state with the same data, in which the names and the recorded pieces fit. *)
Lemma ok_renamed v v' :
  ok v -> wf_view v' -> sized_files v' -> (forall j x, ls !! j = Some x -> data_of v' j = data_of v j) ->
  (forall q, 0 <= q < n -> done_at v' q = Some true -> done_at v q = Some true \/ piece_stored v q) ->
  (forall j x, ls !! j = Some x -> 0 < x ->
     content_at v' (part j) = None /\ (content_at v' (final j) <> None -> all_done v' j x) \/ content_at v' (final j) = None) ->
  ok v'.
Proof.
  intros Hok Hv' Hs' Hd Hdone Hnames. constructor; try done.
  - intros j x Hj Hx. destruct (Hnames j x Hj Hx) as [[H _]|H]; [by left|by right].
  - intros j x Hj Hx Hf. destruct (Hnames j x Hj Hx) as [[_ H]|H]; [by apply H|done].
  - intros q Hq Hc g Hg. rewrite (bytes_of_data v v' Hd).
    destruct (Hdone q Hq Hc) as [H|H]; [by apply (ok_stored _ Hok q)|by apply H].
  - intros j Hj. rewrite (Hd j 0 Hj). by apply (ok_empty _ Hok).
Qed.

(** ** The operations keep the invariant *)

Lemma all_done_eq v v' j x : fv_done v' = fv_done v -> all_done v j x -> all_done v' j x.
Proof. unfold StorageMarks.all_done, StorageMarks.done_at. by intros ->. Qed.

(** What an operation that is no write does to the bytes and to what is
    recorded. *)
Definition marks (v v' : fsview) (p : Z) (b : bool) : Prop :=
  ok v' /\ (forall g, byte_at v' g = byte_at v g) /\ (fv_done v' = fv_done v \/ fv_done v' = fv_done (set_done v p b)).

Lemma renamed_data v v' (R : nat -> Z -> Prop) : (forall j x, ls !! j = Some x -> R j x -> data_of v' j = data_of v j) ->
  renamed i t R v v' -> forall j x, ls !! j = Some x -> data_of v' j = data_of v j.
Proof. intros HR [_ _ Hf] j x Hj. destruct (Hf j x Hj) as [H|H]; [by apply data_same|by apply (HR j x)]. Qed.

(** A file all of whose pieces are complete is under its own name. *)
Definition whole_files_named (v : fsview) (p : Z) : Prop :=
  forall j x, ls !! j = Some x -> 0 < x -> start_of j < (p + 1) * pl -> p * pl < start_of j + x -> all_done v j x ->
    content_at v (part j) = None.

Lemma MarkComplete_keeps v p : ok v -> 0 <= p < n -> piece_stored v p ->
  wpt (io_spec k) (MarkComplete t p)
    (fun r v' => (exists e, r = Val e) /\ marks v v' p true /\
       (r = Val None -> fv_done v' = fv_done (set_done v p true) /\ whole_files_named v' p)) v.
Proof.
  intros Hok Hp Hst. eapply wpt_mono; [apply _| |by apply MarkComplete_ok; [apply Hok|apply Hok|]].
  intros r v' [(err & -> & ->)|(-> & Hr & Hgone)]; (split; [by eexists|]); [by split; [split_and!; [|done|left]|]|].
  pose proof Hr as [Hv' Hd' Hf'].
  assert (forall j x, ls !! j = Some x -> data_of v' j = data_of v j) as Hdata.
  { intros j x Hj. change (data_of v j) with (data_of (set_done v p true) j). revert j x Hj.
    eapply renamed_data; [|exact Hr]. intros j x _ [H _]. by apply data_promoted. }
  split.
  2:{ intros _. split; [done|]. intros j x Hj Hx H1 H2 Hall. apply (Hgone j x); try done.
      by apply (all_done_eq v'). }
  split_and!; [|by apply bytes_of_data|by right]. apply (ok_renamed v v' Hok Hv'); [|done| |].
  - apply (renamed_sized k i t _ (set_done v p true) v' (ok_sized _ Hok) Hr). intros j x _ [H _]. by left.
  - intros q Hq Hc. unfold StorageMarks.done_at in Hc. rewrite Hd' in Hc. change (done_at (set_done v p true) q = Some true) in Hc.
    rewrite done_at_set in Hc. destruct (decide (q = p)) as [->|]; [by right|by left].
  - intros j x Hj Hx. destruct (Hf' j x Hj) as [[H1 H2]|[(d & H1 & H2 & H3) Hall]].
    + destruct (content_at v (final j)) as [d|] eqn:Ef; [left|right; by rewrite H2].
      destruct (ok_one_name _ Hok j x Hj Hx) as [Hn|Hn]; [|congruence]. split; [by rewrite H1|]. intros _.
      apply (all_done_eq (set_done v p true)); [done|]. intros q Hq1 Hq2. rewrite done_at_set.
      destruct (decide (q = p)); [done|]. apply (ok_visible _ Hok j x Hj Hx); [by rewrite Ef|done|done].
    + left. split; [done|]. intros _. by apply (all_done_eq (set_done v p true)).
Qed.

Lemma MarkNotComplete_keeps v p : ok v -> 0 <= p < n ->
  wpt (io_spec k) (MarkNotComplete t p) (fun r v' => (exists e, r = Val e) /\ marks v v' p false) v.
Proof.
  intros Hok Hp. eapply wpt_mono; [apply _| |by apply MarkNotComplete_ok; [apply Hok|]].
  intros r v' [(err & -> & ->)|(-> & Hr & Hnone)]; (split; [by eexists|]); [by split_and!; [|done|left]|].
  pose proof Hr as [Hv' Hd' Hf'].
  assert (forall j x, ls !! j = Some x -> data_of v' j = data_of v j) as Hdata.
  { intros j x Hj. change (data_of v j) with (data_of (set_done v p false) j). revert j x Hj.
    eapply renamed_data; [|exact Hr]. intros j x Hj H. by apply (data_demoted v v' j x). }
  split_and!; [|by apply bytes_of_data|by right]. apply (ok_renamed v v' Hok Hv'); [|done| |].
  - apply (renamed_sized k i t _ (set_done v p false) v' (ok_sized _ Hok) Hr). intros j x _ H. by right.
  - intros q Hq Hc. unfold StorageMarks.done_at in Hc. rewrite Hd' in Hc. change (done_at (set_done v p false) q = Some true) in Hc.
    rewrite done_at_set in Hc. destruct (decide (q = p)) as [->|]; [done|by left].
  - intros j x Hj Hx. destruct (Hf' j x Hj) as [[H1 H2]|(d & H1 & H2 & H3)]; [|by right].
    destruct (content_at v (final j)) as [d|] eqn:Ef; [|right; by rewrite H2].
    destruct (decide (start_of j < (p + 1) * pl /\ p * pl < start_of j + x)) as [[Ha Hb]|Hout]; [right; by apply (Hnone j x)|left].
    destruct (ok_one_name _ Hok j x Hj Hx) as [Hn|Hn]; [|congruence]. split; [by rewrite H1|]. intros _.
    apply (all_done_eq (set_done v p false)); [done|]. intros q Hq1 Hq2. rewrite done_at_set.
    destruct (decide (q = p)) as [->|]; [tauto|]. apply (ok_visible _ Hok j x Hj Hx); [by rewrite Ef|done|done].
Qed.

(** A write leaves the complete pieces alone. *)
Definition avoids (v : fsview) (off len : Z) : Prop :=
  forall q, 0 <= q < n -> done_at v q = Some true -> off + len <= q * pl \/ q * pl + piece_len q <= off.

Lemma piece_of_byte g : 0 <= g < sum ls -> exists q, 0 <= q < n /\ q * pl <= g < q * pl + piece_len q /\ g < (q + 1) * pl.
Proof.
  intros Hg. pose proof (lay_wf _ _ _ _ Hlay) as [_ _ _ Hpl _ Hc]. exists (g / pl).
  pose proof (Z.div_mod g pl ltac:(lia)). pose proof (Z.mod_pos_bound g pl ltac:(lia)).
  assert (0 <= g / pl) by (apply Z.div_pos; lia). unfold StorageMarks.piece_len.
  assert (g / pl < n) by (apply Z.div_lt_upper_bound; lia). nia.
Qed.

Lemma WriteAt_keeps v p off :
  ok v -> 0 <= off -> off + size_of p <= sum ls -> avoids v off (size_of p) ->
  wpt (io_spec k) (io_WriteAt t p off)
    (fun r v' => r = Val (size_of p, None) /\ ok v' /\ fv_done v' = fv_done v /\
       forall g, 0 <= g < sum ls ->
         if (off <=? g) && (g <? off + size_of p) then byte_at v' g = p !! Z.to_nat (g - off)
         else keeps (byte_at v g) (byte_at v' g)) v.
Proof.
  intros Hok Ho Htot Hav. set (e := segments.mkExtent off (size_of p)).
  assert (0 <= size_of p) as Hsz by (unfold size_of; lia).
  assert (forall j x, ls !! j = Some x -> 0 < x -> meets e (start_of j) x = true -> content_at v (final j) = None) as Hhidden.
  { intros j x Hj Hx Hm. destruct (content_at v (final j)) as [d|] eqn:Ef; [|done]. exfalso.
    pose proof (ok_visible _ Hok j x Hj Hx ltac:(by rewrite Ef)) as Hall. apply meets_spec in Hm. cbn in Hm.
    set (g := Z.max off (start_of j)). pose proof (sum_take_le ls (lengths_nonneg k i n t Hlay) (S j)) as HS.
    rewrite (sum_take_S _ _ _ Hj) in HS. pose proof (sum_take_le ls (lengths_nonneg k i n t Hlay) j).
    destruct (piece_of_byte g) as (q & Hq & Hb & Hnext); [unfold StorageFacts.start_of in *; lia|].
    destruct (Hav q Hq (Hall q ltac:(lia) ltac:(lia))); lia. }
  eapply wpt_mono; [apply _| |apply (io_WriteAt_ok k i n t Hlay v p off (ok_view _ Hok) (ok_sized _ Hok) Ho Htot)].
  2:{ intros j x Hj Hx Hm _. by apply (Hhidden j x). }
  intros r v' (-> & [W1 W2 W3 W4 W5 W6 W7]). split_and!; [done| |done|exact W4]. constructor; try done.
  - intros j x Hj Hx. rewrite (W5 j x Hj). destruct (W6 j x Hj) as [-> | Hm]; [by apply (ok_one_name _ Hok j x)|].
    right. by apply (Hhidden j x).
  - intros j x Hj Hx. rewrite (W5 j x Hj). intros Hf. apply (all_done_eq v); [done|]. by apply (ok_visible _ Hok).
  - intros q Hq Hc g Hg. unfold StorageMarks.done_at in Hc. rewrite W3 in Hc.
    destruct (piece_facts k i n t Hlay q Hq) as (_ & H1 & H2 & H3 & _). specialize (W4 g ltac:(lia)).
    destruct (ok_stored _ Hok q Hq Hc g Hg) as [c Hbyte].
    destruct (Hav q Hq Hc); (destruct ((off <=? g) && (g <? off + size_of p)) eqn:E;
      [apply andb_true_iff in E as [?%Z.leb_le ?%Z.ltb_lt]; lia|]);
      (destruct W4 as [->|[Hn _]]; [by eexists|congruence]).
  - intros j Hj. apply (W7 j 0 Hj). by apply (ok_empty _ Hok).
Qed.

(** A file all of whose pieces are complete is all there, under one name. *)
Lemma all_done_data v j x : ok v -> ls !! j = Some x -> 0 < x -> all_done v j x ->
  exists d, data_of v j = Some d /\ size_of d = x.
Proof.
  intros Hok Hj Hx Hall. pose proof (sum_take_le ls (lengths_nonneg k i n t Hlay) (S j)) as HS. rewrite (sum_take_S _ _ _ Hj) in HS.
  pose proof (sum_take_le ls (lengths_nonneg k i n t Hlay) j).
  pose proof (tile_data k i n t Hlay v j x 0 x Hj ltac:(lia) ltac:(lia) ltac:(lia) ltac:(lia)) as Hd.
  assert (forall g, start_of j + 0 <= g < start_of j + 0 + x -> is_Some (byte_at v g)) as Hb.
  { intros g Hg. destruct (piece_of_byte g) as (q & Hq & Hb & Hnext); [unfold StorageFacts.start_of in *; lia|].
    apply (ok_stored _ Hok q Hq); [|done]. apply Hall; unfold StorageFacts.start_of in *; lia. }
  specialize (Hd Hb). destruct (data_of v j) as [d|] eqn:Ed; [|lia]. exists d. split; [done|].
  destruct (data_sized k i n t Hlay v j x d (ok_sized _ Hok) Hj Ed) as [Hle _]. lia.
Qed.

(** A file under its own name is all there. *)
Lemma final_whole v j x : ok v -> ls !! j = Some x -> 0 < x -> content_at v (final j) <> None ->
  content_at v (part j) = None /\ all_done v j x /\ exists d, content_at v (final j) = Some d /\ size_of d = x.
Proof.
  intros Hok Hj Hx Hf. assert (all_done v j x) as Hall by by apply (ok_visible _ Hok j x Hj Hx).
  destruct (ok_one_name _ Hok j x Hj Hx) as [Hp|Hp]; [|done].
  destruct (all_done_data v j x Hok Hj Hx Hall) as (d & Hd & Hs). unfold StorageFacts.data_of in Hd. rewrite Hp in Hd.
  split_and!; [done|done|]. by exists d.
Qed.

(** ** Completion *)

Lemma stat_either_ok v j x f : ok v -> ls !! j = Some x -> file_at t j = Some f -> is_Some (data_of v j) ->
  wpt (io_spec k) (stat_either t f)
    (fun r v' => v' = v /\ exists s, r = Val (Ok s) /\ forall d, data_of v j = Some d -> s = size_of d) v.
Proof.
  intros Hok Hj Hf [d Hd]. destruct (file_at_spec k i n t Hlay j x Hj) as (f' & Hf' & _ & _ & _ & Hfin & Hpart).
  rewrite Hf in Hf'. injection Hf' as <-. unfold stat_either. rewrite (lay_part _ _ _ _ Hlay), Hpart, Hfin.
  pose proof Hd as Hd0. unfold StorageFacts.data_of in Hd. cbn. destruct (content_at v (final j)) as [e|] eqn:Ef.
  - cbn. split; [done|]. eexists. split; [done|]. intros d' Hd'. rewrite Hd0 in Hd'. injection Hd' as <-.
    destruct (content_at v (part j)) as [d'|] eqn:Ep; [|by injection Hd as ->]. injection Hd as ->.
    destruct (Z.lt_ge_cases 0 x) as [Hx|Hx]; [destruct (ok_one_name _ Hok j x Hj Hx); congruence|].
    destruct (ok_sized _ Hok j x (part j) d Hj (or_intror eq_refl) Ep) as [H1 _].
    destruct (ok_sized _ Hok j x (final j) e Hj (or_introl eq_refl) Ef) as [H2 _]. unfold size_of in *. lia.
  - intros err Herr. unfold not_exist in Herr. cbn. unfold is_not_exist. rewrite Herr. cbn.
    destruct (content_at v (part j)) as [d'|]; [|done]. injection Hd as ->. split; [done|]. eexists. split; [done|].
    intros d' Hd'. congruence.
Qed.

Lemma check_sizes_ok v a segs fin whole empty :
  ok v -> tiles i a segs fin -> (forall g, a <= g < fin -> is_Some (byte_at v g)) ->
  0 < segments.Length whole -> (segs = [] -> empty = false) ->
  wpt (io_spec k) (check_sizes t segs whole empty) (fun r v' => v' = v /\ r = Val (mkCompletion None true true)) v.
Proof.
  intros Hok Ht. revert empty. induction Ht as [a|a fin j x o len segs Hj Ha Ho Hl Hx Hz Ht IH]; intros empty Hb Hw He; cbn [check_sizes].
  { rewrite (He eq_refl), (proj2 (Z.eqb_neq _ 0)) by lia. done. }
  subst a. pose proof (tiles_le _ _ _ _ Ht). destruct (file_at_spec k i n t Hlay j x Hj) as (f & Hf & _). unfold file_. rewrite Hf. cbn [pbind].
  pose proof (tile_data k i n t Hlay v j x o len Hj Ho Hl Hx Hz ltac:(intros; apply Hb; lia)) as Hd.
  assert (is_Some (data_of v j)) as Hsome.
  { destruct (data_of v j) as [d|] eqn:Ed; [by eexists|]. rewrite Hz in Hj by done.
    destruct (ok_empty _ Hok j Hj) as [d Hd']. congruence. }
  apply wpt_bind; [apply _|]. eapply wpt_mono; [apply _| |by apply (stat_either_ok v j x f)].
  intros r v' (-> & s & -> & Hs). destruct Hsome as [d Ed]. rewrite Ed in Hd. cbn [after_value].
  pose proof (sum_take_le ls (lengths_nonneg k i n t Hlay) (S j)) as HS. rewrite (sum_take_S _ _ _ Hj) in HS.
  pose proof (sum_take_le ls (lengths_nonneg k i n t Hlay) j). pose proof (lengths_size k i n t Hlay).
  assert (segments.End_ (segments.mkExtent o len) = o + len) as ->.
  { unfold segments.End_. cbn. unfold max_size in *. by rewrite i64_id by lia. }
  rewrite (Hs d Ed), (proj2 (Z.ltb_ge _ _)) by lia. apply IH; [intros; apply Hb; lia|done|done].
Qed.

Lemma Completion_keeps v p : ok v -> 0 <= p < n ->
  wpt (io_spec k) (piece_Completion t p)
    (fun r v' => v' = v /\
       r = Val (match done_at v p with Some c => mkCompletion None true c | None => mkCompletion None false false end)) v.
Proof.
  intros Hok Hp. unfold piece_Completion, getCompletion. apply wpt_bind; [apply _|]. cbn. split; [lia|].
  unfold recorded. fold (done_at v p). unfold StorageMarks.done_at. destruct (fv_done v !! _) as [[]|] eqn:Ed; cbn; [|done|done].
  destruct (piece_extent_ok k i n t Hlay p Hp) as (He & Hsz & Htot). unfold checkCompleteFileSizes. rewrite He. cbn [pbind].
  destruct (piece_facts k i n t Hlay p Hp) as (_ & _ & Hlen & _ & _). pose proof (locate_tiles k i n t Hlay _ Hsz Htot) as Ht.
  apply (check_sizes_ok v _ _ _ (the_extent i p) true Hok Ht); [by apply (ok_stored _ Hok p)|cbn; lia|].
  intros Hn. by destruct (tiles_nonempty i _ _ _ Ht ltac:(cbn; lia)).
Qed.
End torrent.
