(* ===== verification/StorageOpen.v ===== *)
(** * Opening the storage of a torrent

    What [setCompletionFromPartFiles] records of the pieces, from the names and
    sizes of the files alone, and that a torrent opened in a directory where
    it has no data yet satisfies the invariant of [StorageSafety.v]. *)

From S2P Require Import Prelude GoErrors Prog FilePath Segments Info InfoTheorems Disk FileIo FileIoSpec FileStorage StorageFacts StorageMarks StorageSafety.
From Stdlib Require Import ZArith Lia Ascii String.
From stdpp Require Import base gmap strings list.
Import os fileio filestorage segments.

Local Open Scope Z_scope.
Local Open Scope prog_scope.

Section torrent.
Context {ML : MmapLib} (k : kind) (i : info.Info) (n : Z) (t : fileTorrentImpl) (Hlay : layout k i n t).

Abbreviation ls := (lengths i).
Abbreviation pl := (info.PieceLength i).
Abbreviation start_of := (start_of i).
Abbreviation final := (final_name t).
Abbreviation done_at := (done_at t).

(** The file is under its own name and has its size. *)
Definition whole (v : fsview) (j : nat) (x : Z) : bool :=
  match content_at v (final j) with Some d => size_of d =? x | None => false end.

(** The file has bytes in the piece, or lies inside it. *)
Definition in_piece (q : Z) (j : nat) (x : Z) : Prop := start_of j < (q + 1) * pl /\ q * pl < start_of j + x.

Lemma mark_not_complete_ok v m p nc : 0 <= p -> p + Z.of_nat m <= Z.of_nat (length nc) ->
  wpt (io_spec k) (mark_not_complete m p nc)
    (fun r v' => v' = v /\ exists nc', r = Val nc' /\ length nc' = length nc /\
       forall q : nat, (q < length nc)%nat ->
         nc' !! q = if (p <=? Z.of_nat q) && (Z.of_nat q <? p + Z.of_nat m) then Some true else nc !! q) v.
Proof.
  revert p nc. induction m as [|m IH]; intros p nc Hp Hlen; cbn [mark_not_complete].
  { cbn. split; [done|]. exists nc. split; [done|]. split; [done|]. intros q _.
    destruct (Z.leb_spec p (Z.of_nat q)), (Z.ltb_spec (Z.of_nat q) (p + Z.of_nat 0)); done || lia. }
  rewrite (proj2 (Z.leb_le 0 p)), (proj2 (Z.ltb_lt p _)) by lia. cbn [andb].
  eapply wpt_mono; [apply _| |apply IH; [lia|rewrite length_insert; lia]].
  intros r v' (-> & nc' & -> & Hl & Hq). rewrite length_insert in *. split; [done|]. exists nc'. split_and!; [done|done|].
  intros q Hqn. rewrite (Hq q Hqn). destruct (Z.eq_dec (Z.of_nat q) p) as [Heq|Hne].
  - assert (q = Z.to_nat p) as -> by lia. rewrite list_lookup_insert_eq by lia.
    rewrite (proj2 (Z.leb_le p _)), (proj2 (Z.ltb_lt _ (p + Z.of_nat (S m)))) by lia. by destruct (_ && _).
  - rewrite list_lookup_insert_ne by lia.
    destruct (Z.leb_spec (p + 1) (Z.of_nat q)), (Z.ltb_spec (Z.of_nat q) (p + 1 + Z.of_nat m)),
      (Z.leb_spec p (Z.of_nat q)), (Z.ltb_spec (Z.of_nat q) (p + Z.of_nat (S m))); done || lia.
Qed.

(** A piece is not complete because of a file from [j] on. *)
Definition missing (v : fsview) (j : nat) (q : nat) : Prop :=
  exists j' x, (j <= j')%nat /\ ls !! j' = Some x /\ whole v j' x = false /\ in_piece (Z.of_nat q) j' x.

Lemma missing_step v j q x : ls !! j = Some x ->
  missing v j q <-> (whole v j x = false /\ in_piece (Z.of_nat q) j x) \/ missing v (S j) q.
Proof.
  intros Hj. split.
  - intros (j' & x' & Hle & Hj' & Hw & Hin). destruct (decide (j' = j)) as [->|Hne].
    + left. by assert (x' = x) as -> by congruence.
    + right. exists j', x'. split_and!; [lia|done..].
  - intros [[Hw Hin]|(j' & x' & Hle & Hj' & Hw & Hin)]; [exists j, x|exists j', x']; split_and!; done || lia.
Qed.

Lemma check_files_ok v m j nc :
  (j + m = length ls)%nat -> Z.of_nat (length nc) = n ->
  wpt (io_spec k) (check_files t m j nc)
    (fun r v' => v' = v /\ exists nc', r = Val nc' /\ length nc' = length nc /\
       forall q, (q < length nc)%nat -> (nc' !! q = Some true <-> nc !! q = Some true \/ missing v j q)) v.
Proof.
  revert j nc. induction m as [|m IH]; intros j nc Hjm Hlen; cbn [check_files].
  { cbn. split; [done|]. exists nc. split_and!; [done|done|]. intros q _. split; [by left|]. intros [H|(j' & x & Hle & Hj' & _)]; [done|].
    apply lookup_lt_Some in Hj'. lia. }
  destruct (lookup_lt_is_Some_2 ls j) as [x Hj]; [lia|].
  destruct (file_at_spec k i n t Hlay j x Hj) as (f & Hf & Hflen & _ & _ & Hfin & _). unfold file_. rewrite Hf. cbn [pbind].
  destruct (piece_range k i n t Hlay j x f Hj Hf) as (Hb & He & Hrange). rewrite Hfin, Hflen.
  set (marked := mark_not_complete _ _ nc).
  assert (whole v j x = true -> wpt (io_spec k) (check_files t m (S j) nc)
    (fun r v' => v' = v /\ exists nc', r = Val nc' /\ length nc' = length nc /\
       forall q, (q < length nc)%nat -> (nc' !! q = Some true <-> nc !! q = Some true \/ missing v j q)) v) as Hwhole.
  { intros Hw. eapply wpt_mono; [apply _| |apply IH; [lia|done]]. intros r v' (-> & nc' & -> & Hl & Hq). split; [done|]. exists nc'.
    split_and!; [done|done|]. intros q Hqn. rewrite (Hq q Hqn), (missing_step v j q x Hj), Hw. naive_solver. }
  assert (whole v j x = false -> wpt (io_spec k) (nc <- marked;; check_files t m (S j) nc)
    (fun r v' => v' = v /\ exists nc', r = Val nc' /\ length nc' = length nc /\
       forall q, (q < length nc)%nat -> (nc' !! q = Some true <-> nc !! q = Some true \/ missing v j q)) v) as Hmissing.
  { intros Hw. apply wpt_bind; [apply _|].
    eapply wpt_mono; [apply _| |apply (mark_not_complete_ok v); lia].
    intros r v' (-> & nc1 & -> & Hl1 & H1). cbn [after_value].
    eapply wpt_mono; [apply _| |apply IH; [lia|lia]]. intros r v' (-> & nc' & -> & Hl & Hq). split; [done|]. exists nc'.
    split_and!; [done|lia|]. intros q Hqn. rewrite (Hq q) by lia. rewrite (missing_step v j q x Hj), (H1 q Hqn).
    pose proof (Hrange (Z.of_nat q)) as Hr. fold (in_piece (Z.of_nat q) j x) in Hr.
    destruct ((beginPieceIndex f <=? Z.of_nat q) && (Z.of_nat q <? _)) eqn:E.
    - apply andb_true_iff in E as [?%Z.leb_le ?%Z.ltb_lt]. assert (in_piece (Z.of_nat q) j x) by (apply Hr; lia). tauto.
    - assert (~ in_piece (Z.of_nat q) j x); [|tauto]. intros Hin. apply Hr in Hin. apply andb_false_iff in E.
      rewrite Z.leb_gt, Z.ltb_ge in E. lia. }
  apply wpt_bind; [apply _|]. cbn. unfold whole in Hwhole, Hmissing. destruct (content_at v (final j)) as [d|].
  - cbn. destruct (size_of d =? x); [by apply Hwhole|by apply Hmissing].
  - intros err _. cbn. by apply Hmissing.
Qed.

(** What becomes of the record of a piece. *)
Definition recorded_by_names (v : fsview) (q : Z) (bad : bool) : option bool :=
  if bad then match done_at v q with Some true => Some false | o => o end else Some true.

Lemma set_completions_ok v nc p : 0 <= p ->
  wpt (io_spec k) (set_completions t p nc)
    (fun r v' => fv_names v' = fv_names v /\ fv_data v' = fv_data v /\
       (r = Val None -> forall y, done_at v' y =
          match (if p <=? y then nc !! Z.to_nat (y - p) else None) with
          | Some bad => recorded_by_names v y bad
          | None => done_at v y
          end) /\
       (forall m, r = Panicked m -> exists y, p <= y /\ done_at v y = Some true)) v.
Proof.
  revert v p. induction nc as [|bad nc IH]; intros v p Hp; cbn [set_completions].
  { cbn. split_and!; [done|done| |done]. intros _ y. by destruct (p <=? y). }
  set (Q := fun r v' => _). 
  assert (forall v1, fv_names v1 = fv_names v -> fv_data v1 = fv_data v ->
    (forall y, done_at v1 y = if decide (y = p) then recorded_by_names v p bad else done_at v y) ->
    wpt (io_spec k) (set_completions t (p + 1) nc) Q v1) as Hgo.
  { intros v1 Hn Hd Hdone. eapply wpt_mono; [apply _| |apply IH; lia]. intros r v' (H1 & H2 & H3 & H4). unfold Q.
    split_and!; [congruence|congruence| |].
    - intros Hr y. rewrite (H3 Hr y). unfold recorded_by_names. rewrite Hdone. destruct (decide (y = p)) as [->|Hne].
      + rewrite (proj2 (Z.leb_gt (p + 1) p)), (proj2 (Z.leb_le p p)), Z.sub_diag by lia. done.
      + destruct (Z.leb_spec (p + 1) y), (Z.leb_spec p y); try lia; [|done].
        replace (Z.to_nat (y - p)) with (S (Z.to_nat (y - (p + 1)))) by lia. done.
    - intros m Hr. destruct (H4 m Hr) as (y & Hy & Hdy). rewrite Hdone in Hdy.
      destruct (decide (y = p)); [lia|]. exists y. split; [lia|done]. }
  assert (forall v1, v1 = v -> bad = true -> done_at v p <> Some true -> wpt (io_spec k) (set_completions t (p + 1) nc) Q v1) as Hskip.
  { intros v1 -> -> Hne. apply Hgo; [done|done|]. intros y. destruct (decide (y = p)) as [->|]; [|done].
    unfold recorded_by_names. by destruct (done_at v p) as [[]|]. }
  destruct bad.
  - unfold getCompletion. apply wpt_bind; [apply _|]. cbn. split; [lia|]. unfold recorded. fold (done_at v p).
    change (fv_done v !! pieceCompletionKey t p) with (done_at v p).
    destruct (done_at v p) as [[]|] eqn:Ed; cbn.
    + split; [lia|]. split.
      * intros err. cbn. unfold Q. split_and!; [done|done|done|]. intros m _. exists p. split; [lia|done].
      * cbn. apply Hgo; [done|done|]. intros y. change (done_at (set_done t v p false) y = if decide (y = p) then recorded_by_names v p true else done_at v y).
        rewrite done_at_set. unfold recorded_by_names. by rewrite Ed.
    + by apply Hskip.
    + by apply Hskip.
  - cbn. split; [lia|]. split.
    + intros err. cbn. unfold Q. by split_and!.
    + cbn. apply Hgo; [done|done|]. intros y. change (done_at (set_done t v p true) y = if decide (y = p) then recorded_by_names v p false else done_at v y).
      by rewrite done_at_set.
Qed.

(** A piece is complete when every file with bytes in it, and every file inside
    it, is whole. *)
Definition complete_by_names (v : fsview) (q : Z) : Prop :=
  forall j x, ls !! j = Some x -> in_piece q j x -> whole v j x = true.

Lemma setCompletionFromPartFiles_ok v :
  wpt (io_spec k) (setCompletionFromPartFiles t)
    (fun r v' => fv_names v' = fv_names v /\ fv_data v' = fv_data v /\
       (r = Val None -> forall q, 0 <= q < n ->
          (done_at v' q = Some true <-> complete_by_names v q) /\
          (done_at v' q <> Some true -> done_at v' q = match done_at v q with Some true => Some false | o => o end)) /\
       (forall m, r = Panicked m -> exists y, done_at v y = Some true)) v.
Proof.
  pose proof (lay_wf _ _ _ _ Hlay) as [Hv2 _ _ _ Hh Hc]. unfold setCompletionFromPartFiles.
  rewrite (lay_info _ _ _ _ Hlay). unfold info.NumPieces. rewrite Hv2, Hh. cbn [must pbind].
  assert (0 <= n) as Hn0 by lia. rewrite (proj2 (Z.ltb_ge n 0)) by done. apply wpt_bind; [apply _|].
  eapply wpt_mono; [apply _| |apply (check_files_ok v)].
  2:{ rewrite (lay_files _ _ _ _ Hlay). lia. }
  2:{ rewrite length_replicate. lia. }
  rewrite length_replicate. intros r v' (-> & nc & -> & Hl & Hq). cbn [after_value].
  eapply wpt_mono; [apply _| |apply (set_completions_ok v nc 0); lia]. intros r v' (H1 & H2 & H3 & H4).
  split_and!; [done|done| |].
  - intros Hr q Hqn. specialize (H3 Hr q). rewrite (proj2 (Z.leb_le 0 q)), Z.sub_0_r in H3 by lia.
    destruct (lookup_lt_is_Some_2 nc (Z.to_nat q)) as [bad Hbad]; [lia|]. rewrite Hbad in H3.
    specialize (Hq (Z.to_nat q) ltac:(lia)). rewrite Hbad, lookup_replicate_2 in Hq by lia.
    replace (Z.of_nat (Z.to_nat q)) with q in Hq by lia.
    assert (bad = true <-> missing v 0 (Z.to_nat q)) as Hm.
    { split; [intros ->; destruct Hq as [Hq _]; by destruct (Hq eq_refl)|]. intros Hm. destruct Hq as [_ Hq].
      specialize (Hq (or_intror Hm)). congruence. }
    assert (bad = false <-> complete_by_names v q) as Hcb.
    { unfold missing, complete_by_names in *. replace (Z.of_nat (Z.to_nat q)) with q in Hm by lia. split.
      - intros Hf j x Hj Hin. destruct (whole v j x) eqn:Ew; [done|]. exfalso. rewrite Hf in Hm. destruct Hm as [_ Hm].
        discriminate Hm. exists j, x. split_and!; [lia|done|done|done].
      - intros Hall. destruct bad; [|done]. destruct Hm as [Hm _]. destruct (Hm eq_refl) as (j & x & _ & Hj & Hw & Hin).
        rewrite (Hall j x Hj Hin) in Hw. done. }
    rewrite <-Hcb, H3. unfold recorded_by_names. destruct bad; [|done].
    destruct (done_at v q) as [[]|]; split; done.
  - intros m Hr. destruct (H4 m Hr) as (y & _ & Hy). by exists y.
Qed.
End torrent.

(** ** Opening in a directory without the torrent's files *)

Section opening.
Context {ML : MmapLib} (k : kind).

Lemma create_zero_ok v name : wf_view v -> content_at v name = None ->
  wpt (io_spec k) (run_os (CreateNativeZeroLengthFile name))
    (fun r v' => match r with Val None => put v v' name [] | Val (Some _) => True | Panicked _ => False end) v.
Proof.
  intros Hv Hn. destruct (file_of v name) as [fd|] eqn:Ef; [unfold content_at in Hn; by rewrite Ef in Hn|].
  cbn. intros _. rewrite Hn. split; [done|]. split.
  - by intros e err Herr.
  - intros f Hf. rewrite Ef in Hf. intros [err|]; [done|].
    destruct (content_put v name f [] (fv_done v) Hv (or_intror Hf)) as (H1 & H2 & _ & H4). by split_and!.
Qed.

Definition path_of (dir name : string) (fi : info.FileInfo) : string :=
  path.Join [dir; storage.FilePathMaker name (info.BestPath fi)].

(** The files were placed: those without bytes exist, the others do not yet. *)
Definition placed (dir name : string) (fs : list info.FileInfo) (v v' : fsview) : Prop :=
  wf_view v' /\ fv_done v' = fv_done v /\
  Forall (fun fi => content_at v' (path_of dir name fi) = (if info.FLength fi =? 0 then Some [] else None)) fs /\
  forall other, other ∉ map (path_of dir name) fs -> content_at v' other = content_at v other.

Definition after_placing (dir name : string) (fs : list info.FileInfo) (v : fsview) (r : res (result (list string))) (v' : fsview) : Prop :=
  match r with
  | Val (Ok ps) => ps = map (path_of dir name) fs /\ placed dir name fs v v'
  | Val (Err _) => True
  | Panicked _ => False
  end.

Lemma place_files_ok dir name fs : forall m v,
  wf_view v -> NoDup (map (path_of dir name) fs) -> Forall (fun fi => content_at v (path_of dir name fi) = None) fs ->
  wpt (io_spec k) (place_files dir name m fs)
    (after_placing dir name fs v) v.
Proof.
  induction fs as [|fi fs IH]; intros m v Hv Hnd Hnone; cbn [place_files].
  { cbn. by split_and!. }
  inversion Hnd as [|? ? Hnew Hnd']; subst. inversion Hnone as [|? ? Hn1 Hnone']; subst.
  fold (path_of dir name fi). destruct (storage.isSubFilepath dir (path_of dir name fi)); [|by cbn].
  assert (forall v1, (if info.FLength fi =? 0 then put v v1 (path_of dir name fi) [] else v1 = v) ->
    wpt (io_spec k) (r <- place_files dir name (S m) fs;; Ret (outcome_map (cons (path_of dir name fi)) r))
    (after_placing dir name (fi :: fs) v) v1) as Hrest.
  { intros v1 Hput.
    assert (wf_view v1 /\ fv_done v1 = fv_done v /\
      content_at v1 (path_of dir name fi) = (if info.FLength fi =? 0 then Some [] else None) /\
      forall other, other <> path_of dir name fi -> content_at v1 other = content_at v other) as (Hv1 & Hd1 & Hc1 & Ho1).
    { destruct (info.FLength fi =? 0); [exact Hput|]. subst v1. by split_and!. }
    apply wpt_bind; [apply _|]. eapply wpt_mono; [apply _| |apply IH; [done|done|]].
    - intros [[ps|err]|msg] v2 Hr; cbn; [|done|done]. destruct Hr as (-> & H1 & H2 & H3 & H4).
      split; [done|]. split_and!; [done|congruence| |].
      + constructor; [by rewrite H4|done].
      + intros other Hother. cbn [map] in Hother. apply not_elem_of_cons in Hother as [Ha Hb]. rewrite H4 by done. by apply Ho1.
    - rewrite Forall_forall in Hnone' |- *. intros fi' Hin. rewrite Ho1; [by apply Hnone'|].
      intros Heq. apply Hnew. rewrite <-Heq. by apply list_elem_of_fmap_2. }
  apply wpt_bind; [apply _|]. destruct (info.FLength fi =? 0) eqn:Ez.
  - eapply wpt_mono; [apply _| |by apply create_zero_ok]. intros [[err|]|msg] v1 Hr; cbn [after_value]; [by cbn|by apply Hrest|done].
  - cbn. by apply Hrest.
Qed.

Section new.
Context (i : info.Info) (n : Z) (dir hash : string).

Abbreviation infos := (fst (info.UpvertedV1Files i)).
Definition file_names : list string := map (path_of dir (info.BestName i)) infos.

(** What a torrent needs for its storage to work: no two of its files share a
    name, with or without ".part", and its empty files can be mapped. *)
Record storable : Prop := {
  st_wf : wf_v1 i n;
  st_names : NoDup (file_names ++ map (fun p => p +:+ ".part") file_names);
  st_empty : Forall (fun l => refused k l = None) (lengths i);
}.

Definition opened_torrent : fileTorrentImpl := mkFts i file_names infos (NewIndex (lengths i)) hash true.

Lemma storable_layout : storable -> layout k i n opened_torrent.
Proof.
  intros [Hw Hn He]. destruct (v1_files i n Hw) as (_ & Hlen & _). constructor; try done.
  cbn. unfold file_names. rewrite length_map, <-Hlen. by rewrite length_map.
Qed.

(** None of the torrent's files is there, under either name. *)
Definition no_files (v : fsview) : Prop :=
  Forall (fun name => content_at v name = None) (file_names ++ map (fun p => p +:+ ".part") file_names).

Lemma placed_contents v v' : storable -> no_files v -> placed dir (info.BestName i) infos v v' ->
  forall j x, lengths i !! j = Some x ->
    content_at v' (final_name opened_torrent j) = (if x =? 0 then Some [] else None) /\
    content_at v' (part_name opened_torrent j) = None.
Proof.
  intros Hst Hfresh (_ & _ & Hfin & Hother) j x Hj. destruct (v1_files i n (st_wf Hst)) as (_ & Hlen & _).
  rewrite <-Hlen in Hj. apply list_lookup_fmap_Some in Hj as (fi & -> & Hfi).
  assert (file_names !! j = Some (path_of dir (info.BestName i) fi)) as Hp.
  { unfold file_names. rewrite list_lookup_fmap, Hfi. done. }
  unfold part_name, final_name. cbn [files opened_torrent]. rewrite Hp. cbn [default from_option id]. split.
  - rewrite Forall_forall in Hfin. apply Hfin. by eapply list_elem_of_lookup_2.
  - unfold no_files in Hfresh. rewrite Forall_forall in Hfresh.
    assert (path_of dir (info.BestName i) fi +:+ ".part" ∈ map (fun p => p +:+ ".part") file_names) as Hin.
    { apply (list_elem_of_fmap_2 (fun p => p +:+ ".part")). by eapply list_elem_of_lookup_2. }
    rewrite Hother; [apply Hfresh, elem_of_app; by right|].
    pose proof (st_names Hst) as Hnd. apply NoDup_app in Hnd as (_ & Hdisj & _). intros Hbad. by apply (Hdisj _ Hbad).
Qed.

Lemma fresh_incomplete v v' q : storable -> no_files v -> placed dir (info.BestName i) infos v v' -> 0 <= q < n ->
  ~ complete_by_names i opened_torrent v' q.
Proof.
  intros Hst Hfresh Hpl Hq Hd. pose proof (storable_layout Hst) as Hlay.
  destruct (piece_facts k i n opened_torrent Hlay q Hq) as (Hpl0 & Hq0 & Hlen & Hle & _).
  destruct (find_offset k i n opened_torrent Hlay (q * info.PieceLength i)) as (j & x & Hj & Ho); [lia|].
  specialize (Hd j x Hj). unfold whole, in_piece in Hd. destruct (placed_contents v v' Hst Hfresh Hpl j x Hj) as [Hc _].
  rewrite Hc, (proj2 (Z.eqb_neq x 0)) in Hd by lia. discriminate Hd. lia.
Qed.

Lemma placed_ok v v1 v2 : storable -> no_files v -> placed dir (info.BestName i) infos v v1 ->
  fv_names v2 = fv_names v1 -> fv_data v2 = fv_data v1 ->
  (forall q, 0 <= q < n -> done_at opened_torrent v2 q <> Some true) -> ok k i n opened_torrent v2.
Proof.
  intros Hst Hfresh Hpl H1 H2 Hnone. pose proof (placed_contents v v1 Hst Hfresh Hpl) as Hc.
  assert (forall name, content_at v2 name = content_at v1 name) as Hsame by (intros; unfold content_at, file_of; by rewrite H1, H2).
  constructor.
  - destruct Hpl as [[Ha Hb] _]. constructor; rewrite H1, ?H2; done.
  - intros j x name d Hj Hname Hd. rewrite Hsame in Hd. destruct (Hc j x Hj) as [Hf Hp]. destruct Hname as [-> | ->]; [|congruence].
    rewrite Hf in Hd. destruct (Z.eqb_spec x 0) as [->|]; [|done]. by injection Hd as <-.
  - intros j x Hj Hx. left. rewrite Hsame. by apply (Hc j x Hj).
  - intros j x Hj Hx Hf. rewrite Hsame in Hf. destruct (Hc j x Hj) as [Hf' _]. rewrite (proj2 (Z.eqb_neq x 0)) in Hf' by lia. congruence.
  - intros q Hq Hd. by destruct (Hnone q Hq).
  - intros j Hj. destruct (Hc j 0 Hj) as [Hf Hp]. unfold data_of. rewrite !Hsame, Hp, Hf. by eexists.
Qed.

(** A torrent that is opened where it has no data yet: none of its pieces is
    complete, and the storage is in order. *)
Lemma OpenTorrent_fresh v : wf_view v -> storable -> no_files v ->
  wpt (io_spec k) (OpenTorrent dir true i hash)
    (fun r v' => match r with
       | Val (Ok t) => t = opened_torrent /\ ok k i n t v' /\ forall q, 0 <= q < n -> done_at t v' q <> Some true
       | Val (Err _) => True
       | Panicked _ => exists q, fv_done v !! (hash, q) = Some true
       end) v.
Proof.
  intros Hv Hst Hfresh. pose proof (st_wf Hst) as Hw. unfold OpenTorrent.
  assert (info.UpvertedFiles i = Val infos) as ->.
  { unfold info.UpvertedFiles, info.UpvertedFilesIter. by rewrite (wf_version _ _ Hw). }
  rewrite (v1_index i n Hw). cbn [must pbind]. apply wpt_bind; [apply _|].
  pose proof (st_names Hst) as Hnd. apply NoDup_app in Hnd as (Hnd & _).
  eapply wpt_mono; [apply _| |apply (place_files_ok dir (info.BestName i) infos 0 v Hv Hnd)].
  2:{ unfold no_files in Hfresh. apply Forall_app in Hfresh as [Hf _]. unfold file_names in Hf. by rewrite Forall_fmap in Hf. }
  intros [[ps|err]|m] v1 Hr; cbn [after_value]; [|done|done]. destruct Hr as [-> Hpl].
  fold file_names. fold opened_torrent. apply wpt_bind; [apply _|].
  pose proof (storable_layout Hst) as Hlay.
  eapply wpt_mono; [apply _| |apply (setCompletionFromPartFiles_ok k i n opened_torrent Hlay)].
  intros r v2 (H1 & H2 & H3 & H4). destruct r as [[err|]|m]; cbn [after_value]; [done| |].
  2:{ destruct (H4 m eq_refl) as [y Hy]. unfold done_at in Hy. destruct Hpl as (_ & Hd & _). rewrite Hd in Hy. by exists y. }
  cbn [wpt]. assert (forall q, 0 <= q < n -> done_at opened_torrent v2 q <> Some true) as Hnone.
  { intros q Hq. rewrite (proj1 (H3 eq_refl q Hq)). by apply (fresh_incomplete v v1). }
  split; [done|]. split; [|done]. by apply (placed_ok v v1 v2).
Qed.

End new.
End opening.
