(* ===== verification/StorageClient.v ===== *)
(** * Pieces as the client uses them

    The operations of a [storage.Piece], when the client may call them, and
    that any sequence of them keeps the storage in order ([runs_ok]); bytes of
    complete pieces only change after the piece was marked as not complete. *)

From S2P Require Import Prelude GoErrors Prog FilePath Segments Info InfoTheorems Disk FileIo FileIoSpec FileIoFacts FileStorage StorageFacts StorageMarks StorageSafety.
From Stdlib Require Import ZArith Lia Ascii String.
From stdpp Require Import base gmap strings list.
Import os fileio filestorage segments.

Local Open Scope Z_scope.
Local Open Scope prog_scope.

(** A writer to a section of the torrent, which the library provides: what lies
    inside of the section is written behind its start. *)
Class SectionWriter : Type := {
  section : (list ascii -> Z -> prog ioE (Z * option error)) -> Z -> Z -> list ascii -> Z -> prog ioE (Z * option error);
  section_inside : forall w base len b off, 0 <= off < len -> off + size_of b <= len -> section w base len b off = w b (base + off);
}.

(** What the client does with a piece. *)
Inductive op : Type :=
| OpWrite (q : Z) (b : list ascii) (off : Z)
| OpRead (q : Z) (len off : Z)
| OpHash (q : Z)
| OpMarkComplete (q : Z)
| OpMarkNotComplete (q : Z)
| OpCompletion (q : Z).

Definition ignore {A} (p : prog ioE A) : prog ioE unit := pbind p (fun _ => Ret tt).

Definition perform {SW : SectionWriter} (t : fileTorrentImpl) (o : op) : prog ioE unit :=
  match o with
  | OpWrite q b off => ignore (Piece_WriteAt t q section b off)
  | OpRead q len off => ignore (Piece_ReadAt t q len off)
  | OpHash q => ignore (WriteTo t q)
  | OpMarkComplete q => ignore (MarkComplete t q)
  | OpMarkNotComplete q => ignore (MarkNotComplete t q)
  | OpCompletion q => ignore (piece_Completion t q)
  end.

Section torrent.
Context {SW : SectionWriter} {ML : MmapLib} (k : kind) (i : info.Info) (n : Z) (t : fileTorrentImpl) (Hlay : layout k i n t).

Abbreviation ls := (lengths i).
Abbreviation pl := (info.PieceLength i).
Abbreviation byte_at := (byte_at i t).
Abbreviation done_at := (done_at t).
Abbreviation piece_len := (piece_len i).
Abbreviation ok := (ok k i n t).
Abbreviation piece_stored := (piece_stored i t).

(** ** Reading and writing inside of a piece *)

Lemma Piece_Length_ok q : 0 <= q < n -> info.Piece_Length (fts_info t) q = Val (piece_len q).
Proof. intros Hq. rewrite (lay_info _ _ _ _ Hlay). by apply (v1_piece i n q (lay_wf _ _ _ _ Hlay)). Qed.

Lemma Offset_ok q : 0 <= q < n -> info.Offset (fts_info t) q = q * pl.
Proof.
  intros Hq. rewrite (lay_info _ _ _ _ Hlay). unfold info.Offset, info.mul64.
  destruct (piece_facts k i n t Hlay q Hq) as (_ & H1 & _ & _ & H2). unfold max_size in *. by rewrite i64_id by lia.
Qed.

(** The bytes [b] are those of the torrent from [a] on. *)
Definition bytes_from (v : fsview) (a : Z) (b : list ascii) : Prop :=
  forall o, 0 <= o < size_of b -> byte_at v (a + o) = b !! Z.to_nat o.

Lemma reads_from v a len b : 0 <= len -> reads i t v a (a + len) [] b -> size_of b = len /\ bytes_from v a b.
Proof.
  intros Hl (b1 & -> & Hs & Hb). cbn [app]. replace (a + len - a) with len in * by lia. split; [done|].
  intros o Ho. symmetry. apply Hb. lia.
Qed.

Lemma Piece_ReadAt_ok v q len off :
  ok v -> 0 <= q < n -> 0 <= off < piece_len q -> 0 <= len ->
  (forall g, q * pl + off <= g < q * pl + Z.min (piece_len q) (off + len) -> is_Some (byte_at v g)) ->
  wpt (io_spec k) (Piece_ReadAt t q len off)
    (fun r v' => v' = v /\ exists b, r = Val (b, None) /\ size_of b = Z.min len (piece_len q - off) /\
       bytes_from v (q * pl + off) b) v.
Proof.
  intros Hok Hq Ho Hl Hb. destruct (piece_facts k i n t Hlay q Hq) as (Hpl & Hq0 & Hlen & Hle & _). unfold Piece_ReadAt.
  rewrite (proj2 (Z.ltb_ge off 0)), (Piece_Length_ok q Hq) by lia. cbn [must pbind].
  rewrite (proj2 (Z.leb_gt _ _)) by lia. set (m := Z.min len (piece_len q - off)).
  destruct (Z.eqb_spec m 0) as [Hm|Hm].
  { cbn. split; [done|]. exists []. split; [done|]. split; [unfold size_of; cbn; lia|]. intros o Hoo. unfold size_of in Hoo. cbn in Hoo. lia. }
  apply wpt_bind; [apply _|]. unfold section_ReadAt. destruct (piece_extent_ok k i n t Hlay q Hq) as (-> & _ & _). cbn [pbind].
  unfold the_extent. cbn [segments.Start segments.Length]. rewrite (proj2 (Z.ltb_ge off 0)), (proj2 (Z.leb_gt (piece_len q) off)) by lia. cbn [orb].
  rewrite (proj2 (Z.ltb_ge (piece_len q - off) m)) by lia.
  eapply wpt_mono; [apply _| |apply (io_ReadAt_ok k i n t Hlay v (q * pl + off) m (ok_view _ _ _ _ _ Hok) (ok_sized _ _ _ _ _ Hok))].
  - intros r v' (-> & b & -> & Hr). cbn [after_value]. apply reads_from in Hr as [Hsz Hbytes]; [|lia].
    rewrite Hsz, (proj2 (Z.ltb_ge m m)), (proj2 (Z.eqb_neq m 0)) by lia. cbn. split; [done|]. exists b. by split_and!.
  - lia.
  - lia.
  - lia.
  - intros g Hg. apply Hb. lia.
Qed.

Definition writable_at (v : fsview) (q : Z) (b : list ascii) (off : Z) : Prop :=
  0 <= q < n /\ 0 <= off < piece_len q /\ off + size_of b <= piece_len q /\ done_at v q <> Some true.

(** What is written inside of a piece is outside of the others. *)
Lemma writable_avoids v q b off : writable_at v q b off -> avoids i n t v (q * pl + off) (size_of b).
Proof.
  intros (Hq & Ho & Hb & Hd) p Hp Hc. assert (p <> q) by congruence.
  destruct (piece_facts k i n t Hlay q Hq) as (? & ? & ? & ? & _), (piece_facts k i n t Hlay p Hp) as (? & ? & ? & ? & _).
  assert (0 <= size_of b) by (unfold size_of; lia).
  destruct (Z.lt_ge_cases p q); [right|left]; nia.
Qed.

Lemma Piece_WriteAt_ok v q b off : ok v -> writable_at v q b off ->
  wpt (io_spec k) (Piece_WriteAt t q section b off)
    (fun r v' => r = Val (size_of b, None) /\ ok v' /\ fv_done v' = fv_done v /\
       bytes_from v' (q * pl + off) b /\
       forall g, 0 <= g < sum ls -> g < q * pl + off \/ q * pl + off + size_of b <= g -> keeps (byte_at v g) (byte_at v' g)) v.
Proof.
  intros Hok Hw. pose proof (writable_avoids v q b off Hw) as Hav. destruct Hw as (Hq & Ho & Hb & Hd).
  destruct (piece_facts k i n t Hlay q Hq) as (? & ? & ? & ? & _). assert (0 <= size_of b) by (unfold size_of; lia).
  unfold Piece_WriteAt. rewrite (Piece_Length_ok q Hq). cbn [must pbind].
  rewrite (proj2 (Z.ltb_ge _ _)), section_inside, (Offset_ok q Hq) by lia.
  eapply wpt_mono; [apply _| |apply (WriteAt_keeps k i n t Hlay v b (q * pl + off) Hok)]; [|lia|lia|done].
  intros r v' (-> & Hok' & Hdone & Hbytes). split_and!; [done|done|done| |].
  - intros o Hoo. specialize (Hbytes (q * pl + off + o) ltac:(lia)).
    rewrite (proj2 (Z.leb_le _ _)), (proj2 (Z.ltb_lt _ _)) in Hbytes by lia. cbn [andb] in Hbytes. rewrite Hbytes. f_equal. lia.
  - intros g Hg Hout. specialize (Hbytes g Hg). destruct (_ && _) eqn:E; [|done].
    apply andb_true_iff in E as [E1%Z.leb_le E2%Z.ltb_lt]. lia.
Qed.

(** ** The contract *)

Definition allowed (v : fsview) (o : op) : Prop :=
  match o with
  | OpWrite q b off => writable_at v q b off
  | OpRead q len off => 0 <= q < n /\ 0 <= off < piece_len q /\ 0 <= len /\ piece_stored v q
  | OpHash q | OpMarkComplete q => 0 <= q < n /\ piece_stored v q
  | OpMarkNotComplete q | OpCompletion q => 0 <= q < n
  end.

(** The piece is still complete, with the same bytes. *)
Definition kept (v v' : fsview) (q : Z) : Prop :=
  done_at v' q = Some true /\ forall g, q * pl <= g < q * pl + piece_len q -> byte_at v' g = byte_at v g.

Definition keeps_pieces (o : op) (v v' : fsview) : Prop :=
  ok v' /\ forall q, 0 <= q < n -> done_at v q = Some true -> o <> OpMarkNotComplete q -> kept v v' q.

Lemma keeps_refl o v : ok v -> keeps_pieces o v v.
Proof. intros Hok. split; [done|]. intros q _ Hd _. by split. Qed.

Lemma marks_kept o v v' p b : marks k i n t v v' p b -> (b = false -> o = OpMarkNotComplete p) -> keeps_pieces o v v'.
Proof.
  intros (Hok & Hbytes & Hd) Hb. split; [done|]. intros q Hq Hc Ho. split; [|done].
  unfold StorageMarks.done_at in *. destruct Hd as [->|Hd]; [done|]. rewrite Hd. fold (StorageMarks.done_at t (set_done t v p b) q).
  rewrite done_at_set. destruct (decide (q = p)) as [->|]; [|done]. destruct b; [done|]. by destruct Ho, Hb.
Qed.

Lemma wpt_ignore {A} (p : prog ioE A) (P : fsview -> Prop) v :
  wpt (io_spec k) p (fun r v' => (exists a, r = Val a) /\ P v') v ->
  wpt (io_spec k) (ignore p) (fun r v' => r = Val tt /\ P v') v.
Proof.
  intros Hp. apply wpt_bind; [apply _|]. eapply wpt_mono; [apply _| |exact Hp]. by intros r v' [[a ->] HP].
Qed.

(** An operation that is allowed ends without a panic, and keeps the storage in
    order. *)
Lemma perform_ok v o : ok v -> allowed v o ->
  wpt (io_spec k) (perform t o) (fun r v' => r = Val tt /\ keeps_pieces o v v') v.
Proof.
  intros Hok Ha. destruct o as [q b off|q len off|q|q|q|q]; cbn [perform allowed] in *; apply wpt_ignore.
  - eapply wpt_mono; [apply _| |by apply Piece_WriteAt_ok].
    intros r v' (-> & Hok' & Hd & _ & Hkeep). split; [by eexists|]. split; [done|]. intros p Hp Hc _. split.
    + unfold StorageMarks.done_at. by rewrite Hd.
    + intros g Hg. pose proof (writable_avoids v q b off Ha p Hp Hc) as Hav.
      destruct (piece_facts k i n t Hlay p Hp) as (? & ? & ? & ? & _). destruct (ok_stored _ _ _ _ _ Hok p Hp Hc g Hg) as [c Hcb].
      destruct (Hkeep g ltac:(lia) ltac:(lia)) as [|[Hn _]]; [done|congruence].
  - destruct Ha as (Hq & Ho & Hl & Hst). eapply wpt_mono; [apply _| |apply Piece_ReadAt_ok; try done].
    + intros r v' (-> & b & -> & _). split; [by eexists|]. by apply keeps_refl.
    + intros g Hg. apply Hst. lia.
  - destruct Ha as [Hq Hst]. eapply wpt_mono; [apply _| |apply (WriteTo_ok k i n t Hlay v q); try done; apply Hok].
    intros r v' (-> & b & err & -> & _). split; [by eexists|]. by apply keeps_refl.
  - destruct Ha as [Hq Hst]. eapply wpt_mono; [apply _| |by apply (MarkComplete_keeps k i n t Hlay v q)].
    intros r v' (Hr & Hm & _). split; [done|]. by apply (marks_kept _ v v' q true).
  - eapply wpt_mono; [apply _| |by apply (MarkNotComplete_keeps k i n t Hlay v q)].
    intros r v' (Hr & Hm). split; [done|]. by apply (marks_kept _ v v' q false).
  - eapply wpt_mono; [apply _| |by apply (Completion_keeps k i n t Hlay v q)].
    intros r v' (-> & ->). split; [by eexists|]. by apply keeps_refl.
Qed.

(** ** A piece written in chunks

    The chunks are parts of the data of the piece, given by offset and length,
    and may come in any order. *)

Fixpoint write_chunks (q : Z) (data : list ascii) (cs : list (Z * Z)) : prog ioE (option error) :=
  match cs with
  | [] => Ret None
  | (off, len) :: cs' =>
      r <- Piece_WriteAt t q section (slice data off len) off;;
      match snd r with
      | Some err => Ret (Some err)
      | None => write_chunks q data cs'
      end
  end.

Definition inside (len : Z) (c : Z * Z) : Prop := 0 <= fst c /\ 0 < snd c /\ fst c + snd c <= len.

(** What was written of the data. *)
Definition has (v : fsview) (q : Z) (data : list ascii) (o : Z) : Prop :=
  byte_at v (q * pl + o) = data !! Z.to_nat o /\ is_Some (data !! Z.to_nat o).

Lemma write_chunks_ok q data cs : 0 <= q < n -> size_of data = piece_len q -> Forall (inside (piece_len q)) cs -> forall v,
  ok v -> done_at v q <> Some true ->
  wpt (io_spec k) (write_chunks q data cs)
    (fun r v' => r = Val None /\ ok v' /\ fv_done v' = fv_done v /\
       forall o, 0 <= o < piece_len q -> has v q data o \/ Exists (fun c => fst c <= o < fst c + snd c) cs -> has v' q data o) v.
Proof.
  intros Hq Hsz. induction 1 as [|[off len] cs Hc Hcs IH]; intros v Hok Hd; cbn [write_chunks].
  { cbn. split_and!; [done|done|done|]. intros o _ [Ho|Ho]; [done|by apply Exists_nil in Ho]. }
  unfold inside in Hc. cbn [fst snd] in Hc. apply wpt_bind; [apply _|].
  assert (size_of (slice data off len) = len) as Hlen by (rewrite slice_length by lia; lia).
  eapply wpt_mono; [apply _| |apply (Piece_WriteAt_ok v q (slice data off len) off Hok); split_and!; [lia|lia|lia|lia|lia|done]].
  intros r v1 (-> & Hok1 & Hd1 & Hbytes & Hkeep). cbn [after_value snd].
  eapply wpt_mono; [apply _| |apply IH; [done|]].
  2:{ unfold StorageMarks.done_at in *. by rewrite Hd1. }
  intros r v2 (-> & Hok2 & Hd2 & Hhas). split_and!; [done|done|congruence|]. intros o Ho Hold.
  apply Hhas; [done|]. destruct (piece_facts k i n t Hlay q Hq) as (? & ? & ? & ? & _).
  destruct (decide (off <= o < off + len)) as [Hin|Hout].
  - left. pose proof (Hbytes (o - off) ltac:(lia)) as Hb. rewrite slice_lookup in Hb by lia.
    replace (q * pl + off + (o - off)) with (q * pl + o) in Hb by lia. replace (off + (o - off)) with o in Hb by lia.
    split; [done|]. apply lookup_lt_is_Some_2. unfold size_of in *. lia.
  - destruct Hold as [[Hb1 [c Hb2]]|Hex].
    + left. split; [|by eexists]. destruct (Hkeep (q * pl + o) ltac:(lia) ltac:(lia)) as [->|[Hn _]]; [done|congruence].
    + right. apply Exists_cons in Hex as [Hin|Hex]; [cbn in Hin; lia|done].
Qed.
End torrent.

(** ** Runs of the client *)

Section runs.
Context {S : Type} {PC : PieceCompletion S} {PCL : PieceCompletionLaws S} {ML : MmapLib} {HO : Holes} {HOL : HolesLaws} {SW : SectionWriter}.
Context (k : kind) (i : info.Info) (n : Z) (t : fileTorrentImpl).

Definition act {A} (p : prog ioE A) (m : machine S) : res A * machine S := run (io_handler k) p m.

(** What the client can do to the machine with operations that satisfy [P]. *)
Inductive reach (P : op -> Prop) (m : machine S) : machine S -> Prop :=
| reach_start : reach P m m
| reach_op m' o : reach P m m' -> P o -> allowed i n t (view_of m') o -> reach P m (snd (act (perform t o) m')).

Definition anything (o : op) : Prop := True.

Record in_order (m : machine S) : Prop := {
  io_machine : inv k m;
  io_layout : layout k i n t;
  io_ok : ok k i n t (view_of m);
}.

Lemma inv_wf m : inv k m -> wf_view (view_of m).
Proof.
  intros Hi. constructor; cbn.
  - intros name f Hf. rewrite lookup_fmap. destruct (inv_files _ _ Hi _ _ Hf) as [d ->]. by eexists.
  - intros name name' f. by apply (inv_inj _ _ Hi).
Qed.

(** A specification holds of every machine in order. *)
Lemma act_ok {A} (p : prog ioE A) m (Q : res A -> fsview -> Prop) : inv k m -> wpt (io_spec k) p Q (view_of m) ->
  inv k (snd (act p m)) /\ Q (fst (act p m)) (view_of (snd (act p m))).
Proof. apply (wpt_run (io_spec k)). apply implementation_satisfies. Qed.

Lemma perform_in_order m o : in_order m -> allowed i n t (view_of m) o ->
  fst (act (perform t o) m) = Val tt /\ in_order (snd (act (perform t o) m)) /\
  keeps_pieces k i n t o (view_of m) (view_of (snd (act (perform t o) m))).
Proof.
  intros [Hi Hlay Hok] Ha. destruct (act_ok _ m _ Hi (perform_ok k i n t Hlay _ o Hok Ha)) as (Hi' & Hr & Hk).
  split_and!; [done| |done]. constructor; [done|done|apply Hk].
Qed.

Lemma reach_in_order P m m' : in_order m -> reach P m m' -> in_order m'.
Proof. intros Hm. induction 1 as [|m' o _ IH _ Ha]; [done|]. by apply (perform_in_order m' o IH Ha). Qed.

Lemma reach_kept P m m' q : in_order m -> reach P m m' -> (forall o, P o -> o <> OpMarkNotComplete q) ->
  0 <= q < n -> done_at t (view_of m) q = Some true -> kept i t (view_of m) (view_of m') q.
Proof.
  intros Hm Hr HP Hq Hd. induction Hr as [|m' o Hr IH Ho Ha]; [by split|].
  destruct IH as [Hd' Hb']. destruct (perform_in_order m' o (reach_in_order _ _ _ Hm Hr) Ha) as (_ & _ & Hk).
  destruct (proj2 Hk q Hq Hd' (HP o Ho)) as [Hd2 Hb2]. split; [done|]. intros g Hg. rewrite Hb2 by done. by apply Hb'.
Qed.
End runs.
