(* ===== verification/StorageTheorems.v ===== *)
(** * What the file storage promises

    The theorems about the file storage on a machine, for both ways of
    accessing files: what the names of the files say, that the bytes of
    complete pieces stay, that what was written is read, hashed and, when a
    file is complete, found under its name, and what a restart makes of the
    names. A sample torrent of two files witnesses them. *)

From S2P Require Import Prelude GoErrors Prog FilePath Segments Info InfoTheorems Disk MapCompletion FileIo FileIoSpec FileIoFacts FileStorage StorageFacts StorageMarks StorageSafety StorageOpen StorageClient.
From Stdlib Require Import ZArith Lia Ascii String.
From stdpp Require Import base gmap strings list.
Import os fileio filestorage segments.

Local Open Scope Z_scope.
Local Open Scope prog_scope.

Section storage.
Context {S : Type} {PC : PieceCompletion S} {PCL : PieceCompletionLaws S} {ML : MmapLib} {HO : Holes} {HOL : HolesLaws} {SW : SectionWriter}.
Context (k : kind) (i : info.Info) (n : Z) (dir hash : string).

Abbreviation pl := (info.PieceLength i).
Abbreviation len_of := (piece_len i).

(** The machine [m] after the torrent [t] was opened on the machine [m0], where
    it had no files yet. *)
Definition opened (m0 m : machine S) (t : fileTorrentImpl) : Prop :=
  inv k m0 /\ storable k i n dir /\ no_files i dir (view_of m0) /\
  act k (OpenTorrent dir true i hash) m0 = (Val (Ok t), m).

Lemma opened_in_order m0 m t : opened m0 m t -> in_order k i n t m.
Proof.
  intros (Hi & Hst & Hfresh & Hrun).
  destruct (act_ok k _ m0 _ Hi (OpenTorrent_fresh k i n dir hash _ (inv_wf k m0 Hi) Hst Hfresh)) as [Hi' HQ].
  rewrite Hrun in HQ, Hi'. cbn [fst snd] in *. destruct HQ as (-> & Hok & _). constructor; [done| |done].
  by apply storable_layout.
Qed.

Lemma opened_hash m0 m t : opened m0 m t -> infoHash t = hash.
Proof.
  intros (Hi & Hst & Hfresh & Hrun).
  destruct (act_ok k _ m0 _ Hi (OpenTorrent_fresh k i n dir hash _ (inv_wf k m0 Hi) Hst Hfresh)) as [_ HQ].
  rewrite Hrun in HQ. by destruct HQ as (-> & _).
Qed.

Lemma session_in_order P m0 m1 m t : opened m0 m1 t -> reach k i n t P m1 m -> in_order k i n t m.
Proof. intros Ho Hr. by apply (reach_in_order k i n t P m1 m (opened_in_order _ _ _ Ho) Hr). Qed.

(** What reading a piece answers. *)
Lemma act_read m t q off len : in_order k i n t m -> 0 <= q < n -> 0 <= off < len_of q -> 0 <= len ->
  (forall g, q * pl + off <= g < q * pl + Z.min (len_of q) (off + len) -> is_Some (byte_at i t (view_of m) g)) ->
  exists b, fst (act k (Piece_ReadAt t q len off) m) = Val (b, None) /\ size_of b = Z.min len (len_of q - off) /\
    bytes_from i t (view_of m) (q * pl + off) b.
Proof.
  intros [Hi Hlay Hok] Hq Ho Hl Hb.
  destruct (act_ok k _ m _ Hi (Piece_ReadAt_ok k i n t Hlay _ q len off Hok Hq Ho Hl Hb)) as (_ & _ & b & H1 & H2 & H3). by exists b.
Qed.

Lemma bytes_determine v a b b' t : size_of b = size_of b' -> bytes_from i t v a b -> bytes_from i t v a b' -> b = b'.
Proof.
  intros Hs Hb Hb'. apply list_eq. intros j. destruct (decide (j < length b)%nat) as [Hj|Hj].
  - unfold size_of in Hs. specialize (Hb (Z.of_nat j) ltac:(unfold size_of; lia)). specialize (Hb' (Z.of_nat j) ltac:(unfold size_of; lia)).
    rewrite Nat2Z.id in *. congruence.
  - unfold size_of in Hs. by rewrite !lookup_ge_None_2 by lia.
Qed.

(** C2. However a client that keeps to the contract uses a torrent that it
    opened in an empty place, a file that is under its own name is whole, has
    no second, partial copy, and has all its pieces recorded as complete; the
    bytes of complete pieces are stored; and no operation panics. *)
Theorem names_say_what_is_complete m0 m1 m t : opened m0 m1 t -> reach k i n t anything m1 m ->
  (forall j x, lengths i !! j = Some x -> 0 < x -> content_at (view_of m) (final_name t j) <> None ->
     content_at (view_of m) (part_name t j) = None /\ all_done i t (view_of m) j x /\
     exists d, content_at (view_of m) (final_name t j) = Some d /\ size_of d = x) /\
  (forall q, 0 <= q < n -> done_at t (view_of m) q = Some true -> piece_stored i t (view_of m) q) /\
  (forall o, allowed i n t (view_of m) o -> fst (act k (perform t o) m) = Val tt).
Proof.
  intros Ho Hr. pose proof (session_in_order _ _ _ _ _ Ho Hr) as Hm. pose proof Hm as [Hi Hlay Hok]. split_and!.
  - intros j x. by apply (final_whole k i n t Hlay).
  - apply (ok_stored _ _ _ _ _ Hok).
  - intros o Ha. by apply (perform_in_order k i n t m o Hm Ha).
Qed.

(** C4. For a torrent that was opened in an empty place and is used by a client
    that keeps to the contract: once a piece is recorded as complete its bytes
    stay. After any further operations the contract allows, except marking the
    piece as not complete, any part of the piece reads as before, without an
    error, and the storage says that the piece is complete. This is not so after
    the torrent is opened again over its files
    ([limits.reopening_loses_complete_pieces]). *)
Theorem complete_pieces_keep_their_bytes m0 m1 m m' t q off len :
  opened m0 m1 t -> reach k i n t anything m1 m -> 0 <= q < n -> done_at t (view_of m) q = Some true ->
  reach k i n t (fun o => o <> OpMarkNotComplete q) m m' -> 0 <= off < len_of q -> 0 <= len ->
  exists b, size_of b = Z.min len (len_of q - off) /\
    fst (act k (Piece_ReadAt t q len off) m) = Val (b, None) /\
    fst (act k (Piece_ReadAt t q len off) m') = Val (b, None) /\
    fst (act k (piece_Completion t q) m') = Val (mkCompletion None true true).
Proof.
  intros Ho Hr Hq Hd Hr' Hoff Hl. pose proof (session_in_order _ _ _ _ _ Ho Hr) as Hm.
  pose proof (reach_in_order _ _ _ _ _ _ _ Hm Hr') as Hm'.
  destruct (reach_kept k i n t _ m m' q Hm Hr' ltac:(by intros) Hq Hd) as [Hd' Hb].
  destruct (act_read m t q off len Hm Hq Hoff Hl) as (b & Hrun & Hs & Hbytes).
  { intros g Hg. apply (ok_stored _ _ _ _ _ (io_ok _ _ _ _ _ Hm) q Hq Hd). lia. }
  destruct (act_read m' t q off len Hm' Hq Hoff Hl) as (b' & Hrun' & Hs' & Hbytes').
  { intros g Hg. apply (ok_stored _ _ _ _ _ (io_ok _ _ _ _ _ Hm') q Hq Hd'). lia. }
  assert (b' = b) as ->.
  { apply (bytes_determine (view_of m) (q * pl + off) b' b t); [lia| |done]. intros o Hoo. rewrite <-Hb by lia. by apply Hbytes'. }
  exists b. split_and!; [done|done|done|]. pose proof Hm' as [Hi' Hlay Hok'].
  destruct (act_ok k _ m' _ Hi' (Completion_keeps k i n t Hlay _ q Hok' Hq)) as (_ & _ & ->). by rewrite Hd'.
Qed.

(** C7. For a torrent that was opened in an empty place and is used by a client
    that keeps to the contract: a piece that is not complete and is written in
    chunks, in any order, overlapping or not, so that they cover its data, reads
    as the data, and so does any part of it. *)
Theorem written_pieces_are_read m0 m1 m t q data cs off len :
  opened m0 m1 t -> reach k i n t anything m1 m -> 0 <= q < n -> done_at t (view_of m) q <> Some true ->
  size_of data = len_of q -> Forall (inside (len_of q)) cs ->
  (forall o, 0 <= o < len_of q -> Exists (fun c => fst c <= o < fst c + snd c) cs) ->
  0 <= off < len_of q -> 0 <= len ->
  fst (act k (write_chunks t q data cs) m) = Val None /\
  fst (act k (Piece_ReadAt t q len off) (snd (act k (write_chunks t q data cs) m))) = Val (slice data off len, None).
Proof.
  intros Ho Hr Hq Hd Hsz Hcs Hcover Hoff Hl. pose proof (session_in_order _ _ _ _ _ Ho Hr) as [Hi Hlay Hok].
  destruct (act_ok k _ m _ Hi (write_chunks_ok k i n t Hlay q data cs Hq Hsz Hcs _ Hok Hd)) as (Hi' & Hrun & Hok' & _ & Hhas).
  split; [done|]. set (m' := snd (act k (write_chunks t q data cs) m)) in *.
  assert (forall o, 0 <= o < len_of q -> has i t (view_of m') q data o) as Hall by (intros o Hoo; apply Hhas; [done|]; right; by apply Hcover).
  destruct (act_read m' t q off len (Build_in_order _ _ _ _ _ Hi' Hlay Hok') Hq Hoff Hl) as (b & -> & Hs & Hbytes).
  { intros g Hg. replace g with (q * pl + (g - q * pl)) by lia. destruct (Hall (g - q * pl) ltac:(lia)) as [-> H]. done. }
  do 2 f_equal. apply (bytes_determine (view_of m') (q * pl + off) b _ t); [rewrite slice_length; lia|done|].
  intros o Hoo. rewrite slice_length in Hoo by lia. rewrite slice_lookup by lia.
  destruct (Hall (off + o) ltac:(lia)) as [<- _]. f_equal. lia.
Qed.

(** What is hashed is what is read: writing a stored piece to the hasher
    passes on the bytes that reading the range of the piece answers, unless it
    reports an error, which it never does with mapped files. *)
Theorem hashing_reads_the_piece m0 m1 m t q :
  opened m0 m1 t -> reach k i n t anything m1 m -> 0 <= q < n -> piece_stored i t (view_of m) q ->
  exists b b' err, fst (act k (WriteTo t q) m) = Val (b, err) /\
    fst (act k (io_ReadAt t (len_of q) (q * pl)) m) = Val (b', None) /\ size_of b' = len_of q /\
    (err = None -> b = b') /\ (k = Mapped -> err = None).
Proof.
  intros Ho Hr Hq Hst. pose proof (session_in_order _ _ _ _ _ Ho Hr) as [Hi Hlay Hok].
  destruct (piece_facts k i n t Hlay q Hq) as (_ & Hq0 & Hlen & Hle & _).
  destruct (act_ok k _ m _ Hi (WriteTo_ok k i n t Hlay _ q (ok_view _ _ _ _ _ Hok) (ok_sized _ _ _ _ _ Hok) Hq Hst)) as (_ & _ & b & err & -> & Hk & Hb).
  destruct (act_ok k _ m _ Hi (io_ReadAt_ok k i n t Hlay _ (q * pl) (len_of q) (ok_view _ _ _ _ _ Hok) (ok_sized _ _ _ _ _ Hok) Hq0 ltac:(lia) Hle Hst))
    as (_ & _ & b' & -> & Hb').
  apply reads_from in Hb' as [Hs' Hb']; [|lia]. exists b, b', err. split_and!; [done|done|done| |done]. intros ->.
  specialize (Hb eq_refl). apply reads_from in Hb as [Hs Hb]; [|lia]. apply (bytes_determine (view_of m) (q * pl) b b' t); [lia|done|done].
Qed.

(** C23. For a torrent that was opened in an empty place and is used by a client
    that keeps to the contract: when marking a piece as complete whose bytes are
    stored succeeds, every file with bytes in it whose pieces are all complete
    now is under its own name, whole. This is not so after the torrent is opened
    again over its files ([limits.reopening_cuts_a_finished_file]). *)
Theorem complete_files_get_their_name m0 m1 m t q :
  opened m0 m1 t -> reach k i n t anything m1 m -> 0 <= q < n -> piece_stored i t (view_of m) q ->
  let m' := snd (act k (MarkComplete t q) m) in
  fst (act k (MarkComplete t q) m) = Val None ->
  done_at t (view_of m') q = Some true /\
  forall j x, lengths i !! j = Some x -> 0 < x ->
    start_of i j < (q + 1) * pl -> q * pl < start_of i j + x -> all_done i t (view_of m') j x ->
    content_at (view_of m') (part_name t j) = None /\
    exists d, content_at (view_of m') (final_name t j) = Some d /\ size_of d = x.
Proof.
  intros Ho Hr Hq Hst m' Hrun. pose proof (session_in_order _ _ _ _ _ Ho Hr) as [Hi Hlay Hok].
  destruct (act_ok k _ m _ Hi (MarkComplete_keeps k i n t Hlay _ q Hok Hq Hst)) as (Hi' & _ & (Hok' & _ & _) & Hnone).
  fold m' in Hi', Hok', Hnone. destruct (Hnone Hrun) as [Hd Hnames]. split.
  { unfold done_at. rewrite Hd. fold (done_at t (set_done t (view_of m) q true) q). rewrite done_at_set. by rewrite decide_True. }
  intros j x Hj Hx H1 H2 Hall. pose proof (Hnames j x Hj Hx H1 H2 Hall) as Hpart. split; [done|].
  destruct (all_done_data k i n t Hlay _ j x Hok' Hj Hx Hall) as (d & Hdata & Hsz). exists d. split; [|done].
  unfold data_of in Hdata. by rewrite Hpart in Hdata.
Qed.

(** C31. Opening the storage again goes by names and sizes alone: a piece is
    recorded as complete exactly when every file with bytes in it, or inside of
    it, is under its own name and has its length; any other piece that was
    complete is recorded as incomplete, and the files stay as they are. *)
Theorem reopening_goes_by_names (m : machine S) t : inv k m -> layout k i n t ->
  let r := act k (setCompletionFromPartFiles t) m in
  let v := view_of m in let v' := view_of (snd r) in
  (forall name, content_at v' name = content_at v name) /\
  (fst r = Val None -> forall q, 0 <= q < n ->
     (done_at t v' q = Some true <->
      forall j x, lengths i !! j = Some x -> start_of i j < (q + 1) * pl -> q * pl < start_of i j + x ->
        exists d, content_at v (final_name t j) = Some d /\ size_of d = x) /\
     (done_at t v' q <> Some true -> done_at t v q = Some true -> done_at t v' q = Some false)).
Proof.
  intros Hi Hlay r v v'.
  destruct (act_ok k _ m _ Hi (setCompletionFromPartFiles_ok k i n t Hlay v)) as (_ & H1 & H2 & H3 & _). fold r v' in H1, H2, H3. split.
  { intros name. unfold content_at, file_of. by rewrite H1, H2. }
  intros Hr q Hq. destruct (H3 Hr q Hq) as [Hc Hn]. split; [|intros Hne Hd; by rewrite (Hn Hne), Hd].
  rewrite Hc. unfold complete_by_names, in_piece, whole. split.
  - intros Hall j x Hj Ha Hb. specialize (Hall j x Hj (conj Ha Hb)).
    destruct (content_at v (final_name t j)) as [d|]; [|done]. exists d. split; [done|]. by apply Z.eqb_eq.
  - intros Hall j x Hj [Ha Hb]. destruct (Hall j x Hj Ha Hb) as (d & -> & Hd). by apply Z.eqb_eq.
Qed.

(** C10. Both ways of accessing files, the classic one and the mapped one, do
    what the specification over names, contents and recorded pieces says, as
    long as no system call fails; so that what is proved of the storage against
    the specification holds with either. *)
Theorem file_access_refines_its_specification B (e : ioE B) (m : machine S) (Q : res B -> fsview -> Prop) :
  inv k m -> io_spec k B e (view_of m) Q ->
  inv k (snd (io_handler k B e m)) /\ Q (fst (io_handler k B e m)) (view_of (snd (io_handler k B e m))).
Proof. apply implementation_satisfies. Qed.
End storage.

(** ** A sample: two files of three and four bytes, in pieces of four *)

Module sample.

Definition two_files : info.Info :=
  info.mkInfo 4 "aaaaaaaaaaaaaaaaaaaabbbbbbbbbbbbbbbbbbbb" "debian" "" 0
    (Some [info.mkFileInfo 3 ["a"] [] None 0; info.mkFileInfo 4 ["c"; "d"] [] None 0]) 0 (info.mkFileTree 0 "" []).

(** A file system without holes, a library that maps no empty files, and a
    writer that refuses what is not inside of its section. *)
#[export] Program Instance no_holes : Holes := { next_data := fun d off => if off <? size_of d then Some off else None }.
#[export] Instance no_holes_laws : HolesLaws.
Proof.
  constructor; cbn.
  - intros d off r Ho. destruct (Z.ltb_spec off (size_of d)); [|done]. intros [= <-]. split; [lia|]. intros. lia.
  - intros d off Ho Hn k Hk. destruct (Z.ltb_spec off (size_of d)); [done|lia].
Qed.
#[export] Instance maps_no_empty_file : MmapLib := { mmap_empty := Some (EOpaque "invalid argument") }.
#[export] Program Instance strict_section : SectionWriter := {
  section := fun w base len b off => if (off <? len) && (off + size_of b <=? len) then w b (base + off) else Ret (0, Some EOF) }.
Next Obligation. intros w base len b off Ho Hb. cbn. rewrite (proj2 (Z.ltb_lt _ _)), (proj2 (Z.leb_le _ _)) by lia. done. Qed.

Import mapcompletion.
Abbreviation Machine := (machine mapPieceCompletion).
Definition empty_machine : Machine := mkMachine _ ∅ ∅ 0 {["."]} ∅ [] ∅.
Definition B (s : string) : list ascii := list_ascii_of_string s.

Definition the_torrent : fileTorrentImpl := opened_torrent two_files "data" "HASH".
Definition at_open : Machine := snd (act Mapped (OpenTorrent "data" true two_files "HASH") empty_machine).
Definition after_ops (os : list op) : Machine := foldl (fun m o => snd (act Mapped (perform the_torrent o) m)) at_open os.

Lemma empty_machine_inv k : inv k empty_machine.
Proof. constructor; cbn; try done. by intros f [x Hx]. Qed.

Lemma is_opened : opened Mapped two_files 2 "data" "HASH" empty_machine at_open the_torrent.
Proof.
  split; [|split; [|split]].
  - apply empty_machine_inv.
  - constructor.
    + constructor; vm_compute; try done. repeat constructor; done.
    + by apply (bool_decide_unpack _).
    + by repeat constructor.
  - by repeat constructor.
  - by vm_compute.
Qed.

(** A piece is stored when each of its bytes is. *)
Lemma stored_by_bytes v q :
  forallb (fun g => bool_decide (is_Some (byte_at two_files the_torrent v g)))
    (seqZ (q * info.PieceLength two_files) (piece_len two_files q)) = true ->
  piece_stored two_files the_torrent v q.
Proof.
  intros Hall g Hg. rewrite forallb_forall in Hall. apply (bool_decide_unpack _).
  rewrite (Hall g); [done|]. apply list_elem_of_In, elem_of_seqZ. lia.
Qed.

(** The first piece is written and complete, with the first file; then a part of
    the second. *)
Definition first_piece : list op := [OpWrite 0 (B "abcd") 0; OpMarkComplete 0].

Lemma first_piece_reached : reach Mapped two_files 2 the_torrent anything at_open (after_ops first_piece).
Proof.
  apply (reach_op _ _ _ _ _ _ (after_ops [OpWrite 0 (B "abcd") 0])); [|done|].
  - apply (reach_op _ _ _ _ _ _ at_open); [apply reach_start|done|]. split; [done|]. by vm_compute.
  - split; [done|]. apply stored_by_bytes. by vm_compute.
Qed.

Lemma second_reached P : P (OpWrite 1 (B "g") 2) ->
  reach Mapped two_files 2 the_torrent P (after_ops first_piece) (after_ops (first_piece ++ [OpWrite 1 (B "g") 2])).
Proof.
  intros HP. apply (reach_op _ _ _ _ _ _ (after_ops first_piece)); [apply reach_start|done|]. split; [done|]. by vm_compute.
Qed.

Lemma names_say_what_is_complete_witness :
  content_at (view_of (after_ops first_piece)) (part_name the_torrent 0) = None /\
  all_done two_files the_torrent (view_of (after_ops first_piece)) 0 3 /\
  exists d, content_at (view_of (after_ops first_piece)) (final_name the_torrent 0) = Some d /\ size_of d = 3.
Proof.
  apply (names_say_what_is_complete Mapped two_files 2 "data" "HASH" _ _ _ _ is_opened first_piece_reached); [done|done|].
  by vm_compute.
Defined.

Lemma complete_pieces_keep_their_bytes_witness :
  exists b, size_of b = 2 /\
    fst (act Mapped (Piece_ReadAt the_torrent 0 2 1) (after_ops first_piece)) = Val (b, None) /\
    fst (act Mapped (Piece_ReadAt the_torrent 0 2 1) (after_ops (first_piece ++ [OpWrite 1 (B "g") 2]))) = Val (b, None) /\
    fst (act Mapped (piece_Completion the_torrent 0) (after_ops (first_piece ++ [OpWrite 1 (B "g") 2]))) = Val (mkCompletion None true true).
Proof.
  apply (complete_pieces_keep_their_bytes Mapped two_files 2 "data" "HASH" _ _ _ _ _ 0 1 2 is_opened first_piece_reached);
    [done|by vm_compute|by apply second_reached|done|done].
Defined.

Definition chunks : list (Z * Z) := [(1, 2); (0, 2)].

Lemma chunks_cover o : 0 <= o < piece_len two_files 1 -> Exists (fun c => fst c <= o < fst c + snd c) chunks.
Proof. change (piece_len two_files 1) with 3. intros Ho. unfold chunks. rewrite !Exists_cons. cbn. lia. Qed.

Lemma written_pieces_are_read_witness :
  fst (act Mapped (write_chunks the_torrent 1 (B "efg") chunks) at_open) = Val None /\
  fst (act Mapped (Piece_ReadAt the_torrent 1 10 1) (snd (act Mapped (write_chunks the_torrent 1 (B "efg") chunks) at_open))) =
    Val (B "fg", None).
Proof.
  apply (written_pieces_are_read Mapped two_files 2 "data" "HASH" _ _ _ _ 1 (B "efg") chunks 1 10 is_opened (reach_start _ _ _ _ _ _));
    [done|by vm_compute|done|by repeat constructor|apply chunks_cover|done|done].
Defined.

Lemma hashing_reads_the_piece_witness :
  exists b b' err, fst (act Mapped (WriteTo the_torrent 0) (after_ops first_piece)) = Val (b, err) /\
    fst (act Mapped (io_ReadAt the_torrent 4 0) (after_ops first_piece)) = Val (b', None) /\ size_of b' = 4 /\
    (err = None -> b = b') /\ (Mapped = Mapped -> err = None).
Proof.
  apply (hashing_reads_the_piece Mapped two_files 2 "data" "HASH" _ _ _ _ 0 is_opened first_piece_reached);
    [done|apply stored_by_bytes; by vm_compute].
Defined.

Definition marked : Machine := snd (act Mapped (MarkComplete the_torrent 0) (after_ops [OpWrite 0 (B "abcd") 0])).

Lemma complete_files_get_their_name_witness :
  content_at (view_of marked) (part_name the_torrent 0) = None /\
  exists d, content_at (view_of marked) (final_name the_torrent 0) = Some d /\ size_of d = 3.
Proof.
  apply (complete_files_get_their_name Mapped two_files 2 "data" "HASH" empty_machine at_open (after_ops [OpWrite 0 (B "abcd") 0]) the_torrent 0 is_opened).
  - apply (reach_op _ _ _ _ _ _ at_open); [apply reach_start|done|]. split; [done|]. by vm_compute.
  - done.
  - apply stored_by_bytes. by vm_compute.
  - by vm_compute.
  - done.
  - done.
  - done.
  - done.
  - intros q Hq1 Hq2. change (0 < (q + 1) * 4) in Hq1. change (q * 4 < 3) in Hq2. assert (q = 0) as -> by lia. by vm_compute.
Defined.

(** The first piece is complete, but only one of its two files is whole. *)
Definition reopened : Machine := snd (act Mapped (setCompletionFromPartFiles the_torrent) (after_ops first_piece)).

Lemma reopening_goes_by_names_witness :
  done_at the_torrent (view_of (after_ops first_piece)) 0 = Some true /\ done_at the_torrent (view_of reopened) 0 = Some false.
Proof.
  split; [by vm_compute|]. apply (reopening_goes_by_names Mapped two_files 2 (after_ops first_piece) the_torrent).
  - apply (reach_in_order _ _ _ _ _ _ _ (opened_in_order _ _ _ _ _ _ _ _ is_opened) first_piece_reached).
  - apply (storable_layout _ _ 2). apply is_opened.
  - by vm_compute.
  - done.
  - by vm_compute.
  - by vm_compute.
Defined.

Lemma file_access_refines_its_specification_witness :
  content_at (view_of (snd (io_handler Mapped _ (openForWrite "data/x" 2) empty_machine))) "data/x" = Some [zero_byte; zero_byte].
Proof.
  apply (file_access_refines_its_specification Mapped _ (openForWrite "data/x" 2) empty_machine
    (fun _ v => content_at v "data/x" = Some [zero_byte; zero_byte])); [apply empty_machine_inv|].
  split; [done|]. split; [done|]. intros f d Hf. destruct Hf as [-> _]. unfold content_at, file_of. cbn. by rewrite !lookup_insert_eq.
Defined.
End sample.

(** ** Where the storage falls short

    Runs of the file storage, on concrete torrents, that lose or mix up data or
    fail although nothing is wrong with the disk. Each says which assumption of
    [StorageTheorems.v] it breaks. *)

Import mapcompletion sample.

Module limits.

Definition torrent_of (files : list (string * Z)) (hashes : nat) : info.Info :=
  info.mkInfo 4 (String.concat "" (replicate hashes "aaaaaaaaaaaaaaaaaaaa")) "t" "" 0
    (Some (map (fun f => info.mkFileInfo (snd f) [fst f] [] None 0) files)) 0 (info.mkFileTree 0 "" []).

Definition open_at (k : kind) (i : info.Info) (m : Machine) : Machine := snd (act k (OpenTorrent "data" true i "HASH") m).
Definition torrent (i : info.Info) : fileTorrentImpl := opened_torrent i "data" "HASH".
Definition operate (k : kind) (i : info.Info) (os : list op) (m : Machine) : Machine :=
  foldl (fun m o => snd (act k (perform (torrent i) o) m)) m os.
Definition file_named (name : string) (m : Machine) : option string := string_of_list_ascii <$> content_at (view_of m) name.
Definition read_piece (k : kind) (i : info.Info) (q : Z) (m : Machine) : res (string * option error) :=
  match fst (act k (Piece_ReadAt (torrent i) q 4 0) m) with
  | Val (b, err) => Val (string_of_list_ascii b, err)
  | Panicked msg => Panicked msg
  end.

(** ** Opening again

    The first file, of six bytes, is finished, but not the second one, which
    shares the second piece with it. *)

Definition boundary : info.Info := torrent_of [("a", 6); ("b", 6)] 3.
Definition finished (k : kind) : Machine :=
  operate k boundary [OpWrite 0 (B "abcd") 0; OpWrite 1 (B "efgh") 0; OpMarkComplete 0; OpMarkComplete 1]
    (open_at k boundary empty_machine).
Definition rewritten (k : kind) : Machine := operate k boundary [OpWrite 1 (B "efgh") 0] (open_at k boundary (finished k)).

Definition zeros : string := string_of_list_ascii (replicate 4 zero_byte).

(** Opened again, the piece that two files share counts as incomplete; when its
    data is fetched again, it goes to a new partial file of the first file, which
    hides what is there: the first piece, which is complete still, reads as
    zeros, and replaces the finished file in the end. *)
Lemma reopening_loses_complete_pieces k :
  file_named "data/t/a" (finished k) = Some "abcdef" /\
  done_at (torrent boundary) (view_of (open_at k boundary (finished k))) 1 = Some false /\
  fst (act k (piece_Completion (torrent boundary) 0) (rewritten k)) = Val (mkCompletion None true true) /\
  read_piece k boundary 0 (rewritten k) = Val (zeros, None) /\
  file_named "data/t/a" (operate k boundary [OpMarkComplete 1] (rewritten k)) = Some (zeros +:+ "ef").
Proof. destruct k; split_and!; by vm_compute. Qed.

(** With classic files there is no size to go by either. The second file is
    finished but not the first one; once more the piece they share is fetched
    again. Marking it as complete succeeds and leaves two bytes of the six under
    the name of the finished file, and none of the last piece, which is recorded
    as complete. *)
Definition behind : info.Info := torrent_of [("a", 6); ("b", 6)] 3.
Definition last_finished : Machine :=
  operate Classic behind [OpWrite 1 (B "efgh") 0; OpWrite 2 (B "ijkl") 0; OpMarkComplete 1; OpMarkComplete 2]
    (open_at Classic behind empty_machine).
Definition fetched_again : Machine := operate Classic behind [OpWrite 1 (B "efgh") 0] (open_at Classic behind last_finished).

Lemma reopening_cuts_a_finished_file :
  let marked := act Classic (MarkComplete (torrent behind) 1) fetched_again in
  file_named "data/t/b" last_finished = Some "ghijkl" /\
  fst marked = Val None /\ file_named "data/t/b" (snd marked) = Some "gh" /\
  (forall q, q = 1 \/ q = 2 -> done_at (torrent behind) (view_of (snd marked)) q = Some true) /\
  read_piece Classic behind 2 (snd marked) = Val ("", Some EOF).
Proof. cbn zeta. split_and!; [by vm_compute..| |by vm_compute]. intros q [-> | ->]; by vm_compute. Qed.

(** ** Names

    A torrent may have a file that is called like the partial file of another;
    nothing checks that. *)

Definition colliding : info.Info := torrent_of [("x", 4); ("x.part", 4)] 2.

(** Both pieces were written and are complete, and the first one reads as the
    second. *)
Lemma part_names_collide k :
  let m := operate k colliding [OpWrite 0 (B "abcd") 0; OpWrite 1 (B "efgh") 0; OpMarkComplete 1] (open_at k colliding empty_machine) in
  read_piece k colliding 0 m = Val ("efgh", None).
Proof. destruct k; by vm_compute. Qed.

(** ** Hashing with the classic files

    The first piece ends inside of the second file, of which there is more. *)
Lemma classic_hashing_reports_a_short_write :
  let m := operate Classic two_files [OpWrite 0 (B "abcd") 0; OpWrite 1 (B "efg") 0] (open_at Classic two_files empty_machine) in
  exists b, fst (act Classic (WriteTo (torrent two_files) 0) m) = Val (b, Some (ESentinel IoErrShortWrite)).
Proof. eexists. by vm_compute. Qed.

(** ** A file that was cut short

    With mapped files reading behind its end panics, where the classic ones
    report the end of the file. *)
Definition cut : Machine := with_names (set_data 0 (B "a") (create "data/debian/a" empty_machine)) {["data/debian/a" := 0%nat]}.

Lemma short_files_panic_when_mapped :
  fst (act Mapped (io_ReadAt (torrent two_files) 1 2) cut) = Panicked "runtime error: slice bounds out of range" /\
  fst (act Classic (io_ReadAt (torrent two_files) 1 2) cut) = Val ([], Some (ESentinel IoEOF)).
Proof. split; by vm_compute. Qed.
End limits.
