(* ===== verification/MagnetFacts.v ===== *)
(** * Magnet links, what the parser does

    What a parse that succeeds has found, which errors and panics there are,
    and that a magnet [String_] writes is read back. *)

From S2P Require Import Prelude GoErrors Prog Infohash Json Url Magnet.
From Stdlib Require Import ZArith Lia Ascii String.
From stdpp Require Import base gmap strings list pretty.
Import metainfo.

Local Open Scope Z_scope.

(** ** Prefixes *)

Lemma has_prefix_Some p s : has_prefix p s = true -> exists t, s = p +:+ t.
Proof.
  revert s. induction p as [|c p IH]; intros [|d s]; cbn [has_prefix]; try done.
  - by exists "".
  - by exists (String d s).
  - case_decide as Hc; [|done]. subst d. intros [t ->]%IH. by exists t.
Qed.

Lemma substring_app p t : String.substring (String.length p) (String.length t) (p +:+ t) = t.
Proof.
  induction p as [|c p IH]; [by apply substring_all|]. rewrite str_app_cons. exact IH.
Qed.

Lemma CutPrefix_app p t : CutPrefix (p +:+ t) p = Some t.
Proof.
  unfold CutPrefix. rewrite has_prefix_app, str_length_app.
  replace (String.length p + String.length t - String.length p)%nat with (String.length t) by lia.
  by rewrite substring_app.
Qed.

Lemma CutPrefix_Some s p t : CutPrefix s p = Some t <-> s = p +:+ t.
Proof.
  split; [|intros ->; apply CutPrefix_app]. intros H.
  assert (has_prefix p s = true) as [t' ->]%has_prefix_Some by (unfold CutPrefix in H; by destruct (has_prefix p s)).
  rewrite CutPrefix_app in H. by injection H as ->.
Qed.

(** ** What a parse has found *)

Section magnet.
Context `{UrlEnv} `{Multihash}.

Definition is_btih (xt : string) : bool := has_prefix btihPrefix xt.
Definition is_btmh (xt : string) : bool := negb (is_btih xt) && has_prefix btmhPrefix xt.

Lemma CutPrefix_None s p : CutPrefix s p = None <-> has_prefix p s = false.
Proof. unfold CutPrefix. by destruct (has_prefix p s). Qed.

Lemma v1_hash_valid encoded h : parseEncodedV1Infohash encoded = Val (Ok h) -> infohash.valid h.
Proof.
  unfold parseEncodedV1Infohash.
  match goal with |- context [match ?r with Some _ => _ | None => _ end] => destruct r as [[ih|]|] end; [|done|done].
  destruct (_ =? _)%nat eqn:E; [|done]. intros [= <-]. by apply Nat.eqb_eq in E.
Qed.

(** The values with the prefix of v1 hashes: none, or one that decodes. *)
Definition found (xts : list string) (before after : option string) : Prop :=
  (filter (fun xt => is_btih xt = true) xts = [] /\ after = before) \/
  (before = None /\ exists encoded h, filter (fun xt => is_btih xt = true) xts = [btihPrefix +:+ encoded] /\
     parseEncodedV1Infohash encoded = Val (Ok h) /\ after = Some h).

Lemma parse_xt_ok xt m m' :
  parse_xt xt m = Val (Ok m') -> found [xt] (InfoHash m) (InfoHash m').
Proof.
  unfold parse_xt, found. rewrite filter_cons, filter_nil.
  destruct (CutPrefix xt btihPrefix) as [enc|] eqn:E.
  - apply CutPrefix_Some in E as ->. rewrite decide_True by apply has_prefix_app.
    destruct (InfoHash m); [done|]. destruct (parseEncodedV1Infohash enc) as [[h|]|] eqn:Eh; [|done|done].
    intros [= <-]. right. split; [done|]. by exists enc, h.
  - rewrite decide_False by (unfold is_btih; by rewrite (proj1 (CutPrefix_None _ _) E)).
    intros Hm. left. split; [done|]. destruct (CutPrefix xt btmhPrefix); [|by injection Hm as <-].
    destruct (V2InfoHash m); [done|]. destruct (parseV2Infohash _) as [[?|]|]; [|done|done].
    by injection Hm as <-.
Qed.

Lemma parse_xts_ok xts m m' :
  parse_xts xts m = Val (Ok m') -> found xts (InfoHash m) (InfoHash m').
Proof.
  revert m. induction xts as [|xt xts IH]; intros m; cbn [parse_xts].
  { intros [= <-]. by left. }
  destruct (parse_xt xt m) as [[m1|]|] eqn:E; cbn [then_ok]; [|done|done].
  intros Hm%IH. apply parse_xt_ok in E. unfold found in *. rewrite filter_cons.
  rewrite filter_cons, filter_nil in E. case_decide as Hxt.
  - destruct E as [[? _]|(Hb & enc & h & [= ->] & Hd & Ha)]; [done|].
    destruct Hm as [[-> Ha']|(Hb' & _)]; [|congruence]. right. split; [done|].
    exists enc, h. split_and!; [done|done|congruence].
  - destruct E as [[_ Ea]|(_ & ? & ? & ? & _)]; [|done]. by rewrite <-Ea.
Qed.

Lemma ParseMagnetV2Uri_ok uri m :
  ParseMagnetV2Uri uri = Val (Ok m) ->
  exists u, url.Parse uri = Ok u /\ url.Scheme u = "magnet" /\
    found (url.vals (url.Query (url.RawQuery u)) "xt") None (InfoHash m).
Proof.
  unfold ParseMagnetV2Uri. destruct (url.Parse uri) as [u|]; [|done]. case_decide as Hs; [|done].
  destruct (parse_xts _ _) as [[m1|]|] eqn:E; cbn [then_ok]; [|done|done].
  destruct (popFirstValue _ _) as [dn q]. intros [= <-]. apply parse_xts_ok in E. by exists u.
Qed.

Lemma zero_valid : infohash.valid infohash.zero.
Proof. reflexivity. Qed.

Lemma spec_valid uri sp : TorrentSpecFromMagnetUri uri = Val (Ok sp) -> infohash.valid (SInfoHash sp).
Proof.
  unfold TorrentSpecFromMagnetUri. destruct (ParseMagnetV2Uri uri) as [[m|]|] eqn:E; cbn [then_ok]; [|done|done].
  intros [= <-]. cbn [SInfoHash].
  apply ParseMagnetV2Uri_ok in E as (u & _ & _ & [[_ ->]|(_ & enc & h & _ & Hd & ->)]); [apply zero_valid|].
  by eapply v1_hash_valid.
Qed.

(** ** The errors are the parser's own *)

Class MagnetErrors : Prop := {
  authority_foreign scheme s e : parse_authority scheme s = Some e -> foreign e;
  mh_decode_foreign b e : mh_decode b = Err e -> foreign e;
}.
End magnet.

Section errors.
Context `{MagnetErrors}.

Lemma hex_decode_foreign s e : infohash.hex_decode s = Err e -> foreign e.
Proof.
  revert e. induction s as [s IH] using (induction_ltof1 _ String.length). intros e.
  destruct s as [|a [|b s]]; cbn [infohash.hex_decode]; [done|..].
  - destruct (infohash.hex_val a); intros [= <-]; apply foreign_opaque.
  - destruct (infohash.hex_val a); [|intros [= <-]; apply foreign_opaque].
    destruct (infohash.hex_val b); [|intros [= <-]; apply foreign_opaque].
    destruct (infohash.hex_decode s) as [t|e'] eqn:E; [done|]. intros [= <-].
    eapply IH; [|exact E]. unfold ltof. simpl. lia.
Qed.

Lemma base32_foreign fuel olen s e : base32.decode fuel olen s = Err e -> foreign e.
Proof.
  revert s e. induction fuel as [|fuel IH]; intros s e; destruct s as [|c s]; try done;
    cbn [base32.decode]; [intros [= <-]; apply foreign_opaque|].
  destruct (base32.read_quantum _ _ _ _ _) as [|dbuf rest|]; [intros [= <-]; apply foreign_opaque| |done].
  destruct (base32.decode fuel olen rest) as [|e'] eqn:E; [done|]. intros [= <-]. by eapply IH.
Qed.

Lemma escape_error_foreign s e : url.escape_error s = Some e -> foreign e.
Proof.
  revert e. induction s as [s IH] using (induction_ltof1 _ String.length). intros e.
  destruct s as [|c r]; cbn [url.escape_error]; [done|]. case_decide.
  - destruct r as [|a [|b r]]; [intros [= <-]; apply foreign_opaque..|].
    destruct (json.hex_val a), (json.hex_val b); try (intros [= <-]; apply foreign_opaque).
    apply IH. unfold ltof. simpl. lia.
  - apply IH. unfold ltof. simpl. lia.
Qed.

Lemma getScheme_foreign s e : url.getScheme s = Err e -> foreign e.
Proof.
  unfold url.getScheme. destruct s as [|c s]; [done|]. destruct (url.scheme_extra c); [done|].
  case_decide; [intros [= <-]; apply foreign_opaque|done].
Qed.

Lemma Parse_foreign s e : url.Parse s = Err e -> foreign e.
Proof.
  unfold url.Parse, url.parse_without_fragment. destruct (url.cut "#" s) as [[u frag] found].
  assert (forall a b e', foreign e' -> Err (A := url.URL) (EWrap a e' b) = Err e -> foreign e) as Hw
    by (intros a b e' He' [= <-]; by apply foreign_wrap).
  destruct (all_chars _ u); cbn [negb]; [|apply Hw, foreign_opaque].
  case_decide; [destruct (url.escape_error frag) eqn:E; [eapply Hw, escape_error_foreign, E|done]|].
  destruct (url.getScheme u) as [[sch rest0]|e'] eqn:Es; [|eapply Hw, getScheme_foreign, Es].
  destruct (url.cut "?" rest0) as [[rest raw] fd].
  destruct (_ && _); [destruct (url.escape_error frag) eqn:E; [eapply Hw, escape_error_foreign, E|done]|].
  destruct (_ && _); [apply Hw, foreign_opaque|].
  destruct (url.cut "/" (url.drop2 rest)) as [[host tl] slash].
  destruct ((bool_decide _ || _) && _).
  - destruct (parse_authority _ host) as [e'|] eqn:Ea; [eapply Hw, authority_foreign, Ea|].
    destruct (url.escape_error (if slash then _ else _)) eqn:E1; [eapply Hw, escape_error_foreign, E1|].
    destruct (url.escape_error frag) eqn:E; [eapply Hw, escape_error_foreign, E|done].
  - destruct (url.escape_error rest) eqn:E1; [eapply Hw, escape_error_foreign, E1|].
    destruct (url.escape_error frag) eqn:E; [eapply Hw, escape_error_foreign, E|done].
Qed.

Lemma parse_xt_foreign xt m e : parse_xt xt m = Val (Err e) -> foreign e.
Proof.
  assert (forall e', foreign e' -> Val (Err (A := MagnetV2) e') = Val (Err e) -> foreign e) as Hw
    by (by intros e' ? [= <-]).
  unfold parse_xt. destruct (CutPrefix xt btihPrefix) as [enc|].
  - destruct (InfoHash m); [apply Hw, foreign_opaque|]. unfold parseEncodedV1Infohash.
    destruct (_ =? 40)%nat; [|destruct (_ =? 32)%nat].
    + destruct (infohash.hex_decode enc) as [ih|e'] eqn:E.
      * by destruct (_ =? _)%nat.
      * apply hex_decode_foreign in E. apply Hw. eauto with torrents.
    + destruct (base32.Decode enc) as [ih|e'] eqn:E.
      * by destruct (_ =? _)%nat.
      * apply base32_foreign in E. apply Hw. eauto with torrents.
    + apply Hw. eauto with torrents.
  - destruct (CutPrefix xt btmhPrefix) as [enc|]; [|done].
    destruct (V2InfoHash m); [apply Hw, foreign_opaque|]. unfold parseV2Infohash.
    destruct (infohash.hex_decode enc) as [b|e'] eqn:E.
    2:{ apply hex_decode_foreign in E. apply Hw. eauto with torrents. }
    destruct (mh_decode b) as [mh|e'] eqn:Em.
    2:{ apply mh_decode_foreign in Em. apply Hw. eauto with torrents. }
    destruct (_ || _); [|done]. apply Hw. eauto with torrents.
Qed.

Lemma parse_xts_foreign xts m e : parse_xts xts m = Val (Err e) -> foreign e.
Proof.
  revert m. induction xts as [|xt xts IH]; intros m; cbn [parse_xts]; [done|].
  destruct (parse_xt xt m) as [[m1|e']|] eqn:E; cbn [then_ok]; [apply IH| |done].
  intros [= <-]. by eapply parse_xt_foreign.
Qed.

Lemma spec_foreign uri e : TorrentSpecFromMagnetUri uri = Val (Err e) -> foreign e.
Proof.
  unfold TorrentSpecFromMagnetUri, ParseMagnetV2Uri.
  destruct (url.Parse uri) as [u|e'] eqn:Ep; cbn [then_ok].
  2:{ intros [= <-]. apply foreign_wrap. by eapply Parse_foreign. }
  case_decide; cbn [then_ok]; [|intros [= <-]; apply foreign_opaque].
  destruct (parse_xts _ _) as [[m|e']|] eqn:E; cbn [then_ok]; [|intros [= <-]; by eapply parse_xts_foreign|done].
  by destruct (popFirstValue _ _).
Qed.
End errors.

(** ** Reading what was written *)

(** Bytes a query may hold: no control byte and no number sign. *)
Definition query_ok (c : ascii) : bool := negb (url.is_ctl c) && negb (json.byte c =? 35).

Section canonical.
Context `{UrlEnv} `{Multihash}.

Lemma Parse_magnet raw :
  all_chars query_ok raw = true -> url.Parse ("magnet:?" +:+ raw) = Ok (url.mkURL "magnet" raw).
Proof.
  intros Hraw. unfold url.Parse. rewrite url.cut_absent.
  2:{ apply url.contains_all. rewrite all_chars_app. apply andb_true_iff. split; [done|].
      eapply all_chars_impl; [|exact Hraw]. apply url.all_ascii_impl. by vm_compute. }
  cbn [url.escape_error]. unfold url.parse_without_fragment. rewrite all_chars_app.
  rewrite (all_chars_impl query_ok _ raw); [|apply url.all_ascii_impl; by vm_compute|done].
  rewrite decide_False by done. reflexivity.
Qed.

Lemma encoded_not_empty p ps : String.concat "&" (map url.setting (p :: ps)) <> "".
Proof.
  intros He. apply (f_equal String.length) in He. cbn [map] in He.
  assert (0 < String.length (url.setting p))%nat as Hp by (unfold url.setting; rewrite !str_length_app; simpl; lia).
  destruct (map url.setting ps); [|rewrite str_concat_cons, str_length_app in He by done]; simpl in He; lia.
Qed.

Lemma String_query m : exists ps rem,
  String_ m = "magnet:" +:+ (if decide (rem = "") then "" else "?" +:+ rem) /\
  rem = String.concat "&"
    (match InfoHash m with Some h => ["xt=" +:+ btihPrefix +:+ infohash.HexString h] | None => [] end ++
     match V2InfoHash m with Some h => ["xt=" +:+ btmhPrefix +:+ mh_hex (ToMultihash h)] | None => [] end ++
     map url.setting ps) /\
  forall k, url.with_key k ps =
    url.vals (Params m) k ++ (if decide (k = "tr") then Trackers m else []) ++
    (if decide (k = "dn") then (if decide (DisplayName m = "") then [] else [DisplayName m]) else []).
Proof.
  set (vs1 := fold_left (fun vs tr => url.Add vs "tr" tr) (Trackers m) (Params m)).
  set (vs := if decide (DisplayName m = "") then vs1 else url.Add vs1 "dn" (DisplayName m)).
  exists (url.pairs vs). eexists. split; [reflexivity|]. fold vs1 vs. split.
  - unfold url.Encode. assert (forall l (ps : list (string * string)),
      String.concat "&" (l ++ (if decide (String.concat "&" (map url.setting ps) = "") then []
                               else [String.concat "&" (map url.setting ps)])) =
      String.concat "&" (l ++ map url.setting ps)) as Hj.
    { intros l ps. induction l as [|x l IH].
      - cbn [app]. case_decide as He; [by rewrite He|done].
      - cbn [app]. case_decide as He.
        + destruct ps as [|p ps]; [by rewrite !app_nil_r|by destruct (encoded_not_empty p ps)].
        + destruct ps as [|p ps]; [done|]. rewrite !str_concat_cons by (by destruct l). by rewrite IH. }
    by rewrite !app_assoc, Hj.
  - intros k. rewrite url.with_key_pairs. unfold vs, vs1.
    assert (forall trs vs0, url.vals (fold_left (fun vs tr => url.Add vs "tr" tr) trs vs0) k =
      url.vals vs0 k ++ (if decide (k = "tr") then trs else [])) as Htr.
    { induction trs as [|tr trs IH]; intros vs0; cbn [fold_left]; [by case_decide; rewrite app_nil_r|].
      rewrite IH, url.vals_Add. destruct (decide (k = "tr")) as [->|Hk].
      - rewrite decide_True by done. by rewrite <-app_assoc.
      - rewrite (decide_False (P := "tr" = k)) by congruence. by rewrite !app_nil_r. }
    destruct (decide (DisplayName m = "")) as [Hd|Hd]; [|rewrite url.vals_Add]; rewrite Htr.
    + by destruct (decide (k = "dn")); rewrite !app_nil_r.
    + rewrite <-app_assoc. destruct (decide (k = "dn")) as [->|]; [by rewrite (decide_True (P := "dn" = "dn"))|].
      by rewrite (decide_False (P := "dn" = k)) by congruence.
Qed.

(** The hexadecimal text of a multihash reads as its bytes, and a hash that was
    encoded is decoded. *)
Class MultihashLaws : Prop := {
  mh_hex_digits b : all_chars (fun c => bool_decide (is_Some (infohash.hex_val c))) (mh_hex b) = true;
  mh_hex_decode b : infohash.hex_decode (mh_hex b) = Ok b;
  mh_decode_encode d : String.length d = v2_size -> mh_decode (mh_encode d SHA2_256) = Ok (mkMultihash SHA2_256 32 d);
}.

(** A magnet as the parser returns it for a URI with at most one name: hashes
    of the right size, and the parameters have values and are neither trackers
    nor names nor hashes. *)
Record wf_magnet (m : MagnetV2) : Prop := {
  wf_hash : forall h, InfoHash m = Some h -> infohash.valid h;
  wf_v2_hash : forall h, V2InfoHash m = Some h -> String.length h = v2_size;
  wf_full : url.full (Params m);
  wf_tr : url.vals (Params m) "tr" = [];
  wf_dn : url.vals (Params m) "dn" = [];
  wf_xt : Forall (fun xt => has_prefix btihPrefix xt = false /\ has_prefix btmhPrefix xt = false)
            (url.vals (Params m) "xt");
}.

Lemma hex_chars h : all_chars (fun c => bool_decide (is_Some (infohash.hex_val c))) (infohash.HexString h) = true.
Proof.
  induction h as [|c h IH]; [done|]. cbn [infohash.HexString all_chars].
  destruct (infohash.hex_digits_val c) as (H1 & H2 & _). rewrite H1, H2, IH. done.
Qed.

(** A hash parameter of a query. *)
Definition hash_char (c : ascii) : bool := bool_decide (is_Some (infohash.hex_val c)) || (json.byte c =? 58) ||
  json.between 97 122 (json.byte c).

Lemma hash_setting urn hex :
  all_chars hash_char urn = true -> all_chars (fun c => bool_decide (is_Some (infohash.hex_val c))) hex = true ->
  let s := "xt=" +:+ urn +:+ hex in
  all_chars query_ok s = true /\ url.contains "&" s = false /\ url.parse_setting s = Ok (Some ("xt", urn +:+ hex)).
Proof.
  intros Hurn Hhex s. assert (all_chars hash_char (urn +:+ hex) = true) as Hv.
  { rewrite all_chars_app, Hurn. eapply all_chars_impl; [|exact Hhex]. intros c Hc. unfold hash_char. by rewrite Hc. }
  assert (forall P, infohash.all_ascii (fun c => implb (hash_char c) (P c)) = true -> all_chars P "xt=" = true ->
    all_chars P s = true) as HP.
  { intros P Hall Hpre. subst s. rewrite all_chars_app, Hpre.
    eapply all_chars_impl; [|exact Hv]. by apply url.all_ascii_impl. }
  split_and!.
  - by apply HP; vm_compute.
  - by apply url.contains_all, HP; vm_compute.
  - unfold url.parse_setting. rewrite (url.contains_all ";") by (by apply HP; vm_compute).
    rewrite decide_False by (unfold s; done).
    change s with ("xt" +:+ String "=" (urn +:+ hex)). rewrite url.cut_present by done.
    cbn [fst snd]. rewrite url.query_unescape_all_plain by done.
    rewrite (url.query_unescape_all_plain (urn +:+ hex)); [done|].
    eapply all_chars_impl; [|exact Hv]. apply url.all_ascii_impl. by vm_compute.
Qed.

Lemma setting_item kv : all_chars query_ok (url.setting kv) = true /\
  url.contains "&" (url.setting kv) = false /\ url.parse_setting (url.setting kv) = Ok (Some kv).
Proof.
  split_and!; [|apply url.contains_all|apply url.parse_setting_setting];
    (eapply all_chars_impl; [|apply url.setting_chars]); apply url.all_ascii_impl; by vm_compute.
Qed.

(** The hashes of a magnet as parameters. *)
Definition hash_pairs `{Multihash} (m : MagnetV2) : list (string * string) :=
  match InfoHash m with Some h => [("xt", btihPrefix +:+ infohash.HexString h)] | None => [] end ++
  match V2InfoHash m with Some h => [("xt", btmhPrefix +:+ mh_hex (ToMultihash h))] | None => [] end.

Lemma String_parsed `{!MultihashLaws} m : exists raw ps,
  url.Parse (String_ m) = Ok (url.mkURL "magnet" raw) /\ fst (url.ParseQuery raw) = hash_pairs m ++ ps /\
  forall k, url.with_key k ps =
    url.vals (Params m) k ++ (if decide (k = "tr") then Trackers m else []) ++
    (if decide (k = "dn") then (if decide (DisplayName m = "") then [] else [DisplayName m]) else []).
Proof.
  destruct (String_query m) as (ps & raw & Hs & Hraw & Hps). exists raw, ps.
  rewrite app_assoc in Hraw. set (l := _ ++ map url.setting ps) in Hraw.
  assert (Forall2 (fun s kv => all_chars query_ok s = true /\ url.contains "&" s = false /\
    url.parse_setting s = Ok (Some kv)) l (hash_pairs m ++ ps)) as Hl.
  { apply Forall2_app; [apply Forall2_app|].
    - destruct (InfoHash m); [|constructor]. constructor; [|constructor]. apply hash_setting; [done|apply hex_chars].
    - destruct (V2InfoHash m); [|constructor]. constructor; [|constructor].
      apply hash_setting; [done|apply mh_hex_digits].
    - clear. induction ps as [|kv ps IH]; constructor; [apply setting_item|done]. }
  split_and!; [|rewrite Hraw|done].
  - rewrite Hs. destruct (decide (raw = "")) as [He|He]; [by rewrite He|]. apply (Parse_magnet raw). rewrite Hraw.
    apply all_chars_concat; [done|]. clear -Hl. induction Hl as [|??? ? [? _]]; by constructor.
  - erewrite url.ParseQuery_concat; [done|]. clear -Hl. induction Hl as [|??? ? [_ ?]]; by constructor.
Qed.

Lemma parse_xts_plain xts m :
  Forall (fun xt => has_prefix btihPrefix xt = false /\ has_prefix btmhPrefix xt = false) xts ->
  parse_xts xts m = Val (Ok (fold_left (fun m xt => lazyAddParam m "xt" xt) xts m)).
Proof.
  intros Hx. revert m. induction Hx as [|xt xts [H1 H2] _ IH]; intros m; [done|]. cbn [parse_xts fold_left].
  unfold parse_xt. rewrite !(proj2 (CutPrefix_None _ _)) by done. cbn [then_ok]. apply IH.
Qed.

Lemma v1_hash_read h : infohash.valid h -> parseEncodedV1Infohash (infohash.HexString h) = Val (Ok h).
Proof.
  intros Hv. unfold parseEncodedV1Infohash. rewrite infohash.length_HexString, Hv.
  rewrite infohash.hex_decode_HexString. change (2 * infohash.Size =? 40)%nat with true. cbv iota.
  by rewrite Hv.
Qed.

Lemma v2_hash_read `{!MultihashLaws} h :
  String.length h = v2_size -> parseV2Infohash (mh_hex (ToMultihash h)) = Val (Ok h).
Proof.
  intros Hv. unfold parseV2Infohash, ToMultihash. rewrite mh_hex_decode, mh_decode_encode by done.
  cbn [mh_code mh_length mh_digest]. by rewrite Z.eqb_refl, Hv.
Qed.

Lemma parse_xts_hashes `{!MultihashLaws} m xts :
  wf_magnet m ->
  parse_xts (map snd (hash_pairs m) ++ xts) (mkMagnetV2 None None [] "" ∅) =
  parse_xts xts (mkMagnetV2 (InfoHash m) (V2InfoHash m) [] "" ∅).
Proof.
  intros Hm. unfold hash_pairs.
  assert (forall h m0, infohash.valid h -> InfoHash m0 = None ->
    parse_xt (btihPrefix +:+ infohash.HexString h) m0 = Val (Ok (set_hash m0 h))) as Hp1.
  { intros h m0 Hv Hn. unfold parse_xt. by rewrite CutPrefix_app, Hn, v1_hash_read. }
  assert (forall h m0, String.length h = v2_size -> V2InfoHash m0 = None ->
    parse_xt (btmhPrefix +:+ mh_hex (ToMultihash h)) m0 = Val (Ok (set_v2_hash m0 h))) as Hp2.
  { intros h m0 Hv Hn. unfold parse_xt. rewrite (proj2 (CutPrefix_None _ btihPrefix)) by done.
    by rewrite CutPrefix_app, Hn, v2_hash_read. }
  pose proof (wf_hash _ Hm) as Hh. pose proof (wf_v2_hash _ Hm) as Hh2.
  destruct (InfoHash m) as [h|], (V2InfoHash m) as [h2|]; cbn [app map snd parse_xts];
    rewrite ?Hp1, ?Hp2 by auto; cbn [then_ok parse_xts]; rewrite ?Hp2 by auto; reflexivity.
Qed.

Lemma vals_Del vs k0 k : url.vals (url.Del vs k0) k = if decide (k = k0) then [] else url.vals vs k.
Proof.
  unfold url.Del, url.vals. case_decide as Hk; [subst k0; by rewrite lookup_delete_eq|by rewrite lookup_delete_ne].
Qed.

Lemma full_Del vs k0 : url.full vs -> url.full (url.Del vs k0).
Proof.
  intros Hf k. unfold url.Del. destruct (decide (k = k0)) as [->|]; [by rewrite lookup_delete_eq|].
  rewrite lookup_delete_ne by done. apply Hf.
Qed.

Lemma full_Add vs k v : url.full vs -> url.full (url.Add vs k v).
Proof.
  intros Hf k'. unfold url.Add. destruct (decide (k' = k)) as [->|]; [|by rewrite lookup_insert_ne].
  rewrite lookup_insert_eq. intros [= E]. by apply app_nil in E as [_ ?].
Qed.

Lemma popFirstValue_one vs key d :
  url.vals vs key = (if decide (d = "") then [] else [d]) ->
  exists dn vs', popFirstValue vs key = (dn, vs') /\ default "" dn = d /\
    (url.full vs -> url.full vs') /\
    forall k, url.vals vs' k = if decide (k = key) then [] else url.vals vs k.
Proof.
  intros Hd. unfold popFirstValue. rewrite Hd. case_decide as Hz.
  - exists None, vs. split_and!; [done|done|done|]. intros k. by case_decide as Hk; [subst k|].
  - exists (Some d), (url.Del vs key). split_and!; [done|done|apply full_Del|apply vals_Del].
Qed.

Definition add_all (d : url.Values) (k : string) (l : list string) : url.Values :=
  fold_left (fun d v => url.Add d k v) l d.

Lemma vals_add_all d k l k' : url.vals (add_all d k l) k' = url.vals d k' ++ (if decide (k = k') then l else []).
Proof.
  unfold add_all. revert d. induction l as [|v l IH]; intros d; cbn [fold_left]; [by case_decide; rewrite app_nil_r|].
  rewrite IH, url.vals_Add. case_decide; [by rewrite <-app_assoc|by rewrite !app_nil_r].
Qed.

Lemma full_add_all d k l : url.full d -> url.full (add_all d k l).
Proof. unfold add_all. revert d. induction l as [|v l IH]; intros d Hd; [done|]. by apply IH, full_Add. Qed.

Lemma copyParams_spec d s :
  (url.full d -> url.full (copyParams d s)) /\
  forall k, url.vals (copyParams d s) k = url.vals d k ++ url.vals s k.
Proof.
  unfold copyParams. change (fun d kvs => fold_left (fun d v => url.Add d kvs.1 v) kvs.2 d)
    with (fun d (kvs : string * list string) => add_all d (fst kvs) (snd kvs)).
  assert (forall l d, (url.full d -> url.full (fold_left (fun d kvs => add_all d (fst kvs) (snd kvs)) l d)) /\
    forall k, (k ∉ l.*1 -> url.vals (fold_left (fun d kvs => add_all d (fst kvs) (snd kvs)) l d) k = url.vals d k) /\
      (forall v, NoDup l.*1 -> (k, v) ∈ l ->
        url.vals (fold_left (fun d kvs => add_all d (fst kvs) (snd kvs)) l d) k = url.vals d k ++ v)) as Hl.
  { clear d s. induction l as [|[k0 v0] l IH]; intros d; cbn [fold_left fst snd].
    { split; [done|]. intros k. split; [done|]. intros v _ Hin. by apply elem_of_nil in Hin. }
    destruct (IH (add_all d k0 v0)) as [IHf IHk]. split; [intros Hd; by apply IHf, full_add_all|].
    intros k. destruct (IHk k) as [IH1 IH2]. rewrite vals_add_all in IH1, IH2. cbn [fmap list_fmap fst]. split.
    - rewrite not_elem_of_cons. intros [Hk Hn]. rewrite IH1 by done.
      rewrite decide_False by congruence. by rewrite app_nil_r.
    - intros v [Hn Hnd]%NoDup_cons [[= -> ->]|Hin]%elem_of_cons.
      + rewrite IH1 by done. by rewrite decide_True.
      + rewrite (IH2 v) by done. rewrite decide_False; [by rewrite app_nil_r|]. intros ->. apply Hn.
        apply list_elem_of_fmap. by exists (k, v). }
  destruct (Hl (map_to_list s) d) as [Hf Hv]. split; [exact Hf|]. intros k. destruct (Hv k) as [H1' H2'].
  unfold url.vals at 3. destruct (s !! k) as [l|] eqn:E.
  - apply H2'; [apply NoDup_fst_map_to_list|by apply elem_of_map_to_list].
  - rewrite H1'; [by rewrite app_nil_r|]. intros ([k' l] & -> & Hin)%list_elem_of_fmap.
    apply elem_of_map_to_list in Hin. simpl in *. congruence.
Qed.

Lemma fold_lazyAddParam xts m :
  fold_left (fun m xt => lazyAddParam m "xt" xt) xts m =
  mkMagnetV2 (InfoHash m) (V2InfoHash m) (Trackers m) (DisplayName m) (add_all (Params m) "xt" xts).
Proof.
  revert m. induction xts as [|xt xts IH]; intros m; [by destruct m|]. cbn [fold_left]. by rewrite IH.
Qed.

Lemma with_key_hashes m k :
  url.with_key k (hash_pairs m) = if decide (k = "xt") then map snd (hash_pairs m) else [].
Proof.
  unfold hash_pairs, url.with_key. rewrite filter_app, !map_app.
  destruct (decide (k = "xt")) as [->|Hk].
  - by destruct (InfoHash m), (V2InfoHash m).
  - destruct (InfoHash m), (V2InfoHash m); rewrite ?filter_cons, ?filter_nil; cbn [fst];
      rewrite ?decide_False by congruence; done.
Qed.

Lemma magnet_read_back `{!MultihashLaws} m : wf_magnet m -> ParseMagnetV2Uri (String_ m) = Val (Ok m).
Proof.
  intros Hm. destruct (String_parsed m) as (raw & ps & Hp & Hq & Hk).
  unfold ParseMagnetV2Uri. rewrite Hp. cbn [url.Scheme url.RawQuery]. rewrite decide_True by done.
  set (q := url.Query raw).
  assert (forall k, url.vals q k = (if decide (k = "xt") then map snd (hash_pairs m) else []) ++ url.with_key k ps) as Hv.
  { intros k. unfold q, url.Query. by rewrite url.vals_values_of, Hq, url.with_key_app, with_key_hashes. }
  assert (url.full q) as Hfull by (intros k; apply url.values_of_nonempty).
  assert (url.vals q "xt" = map snd (hash_pairs m) ++ url.vals (Params m) "xt") as Hxt.
  { rewrite Hv, Hk, decide_True, !decide_False by done. by rewrite !app_nil_r. }
  rewrite Hxt, parse_xts_hashes, parse_xts_plain by (done || apply Hm). cbn [then_ok].
  rewrite fold_lazyAddParam. cbn [InfoHash V2InfoHash Trackers DisplayName Params].
  destruct (popFirstValue_one (url.Del q "xt") "dn" (DisplayName m)) as (dn & q' & -> & -> & Hf' & Hq').
  { rewrite vals_Del, Hv, Hk, !(decide_False (P := "dn" = _)), (decide_True (P := "dn" = "dn")) by done.
    by rewrite (wf_dn _ Hm). }
  rewrite Hq', vals_Del, Hv, Hk, !(decide_False (P := "tr" = _)), (decide_True (P := "tr" = "tr")) by done.
  rewrite (wf_tr _ Hm), app_nil_r. do 2 f_equal.
  pose proof (wf_tr _ Hm) as Htr0. pose proof (wf_dn _ Hm) as Hdn0. destruct m as [h h2 trs d P]. cbn in *. f_equal.
  destruct (copyParams_spec (add_all ∅ "xt" (url.vals P "xt")) (url.Del q' "tr")) as [Hfc Hvc].
  apply url.vals_ext; [|apply Hm|].
  - apply Hfc, full_add_all. intros k. by rewrite lookup_empty.
  - intros k. rewrite Hvc, vals_add_all, vals_Del, Hq', vals_Del, Hv, Hk.
    change (url.vals ∅ k) with ([] : list string).
    destruct (decide (k = "tr")) as [->|Htr]; [by rewrite decide_False, Htr0 by done|].
    destruct (decide (k = "dn")) as [->|Hdn]; [by rewrite decide_False, Hdn0 by done|].
    destruct (decide (k = "xt")) as [->|Hx]; [by rewrite decide_True, app_nil_r by done|].
    rewrite decide_False by congruence. by rewrite !app_nil_r.
Qed.
End canonical.

(** The magnet of a hash alone. *)
Lemma spec_of_hash `{UrlEnv} `{Multihash} hh :
  infohash.valid hh ->
  exists sp, TorrentSpecFromMagnetUri ("magnet:?xt=urn:btih:" +:+ infohash.HexString hh) = Val (Ok sp) /\
    SInfoHash sp = hh /\ SInfoHashV2 sp = None /\ SDisplayName sp = "".
Proof.
  intros Hv. set (raw := "xt=" +:+ btihPrefix +:+ infohash.HexString hh).
  destruct (hash_setting btihPrefix (infohash.HexString hh) eq_refl (hex_chars hh)) as (Hok & Hamp & Hset).
  fold raw in Hok, Hamp, Hset. change ("magnet:?xt=urn:btih:" +:+ infohash.HexString hh) with ("magnet:?" +:+ raw).
  unfold TorrentSpecFromMagnetUri, ParseMagnetV2Uri. rewrite Parse_magnet by done.
  cbn [url.Scheme url.RawQuery]. rewrite decide_True by done. unfold url.Query.
  change raw with (String.concat "&" [raw]).
  erewrite url.ParseQuery_concat by (constructor; [done|constructor]). cbn [fst].
  rewrite url.vals_values_of. unfold url.with_key. rewrite filter_cons, filter_nil. cbn [fst].
  rewrite decide_True by done. cbn [map snd parse_xts]. unfold parse_xt.
  rewrite CutPrefix_app, v1_hash_read by done. cbn [then_ok InfoHash].
  eexists. split_and!; [reflexivity|done..].
Qed.
