(* ===== verification/Sqlite.v ===== *)
(** * The tables and the statements

    The schema of internal/server/database/migrations and the SQL statements
    the two repositories execute. A table is the list of its rows in insertion
    order; [piece_completion] has a two-column primary key and is a finite map.
    [exec_stmt] is one autocommitted statement: the number of affected rows or
    the driver's error, and the tables after it. *)

From S2P Require Import Prelude GoErrors.
From Stdlib Require Import ZArith Lia String.
From stdpp Require Import base gmap strings list.

Local Open Scope Z_scope.

Module sqlite.

Record torrent_row : Type := mkRow {
  r_info_hash : string;
  r_magnet : string;
  r_label : string;
  r_target_dir : string;
  r_is_paused : bool;
  r_created_at : string;
  r_updated_at : string;
  r_name : string;
  r_length : Z;
  r_bytes_completed : Z;
}.

#[export] Instance torrent_row_eq_dec : EqDecision torrent_row.
Proof. solve_decision. Defined.

Record piece_row : Type := mkPieceRow {
  p_info_hash : string;
  p_piece_index : Z;
  p_complete : bool;
}.

Record db : Type := mkDb {
  torrent : list torrent_row;
  piece_completion : gmap (string * Z) bool;
}.

Definition empty_db : db := mkDb [] ∅.

Inductive stmt : Type :=
| InsertTorrent (info_hash magnet label target_dir : string) (is_paused : bool)
    (created_at updated_at : string)
| DeleteTorrent (info_hash : string)
| UpdateMetadata (name : string) (length : Z) (updated_at info_hash : string)
| UpdateBytesCompleted (bytes_completed : Z) (updated_at info_hash : string)
| UpdatePaused (is_paused : bool) (updated_at info_hash : string)
| UpsertPiece (info_hash : string) (piece_index : Z) (complete : bool).

Definition sqliteConstraintPrimaryKey : Z := 1555.
Definition sqliteConstraintUnique : Z := 2067.

(** SELECT ... FROM torrent WHERE info_hash = ? *)
Fixpoint find_row (l : list torrent_row) (h : string) : option torrent_row :=
  match l with
  | [] => None
  | r :: l' => if decide (r_info_hash r = h) then Some r else find_row l' h
  end.

Definition query_torrent (d : db) (h : string) : option torrent_row := find_row (torrent d) h.

(** SELECT ... FROM torrent ORDER BY created_at ASC: the text order; rows with
    equal texts come in the order of their rowids. *)
Definition query_torrents (d : db) : list torrent_row :=
  isort (fun a b => str_leb (r_created_at a) (r_created_at b)) (torrent d).

(** SELECT info_hash, piece_index, complete FROM piece_completion *)
Definition query_pieces (d : db) : list piece_row :=
  (fun '(h, i, c) => mkPieceRow h i c) <$> map_to_list (piece_completion d).

Definition set_metadata (name : string) (length : Z) (updated_at : string) (r : torrent_row) :=
  mkRow (r_info_hash r) (r_magnet r) (r_label r) (r_target_dir r) (r_is_paused r)
    (r_created_at r) updated_at name length (r_bytes_completed r).

Definition set_bytes_completed (n : Z) (updated_at : string) (r : torrent_row) :=
  mkRow (r_info_hash r) (r_magnet r) (r_label r) (r_target_dir r) (r_is_paused r)
    (r_created_at r) updated_at (r_name r) (r_length r) n.

Definition set_is_paused (p : bool) (updated_at : string) (r : torrent_row) :=
  mkRow (r_info_hash r) (r_magnet r) (r_label r) (r_target_dir r) p
    (r_created_at r) updated_at (r_name r) (r_length r) (r_bytes_completed r).

(** UPDATE torrent SET ... WHERE info_hash = ? *)
Definition update_where (h : string) (f : torrent_row -> torrent_row) (d : db) : Z * db :=
  let hit r := bool_decide (r_info_hash r = h) in
  (Z.of_nat (List.length (List.filter hit (torrent d))),
   mkDb (map (fun r => if hit r then f r else r) (torrent d)) (piece_completion d)).

(** The trigger piece_completion_cascade: AFTER DELETE ON torrent FOR EACH ROW. *)
Definition piece_completion_cascade (old : torrent_row) (d : db) : db :=
  mkDb (torrent d) (filter (fun kv => fst (fst kv) <> r_info_hash old) (piece_completion d)).

(** DELETE FROM torrent WHERE info_hash = ?, with the trigger run for every
    deleted row. *)
Definition delete_where (h : string) (d : db) : Z * db :=
  let hit r := bool_decide (r_info_hash r = h) in
  let old := List.filter hit (torrent d) in
  let kept := List.filter (fun r => negb (hit r)) (torrent d) in
  (Z.of_nat (List.length old),
   fold_left (fun d' r => piece_completion_cascade r d') old (mkDb kept (piece_completion d))).

Definition exec_stmt (q : stmt) (d : db) : result Z * db :=
  match q with
  | InsertTorrent h m l t p c u =>
      match find_row (torrent d) h with
      | Some _ =>
          (Err (ESqlite sqliteConstraintPrimaryKey
             "constraint failed: UNIQUE constraint failed: torrent.info_hash (1555)"), d)
      | None =>
          (Ok 1, mkDb (torrent d ++ [mkRow h m l t p c u "" 0 0]) (piece_completion d))
      end
  | DeleteTorrent h => let '(n, d') := delete_where h d in (Ok n, d')
  | UpdateMetadata name len u h =>
      let '(n, d') := update_where h (set_metadata name len u) d in (Ok n, d')
  | UpdateBytesCompleted b u h =>
      let '(n, d') := update_where h (set_bytes_completed b u) d in (Ok n, d')
  | UpdatePaused p u h =>
      let '(n, d') := update_where h (set_is_paused p u) d in (Ok n, d')
  | UpsertPiece h i c => (Ok 1, mkDb (torrent d) (<[(h, i) := c]> (piece_completion d)))
  end.

(** ** Well-formed tables: the primary key of [torrent] *)

Definition keys (d : db) : list string := r_info_hash <$> torrent d.
Definition wf (d : db) : Prop := NoDup (keys d).

Lemma find_row_Some l h r : find_row l h = Some r -> r ∈ l /\ r_info_hash r = h.
Proof.
  induction l as [|x l IH]; simpl; [done|]. case_decide as E; intros H.
  - injection H as <-. split; [left|done].
  - apply IH in H as [? ?]. split; [by right|done].
Qed.

Lemma find_row_None l h : find_row l h = None <-> h ∉ (r_info_hash <$> l).
Proof.
  induction l as [|x l IH]; simpl; [split; [inversion 2|done]|].
  rewrite not_elem_of_cons. case_decide; [split; [done|intros [? _]; congruence]|].
  rewrite IH. split; [intros ?; split; [congruence|done]|tauto].
Qed.

Lemma find_row_app l1 l2 h :
  find_row (l1 ++ l2) h = match find_row l1 h with Some r => Some r | None => find_row l2 h end.
Proof. induction l1 as [|x l IH]; simpl; [done|]. by case_decide. Qed.

Lemma find_row_map l f h k :
  (forall r, r_info_hash (f r) = r_info_hash r) ->
  find_row (map (fun r => if bool_decide (r_info_hash r = h) then f r else r) l) k =
  if decide (k = h) then f <$> find_row l k else find_row l k.
Proof.
  intros Hf. induction l as [|x l IH]; simpl; [by case_decide|].
  case_bool_decide as E1; simpl; rewrite ?Hf, IH; repeat case_decide; simpl; congruence.
Qed.

Lemma find_row_filter l h k :
  find_row (List.filter (fun r => negb (bool_decide (r_info_hash r = h))) l) k =
  if decide (k = h) then None else find_row l k.
Proof.
  induction l as [|x l IH]; simpl; [by case_decide|].
  case_bool_decide as E1; simpl; rewrite IH; repeat case_decide; simpl; congruence.
Qed.

Lemma filter_hit_length l h :
  NoDup (r_info_hash <$> l) ->
  List.length (List.filter (fun r => bool_decide (r_info_hash r = h)) l) =
  match find_row l h with Some _ => 1%nat | None => 0%nat end.
Proof.
  induction l as [|x l IH]; simpl; [done|]. intros Hnd. inversion Hnd as [|? ? Hx Hl]; subst.
  specialize (IH Hl). case_bool_decide as E; simpl.
  - rewrite decide_True by done. rewrite IH.
    replace (find_row l h) with (@None torrent_row); [done|].
    symmetry. apply find_row_None. by rewrite <-E.
  - rewrite decide_False by done. done.
Qed.

Lemma update_where_keys h f d :
  (forall r, r_info_hash (f r) = r_info_hash r) -> keys (snd (update_where h f d)) = keys d.
Proof.
  intros Hf. unfold keys, update_where. cbn [snd torrent].
  induction (torrent d) as [|r l IH]; [done|].
  rewrite map_cons, !fmap_cons, IH. case_bool_decide; by rewrite ?Hf.
Qed.

Lemma cascade_torrent l d :
  torrent (fold_left (fun d' r => piece_completion_cascade r d') l d) = torrent d.
Proof. revert d; induction l as [|r l IH]; intros d; simpl; [done|]. by rewrite IH. Qed.

Lemma cascade_pieces l d h :
  (forall r, r ∈ l -> r_info_hash r = h) ->
  piece_completion (fold_left (fun d' r => piece_completion_cascade r d') l d) =
  match l with
  | [] => piece_completion d
  | _ => filter (fun kv => fst (fst kv) <> h) (piece_completion d)
  end.
Proof.
  revert d. induction l as [|r l IH]; intros d Hl; simpl; [done|].
  assert (r_info_hash r = h) as E by (apply Hl; left).
  rewrite IH by (intros; apply Hl; by right). simpl. rewrite E.
  destruct l; [done|]. apply map_filter_filter_l. by intros.
Qed.

Lemma delete_torrent h d :
  torrent (snd (delete_where h d)) =
  List.filter (fun r => negb (bool_decide (r_info_hash r = h))) (torrent d).
Proof. unfold delete_where; simpl. by rewrite cascade_torrent. Qed.

Lemma elem_of_filter_bool {A} (f : A -> bool) x l :
  x ∈ List.filter f l <-> x ∈ l /\ f x = true.
Proof. rewrite !list_elem_of_In. apply filter_In. Qed.

Lemma wf_filter f d : wf d -> NoDup (r_info_hash <$> List.filter f (torrent d)).
Proof.
  unfold wf, keys. induction (torrent d) as [|r l IH]; simpl; [done|].
  intros Hnd. inversion Hnd as [|? ? Hr Hl]; subst. destruct (f r); simpl; [|by apply IH].
  constructor; [|by apply IH]. rewrite list_elem_of_fmap.
  intros (r' & E & H). apply elem_of_filter_bool in H as [H _].
  apply Hr. rewrite E. by apply list_elem_of_fmap_2.
Qed.

Lemma update_where_wf h f d :
  (forall r, r_info_hash (f r) = r_info_hash r) -> wf d -> wf (snd (update_where h f d)).
Proof. intros Hf Hwf. unfold wf. by rewrite update_where_keys. Qed.

Lemma delete_where_wf h d : wf d -> wf (snd (delete_where h d)).
Proof. intros Hwf. unfold wf, keys. rewrite delete_torrent. by apply wf_filter. Qed.

Lemma insert_wf d r :
  wf d -> find_row (torrent d) (r_info_hash r) = None ->
  wf (mkDb (torrent d ++ [r]) (piece_completion d)).
Proof.
  intros Hwf E. unfold wf, keys; simpl. rewrite fmap_app. apply NoDup_app. split; [done|].
  split; [|apply NoDup_singleton]. intros x Hx Hx'.
  apply list_elem_of_singleton in Hx'. subst x. by apply find_row_None in E.
Qed.

(** Every statement keeps the primary key. *)
Lemma exec_stmt_wf q d : wf d -> wf (snd (exec_stmt q d)).
Proof.
  intros Hwf. destruct q as [h m l t p c u|h|name len u h|b u h|p u h|h i c]; cbn [exec_stmt].
  - destruct (find_row (torrent d) h) eqn:E; [done|]. by apply insert_wf.
  - pose proof (delete_where_wf h d Hwf) as H. by destruct (delete_where h d).
  - pose proof (update_where_wf h (set_metadata name len u) d (fun _ => eq_refl) Hwf) as H.
    by destruct (update_where _ _ d).
  - pose proof (update_where_wf h (set_bytes_completed b u) d (fun _ => eq_refl) Hwf) as H.
    by destruct (update_where _ _ d).
  - pose proof (update_where_wf h (set_is_paused p u) d (fun _ => eq_refl) Hwf) as H.
    by destruct (update_where _ _ d).
  - exact Hwf.
Qed.

End sqlite.

#[export] Hint Resolve sqlite.exec_stmt_wf : torrents.
