(* ===== verification/World.v ===== *)
(** * The world of the server

    [baseE] lists the calls the program's packages make on what they do not
    implement: the clock, [database/sql], the piece cache's mutex and map, the
    torrent client behind the [Client] and [Torrent] interfaces
    (internal/server/torrent/client.go), [os.RemoveAll] and the logger.
    [base_handle] answers them from a [world]. What the environment decides
    (the time, a failing statement, whether the metainfo or the cancellation
    comes first, a failing verification) is read off the world's schedule, so
    a statement about every world is a statement about every environment. *)

From S2P Require Import Prelude GoErrors Prog GoTime Infohash FilePath Url Info Magnet Bencode MetaInfo Sqlite.
From Stdlib Require Import ZArith Lia String.
From stdpp Require Import base gmap strings list.

Local Open Scope Z_scope.

Abbreviation Hash := string (only parsing).
Abbreviation PieceKey := (string * Z)%type (only parsing).

(** ** The torrent client's data *)

Record FileProgress : Type := mkFileProgress {
  fp_path : string;
  fp_length : Z;
  fp_bytes_completed : Z;
}.

(** The info dictionary of a torrent, as far as the server reads it. *)
Record Info : Type := mkInfo {
  i_name : string;
  i_length : Z;
  i_files : list FileProgress;
}.

(** A torrent object of the client. A handle is the object's number: it stays
    valid after the object was dropped. *)
Record tobj : Type := mkObj {
  o_hash : Hash;
  o_display : string;
  o_info : option Info;
  o_bytes : Z;
  o_peers : Z;
  o_seeders : Z;
  o_download : bool;
}.

Definition tname (o : tobj) : string :=
  match o_info o with
  | Some i => i_name i
  | None => if decide (o_display o = "") then "infohash:" +:+ infohash.HexString (o_hash o)
            else o_display o
  end.

Definition tlength (o : tobj) : Z :=
  match o_info o with Some i => i_length i | None => 0 end.

Definition tbytes (o : tobj) : Z :=
  match o_info o with Some _ => o_bytes o | None => 0 end.

(** ** What the code outside the repository computes *)

Class Env : Type := {
  (** What the magnet parser is given. *)
  env_url :: UrlEnv;
  env_multihash :: Multihash;
  (** What info hashes are computed by. *)
  env_hashing :: Hashing;
  (** How much of a file the pieces that are complete have. *)
  file_completed : info.FileInfo -> Z;
  (** package time's general layout parser. *)
  time_fallback : string -> result time;
}.

(** ** What the client makes of an info dictionary *)

Definition validateInfo (i : info.Info) : res (result unit) :=
  if negb (String.length (info.Pieces i) mod 20 =? 0)%nat then Val (Err (EOpaque "pieces has invalid length"))
  else if info.PieceLength i =? 0 then
    match info.TotalLength i with
    | Panicked m => Panicked m
    | Val n => if n =? 0 then Val (Ok tt) else Val (Err (EOpaque "zero piece length"))
    end
  else if info.HasV2 i then Val (Ok tt)
  else
    match info.TotalLength i, info.NumPieces i with
    | Panicked m, _ | _, Panicked m => Panicked m
    | Val n, Val k =>
        if info.round_up n (info.PieceLength i) =? k then Val (Ok tt)
        else Val (Err (EOpaque "piece count and file lengths are at odds"))
    end.

Definition cacheLength (files : list info.FileInfo) : Z :=
  fold_left (fun l f => info.add64 l (info.FLength f)) files 0.

(** The panic of [makePieces], when it does. *)
Definition makePieces (i : info.Info) : option string :=
  match info.NumPieces i with
  | Panicked m => Some m
  | Val n =>
      if n <? 0 then Some "runtime error: makeslice: len out of range"
      else if info.HasV1 i && (Z.of_nat (String.length (info.Pieces i)) <? 20 * n)
      then Some "runtime error: slice bounds out of range"
      else None
  end.

(** A panic may leave the info set. *)
Inductive info_set : Type :=
| InfoSet (i : Info)
| InfoRefused (e : error)
| InfoPanics (m : string) (i : option Info).

Section client_info.
Context `{Env}.

Definition initFiles (i : info.Info) (files : list info.FileInfo) : list FileProgress :=
  map (fun fi => mkFileProgress (info.DisplayPath fi i) (info.FLength fi) (file_completed fi)) files.

(** Opening the storage fails when the environment does, or panics. *)
Definition setInfo (i : info.Info) : info_set :=
  match validateInfo i with
  | Panicked m => InfoPanics m None
  | Val (Err e) => InfoRefused (EWrap "bad info: " e "")
  | Val (Ok _) =>
      match info.UpvertedFiles i with
      | Panicked m => InfoPanics m None
      | Val files =>
          let kept := mkInfo (info.BestName i) (cacheLength files) (initFiles i files) in
          match makePieces i with
          | Some m => InfoPanics m (Some kept)
          | None => InfoSet kept
          end
      end
  end.

End client_info.

(** ** The schedule *)

Inductive info_event : Type :=
| GotInfo (i : Info)       (* the metainfo arrives (or is there already) *)
| CtxDone (s : sentinel).  (* the context ends first *)

(** Hashing a piece ends in a call of [PieceRepository.Set] with its index and
    whether its data is complete. *)
Inductive verify_event : Type :=
| Verified (bytes : Z) (hashed : list (Z * bool))  (* this much is complete *)
| VerifyFailed (e : error) (hashed : list (Z * bool)).

Record schedule : Type := mkSchedule {
  sc_now : list time;
  sc_sql : list (option error);
  sc_client : list (option error);
  sc_info : list info_event;
  sc_verify : list verify_event;
  sc_remove : list (option error);
  sc_ctx : list (option sentinel);
}.

Inductive mutex : Type := Unlocked | RLocked (readers : nat) | Locked.

Record world : Type := mkWorld {
  w_db : sqlite.db;
  w_mu : mutex;
  w_cache : gmap PieceKey bool;
  w_objs : gmap nat tobj;
  w_live : gmap Hash nat;
  w_fs : path.fs;
  w_log : list string;
  w_time : time;
  w_sched : schedule;
}.

Definition with_db w d := mkWorld d (w_mu w) (w_cache w) (w_objs w) (w_live w) (w_fs w) (w_log w) (w_time w) (w_sched w).
Definition with_mu w m := mkWorld (w_db w) m (w_cache w) (w_objs w) (w_live w) (w_fs w) (w_log w) (w_time w) (w_sched w).
Definition with_cache w c := mkWorld (w_db w) (w_mu w) c (w_objs w) (w_live w) (w_fs w) (w_log w) (w_time w) (w_sched w).
Definition with_objs w o := mkWorld (w_db w) (w_mu w) (w_cache w) o (w_live w) (w_fs w) (w_log w) (w_time w) (w_sched w).
Definition with_live w l := mkWorld (w_db w) (w_mu w) (w_cache w) (w_objs w) l (w_fs w) (w_log w) (w_time w) (w_sched w).
Definition with_fs w f := mkWorld (w_db w) (w_mu w) (w_cache w) (w_objs w) (w_live w) f (w_log w) (w_time w) (w_sched w).
Definition with_log w l := mkWorld (w_db w) (w_mu w) (w_cache w) (w_objs w) (w_live w) (w_fs w) l (w_time w) (w_sched w).
Definition with_time w t := mkWorld (w_db w) (w_mu w) (w_cache w) (w_objs w) (w_live w) (w_fs w) (w_log w) t (w_sched w).
Definition with_sched w s := mkWorld (w_db w) (w_mu w) (w_cache w) (w_objs w) (w_live w) (w_fs w) (w_log w) (w_time w) s.

(** ** The calls *)

Inductive baseE : Type -> Type :=
| TimeNow : baseE time
| SqlExec (q : sqlite.stmt) : baseE (result Z)
| SqlRowsAffected (r : Z) : baseE (result Z)
| SqlQueryTorrent (h : string) : baseE (result (option sqlite.torrent_row))
| SqlQueryTorrents : baseE (result (list sqlite.torrent_row))
| SqlQueryPieces : baseE (result (list sqlite.piece_row))
| MuLock : baseE unit
| MuUnlock : baseE unit
| MuRLock : baseE unit
| MuRUnlock : baseE unit
| CacheLookup (pk : PieceKey) : baseE (option bool)
| CacheStore (pk : PieceKey) (c : bool) : baseE unit
| CacheDeleteFunc (f : PieceKey -> bool -> bool) : baseE unit
| CacheReplace (m : gmap PieceKey bool) : baseE unit
| ClientAddMagnet (uri : string) : baseE (result nat)
| ClientAddTorrent (mi : metafile.MetaInfo) : baseE (result nat)
| ClientTorrent (h : Hash) : baseE (option nat)
| WaitGotInfo (t : nat) : baseE (option error)
| VerifyData (t : nat) : baseE (option error)
| DownloadAll (t : nat) : baseE unit
| DropTorrent (t : nat) : baseE unit
| TorrentInfoHash (t : nat) : baseE Hash
| TorrentName (t : nat) : baseE string
| TorrentLength (t : nat) : baseE Z
| TorrentBytesCompleted (t : nat) : baseE Z
| TorrentStats (t : nat) : baseE (Z * Z)
| TorrentFiles (t : nat) : baseE (list FileProgress)
| OsRemoveAll (p : string) : baseE (option error)
| LogError (msg : string) : baseE unit
| LogDebug (msg : string) : baseE unit
| CtxErr : baseE (option error).

(** ** Answers *)

Definition pop {A} (d : A) (l : list A) : A * list A :=
  match l with [] => (d, []) | x :: l' => (x, l') end.

Definition next_now (w : world) : time * world :=
  let s := w_sched w in
  let '(t, l) := pop (w_time w) (sc_now s) in
  (t, with_time (with_sched w (mkSchedule l (sc_sql s) (sc_client s) (sc_info s) (sc_verify s) (sc_remove s) (sc_ctx s))) t).

Definition next_sql (w : world) : option error * world :=
  let s := w_sched w in
  let '(f, l) := pop None (sc_sql s) in
  (f, with_sched w (mkSchedule (sc_now s) l (sc_client s) (sc_info s) (sc_verify s) (sc_remove s) (sc_ctx s))).

Definition next_client (w : world) : option error * world :=
  let s := w_sched w in
  let '(f, l) := pop None (sc_client s) in
  (f, with_sched w (mkSchedule (sc_now s) (sc_sql s) l (sc_info s) (sc_verify s) (sc_remove s) (sc_ctx s))).

Definition next_info (w : world) : info_event * world :=
  let s := w_sched w in
  let '(f, l) := pop (GotInfo (mkInfo "" 0 [])) (sc_info s) in
  (f, with_sched w (mkSchedule (sc_now s) (sc_sql s) (sc_client s) l (sc_verify s) (sc_remove s) (sc_ctx s))).

Definition next_verify (w : world) : verify_event * world :=
  let s := w_sched w in
  let '(f, l) := pop (Verified 0 []) (sc_verify s) in
  (f, with_sched w (mkSchedule (sc_now s) (sc_sql s) (sc_client s) (sc_info s) l (sc_remove s) (sc_ctx s))).

Definition next_remove (w : world) : option error * world :=
  let s := w_sched w in
  let '(f, l) := pop None (sc_remove s) in
  (f, with_sched w (mkSchedule (sc_now s) (sc_sql s) (sc_client s) (sc_info s) (sc_verify s) l (sc_ctx s))).

Definition next_ctx (w : world) : option sentinel * world :=
  let s := w_sched w in
  let '(f, l) := pop None (sc_ctx s) in
  (f, with_sched w (mkSchedule (sc_now s) (sc_sql s) (sc_client s) (sc_info s) (sc_verify s) (sc_remove s) l)).

Definition sql_exec (q : sqlite.stmt) (w : world) : result Z * world :=
  let '(f, w1) := next_sql w in
  match f with
  | Some e => (Err e, w1)
  | None => let '(r, d) := sqlite.exec_stmt q (w_db w1) in (r, with_db w1 d)
  end.

Definition sql_query {A} (q : sqlite.db -> A) (w : world) : result A * world :=
  let '(f, w1) := next_sql w in
  match f with
  | Some e => (Err e, w1)
  | None => (Ok (q (w_db w1)), w1)
  end.

Definition new_obj (h : Hash) (dn : string) (i : option Info) : tobj := mkObj h dn i 0 0 0 false.

(** The display name is replaced by one that is given, and an info that is
    not known yet is taken. *)
Definition merge_spec (dn : string) (i : option Info) (o : tobj) : tobj :=
  mkObj (o_hash o) (if decide (dn = "") then o_display o else dn)
    (match o_info o with Some i0 => Some i0 | None => i end)
    (o_bytes o) (o_peers o) (o_seeders o) (o_download o).

(** The object of the hash when there is one, else a new one. *)
Definition merge_torrent (h : Hash) (dn : string) (i : option Info) (w : world) : nat * world :=
  match w_live w !! h with
  | Some t => (t, with_objs w (alter (merge_spec dn i) t (w_objs w)))
  | None =>
      let t := fresh (dom (w_objs w)) in
      (t, with_live (with_objs w (<[t := new_obj h dn i]> (w_objs w))) (<[h := t]> (w_live w)))
  end.

Definition known_info (h : Hash) (w : world) : option Info :=
  match w_live w !! h with
  | Some t => match w_objs w !! t with Some o => o_info o | None => None end
  | None => None
  end.

(** [AddTorrentSpec]: an info that is known is not set again. A failing merge
    drops an object that was new; a panic leaves it, before it was named. *)
Definition client_add (h : Hash) (dn : string) (i : option info_set) (w : world) : res (result nat) * world :=
  let '(f, w1) := next_client w in
  match f with
  | Some e => (Val (Err e), w1)
  | None =>
      match known_info h w1, i with
      | None, Some (InfoRefused e) =>
          (Val (Err e), match w_live w1 !! h with Some _ => snd (merge_torrent h dn None w1) | None => w1 end)
      | None, Some (InfoPanics m ci) =>
          (Panicked m, snd (merge_torrent h (match w_live w1 !! h with Some _ => dn | None => "" end) ci w1))
      | None, Some (InfoSet ci) => let '(t, w2) := merge_torrent h dn (Some ci) w1 in (Val (Ok t), w2)
      | _, _ => let '(t, w2) := merge_torrent h dn None w1 in (Val (Ok t), w2)
      end
  end.

Definition update_obj (t : nat) (f : tobj -> tobj) (w : world) : world :=
  with_objs w (alter f t (w_objs w)).

Definition set_info (i : Info) (o : tobj) : tobj :=
  mkObj (o_hash o) (o_display o) (match o_info o with Some i0 => Some i0 | None => Some i end)
    (o_bytes o) (o_peers o) (o_seeders o) (o_download o).
Definition set_bytes (n : Z) (o : tobj) : tobj :=
  mkObj (o_hash o) (o_display o) (o_info o) n (o_peers o) (o_seeders o) (o_download o).
Definition set_download (o : tobj) : tobj :=
  mkObj (o_hash o) (o_display o) (o_info o) (o_bytes o) (o_peers o) (o_seeders o) true.

Definition wait_got_info (t : nat) (w : world) : option error * world :=
  let '(ev, w1) := next_info w in
  match ev with
  | GotInfo i => (None, update_obj t (set_info i) w1)
  | CtxDone s => (Some (ESentinel s), w1)
  end.

(** The calls of [PieceRepository.Set] the client made: the row and the cache
    entry of each piece. *)
Definition record_piece (h : Hash) (w : world) (p : Z * bool) : world :=
  with_cache (with_db w (snd (sqlite.exec_stmt
      (sqlite.UpsertPiece (infohash.HexString h) (fst p) (snd p)) (w_db w))))
    (<[(h, fst p) := snd p]> (w_cache w)).

Definition record_pieces (t : nat) (hashed : list (Z * bool)) (w : world) : world :=
  match w_objs w !! t with
  | Some o => fold_left (record_piece (o_hash o)) hashed w
  | None => w
  end.

Definition verify_data (t : nat) (w : world) : option error * world :=
  let '(ev, w1) := next_verify w in
  match ev with
  | Verified n hashed => (None, update_obj t (set_bytes n) (record_pieces t hashed w1))
  | VerifyFailed e hashed => (Some e, record_pieces t hashed w1)
  end.

(** [Drop] removes the object from the client unless it was dropped before. *)
Definition drop_torrent (t : nat) (w : world) : world :=
  match w_objs w !! t with
  | Some o => if decide (w_live w !! o_hash o = Some t) then with_live w (delete (o_hash o) (w_live w)) else w
  | None => w
  end.

(** A method of an object that does not exist is a nil dereference. *)
Definition with_obj {A} (t : nat) (f : tobj -> res A) (w : world) : res A * world :=
  match w_objs w !! t with
  | Some o => (f o, w)
  | None => (Panicked "nil pointer dereference", w)
  end.

(** [Files] dereferences the file list, which is nil until the info is there. *)
Definition tfiles (o : tobj) : res (list FileProgress) :=
  match o_info o with
  | Some i => Val (i_files i)
  | None => Panicked "nil pointer dereference"
  end.

Definition os_remove_all (p : string) (w : world) : option error * world :=
  let '(f, w1) := next_remove w in
  match f with
  | Some e => (Some e, w1)
  | None =>
      let '(r, fs) := path.remove_all p (w_fs w1) in
      (match r with Ok _ => None | Err e => Some e end, with_fs w1 fs)
  end.

Definition ok {A} (p : A * world) : res A * world := (Val (fst p), snd p).
Definition upd (w : world) : res unit * world := (Val tt, w).

(** [Client.AddTorrentOpt] panics when there is no v1 hash. *)
Definition add_torrent_opt (h : Hash) (dn : string) (i : option info_set) (w : world) : res (result nat) * world :=
  if infohash.IsZero h then (Panicked "zero value", w) else client_add h dn i w.

Section handler.
Context `{Env}.

Definition base_handle : handler baseE world := fun B e =>
  match e in baseE B return world -> res B * world with
  | TimeNow => fun w => ok (next_now w)
  | SqlExec q => fun w => ok (sql_exec q w)
  | SqlRowsAffected n => fun w => (Val (Ok n), w)
  | SqlQueryTorrent h => fun w => ok (sql_query (fun d => sqlite.query_torrent d h) w)
  | SqlQueryTorrents => fun w => ok (sql_query sqlite.query_torrents w)
  | SqlQueryPieces => fun w => ok (sql_query sqlite.query_pieces w)
  | MuLock => fun w => upd (with_mu w Locked)
  | MuUnlock => fun w => upd (with_mu w Unlocked)
  | MuRLock => fun w => upd (with_mu w (match w_mu w with RLocked n => RLocked (S n) | _ => RLocked 1 end))
  | MuRUnlock => fun w => upd (with_mu w (match w_mu w with RLocked (S (S n)) => RLocked (S n) | _ => Unlocked end))
  | CacheLookup pk => fun w => (Val (w_cache w !! pk), w)
  | CacheStore pk c => fun w => upd (with_cache w (<[pk := c]> (w_cache w)))
  | CacheDeleteFunc f => fun w =>
      upd (with_cache w (filter (fun kv => f (fst kv) (snd kv) = false) (w_cache w)))
  | CacheReplace m => fun w => upd (with_cache w m)
  | ClientAddMagnet uri => fun w =>
      match metainfo.TorrentSpecFromMagnetUri uri with
      | Panicked m => (Panicked m, w)
      | Val (Err er) => (Val (Err er), w)
      | Val (Ok sp) => add_torrent_opt (metainfo.SInfoHash sp) (metainfo.SDisplayName sp) None w
      end
  | ClientAddTorrent mi => fun w =>
      match metafile.TorrentSpecFromMetaInfoErr mi with
      | Err er => (Val (Err er), w)
      | Ok (i, ts) =>
          let sp := metafile.spec ts in
          add_torrent_opt (metainfo.SInfoHash sp) (metainfo.SDisplayName sp) (Some (setInfo i)) w
      end
  | ClientTorrent h => fun w => (Val (w_live w !! h), w)
  | WaitGotInfo t => fun w => ok (wait_got_info t w)
  | VerifyData t => fun w => ok (verify_data t w)
  | DownloadAll t => fun w => upd (update_obj t set_download w)
  | DropTorrent t => fun w => upd (drop_torrent t w)
  | TorrentInfoHash t => with_obj t (fun o => Val (o_hash o))
  | TorrentName t => with_obj t (fun o => Val (tname o))
  | TorrentLength t => with_obj t (fun o => Val (tlength o))
  | TorrentBytesCompleted t => with_obj t (fun o => Val (tbytes o))
  | TorrentStats t => with_obj t (fun o => Val (o_peers o, o_seeders o))
  | TorrentFiles t => with_obj t tfiles
  | OsRemoveAll p => fun w => ok (os_remove_all p w)
  | LogError m => fun w => upd (with_log w (w_log w ++ [m]))
  | LogDebug _ => fun w => upd w
  | CtxErr => fun w => ok (let '(e, w1) := next_ctx w in (ESentinel <$> e, w1))
  end.
End handler.
