(* ===== verification/Database.v ===== *)
(** * The torrent repository

    internal/server/database/torrent.go and the helpers of database.go: the
    persistence operations of the torrent domain as programs over the clock and
    [database/sql]. *)

From S2P Require Import Prelude GoErrors Prog GoTime Infohash FilePath Sqlite World.
From Stdlib Require Import ZArith Lia String.
From stdpp Require Import base gmap strings list.

Local Open Scope Z_scope.
Local Open Scope prog_scope.

Module database.

Record Torrent : Type := mkTorrent {
  InfoHash : string;
  Magnet : string;
  Label : string;
  TargetDir : string;
  Paused : bool;
  Name : string;
  Length : Z;
  BytesCompleted : Z;
  CreatedAt : time;
  UpdatedAt : time;
}.

#[export] Instance Torrent_eq_dec : EqDecision Torrent.
Proof. solve_decision. Defined.

Definition ErrTorrentNotFound : error := ESentinel DbErrTorrentNotFound.
Definition ErrTorrentAlreadyExists : error := ESentinel DbErrTorrentAlreadyExists.

Definition IsUniqueError (err : error) : bool :=
  match as_sqlite err with
  | None => false
  | Some code =>
      (code =? sqlite.sqliteConstraintPrimaryKey) || (code =? sqlite.sqliteConstraintUnique)
  end.

Definition Create (t : Torrent) : prog baseE (result unit) :=
  instant <- call TimeNow;;
  let now := formatTime instant in
  r <- call (SqlExec (sqlite.InsertTorrent (InfoHash t) (Magnet t) (Label t) (TargetDir t) false now now));;
  match r with
  | Err err =>
      if IsUniqueError err then Ret (Err ErrTorrentAlreadyExists)
      else Ret (Err (EWrap "failed to insert torrent: " err ""))
  | Ok _ => Ret (Ok tt)
  end.

Section env.
Context `{Env}.

(** One scanned row. *)
Definition scan (r : sqlite.torrent_row) : result Torrent :=
  match parseTimestamps time_fallback (sqlite.r_created_at r) (sqlite.r_updated_at r) with
  | Err err => Err err
  | Ok (created, updated) =>
      Ok (mkTorrent (sqlite.r_info_hash r) (sqlite.r_magnet r) (sqlite.r_label r)
            (sqlite.r_target_dir r) (sqlite.r_is_paused r) (sqlite.r_name r)
            (sqlite.r_length r) (sqlite.r_bytes_completed r) created updated)
  end.

Definition Get (infoHash : string) : prog baseE (result Torrent) :=
  r <- call (SqlQueryTorrent infoHash);;
  match r with
  | Err err => Ret (Err (EWrap "failed to load torrent: " err ""))
  | Ok None => Ret (Err ErrTorrentNotFound)
  | Ok (Some row) => Ret (scan row)
  end.

(** The [rows.Next] loop: stops at the first row that does not parse. *)
Fixpoint scan_rows (rows : list sqlite.torrent_row) : result (list Torrent) :=
  match rows with
  | [] => Ok []
  | r :: rows' =>
      match scan r with
      | Err err => Err err
      | Ok t => outcome_map (cons t) (scan_rows rows')
      end
  end.

Definition List : prog baseE (result (list Torrent)) :=
  r <- call SqlQueryTorrents;;
  match r with
  | Err err => Ret (Err (EWrap "failed to query torrents: " err ""))
  | Ok rows => Ret (scan_rows rows)
  end.
End env.

Definition check_affected (what : string) (r : result Z) : prog baseE (result unit) :=
  match r with
  | Err err => Ret (Err (EWrap what err ""))
  | Ok res =>
      n <- call (SqlRowsAffected res);;
      match n with
      | Err err => Ret (Err (EWrap "failed to read affected rows: " err ""))
      | Ok rows => if rows =? 0 then Ret (Err ErrTorrentNotFound) else Ret (Ok tt)
      end
  end.

Definition Delete (infoHash : string) : prog baseE (result unit) :=
  r <- call (SqlExec (sqlite.DeleteTorrent infoHash));;
  check_affected "failed to delete torrent: " r.

Definition SetMetadata (infoHash name : string) (length : Z) : prog baseE (result unit) :=
  now <- call TimeNow;;
  r <- call (SqlExec (sqlite.UpdateMetadata name length (formatTime now) infoHash));;
  check_affected "failed to update torrent: " r.

Definition SetBytesCompleted (infoHash : string) (bytesCompleted : Z) : prog baseE (result unit) :=
  now <- call TimeNow;;
  r <- call (SqlExec (sqlite.UpdateBytesCompleted bytesCompleted (formatTime now) infoHash));;
  check_affected "failed to update torrent: " r.

Definition SetPaused (infoHash : string) (paused : bool) : prog baseE (result unit) :=
  now <- call TimeNow;;
  r <- call (SqlExec (sqlite.UpdatePaused paused (formatTime now) infoHash));;
  check_affected "failed to update torrent: " r.

End database.
