(* ===== verification/Pieces.v ===== *)
(** * The piece-completion repository

    internal/server/database/piece.go: the table [piece_completion] with an
    in-memory cache behind a read-write mutex. *)

From S2P Require Import Prelude GoErrors Prog GoTime Infohash FilePath Sqlite World.
From Stdlib Require Import ZArith Lia String.
From stdpp Require Import base gmap strings list.

Local Open Scope Z_scope.
Local Open Scope prog_scope.

Module pieces.

Record Completion : Type := mkCompletion { Complete : bool; CompletionOk : bool }.

(** [NewPieceRepository] starts with an empty cache. *)
Definition new_cache : gmap PieceKey bool := ∅.

(** The loop of [Load] over the scanned rows. *)
Fixpoint load_rows (rows : list sqlite.piece_row) (loaded : gmap PieceKey bool)
    : result (gmap PieceKey bool) :=
  match rows with
  | [] => Ok loaded
  | r :: rows' =>
      match infohash.FromHexString (sqlite.p_info_hash r) with
      | Err err =>
          Err (EWrap ("failed to parse piece completion info hash " +:+ quote (sqlite.p_info_hash r) +:+ ": ") err "")
      | Ok hash =>
          load_rows rows' (<[(hash, sqlite.p_piece_index r) := sqlite.p_complete r]> loaded)
      end
  end.

Definition Load : prog baseE (result unit) :=
  r <- call SqlQueryPieces;;
  match r with
  | Err err => Ret (Err (EWrap "failed to load piece completion cache: " err ""))
  | Ok rows =>
      match load_rows rows ∅ with
      | Err err => Ret (Err err)
      | Ok loaded =>
          call MuLock;;
          call (CacheReplace loaded);;
          call MuUnlock;;
          Ret (Ok tt)
      end
  end.

Definition Get (pk : PieceKey) : prog baseE (result Completion) :=
  call MuRLock;;
  c <- call (CacheLookup pk);;
  call MuRUnlock;;
  match c with
  | None => Ret (Ok (mkCompletion false false))
  | Some complete => Ret (Ok (mkCompletion complete true))
  end.

(** The deferred unlock runs on both returns. *)
Definition Set_ (pk : PieceKey) (complete : bool) : prog baseE (result unit) :=
  call MuLock;;
  r <- call (SqlExec (sqlite.UpsertPiece (infohash.HexString (fst pk)) (snd pk) complete));;
  match r with
  | Err err =>
      call MuUnlock;;
      Ret (Err (EWrap "failed to upsert piece completion: " err ""))
  | Ok _ =>
      call (CacheStore pk complete);;
      call MuUnlock;;
      Ret (Ok tt)
  end.

Definition forget_match (infoHash : string) (key : PieceKey) (b : bool) : bool :=
  bool_decide (infohash.HexString (fst key) = infoHash).

Definition Forget (infoHash : string) : prog baseE unit :=
  call MuLock;;
  call (CacheDeleteFunc (forget_match infoHash));;
  call MuUnlock.

Definition Close : prog baseE (result unit) := Ret (Ok tt).

Definition Persistent : bool := true.

End pieces.
