(* ===== verification/Engine.v ===== *)
(** * The torrent engine

    internal/server/torrent/engine.go: info-hash-keyed operations against the
    torrent client, as programs over the [Client] and [Torrent] interfaces of
    client.go and the file system. *)

From S2P Require Import Prelude GoErrors Prog GoTime Infohash FilePath Bencode MetaInfo Sqlite World.
From Stdlib Require Import ZArith Lia String.
From stdpp Require Import base gmap strings list pretty.

Local Open Scope Z_scope.
Local Open Scope prog_scope.

Module torrent.

(** The type [InfoHash]: the text of a hash. *)
Abbreviation InfoHash := string (only parsing).

Definition ErrNotFound : error := ESentinel EngErrNotFound.
Definition ErrInvalidFile : error := ESentinel EngErrInvalidFile.

Record Progress : Type := mkProgress {
  PInfoHash : InfoHash;
  PName : string;
  PLength : Z;
  PBytesCompleted : Z;
  PActivePeers : Z;
  PSeeders : Z;
}.

Section env.
Context `{Env}.

(** The tail [AddMagnet] and [AddFile] share: wait for the info or the end of
    the context, verify the data on disk, start the download. *)
Definition start (t : nat) : prog baseE (result InfoHash) :=
  done <- call (WaitGotInfo t);;
  match done with
  | Some ctxErr =>
      call (DropTorrent t);;
      Ret (Err ctxErr)
  | None =>
      v <- call (VerifyData t);;
      match v with
      | Some err =>
          call (DropTorrent t);;
          Ret (Err (EWrap "failed to verify torrent data: " err ""))
      | None =>
          call (DownloadAll t);;
          h <- call (TorrentInfoHash t);;
          Ret (Ok (infohash.HexString h))
      end
  end.

Definition AddMagnet (uri : string) : prog baseE (result InfoHash) :=
  r <- call (ClientAddMagnet uri);;
  match r with
  | Err err => Ret (Err (EWrap "failed to add magnet: " err ""))
  | Ok t => start t
  end.

Definition AddFile (contents : string) : prog baseE (result InfoHash) :=
  match metafile.Load contents bencode.EOF with
  | Err err => Ret (Err (EWrap "" ErrInvalidFile (": " +:+ error_text err)))
  | Ok mi =>
      r <- call (ClientAddTorrent mi);;
      match r with
      | Err err => Ret (Err (EWrap "failed to add torrent: " err ""))
      | Ok t => start t
      end
  end.

Definition find (hash : InfoHash) : prog baseE (result (option nat)) :=
  match infohash.FromHexString hash with
  | Err err => Ret (Err (EWrap ("invalid info hash " +:+ quote hash +:+ ": ") err ""))
  | Ok h =>
      t <- call (ClientTorrent h);;
      Ret (Ok t)
  end.

(** The loop over the two paths of a torrent's data. *)
Fixpoint remove_paths (paths : list string) : prog baseE (result unit) :=
  match paths with
  | [] => Ret (Ok tt)
  | p :: paths' =>
      r <- call (OsRemoveAll p);;
      match r with
      | Some err => Ret (Err (EWrap "failed to remove torrent data: " err ""))
      | None => remove_paths paths'
      end
  end.

Definition data_paths (dataDir name : string) : list string :=
  [path.Join [dataDir; name]; path.Join [dataDir; name +:+ ".part"]].

Definition Remove (dataDir : string) (hash : InfoHash) (deleteFiles : bool)
    : prog baseE (result unit) :=
  r <- find hash;;
  match r with
  | Err err => Ret (Err err)
  | Ok None => Ret (Err ErrNotFound)
  | Ok (Some t) =>
      name <- call (TorrentName t);;
      call (DropTorrent t);;
      if deleteFiles && bool_decide (name <> "") then remove_paths (data_paths dataDir name)
      else Ret (Ok tt)
  end.

Definition Snapshot (hash : InfoHash) : prog baseE (result Progress) :=
  r <- find hash;;
  match r with
  | Err err => Ret (Err err)
  | Ok None => Ret (Err ErrNotFound)
  | Ok (Some t) =>
      stats <- call (TorrentStats t);;
      name <- call (TorrentName t);;
      length <- call (TorrentLength t);;
      bytes <- call (TorrentBytesCompleted t);;
      Ret (Ok (mkProgress hash name length bytes (fst stats) (snd stats)))
  end.

(** The client's torrents implement [Files], so the interface assertion
    holds. *)
Definition Files (hash : InfoHash) : prog baseE (result (list FileProgress)) :=
  r <- find hash;;
  match r with
  | Err err => Ret (Err err)
  | Ok None => Ret (Err ErrNotFound)
  | Ok (Some t) =>
      files <- call (TorrentFiles t);;
      Ret (Ok (map (fun f => mkFileProgress (fp_path f) (fp_length f) (fp_bytes_completed f)) files))
  end.
End env.

End torrent.
