(* ===== verification/Service.v ===== *)
(** * The torrent service

    internal/server/service/torrent.go: the orchestration of the engine, the
    torrent repository and the piece cache, as programs over the interfaces the
    file declares ([TorrentEngine], [TorrentRepository], [PieceRepository]).
    [wiring] is the composition of server.go: every interface call runs the method of
    the concrete component. *)

From S2P Require Import Prelude GoErrors Prog GoTime Infohash FilePath Sqlite World Database Pieces Engine.
From Stdlib Require Import ZArith Lia String.
From stdpp Require Import base gmap strings list.

Local Open Scope Z_scope.
Local Open Scope prog_scope.

(** ** The interfaces *)

Inductive svcE : Type -> Type :=
(* TorrentEngine *)
| EngAddMagnet (uri : string) : svcE (result string)
| EngAddFile (contents : string) : svcE (result string)
| EngRemove (hash : string) (deleteFiles : bool) : svcE (result unit)
| EngSnapshot (hash : string) : svcE (result torrent.Progress)
| EngFiles (hash : string) : svcE (result (list FileProgress))
(* TorrentRepository *)
| RepoCreate (t : database.Torrent) : svcE (result unit)
| RepoGet (infoHash : string) : svcE (result database.Torrent)
| RepoList : svcE (result (list database.Torrent))
| RepoDelete (infoHash : string) : svcE (result unit)
| RepoSetMetadata (infoHash name : string) (length : Z) : svcE (result unit)
| RepoSetBytesCompleted (infoHash : string) (bytesCompleted : Z) : svcE (result unit)
| RepoSetPaused (infoHash : string) (paused : bool) : svcE (result unit)
(* PieceRepository *)
| PiecesForget (infoHash : string) : svcE unit
(* the logger and the context *)
| LogErr (msg : string) : svcE unit
| CtxDoneErr : svcE (option error).

Module service.

Definition ErrTorrentNotFound : error := ESentinel SvcErrTorrentNotFound.
Definition ErrTorrentAlreadyExists : error := ESentinel SvcErrTorrentAlreadyExists.
Definition ErrInvalidTorrentFile : error := ESentinel SvcErrInvalidTorrentFile.

Record Torrent : Type := mkTorrent {
  InfoHash : string;
  Magnet : string;
  Label : string;
  TargetDir : string;
  Paused : bool;
  CreatedAt : time;
  UpdatedAt : time;
  Name : string;
  Length : Z;
  BytesCompleted : Z;
  ActivePeers : Z;
  Seeders : Z;
}.

#[export] Instance Torrent_eq_dec : EqDecision Torrent.
Proof. solve_decision. Defined.

Record File : Type := mkFile {
  FPath : string;
  FLength : Z;
  FBytesCompleted : Z;
}.

Record AddOptions : Type := mkAddOptions {
  OLabel : string;
  OTargetDir : string;
}.

Definition new_row (hash magnet : string) (opts : AddOptions) : database.Torrent :=
  database.mkTorrent hash magnet (OLabel opts) (OTargetDir opts) false "" 0 0 zero_time zero_time.

(** The row with the engine's live state laid over it, when there is one. *)
Definition overlay (row : database.Torrent) (snap : result torrent.Progress) : Torrent :=
  let t := mkTorrent (database.InfoHash row) (database.Magnet row) (database.Label row)
    (database.TargetDir row) (database.Paused row) (database.CreatedAt row)
    (database.UpdatedAt row) (database.Name row) (database.Length row)
    (database.BytesCompleted row) 0 0 in
  match snap with
  | Err _ => t
  | Ok p =>
      mkTorrent (InfoHash t) (Magnet t) (Label t) (TargetDir t) (Paused t) (CreatedAt t) (UpdatedAt t)
        (if decide (torrent.PName p = "") then Name t else torrent.PName p)
        (if 0 <? torrent.PLength p then torrent.PLength p else Length t)
        (torrent.PBytesCompleted p) (torrent.PActivePeers p) (torrent.PSeeders p)
  end.

Definition hydrate (row : database.Torrent) : prog svcE Torrent :=
  snap <- call (EngSnapshot (database.InfoHash row));;
  Ret (overlay row snap).

Definition Get (infoHash : string) : prog svcE (result Torrent) :=
  r <- call (RepoGet infoHash);;
  match r with
  | Err err =>
      if error_is err DbErrTorrentNotFound then Ret (Err ErrTorrentNotFound)
      else Ret (Err (EWrap "failed to load torrent: " err ""))
  | Ok row =>
      t <- hydrate row;;
      Ret (Ok t)
  end.

Definition persistMetadata (hash : string) : prog svcE unit :=
  r <- call (EngSnapshot hash);;
  match r with
  | Err _ => Ret tt
  | Ok progress =>
      if decide (torrent.PName progress = "") then Ret tt
      else
        s <- call (RepoSetMetadata hash (torrent.PName progress) (torrent.PLength progress));;
        match s with
        | Err err => call (LogErr ("failed to persist torrent metadata: " +:+ error_text err))
        | Ok _ => Ret tt
        end
  end.

Definition persistBytesCompleted (hash : string) : prog svcE unit :=
  r <- call (EngSnapshot hash);;
  match r with
  | Err _ => Ret tt
  | Ok progress =>
      s <- call (RepoSetBytesCompleted hash (torrent.PBytesCompleted progress));;
      match s with
      | Err err => call (LogErr ("failed to persist torrent bytes completed: " +:+ error_text err))
      | Ok _ => Ret tt
      end
  end.

Definition persist (hash magnet : string) (opts : AddOptions) : prog svcE (result Torrent) :=
  r <- call (RepoCreate (new_row hash magnet opts));;
  match r with
  | Err err =>
      if error_is err DbErrTorrentAlreadyExists then Ret (Err ErrTorrentAlreadyExists)
      else Ret (Err (EWrap "failed to persist torrent: " err ""))
  | Ok _ =>
      persistMetadata hash;;
      Get hash
  end.

Definition AddMagnet (uri : string) (opts : AddOptions) : prog svcE (result Torrent) :=
  r <- call (EngAddMagnet uri);;
  match r with
  | Err err => Ret (Err (EWrap "failed to add magnet: " err ""))
  | Ok hash => persist hash uri opts
  end.

Definition file_magnet (hash : string) : string := "magnet:?xt=urn:btih:" +:+ hash.

Definition AddFile (contents : string) (opts : AddOptions) : prog svcE (result Torrent) :=
  r <- call (EngAddFile contents);;
  match r with
  | Err err =>
      if error_is err EngErrInvalidFile then Ret (Err ErrInvalidTorrentFile)
      else Ret (Err (EWrap "failed to add torrent file: " err ""))
  | Ok hash => persist hash (file_magnet hash) opts
  end.

(** [nil] is [None]: the file data is unavailable. *)
Definition Files (infoHash : string) : prog svcE (result (option (list File))) :=
  r <- call (RepoGet infoHash);;
  match r with
  | Err err =>
      if error_is err DbErrTorrentNotFound then Ret (Err ErrTorrentNotFound)
      else Ret (Err (EWrap "failed to load torrent: " err ""))
  | Ok _ =>
      fp <- call (EngFiles infoHash);;
      match fp with
      | Err _ => Ret (Ok None)
      | Ok l =>
          Ret (Ok (Some (map (fun f => mkFile (fp_path f) (fp_length f) (fp_bytes_completed f)) l)))
      end
  end.

Fixpoint hydrate_all (rows : list database.Torrent) : prog svcE (list Torrent) :=
  match rows with
  | [] => Ret []
  | row :: rows' =>
      t <- hydrate row;;
      ts <- hydrate_all rows';;
      Ret (t :: ts)
  end.

Definition List : prog svcE (result (list Torrent)) :=
  r <- call RepoList;;
  match r with
  | Err err => Ret (Err (EWrap "failed to list torrents: " err ""))
  | Ok rows =>
      ts <- hydrate_all rows;;
      Ret (Ok ts)
  end.

(** Completion from the live snapshot when it has a length, else from the row. *)
Definition complete_of (row : database.Torrent) (snap : result torrent.Progress) : bool :=
  let stored := (0 <? database.Length row) && (database.Length row <=? database.BytesCompleted row) in
  match snap with
  | Ok p =>
      if 0 <? torrent.PLength p then torrent.PLength p <=? torrent.PBytesCompleted p else stored
  | Err _ => stored
  end.

Definition isComplete (row : database.Torrent) : prog svcE bool :=
  snap <- call (EngSnapshot (database.InfoHash row));;
  Ret (complete_of row snap).

(** The second half of [Remove]: the row, then the cached piece completion. *)
Definition remove_row (infoHash : string) : prog svcE (result unit) :=
  d <- call (RepoDelete infoHash);;
  match d with
  | Err err =>
      if error_is err DbErrTorrentNotFound then Ret (Err ErrTorrentNotFound)
      else Ret (Err (EWrap "failed to delete torrent: " err ""))
  | Ok _ =>
      call (PiecesForget infoHash);;
      Ret (Ok tt)
  end.

Definition Remove (infoHash : string) (deleteFiles : bool) : prog svcE (result unit) :=
  r <- call (RepoGet infoHash);;
  match r with
  | Err err =>
      if error_is err DbErrTorrentNotFound then Ret (Err ErrTorrentNotFound)
      else Ret (Err (EWrap "failed to load torrent: " err ""))
  | Ok row =>
      (* deleteFiles || !s.isComplete(row): the right side only when needed *)
      complete <- (if deleteFiles then Ret false else isComplete row);;
      let actuallyDeleteFiles := deleteFiles || negb complete in
      e <- call (EngRemove infoHash actuallyDeleteFiles);;
      match e with
      | Err err =>
          if error_is err EngErrNotFound then remove_row infoHash
          else Ret (Err (EWrap "failed to remove torrent from engine: " err ""))
      | Ok _ => remove_row infoHash
      end
  end.

Definition set_paused (infoHash : string) (paused : bool) : prog svcE (result unit) :=
  r <- call (RepoSetPaused infoHash paused);;
  match r with
  | Err err =>
      if error_is err DbErrTorrentNotFound then Ret (Err ErrTorrentNotFound)
      else Ret (Err (EWrap "failed to persist torrent state: " err ""))
  | Ok _ => Ret (Ok tt)
  end.

Definition Pause (infoHash : string) : prog svcE (result unit) :=
  persistBytesCompleted infoHash;;
  e <- call (EngRemove infoHash false);;
  match e with
  | Err err =>
      if error_is err EngErrNotFound then set_paused infoHash true
      else Ret (Err (EWrap "failed to remove torrent from engine: " err ""))
  | Ok _ => set_paused infoHash true
  end.

Definition Resume (infoHash : string) : prog svcE (result unit) :=
  r <- call (RepoGet infoHash);;
  match r with
  | Err err =>
      if error_is err DbErrTorrentNotFound then Ret (Err ErrTorrentNotFound)
      else Ret (Err (EWrap "failed to load torrent: " err ""))
  | Ok row =>
      s <- set_paused infoHash false;;
      match s with
      | Err err => Ret (Err err)
      | Ok _ =>
          a <- call (EngAddMagnet (database.Magnet row));;
          match a with
          | Err err =>
              rb <- call (RepoSetPaused infoHash true);;
              (match rb with
               | Err rollbackErr =>
                   call (LogErr ("failed to roll back pause state after resume failure: "
                                 +:+ error_text rollbackErr))
               | Ok _ => Ret tt
               end);;
              Ret (Err (EWrap "failed to re-add torrent to engine: " err ""))
          | Ok hash =>
              persistMetadata hash;;
              Ret (Ok tt)
          end
      end
  end.

(** The body of one goroutine of [Restore]. *)
Definition restore_one (row : database.Torrent) : prog svcE (result unit) :=
  a <- call (EngAddMagnet (database.Magnet row));;
  match a with
  | Err err =>
      call (LogErr ("failed to restore torrent to engine: " +:+ error_text err));;
      Ret (Ok tt)
  | Ok hash =>
      persistMetadata hash;;
      e <- call CtxDoneErr;;
      Ret (match e with Some err => Err err | None => Ok tt end)
  end.

(** The goroutines run one after the other here, in the order they are
    started; [group.Wait] returns the first error. *)
Fixpoint restore_all (rows : list database.Torrent) : prog svcE (result unit) :=
  match rows with
  | [] => Ret (Ok tt)
  | row :: rows' =>
      if database.Paused row then restore_all rows'
      else
        r <- restore_one row;;
        rs <- restore_all rows';;
        Ret (match r with Err err => Err err | Ok _ => rs end)
  end.

Definition Restore : prog svcE (result unit) :=
  r <- call RepoList;;
  match r with
  | Err err => Ret (Err (EWrap "failed to list torrents: " err ""))
  | Ok rows => restore_all rows
  end.

End service.

(** ** The wiring *)

Definition ctx_err : prog baseE (option error) := call CtxErr.

Definition wiring `{Env} (dataDir : string) : forall B, svcE B -> prog baseE B := fun B e =>
  match e in svcE B return prog baseE B with
  | EngAddMagnet uri => torrent.AddMagnet uri
  | EngAddFile c => torrent.AddFile c
  | EngRemove h d => torrent.Remove dataDir h d
  | EngSnapshot h => torrent.Snapshot h
  | EngFiles h => torrent.Files h
  | RepoCreate t => database.Create t
  | RepoGet h => database.Get h
  | RepoList => database.List
  | RepoDelete h => database.Delete h
  | RepoSetMetadata h n l => database.SetMetadata h n l
  | RepoSetBytesCompleted h b => database.SetBytesCompleted h b
  | RepoSetPaused h p => database.SetPaused h p
  | PiecesForget h => pieces.Forget h
  | LogErr m => call (LogError m)
  | CtxDoneErr => ctx_err
  end.

(** A service operation run on the world. *)
Definition run_service `{Env} {A} (dataDir : string) (p : prog svcE A) (w : world) : res A * world :=
  run base_handle (interp (wiring dataDir) p) w.
