(* ===== verification/Spec.v ===== *)
(** * What the service's dependencies promise

    The abstract state of the system as the service sees it and, for every
    interface call of [Service], what it may answer and change. The
    specification does not mention statements, handles or the schedule; the
    concrete engine and repositories implement it ([Backend]), and the
    service's theorems ([ServiceFacts]) are proved against it alone. *)

From S2P Require Import Prelude GoErrors Prog GoTime Infohash FilePath Url Magnet Bencode MetaInfo Sqlite World Database Pieces Engine Service.
From Stdlib Require Import ZArith Lia String.
From stdpp Require Import base gmap strings list sorting.

Local Open Scope Z_scope.

(** The managed torrents by the text of their hash, the torrents the engine
    tracks by their hash, the piece-completion table, its cache, the files. *)
Record view : Type := mkView {
  v_rows : gmap string database.Torrent;
  v_tracked : gmap Hash tobj;
  v_pieces : gmap (string * Z) bool;
  v_cache : gmap PieceKey bool;
  v_fs : path.fs;
}.

Definition set_rows v x := mkView x (v_tracked v) (v_pieces v) (v_cache v) (v_fs v).
Definition set_tracked v x := mkView (v_rows v) x (v_pieces v) (v_cache v) (v_fs v).
Definition set_pieces v x := mkView (v_rows v) (v_tracked v) x (v_cache v) (v_fs v).
Definition set_cache v x := mkView (v_rows v) (v_tracked v) (v_pieces v) x (v_fs v).
Definition set_fs v x := mkView (v_rows v) (v_tracked v) (v_pieces v) (v_cache v) x.

(** ** Row updates *)

Definition created_row (t : database.Torrent) (now : time) : database.Torrent :=
  database.mkTorrent (database.InfoHash t) (database.Magnet t) (database.Label t)
    (database.TargetDir t) false "" 0 0 now now.

Definition row_metadata (name : string) (len : Z) (now : time) (t : database.Torrent) :=
  database.mkTorrent (database.InfoHash t) (database.Magnet t) (database.Label t)
    (database.TargetDir t) (database.Paused t) name len (database.BytesCompleted t)
    (database.CreatedAt t) now.

Definition row_bytes (n : Z) (now : time) (t : database.Torrent) :=
  database.mkTorrent (database.InfoHash t) (database.Magnet t) (database.Label t)
    (database.TargetDir t) (database.Paused t) (database.Name t) (database.Length t) n
    (database.CreatedAt t) now.

Definition row_paused (p : bool) (now : time) (t : database.Torrent) :=
  database.mkTorrent (database.InfoHash t) (database.Magnet t) (database.Label t)
    (database.TargetDir t) p (database.Name t) (database.Length t) (database.BytesCompleted t)
    (database.CreatedAt t) now.

(** ** The engine *)

Definition progress_of (hash : string) (o : tobj) : torrent.Progress :=
  torrent.mkProgress hash (tname o) (tlength o) (tbytes o) (o_peers o) (o_seeders o).

(** What the engine knows of the torrent a text names. *)
Definition tracked_by (v : view) (hash : string) : option tobj :=
  match infohash.FromHexString hash with
  | Ok h => v_tracked v !! h
  | Err _ => None
  end.

(** The file system after removing each path. *)
Definition remove_data (paths : list string) (files : path.fs) : path.fs :=
  fold_left (fun fs p => snd (path.remove_all p fs)) paths files.

(** A torrent whose info is known and whose download was started. *)
Definition started (h : Hash) (o : tobj) : Prop :=
  h <> infohash.zero /\ o_hash o = h /\ is_Some (o_info o) /\ o_download o = true.

(** Whether statements may fail for reasons of the database's own, and whether
    adding to the torrent client may fail or its context end. With
    [sql_faults = false] every statement is executed, with
    [env_faults = false] every add of a torrent goes through. *)
Class Faults : Type := { sql_faults : bool; env_faults : bool }.

(** The pieces of [h] the client hashed, as the piece repository records them. *)
Definition store_pieces (h : Hash) (ps : list (Z * bool)) (v : view) : view :=
  mkView (v_rows v) (v_tracked v)
    (fold_left (fun m p => <[(infohash.HexString h, fst p) := snd p]> m) ps (v_pieces v))
    (fold_left (fun m p => <[(h, fst p) := snd p]> m) ps (v_cache v)) (v_fs v).

(** The state in which [h] is tracked as [o], or no longer tracked, after some
    of its pieces were hashed. *)
Definition tracking (h : Hash) (o : tobj) (ps : list (Z * bool)) (v : view) : view :=
  set_tracked (store_pieces h ps v) (<[h := o]> (v_tracked v)).
Definition untracking (h : Hash) (ps : list (Z * bool)) (v : view) : view :=
  set_tracked (store_pieces h ps v) (delete h (v_tracked v)).

Definition failed {A} (r : res (result A)) (v v' : view) : Prop :=
  exists err, r = Val (Err err) /\ foreign err /\ v' = v.

(** The hash a torrent is added under: the client panics when there is none. *)
Definition checked (h : Hash) : res (result Hash) :=
  if infohash.IsZero h then Panicked "zero value" else Val (Ok h).

(** The hash a magnet names: the text may be no magnet, and the parser or the
    client may panic. *)
Definition magnet_hash `{UrlEnv} `{Multihash} (uri : string) : res (result Hash) :=
  then_ok (metainfo.TorrentSpecFromMagnetUri uri) (fun sp => checked (metainfo.SInfoHash sp)).

(** The hash of a torrent file: its info dictionary may be none. *)
Definition file_hash `{Hashing} (mi : metafile.MetaInfo) : res (result Hash) :=
  match metafile.TorrentSpecFromMetaInfoErr mi with
  | Err e => Val (Err e)
  | Ok (_, ts) => checked (metainfo.SInfoHash (metafile.spec ts))
  end.

(** Adding a torrent by the hash: it is tracked and started, or the call fails
    and it is untouched or no longer tracked. *)
Definition add_spec `{Faults} (spec : res (result Hash)) (v : view) (r : res (result string)) (v' : view) : Prop :=
  match spec with
  | Panicked m => r = Panicked m /\ v' = v
  | Val (Err _) => failed r v v'
  | Val (Ok h) =>
      (exists o ps, started h o /\ r = Val (Ok (infohash.HexString h)) /\ v' = tracking h o ps v) \/
      (env_faults = true /\ exists err, r = Val (Err err) /\ foreign err /\
         (v' = v \/ exists ps, v' = untracking h ps v))
  end.

(** ** Torrent files *)

(** The info is taken, or it is known already. *)
Definition takes (h : Hash) (i : option info_set) (v : view) : Prop :=
  match i with
  | None | Some (InfoSet _) => True
  | _ => exists o, v_tracked v !! h = Some o /\ is_Some (o_info o)
  end.

(** The torrent is in the client as [o]; no row is. *)
Definition left_behind (h : Hash) (o : tobj) (v : view) : view :=
  set_tracked v (<[h := o]> (v_tracked v)).

(** The info is not taken. It is refused, and no more changes than the name of
    a torrent that waits for its info; or the client panics with the torrent in
    it, with an info or without. *)
Definition not_set {A} (h : Hash) (i : option info_set) (v : view) (r : res (result A)) (v' : view) : Prop :=
  match i with
  | None | Some (InfoSet _) => False
  | Some (InfoRefused _) =>
      (exists err, r = Val (Err err) /\ foreign err) /\
      (v' = v \/ exists o o', v_tracked v !! h = Some o /\ o_info o = None /\ o_info o' = None /\ v' = left_behind h o' v)
  | Some (InfoPanics m ci) =>
      r = Panicked m /\ exists o, o_hash o = h /\ o_info o = ci /\ v' = left_behind h o v
  end.

Section file.
Context `{Env}.

Definition file_takes (mi : metafile.MetaInfo) (v : view) : Prop :=
  exists i ts, metafile.TorrentSpecFromMetaInfoErr mi = Ok (i, ts) /\
    takes (metainfo.SInfoHash (metafile.spec ts)) (Some (setInfo i)) v.

Definition file_not_set {A} (mi : metafile.MetaInfo) (v : view) (r : res (result A)) (v' : view) : Prop :=
  exists i ts h, metafile.TorrentSpecFromMetaInfoErr mi = Ok (i, ts) /\ checked (metainfo.SInfoHash (metafile.spec ts)) = Val (Ok h) /\
    not_set h (Some (setInfo i)) v r v'.

Definition file_spec `{Faults} (mi : metafile.MetaInfo) (v : view) (r : res (result string)) (v' : view) : Prop :=
  (add_spec (file_hash mi) v r v' /\ forall s, r = Val (Ok s) -> file_takes mi v) \/ file_not_set mi v r v'.

End file.

Definition sql_failed `{Faults} {A} (r : res (result A)) (v v' : view) : Prop :=
  sql_faults = true /\ failed r v v'.

(** An update of one row that stamps it with the current time. *)
Definition update_spec `{Faults} (h : string) (f : time -> database.Torrent -> database.Torrent)
    (v : view) (r : res (result unit)) (v' : view) : Prop :=
  match v_rows v !! h with
  | Some row => exists now, r = Val (Ok tt) /\ v' = set_rows v (<[h := f now row]> (v_rows v))
  | None => r = Val (Err database.ErrTorrentNotFound) /\ v' = v
  end \/ sql_failed r v v'.

Section env.
Context `{Env} `{Faults} (dataDir : string).

Definition svc_spec : callspec svcE view := fun B e =>
  match e in svcE B return view -> res B -> view -> Prop with
  | EngAddMagnet uri => add_spec (magnet_hash uri)
  | EngAddFile c => fun v r v' =>
      match metafile.Load c bencode.EOF with
      | Ok mi => file_spec mi v r v'
      | Err _ => exists err, r = Val (Err err) /\ error_is err EngErrInvalidFile = true /\ v' = v
      end
  | EngRemove hash del => fun v r v' =>
      match infohash.FromHexString hash with
      | Err _ => failed r v v'
      | Ok h =>
          match v_tracked v !! h with
          | None => r = Val (Err torrent.ErrNotFound) /\ v' = v
          | Some o =>
              let v1 := set_tracked v (delete h (v_tracked v)) in
              if del && bool_decide (tname o <> "") then
                (r = Val (Ok tt) /\
                 v' = set_fs v1 (remove_data (torrent.data_paths dataDir (tname o)) (v_fs v))) \/
                (exists err fs', r = Val (Err err) /\ foreign err /\
                 fs' ⊆ v_fs v /\ v' = set_fs v1 fs')
              else r = Val (Ok tt) /\ v' = v1
          end
      end
  | EngSnapshot hash => fun v r v' =>
      v' = v /\
      match tracked_by v hash with
      | Some o => r = Val (Ok (progress_of hash o))
      | None => exists err, r = Val (Err err)
      end
  | EngFiles hash => fun v r v' =>
      v' = v /\
      match tracked_by v hash with
      | Some o =>
          match o_info o with
          | Some i => r = Val (Ok (i_files i))
          | None => exists m, r = Panicked m
          end
      | None => exists err, r = Val (Err err)
      end
  | RepoCreate t => fun v r v' =>
      match v_rows v !! database.InfoHash t with
      | None => exists now, r = Val (Ok tt) /\
          v' = set_rows v (<[database.InfoHash t := created_row t now]> (v_rows v))
      | Some _ => r = Val (Err database.ErrTorrentAlreadyExists) /\ v' = v
      end \/ sql_failed r v v'
  | RepoGet h => fun v r v' =>
      (v' = v /\
       r = Val (match v_rows v !! h with
                | Some row => Ok row
                | None => Err database.ErrTorrentNotFound
                end)) \/ sql_failed r v v'
  | RepoList => fun v r v' =>
      (exists l, r = Val (Ok l) /\ v' = v /\ l ≡ₚ (map_to_list (v_rows v)).*2 /\
         Sorted (fun a b => str_leb (formatTime (database.CreatedAt a))
                                    (formatTime (database.CreatedAt b)) = true) l)
      \/ sql_failed r v v'
  | RepoDelete h => fun v r v' =>
      match v_rows v !! h with
      | Some _ => r = Val (Ok tt) /\
          v' = set_pieces (set_rows v (delete h (v_rows v)))
                 (filter (fun kv => fst (fst kv) <> h) (v_pieces v))
      | None => r = Val (Err database.ErrTorrentNotFound) /\ v' = v
      end \/ sql_failed r v v'
  | RepoSetMetadata h n l => update_spec h (row_metadata n l)
  | RepoSetBytesCompleted h b => update_spec h (row_bytes b)
  | RepoSetPaused h p => update_spec h (row_paused p)
  | PiecesForget h => fun v r v' =>
      r = Val tt /\
      v' = set_cache v (filter (fun kv => infohash.HexString (fst (fst kv)) <> h) (v_cache v))
  | LogErr _ => fun v r v' => r = Val tt /\ v' = v
  | CtxDoneErr => fun v r v' =>
      v' = v /\ (r = Val None \/ env_faults = true /\ exists s, ctx_sentinel s = true /\ r = Val (Some (ESentinel s)))
  end.
End env.
