(* ===== verification/Backend.v ===== *)
(** * The components implement the specification

    [svc_spec] is what the service assumes; here the SQLite-backed repositories
    and the engine over the torrent client are shown to implement it on every
    world that satisfies [inv], whatever statement fails and whatever the
    environment does. *)

From S2P Require Import Prelude GoErrors Prog GoTime Infohash FilePath Url Info Magnet MagnetFacts Bencode MetaInfo MetaInfoFacts Sqlite World Database Pieces Engine Service Spec.
From Stdlib Require Import ZArith Lia String.
From stdpp Require Import base gmap strings list sorting.

Local Open Scope Z_scope.

(** ** What the environment is assumed to do *)

(** The laws of the code outside the repository: [net/url] and the multihash
    library have errors of their own, and SHA-1 has 20 bytes. *)
Class EnvLaws `{Env} : Prop := {
  env_magnet_errors :: MagnetErrors;
  sha1_valid s : infohash.valid (sha1_Sum s);
}.

Section backend.
Context `{Faults}.

(** A driver error that is neither one of the program's nor a uniqueness
    violation: those are answered by the tables themselves. There is one only
    when statements may fail. *)

Definition driver_error (e : error) : Prop :=
  foreign e /\ database.IsUniqueError e = false /\ sql_faults = true.

Definition opt_all {A} (P : A -> Prop) (o : option A) : Prop :=
  match o with Some a => P a | None => True end.

(** A failure of the torrent client or its context. *)
Definition client_error (e : error) : Prop := foreign e /\ env_faults = true.
Definition ctx_ended (s : sentinel) : Prop := ctx_sentinel s = true /\ env_faults = true.

Definition info_ok (ev : info_event) : Prop :=
  match ev with GotInfo _ => True | CtxDone s => ctx_ended s end.

Definition verify_ok (ev : verify_event) : Prop :=
  match ev with Verified _ _ => True | VerifyFailed e _ => client_error e end.

Record sched_ok (s : schedule) : Prop := {
  so_now : Forall valid_time (sc_now s);
  so_sql : Forall (opt_all driver_error) (sc_sql s);
  so_client : Forall (opt_all client_error) (sc_client s);
  so_info : Forall info_ok (sc_info s);
  so_verify : Forall verify_ok (sc_verify s);
  so_remove : Forall (opt_all foreign) (sc_remove s);
  so_ctx : Forall (opt_all ctx_ended) (sc_ctx s);
}.

(** ** The invariant of the world *)

Definition stamped (r : sqlite.torrent_row) : Prop :=
  exists c u, valid_time c /\ valid_time u /\
    sqlite.r_created_at r = formatTime c /\ sqlite.r_updated_at r = formatTime u.

Definition db_ok (d : sqlite.db) : Prop := sqlite.wf d /\ Forall stamped (sqlite.torrent d).

Definition objs_ok (objs : gmap nat tobj) (live : gmap Hash nat) : Prop :=
  forall h t, live !! h = Some t -> exists o, objs !! t = Some o /\ o_hash o = h.

Definition inv (w : world) : Prop :=
  db_ok (w_db w) /\ objs_ok (w_objs w) (w_live w) /\ sched_ok (w_sched w) /\ valid_time (w_time w).

(** ** The abstract state of a world *)

Definition row_time (s : string) : time :=
  match parse_rfc3339 s with Some t => t | None => zero_time end.

Definition to_torrent (r : sqlite.torrent_row) : database.Torrent :=
  database.mkTorrent (sqlite.r_info_hash r) (sqlite.r_magnet r) (sqlite.r_label r)
    (sqlite.r_target_dir r) (sqlite.r_is_paused r) (sqlite.r_name r) (sqlite.r_length r)
    (sqlite.r_bytes_completed r) (row_time (sqlite.r_created_at r))
    (row_time (sqlite.r_updated_at r)).

Definition rows_of (l : list sqlite.torrent_row) : gmap string database.Torrent :=
  list_to_map ((fun r => (sqlite.r_info_hash r, to_torrent r)) <$> l).

Definition tracked_of (objs : gmap nat tobj) (live : gmap Hash nat) : gmap Hash tobj :=
  omap (fun t => objs !! t) live.

Definition view_of (w : world) : view :=
  mkView (rows_of (sqlite.torrent (w_db w))) (tracked_of (w_objs w) (w_live w))
    (sqlite.piece_completion (w_db w)) (w_cache w) (w_fs w).

(** ** The tables *)

Lemma rows_of_lookup l h : rows_of l !! h = to_torrent <$> sqlite.find_row l h.
Proof.
  unfold rows_of. induction l as [|r l IH]; [done|].
  rewrite fmap_cons, list_to_map_cons. simpl sqlite.find_row.
  case_decide as E; [by rewrite <-E, lookup_insert_eq|by rewrite lookup_insert_ne].
Qed.

Lemma row_time_format t : valid_time t -> row_time (formatTime t) = t.
Proof. intros Ht. unfold row_time. by rewrite parse_rfc3339_format. Qed.

Lemma scan_stamped `{Env} r : stamped r -> database.scan r = Ok (to_torrent r).
Proof.
  intros (c & u & Hc & Hu & Ec & Eu). unfold database.scan, parseTimestamps, time_parse, to_torrent.
  by rewrite Ec, Eu, !parse_rfc3339_format, !row_time_format.
Qed.

Lemma find_row_stamped l h r : Forall stamped l -> sqlite.find_row l h = Some r -> stamped r.
Proof. intros Hl Hr. apply sqlite.find_row_Some in Hr as [Hr _]. by eapply Forall_forall in Hl. Qed.

Lemma rows_of_insert l r :
  sqlite.find_row l (sqlite.r_info_hash r) = None ->
  rows_of (l ++ [r]) = <[sqlite.r_info_hash r := to_torrent r]> (rows_of l).
Proof.
  intros Hr. apply map_eq. intros k. rewrite rows_of_lookup, sqlite.find_row_app.
  destruct (decide (sqlite.r_info_hash r = k)) as [<-|Hk].
  - rewrite Hr, lookup_insert_eq. simpl. by rewrite decide_True.
  - rewrite lookup_insert_ne, rows_of_lookup by done. simpl. rewrite decide_False by done.
    by destruct (sqlite.find_row l k).
Qed.

Lemma rows_of_delete h d :
  rows_of (sqlite.torrent (snd (sqlite.delete_where h d))) = delete h (rows_of (sqlite.torrent d)).
Proof.
  apply map_eq. intros k. rewrite sqlite.delete_torrent, rows_of_lookup, sqlite.find_row_filter.
  destruct (decide (k = h)) as [->|Hk]; [by rewrite lookup_delete_eq|].
  by rewrite lookup_delete_ne, rows_of_lookup.
Qed.

Lemma delete_where_count h d :
  sqlite.wf d ->
  fst (sqlite.delete_where h d) =
  match sqlite.find_row (sqlite.torrent d) h with Some _ => 1 | None => 0 end.
Proof.
  intros Hwf. unfold sqlite.delete_where. cbn [fst]. rewrite sqlite.filter_hit_length by done.
  by destruct (sqlite.find_row _ h).
Qed.

Lemma delete_where_pieces h d :
  sqlite.wf d ->
  sqlite.piece_completion (snd (sqlite.delete_where h d)) =
  match sqlite.find_row (sqlite.torrent d) h with
  | Some _ => filter (fun kv => fst (fst kv) <> h) (sqlite.piece_completion d)
  | None => sqlite.piece_completion d
  end.
Proof.
  intros Hwf. pose proof (sqlite.filter_hit_length (sqlite.torrent d) h Hwf) as Hlen.
  unfold sqlite.delete_where. cbn [snd]. rewrite sqlite.cascade_pieces with (h := h).
  - destruct (List.filter _ _) eqn:E; destruct (sqlite.find_row _ h); simpl in Hlen; done.
  - intros r Hr. apply sqlite.elem_of_filter_bool in Hr as [_ Hr]. by apply bool_decide_eq_true in Hr.
Qed.

Lemma update_where_count h f d :
  sqlite.wf d ->
  fst (sqlite.update_where h f d) =
  match sqlite.find_row (sqlite.torrent d) h with Some _ => 1 | None => 0 end.
Proof.
  intros Hwf. unfold sqlite.update_where. cbn [fst]. rewrite sqlite.filter_hit_length by done.
  by destruct (sqlite.find_row _ h).
Qed.

Lemma rows_of_update h f d :
  (forall r, sqlite.r_info_hash (f r) = sqlite.r_info_hash r) ->
  rows_of (sqlite.torrent (snd (sqlite.update_where h f d))) =
  match sqlite.find_row (sqlite.torrent d) h with
  | Some r => <[h := to_torrent (f r)]> (rows_of (sqlite.torrent d))
  | None => rows_of (sqlite.torrent d)
  end.
Proof.
  intros Hf. apply map_eq. intros k. unfold sqlite.update_where. cbn [snd sqlite.torrent].
  rewrite rows_of_lookup, sqlite.find_row_map by done.
  destruct (decide (k = h)) as [->|Hk].
  - destruct (sqlite.find_row (sqlite.torrent d) h) eqn:E.
    + by rewrite lookup_insert_eq.
    + by rewrite rows_of_lookup, E.
  - destruct (sqlite.find_row (sqlite.torrent d) h).
    + by rewrite lookup_insert_ne, rows_of_lookup.
    + by rewrite rows_of_lookup.
Qed.

Lemma update_stamped h f d :
  (forall r, stamped r -> stamped (f r)) ->
  Forall stamped (sqlite.torrent d) ->
  Forall stamped (sqlite.torrent (snd (sqlite.update_where h f d))).
Proof.
  intros Hf Hd. unfold sqlite.update_where. cbn [snd sqlite.torrent].
  apply Forall_forall. intros x Hx. apply list_elem_of_In, in_map_iff in Hx as (r & <- & Hr).
  apply list_elem_of_In in Hr. eapply Forall_forall in Hd; [|exact Hr]. case_bool_decide; auto.
Qed.

Lemma delete_stamped h d :
  Forall stamped (sqlite.torrent d) -> Forall stamped (sqlite.torrent (snd (sqlite.delete_where h d))).
Proof.
  intros Hd. rewrite sqlite.delete_torrent. apply Forall_forall. intros x Hx.
  apply sqlite.elem_of_filter_bool in Hx as [Hx _]. by eapply Forall_forall in Hd.
Qed.

(** ** The schedule

    Reading the schedule keeps the invariant and the abstract state. *)

Definition reads {A} (P : A -> Prop) (w : world) (p : A * world) : Prop :=
  P (fst p) /\ inv (snd p) /\ view_of (snd p) = view_of w /\ w_db (snd p) = w_db w /\
  w_objs (snd p) = w_objs w /\ w_live (snd p) = w_live w /\ w_fs (snd p) = w_fs w /\
  w_cache (snd p) = w_cache w.

Ltac solve_reads :=
  intros (Hd & Ho & [] & Ht); unfold reads; simpl;
  match goal with |- context [pop ?d ?l] => destruct l as [|x l']; simpl end;
  repeat match goal with H : Forall _ (_ :: _) |- _ => apply Forall_cons in H as [? ?] end;
  split_and!; try done; repeat split; simpl; try done; try apply Hd.

Lemma next_now_reads w : inv w -> reads valid_time w (next_now w).
Proof. unfold next_now. solve_reads. Qed.

Lemma next_sql_reads w : inv w -> reads (opt_all driver_error) w (next_sql w).
Proof. unfold next_sql. solve_reads. Qed.

Lemma next_client_reads w : inv w -> reads (opt_all client_error) w (next_client w).
Proof. unfold next_client. solve_reads. Qed.

Lemma next_info_reads w : inv w -> reads info_ok w (next_info w).
Proof. unfold next_info. solve_reads. Qed.

Lemma next_verify_reads w : inv w -> reads verify_ok w (next_verify w).
Proof. unfold next_verify. solve_reads. Qed.

Lemma next_remove_reads w : inv w -> reads (opt_all foreign) w (next_remove w).
Proof. unfold next_remove. solve_reads. Qed.

Lemma next_ctx_reads w :
  inv w -> reads (opt_all ctx_ended) w (next_ctx w).
Proof. unfold next_ctx. solve_reads. Qed.

(** ** Statements *)

Definition stamp (s : string) : Prop := exists t, valid_time t /\ s = formatTime t.

Definition stmt_ok (q : sqlite.stmt) : Prop :=
  match q with
  | sqlite.InsertTorrent _ _ _ _ _ c u => stamp c /\ stamp u
  | sqlite.UpdateMetadata _ _ u _ | sqlite.UpdateBytesCompleted _ u _
  | sqlite.UpdatePaused _ u _ => stamp u
  | _ => True
  end.

Lemma exec_stmt_db_ok q d : stmt_ok q -> db_ok d -> db_ok (snd (sqlite.exec_stmt q d)).
Proof.
  intros Hq [Hwf Hst]. split; [by apply sqlite.exec_stmt_wf|].
  destruct q as [h m l t p c u|h|n len u h|b u h|p u h|h i c]; cbn [sqlite.exec_stmt] in *.
  - destruct Hq as [(tc & ? & ->) (tu & ? & ->)].
    destruct (sqlite.find_row (sqlite.torrent d) h); [done|].
    apply Forall_app. split; [done|]. constructor; [|constructor]. unfold stamped; simpl. eauto 10.
  - pose proof (delete_stamped h d Hst) as Hdel. by destruct (sqlite.delete_where h d).
  - destruct Hq as (tu & ? & ->).
    pose proof (update_stamped h (sqlite.set_metadata n len (formatTime tu)) d) as Hup.
    destruct (sqlite.update_where _ _ d). apply Hup; [|done].
    intros r (c & u & ? & ? & ? & ?). exists c, tu. auto.
  - destruct Hq as (tu & ? & ->).
    pose proof (update_stamped h (sqlite.set_bytes_completed b (formatTime tu)) d) as Hup.
    destruct (sqlite.update_where _ _ d). apply Hup; [|done].
    intros r (c & u & ? & ? & ? & ?). exists c, tu. auto.
  - destruct Hq as (tu & ? & ->).
    pose proof (update_stamped h (sqlite.set_is_paused p (formatTime tu)) d) as Hup.
    destruct (sqlite.update_where _ _ d). apply Hup; [|done].
    intros r (c & u & ? & ? & ? & ?). exists c, tu. auto.
  - done.
Qed.

(** The abstract state after a statement that leaves the tables [d]. *)
Definition view_db (v : view) (d : sqlite.db) : view :=
  set_pieces (set_rows v (rows_of (sqlite.torrent d))) (sqlite.piece_completion d).

Lemma sql_exec_spec q w :
  stmt_ok q -> inv w ->
  let '(r, w') := sql_exec q w in
  inv w' /\
  ((exists err, r = Err err /\ driver_error err /\ view_of w' = view_of w) \/
   (r = fst (sqlite.exec_stmt q (w_db w)) /\
    view_of w' = view_db (view_of w) (snd (sqlite.exec_stmt q (w_db w))))).
Proof.
  intros Hq Hw. unfold sql_exec.
  pose proof (next_sql_reads w Hw) as (Hf & Hw1 & Ev & Ed & Eo & El & Efs & Ec).
  destruct (next_sql w) as [f w1]; simpl in *. destruct f as [e|].
  - split; [done|]. left. eauto.
  - rewrite Ed. pose proof (exec_stmt_db_ok q (w_db w) Hq) as Hd.
    destruct (sqlite.exec_stmt q (w_db w)) as [r d]; simpl in *.
    destruct Hw as (Hdb & _). destruct Hw1 as (_ & Ho & Hs & Ht).
    split; [by split_and!; auto|]. right. split; [done|].
    unfold view_of, view_db; simpl. by rewrite Eo, El, Ec, Efs.
Qed.

Lemma sql_query_spec {A} (q : sqlite.db -> A) w :
  inv w ->
  let '(r, w') := sql_query q w in
  inv w' /\ view_of w' = view_of w /\
  ((exists err, r = Err err /\ driver_error err) \/ r = Ok (q (w_db w))).
Proof.
  intros Hw. unfold sql_query.
  pose proof (next_sql_reads w Hw) as (Hf & Hw1 & Ev & Ed & _).
  destruct (next_sql w) as [f w1]; simpl in *. destruct f as [e|].
  - split_and!; eauto.
  - rewrite Ed. auto.
Qed.

Lemma view_db_same w : view_db (view_of w) (w_db w) = view_of w.
Proof. done. Qed.

Lemma rows_lookup w h :
  v_rows (view_of w) !! h = to_torrent <$> sqlite.find_row (sqlite.torrent (w_db w)) h.
Proof. apply rows_of_lookup. Qed.

(** ** The torrent client's objects *)

Lemma tracked_lookup objs live h : tracked_of objs live !! h = (live !! h) ≫= (fun t => objs !! t).
Proof. apply lookup_omap. Qed.

Lemma tracked_alter objs live h t o f :
  objs_ok objs live -> live !! h = Some t -> objs !! t = Some o ->
  tracked_of (alter f t objs) live = <[h := f o]> (tracked_of objs live).
Proof.
  intros Hok Hl Ho. apply map_eq. intros k. rewrite tracked_lookup.
  destruct (decide (k = h)) as [->|Hk].
  - rewrite Hl, lookup_insert_eq. simpl. by rewrite lookup_alter_eq, Ho.
  - rewrite lookup_insert_ne, tracked_lookup by done.
    destruct (live !! k) as [t'|] eqn:Hk'; [|done]. simpl. rewrite lookup_alter_ne; [done|].
    intros ->. destruct (Hok k t' Hk') as (o1 & Ho1 & <-). destruct (Hok h t' Hl) as (o2 & Ho2 & <-).
    congruence.
Qed.

Lemma tracked_delete objs live h :
  tracked_of objs (delete h live) = delete h (tracked_of objs live).
Proof.
  apply map_eq. intros k. rewrite tracked_lookup.
  destruct (decide (k = h)) as [->|Hk]; [by rewrite !lookup_delete_eq|].
  by rewrite !lookup_delete_ne, tracked_lookup.
Qed.

Lemma tracked_fresh objs live h t o :
  objs_ok objs live -> objs !! t = None ->
  tracked_of (<[t := o]> objs) (<[h := t]> live) = <[h := o]> (tracked_of objs live).
Proof.
  intros Hok Ht. apply map_eq. intros k. rewrite tracked_lookup.
  destruct (decide (k = h)) as [->|Hk].
  - rewrite !lookup_insert_eq. simpl. by rewrite lookup_insert_eq.
  - rewrite !lookup_insert_ne, tracked_lookup by done.
    destruct (live !! k) as [t'|] eqn:Hk'; [|done]. simpl. rewrite lookup_insert_ne; [done|].
    intros ->. destruct (Hok k t' Hk') as (o1 & Ho1 & _). congruence.
Qed.

Lemma objs_ok_alter objs live t f :
  (forall o, o_hash (f o) = o_hash o) -> objs_ok objs live -> objs_ok (alter f t objs) live.
Proof.
  intros Hf Hok k t' Hk. destruct (Hok k t' Hk) as (o & Ho & Hh).
  destruct (decide (t' = t)) as [->|Hne].
  - exists (f o). by rewrite lookup_alter_eq, Ho, Hf.
  - exists o. by rewrite lookup_alter_ne.
Qed.

Lemma objs_ok_delete objs live h : objs_ok objs live -> objs_ok objs (delete h live).
Proof. intros Hok k t Hk. apply lookup_delete_Some in Hk as [_ Hk]. by apply Hok. Qed.

Lemma objs_ok_fresh objs live h t o :
  o_hash o = h -> objs !! t = None -> objs_ok objs live ->
  objs_ok (<[t := o]> objs) (<[h := t]> live).
Proof.
  intros Hh Ht Hok k t' Hk. destruct (decide (k = h)) as [->|Hne].
  - rewrite lookup_insert_eq in Hk. injection Hk as <-. exists o. by rewrite lookup_insert_eq.
  - rewrite lookup_insert_ne in Hk by done. destruct (Hok k t' Hk) as (o' & Ho' & ?).
    exists o'. rewrite lookup_insert_ne; [done|]. congruence.
Qed.

(** The world in which the handle [t] is the tracked torrent [h], whose data is
    [o], and which otherwise looks like [v]. *)
Record holding (v : view) (h : Hash) (t : nat) (o : tobj) (w : world) : Prop := {
  ho_inv : inv w;
  ho_live : w_live w !! h = Some t;
  ho_obj : w_objs w !! t = Some o;
  ho_hash : o_hash o = h;
  ho_view : view_of w = set_tracked v (<[h := o]> (v_tracked v));
}.

Lemma holding_update v h t o w f :
  (forall o, o_hash (f o) = o_hash o) ->
  holding v h t o w -> holding v h t (f o) (update_obj t f w).
Proof.
  intros Hf [(Hd & Hok & Hs & Ht) Hl Ho Hh Hv]. constructor; simpl; try done.
  - split_and!; try done. by apply objs_ok_alter.
  - by rewrite lookup_alter_eq, Ho.
  - by rewrite Hf.
  - assert (v_tracked (view_of w) = <[h := o]> (v_tracked v)) as Htr by by rewrite Hv.
    unfold view_of in *; simpl in *. rewrite (tracked_alter _ _ h t o) by done.
    rewrite Htr, insert_insert_eq. destruct v; simpl in *. unfold set_tracked in *; simpl in *.
    congruence.
Qed.

Lemma holding_drop v h t o w :
  holding v h t o w ->
  inv (drop_torrent t w) /\ view_of (drop_torrent t w) = set_tracked v (delete h (v_tracked v)).
Proof.
  intros [(Hd & Hok & Hs & Ht) Hl Ho Hh Hv]. unfold drop_torrent. rewrite Ho, Hh, decide_True by done.
  split; [split_and!; simpl; try done; by apply objs_ok_delete|].
  assert (v_tracked (view_of w) = <[h := o]> (v_tracked v)) as Htr by by rewrite Hv.
  unfold view_of in *; simpl in *. rewrite tracked_delete, Htr.
  rewrite delete_insert_eq. unfold set_tracked in *; simpl in *. congruence.
Qed.

(** The pieces the client records are those of the torrent it hashes. *)
Lemma record_piece_spec h p w :
  inv w ->
  inv (record_piece h w p) /\ view_of (record_piece h w p) = store_pieces h [p] (view_of w) /\
  w_objs (record_piece h w p) = w_objs w /\ w_live (record_piece h w p) = w_live w.
Proof. intros ([Hwf Hst] & Ho & Hs & Ht). by split_and!. Qed.

Lemma holding_record v h t o w hashed :
  holding v h t o w -> holding (store_pieces h hashed v) h t o (record_pieces t hashed w).
Proof.
  intros Hh. unfold record_pieces. rewrite (ho_obj _ _ _ _ _ Hh), (ho_hash _ _ _ _ _ Hh).
  revert v w Hh. induction hashed as [|p hashed IH]; intros v w Hh; [by destruct v|].
  simpl. apply (IH (store_pieces h [p] v)). destruct Hh as [Hi Hl Ho Hh Hv].
  destruct (record_piece_spec h p w Hi) as (Hi' & Hv' & Ho' & Hl').
  constructor; [done|by rewrite Hl'|by rewrite Ho'|done|]. rewrite Hv', Hv. done.
Qed.

(** Reading the schedule does not change what the world holds. *)
Lemma holding_reads {A} (P : A -> Prop) v h t o w (p : A * world) :
  reads P w p -> holding v h t o w -> holding v h t o (snd p).
Proof.
  intros (_ & Hi & Ev & _ & Eo & El & _ & _) [_ Hl Ho Hh Hv]. constructor; congruence.
Qed.

(** A live handle is held. *)
Lemma holding_live w h t :
  inv w -> w_live w !! h = Some t ->
  exists o, holding (view_of w) h t o w /\ v_tracked (view_of w) !! h = Some o.
Proof.
  intros Hw Hl. pose proof Hw as (_ & Hok & _). destruct (Hok h t Hl) as (o & Ho & Hh).
  assert (v_tracked (view_of w) !! h = Some o) as Htr
    by (simpl; rewrite tracked_lookup, Hl; done).
  exists o. split; [|done]. constructor; try done.
  rewrite insert_id by done. by destruct w.
Qed.

(** A failed statement fails the method that ran it. *)
Lemma sql_failed_wrap {A} pre err v :
  foreign err -> sql_faults = true -> sql_failed (A := A) (Val (Err (EWrap pre err ""))) v v.
Proof. intros Herr Hf. split; [done|]. exists (EWrap pre err ""). eauto with torrents. Qed.

Section ops.
Context `{EnvLaws} (dataDir : string).

(** One call implements its specification. *)
Definition op_ok {B} (e : svcE B) : Prop :=
  forall w, inv w ->
  let '(r, w') := run base_handle (wiring dataDir B e) w in
  inv w' /\ svc_spec dataDir B e (view_of w) r (view_of w').

Lemma create_ok t : op_ok (RepoCreate t).
Proof.
  intros w Hw. cbn. unfold ok.
  pose proof (next_now_reads w Hw) as (Ht & Hw1 & Ev1 & Ed1 & _).
  destruct (next_now w) as [now w1]; cbn [fst snd] in *.
  set (q := sqlite.InsertTorrent _ _ _ _ _ _ _).
  pose proof (sql_exec_spec q w1) as Hq.
  destruct (sql_exec q w1) as [r w2]; cbn [fst snd].
  destruct Hq as [Hw2 Hq]; [by split; exists now|done|].
  rewrite Ev1 in Hq.
  destruct Hq as [(err & -> & (Herr & Huniq & Hf) & Ev2)|[Hr Ev2]].
  - rewrite Huniq. simpl. split; [done|]. right.
    rewrite Ev2. by apply sql_failed_wrap.
  - rewrite Ed1 in *. cbn [sqlite.exec_stmt q] in *.
    destruct (sqlite.find_row (sqlite.torrent (w_db w)) (database.InfoHash t)) eqn:Ef;
      cbn [fst snd] in *; subst r; cbn; rewrite rows_of_lookup, Ef.
    + split; [done|]. left. split; [done|]. by rewrite Ev2, view_db_same.
    + split; [done|]. left. exists now. split; [done|]. rewrite Ev2. unfold view_db; cbn [sqlite.torrent sqlite.piece_completion].
      rewrite rows_of_insert by done. unfold to_torrent at 1; cbn.
      by rewrite !row_time_format.
Qed.

Lemma get_ok h : op_ok (RepoGet h).
Proof.
  intros w Hw. cbn. unfold ok.
  pose proof (sql_query_spec (fun d => sqlite.query_torrent d h) w Hw) as Hq.
  destruct (sql_query _ w) as [r w1]; cbn [fst snd].
  destruct Hq as (Hw1 & Ev & [(err & -> & Herr & _ & Hf)| ->]); cbn.
  - split; [done|]. right. rewrite Ev. by apply sql_failed_wrap.
  - unfold sqlite.query_torrent.
    destruct (sqlite.find_row (sqlite.torrent (w_db w)) h) as [row|] eqn:Ef; cbn;
      (split; [done|]); left; (split; [done|]); rewrite rows_of_lookup, Ef; [|done].
    rewrite scan_stamped; [done|]. destruct Hw as ([_ Hst] & _). by eapply find_row_stamped.
Qed.

Lemma check_affected_run msg w (r : result Z) :
  run base_handle (database.check_affected msg r) w =
  (Val (match r with
        | Err err => Err (EWrap msg err "")
        | Ok n => if n =? 0 then Err database.ErrTorrentNotFound else Ok tt
        end), w).
Proof. destruct r as [n|err]; cbn; [|done]. by destruct (n =? 0). Qed.

Lemma delete_ok h : op_ok (RepoDelete h).
Proof.
  intros w Hw. cbn [wiring]. unfold database.Delete, call. cbn [pbind run base_handle]. unfold ok.
  pose proof (sql_exec_spec (sqlite.DeleteTorrent h) w I Hw) as Hq.
  destruct (sql_exec _ w) as [r w1]; cbn [fst snd].
  destruct Hq as [Hw1 Hq]. rewrite check_affected_run. split; [done|]. cbn [svc_spec].
  destruct Hq as [(err & -> & (Herr & _ & Hfl) & Ev)|[Hr Ev]]; [right; rewrite Ev; by apply sql_failed_wrap|].
  left. rewrite rows_lookup. destruct Hw as ([Hwf _] & _).
  cbn [sqlite.exec_stmt] in *.
  pose proof (delete_where_count h (w_db w) Hwf) as Hn.
  pose proof (delete_where_pieces h (w_db w) Hwf) as Hp.
  pose proof (rows_of_delete h (w_db w)) as Hrows.
  destruct (sqlite.delete_where h (w_db w)) as [n d]; cbn [fst snd] in *. subst r.
  rewrite Ev. unfold view_db. rewrite Hrows, Hp.
  destruct (sqlite.find_row (sqlite.torrent (w_db w)) h) eqn:Ef; subst n; cbn; [done|].
  split; [done|]. rewrite delete_id; [done|]. by rewrite rows_of_lookup, Ef.
Qed.

(** The three updates have one shape: read the clock, run an UPDATE of one
    row, look at the number of affected rows. *)
Lemma update_ok h (mk : string -> sqlite.stmt) (g : string -> sqlite.torrent_row -> sqlite.torrent_row)
    (f : time -> database.Torrent -> database.Torrent) msg w :
  (forall u, stamp u -> stmt_ok (mk u)) ->
  (forall u d, sqlite.exec_stmt (mk u) d =
     let '(n, d') := sqlite.update_where h (g u) d in (Ok n, d')) ->
  (forall u r, sqlite.r_info_hash (g u r) = sqlite.r_info_hash r) ->
  (forall now r, valid_time now -> to_torrent (g (formatTime now) r) = f now (to_torrent r)) ->
  inv w ->
  let '(r, w') := run base_handle
    (now <- call TimeNow;;
     r <- call (SqlExec (mk (formatTime now)));;
     database.check_affected msg r)%prog w in
  inv w' /\ update_spec h f (view_of w) r (view_of w').
Proof.
  intros Hmk Hexec Hg Hf Hw. unfold call. cbn [pbind run base_handle]. unfold ok.
  pose proof (next_now_reads w Hw) as (Ht & Hw1 & Ev1 & Ed1 & _).
  destruct (next_now w) as [now w1]; cbn [fst snd] in *.
  pose proof (sql_exec_spec (mk (formatTime now)) w1) as Hq.
  destruct (sql_exec _ w1) as [r w2]; cbn [fst snd].
  destruct Hq as [Hw2 Hq]; [by apply Hmk; exists now|done|].
  rewrite check_affected_run. split; [done|]. rewrite Ev1 in Hq. unfold update_spec.
  destruct Hq as [(err & -> & (Herr & _ & Hfl) & Ev)|[Hr Ev]]; [right; rewrite Ev; by apply sql_failed_wrap|].
  left. rewrite Ed1, Hexec in *. rewrite rows_lookup. destruct Hw as ([Hwf _] & _).
  pose proof (update_where_count h (g (formatTime now)) (w_db w) Hwf) as Hn.
  pose proof (rows_of_update h (g (formatTime now)) (w_db w) (Hg _)) as Hrows.
  assert (sqlite.piece_completion (snd (sqlite.update_where h (g (formatTime now)) (w_db w))) =
          sqlite.piece_completion (w_db w)) as Hp by done.
  destruct (sqlite.update_where h _ (w_db w)) as [n d]; cbn [fst snd] in *. subst r.
  rewrite Ev. unfold view_db. rewrite Hrows, Hp.
  destruct (sqlite.find_row (sqlite.torrent (w_db w)) h) as [row|] eqn:Ef; subst n; cbn; [|done].
  exists now. by rewrite Hf.
Qed.

Lemma to_torrent_eq h m l t p c u n len b h' m' l' t' p' c' u' n' len' b' :
  h = h' -> m = m' -> l = l' -> t = t' -> p = p' -> row_time c = c' -> row_time u = u' ->
  n = n' -> len = len' -> b = b' ->
  to_torrent (sqlite.mkRow h m l t p c u n len b) =
  database.mkTorrent h' m' l' t' p' n' len' b' c' u'.
Proof. by intros; subst. Qed.

Lemma set_metadata_ok h n len : op_ok (RepoSetMetadata h n len).
Proof.
  intros w Hw. apply (update_ok h (fun u => sqlite.UpdateMetadata n len u h)
    (sqlite.set_metadata n len)); try done.
  intros now r Hnow. apply to_torrent_eq; try done. by apply row_time_format.
Qed.

Lemma set_bytes_completed_ok h b : op_ok (RepoSetBytesCompleted h b).
Proof.
  intros w Hw. apply (update_ok h (fun u => sqlite.UpdateBytesCompleted b u h)
    (sqlite.set_bytes_completed b)); try done.
  intros now r Hnow. apply to_torrent_eq; try done. by apply row_time_format.
Qed.

Lemma set_paused_ok h p : op_ok (RepoSetPaused h p).
Proof.
  intros w Hw. apply (update_ok h (fun u => sqlite.UpdatePaused p u h)
    (sqlite.set_is_paused p)); try done.
  intros now r Hnow. apply to_torrent_eq; try done. by apply row_time_format.
Qed.

(** ** Listing *)

Lemma scan_rows_stamped l :
  Forall stamped l -> database.scan_rows l = Ok (map to_torrent l).
Proof.
  induction 1 as [|r l Hr Hl IH]; [done|]. cbn [database.scan_rows map].
  by rewrite scan_stamped, IH.
Qed.

Lemma rows_of_values l :
  NoDup (sqlite.r_info_hash <$> l) ->
  (map_to_list (rows_of l)).*2 ≡ₚ map to_torrent l.
Proof.
  intros Hnd. unfold rows_of. rewrite map_to_list_to_map.
  - rewrite <-list_fmap_compose. done.
  - by rewrite <-list_fmap_compose.
Qed.

Lemma list_ok : op_ok RepoList.
Proof.
  intros w Hw. cbn. unfold ok.
  pose proof (sql_query_spec sqlite.query_torrents w Hw) as Hq.
  destruct (sql_query _ w) as [r w1]; cbn [fst snd].
  destruct Hq as (Hw1 & Ev & [(err & -> & Herr & _ & Hf)| ->]); cbn.
  - split; [done|]. right. rewrite Ev. by apply sql_failed_wrap.
  - split; [done|]. left. destruct Hw as ([Hwf Hst] & _).
    set (leb := fun a b => str_leb (sqlite.r_created_at a) (sqlite.r_created_at b)).
    assert (Hsorted : Sorted (fun a b => leb a b = true) (sqlite.query_torrents (w_db w))).
    { apply isort_sorted. intros x y. apply str_leb_total. }
    assert (Hperm : sqlite.query_torrents (w_db w) ≡ₚ sqlite.torrent (w_db w))
      by apply isort_Permutation.
    assert (Hst' : Forall stamped (sqlite.query_torrents (w_db w))) by by rewrite Hperm.
    exists (map to_torrent (sqlite.query_torrents (w_db w))).
    split_and!; [by rewrite scan_rows_stamped|done|..].
    + cbn [v_rows view_of]. rewrite rows_of_values by done. by rewrite Hperm.
    + clear Hperm. induction Hsorted as [|a l Hs IH Hhd]; simpl; [constructor|].
      apply Forall_cons in Hst' as [Ha Hl]. constructor; [by apply IH|].
      destruct Hhd as [|b l Hab]; simpl; constructor.
      apply Forall_cons in Hl as [Hb _].
      destruct Ha as (ca & ? & Hca & _ & Eca & _), Hb as (cb & ? & Hcb & _ & Ecb & _).
      unfold leb in Hab. unfold to_torrent; cbn.
      rewrite Eca, Ecb in *. by rewrite !row_time_format.
Qed.

(** ** Adding a torrent *)

(** After the client has the torrent: the call ends with a started torrent or
    drops it. *)
Lemma start_ok v h t o w :
  h <> infohash.zero -> infohash.valid h -> holding v h t o w ->
  let '(r, w') := run base_handle (torrent.start t) w in
  inv w' /\ add_spec (Val (Ok h)) v r (view_of w').
Proof.
  intros Hz Hv Hh. unfold torrent.start, call. cbn [pbind run base_handle].
  unfold ok at 1, wait_got_info.
  pose proof (next_info_reads w (ho_inv _ _ _ _ _ Hh)) as Hr.
  pose proof (holding_reads _ _ _ _ _ _ _ Hr Hh) as Hh1. destruct Hr as [Hev _].
  destruct (next_info w) as [[i|s] w1]; cbn [fst snd] in *.
  2:{ cbn [pbind run base_handle]. unfold upd. cbn [run].
      pose proof (holding_drop _ _ _ _ _ Hh1) as [Hi Hw2]. split; [done|]. right.
      destruct Hev as [Hs Hf]. split; [done|]. exists (ESentinel s). rewrite Hw2.
      split_and!; [done|auto with torrents|right; exists []; by destruct v]. }
  cbn [pbind run base_handle]. unfold ok at 1, verify_data.
  pose proof (holding_update _ _ _ _ _ (set_info i) (fun _ => eq_refl) Hh1) as Hh2.
  pose proof (next_verify_reads _ (ho_inv _ _ _ _ _ Hh2)) as Hr.
  pose proof (holding_reads _ _ _ _ _ _ _ Hr Hh2) as Hh3. destruct Hr as [Hve _].
  destruct (next_verify _) as [[n ps|err ps] w2]; cbn [fst snd] in *;
    pose proof (holding_record _ _ _ _ _ ps Hh3) as Hh3'.
  2:{ cbn [pbind run base_handle]. unfold upd. cbn [run].
      pose proof (holding_drop _ _ _ _ _ Hh3') as [Hi Hw2]. split; [done|]. right.
      destruct Hve as [Hve Hf]. split; [done|].
      exists (EWrap "failed to verify torrent data: " err ""). rewrite Hw2. eauto 10 with torrents. }
  cbn [pbind run base_handle]. unfold upd at 1. cbn [run base_handle].
  pose proof (holding_update _ _ _ _ _ (set_bytes n) (fun _ => eq_refl) Hh3') as Hh4.
  pose proof (holding_update _ _ _ _ _ set_download (fun _ => eq_refl) Hh4) as Hh5.
  unfold with_obj. rewrite (ho_obj _ _ _ _ _ Hh5). cbn [run].
  split; [exact (ho_inv _ _ _ _ _ Hh5)|]. left.
  exists (set_download (set_bytes n (set_info i o))), ps.
  rewrite (ho_hash _ _ _ _ _ Hh5), (ho_view _ _ _ _ _ Hh5).
  split_and!; [|done|done]. split_and!; [done|exact (ho_hash _ _ _ _ _ Hh5)| |done].
  simpl. destruct (o_info o); eauto.
Qed.

Lemma merge_torrent_ok h dn i w :
  inv w ->
  let '(t, w') := merge_torrent h dn i w in
  exists o, holding (view_of w) h t o w' /\ (known_info h w = None -> o_info o = i).
Proof.
  intros Hw. unfold merge_torrent, known_info. destruct (w_live w !! h) as [t|] eqn:Hl.
  - destruct (holding_live w h t Hw Hl) as (o & Hh & _). exists (merge_spec dn i o).
    split; [by apply (holding_update _ _ _ o _ (merge_spec dn i))|].
    rewrite (ho_obj _ _ _ _ _ Hh). cbn [merge_spec o_info]. by intros ->.
  - set (t := fresh (dom (w_objs w))).
    assert (w_objs w !! t = None) as Ht by (apply not_elem_of_dom, is_fresh).
    destruct Hw as (Hd & Hok & Hs & Htm). exists (new_obj h dn i). split; [|done]. constructor; simpl.
    + split_and!; try done. by apply objs_ok_fresh.
    + by rewrite lookup_insert_eq.
    + by rewrite lookup_insert_eq.
    + done.
    + unfold view_of at 1; simpl. by rewrite tracked_fresh.
Qed.

(** What is known of a live torrent, in its view. *)
Lemma known_tracked h w : inv w -> known_info h w = v_tracked (view_of w) !! h ≫= o_info.
Proof.
  intros Hw. unfold known_info. destruct (w_live w !! h) as [t|] eqn:Hl.
  - destruct (holding_live w h t Hw Hl) as (o & Hh & ->). by rewrite (ho_obj _ _ _ _ _ Hh).
  - simpl. by rewrite tracked_lookup, Hl.
Qed.

Definition refusal_foreign (i : option info_set) : Prop := forall e, i = Some (InfoRefused e) -> foreign e.

Lemma client_add_ok h dn i w :
  inv w -> refusal_foreign i ->
  let '(r, w') := client_add h dn i w in
  inv w' /\
  ((exists t o, r = Val (Ok t) /\ holding (view_of w) h t o w' /\ takes h i (view_of w)) \/
   (exists err, r = Val (Err err) /\ client_error err /\ view_of w' = view_of w) \/
   not_set h i (view_of w) r (view_of w')).
Proof.
  intros Hw Hi. unfold client_add.
  pose proof (next_client_reads w Hw) as (Hf & Hw1 & Ev & _).
  destruct (next_client w) as [[e|] w1]; cbn [fst snd] in *; [split; [done|]; right; left; by exists e|].
  rewrite <-Ev. clear Ev Hw w. pose proof (known_tracked h w1 Hw1) as Hk.
  assert (forall ci, takes h i (view_of w1) ->
    let '(r, w') := (let '(t, w2) := merge_torrent h dn ci w1 in (Val (Ok t), w2)) in
    inv w' /\ ((exists t o, r = Val (Ok t) /\ holding (view_of w1) h t o w' /\ takes h i (view_of w1)) \/
      (exists err : error, r = Val (Err err) /\ client_error err /\ view_of w' = view_of w1) \/
      not_set h i (view_of w1) r (view_of w'))) as Hadd.
  { intros ci Ht. pose proof (merge_torrent_ok h dn ci w1 Hw1) as Hm. destruct (merge_torrent h dn ci w1) as [t w2].
    destruct Hm as (o & Hh & _). split; [exact (ho_inv _ _ _ _ _ Hh)|]. left. by exists t, o. }
  destruct (known_info h w1) as [i0|] eqn:Hki.
  { apply Hadd. unfold takes. destruct (v_tracked (view_of w1) !! h) as [o|]; [|done]. simpl in Hk.
    destruct i as [[]|]; eauto. }
  destruct i as [[ci|err|m ci]|]; [by apply Hadd| | |by apply Hadd].
  - pose proof (merge_torrent_ok h dn None w1 Hw1) as Hm. destruct (merge_torrent h dn None w1) as [t w2] eqn:Em. cbn [snd].
    destruct Hm as (o' & Hh & Ho'). destruct (w_live w1 !! h) as [t'|] eqn:Hl.
    + split; [exact (ho_inv _ _ _ _ _ Hh)|]. right; right. split; [eauto|]. right.
      destruct (holding_live w1 h t' Hw1 Hl) as (o & _ & Ho). rewrite Ho in Hk. exists o, o'.
      rewrite (ho_view _ _ _ _ _ Hh). split_and!; [done|done|by apply Ho'|done].
    + split; [done|]. right; right. split; [eauto|by left].
  - set (dn' := match _ with Some _ => dn | None => "" end).
    pose proof (merge_torrent_ok h dn' ci w1 Hw1) as Hm. destruct (merge_torrent h dn' ci w1) as [t w2]. cbn [snd].
    destruct Hm as (o & Hh & Ho). split; [exact (ho_inv _ _ _ _ _ Hh)|]. right; right. split; [done|].
    exists o. rewrite (ho_view _ _ _ _ _ Hh). split_and!; [exact (ho_hash _ _ _ _ _ Hh)|by apply Ho|done].
Qed.

Lemma checked_cases h :
  (h = infohash.zero /\ checked h = Panicked "zero value") \/ (h <> infohash.zero /\ checked h = Val (Ok h)).
Proof. unfold checked, infohash.IsZero. case_bool_decide; auto. Qed.

(** The client's answer to an add, and what [start] makes of it. *)
Lemma add_and_start h dn i wrap w :
  infohash.valid h -> inv w -> refusal_foreign i ->
  (forall e, foreign e -> foreign (wrap e)) ->
  let '(r, w') :=
    match add_torrent_opt h dn i w with
    | (Val (Ok t), w1) => run base_handle (torrent.start t) w1
    | (Val (Err e), w1) => (Val (Err (wrap e)), w1)
    | (Panicked m, w1) => (Panicked m, w1)
    end in
  inv w' /\
  ((add_spec (checked h) (view_of w) r (view_of w') /\ forall s, r = Val (Ok s) -> takes h i (view_of w)) \/
   checked h = Val (Ok h) /\ not_set h i (view_of w) r (view_of w')).
Proof.
  intros Hv Hw Hi Hwrap. unfold add_torrent_opt. unfold checked. destruct (infohash.IsZero h) eqn:Ez; [by split; [|left]|].
  unfold infohash.IsZero in Ez. apply bool_decide_eq_false in Ez.
  pose proof (client_add_ok h dn i w Hw Hi) as Hc. destruct (client_add h dn i w) as [r0 w1].
  destruct Hc as [Hw1 [(t & o & -> & Hh & Ht)|[(err & -> & Hce & Ev)|Hn]]].
  - pose proof (start_ok (view_of w) h t o w1) as Hs. destruct (run base_handle (torrent.start t) w1) as [r w'].
    destruct Hs as [Hw' Hs]; [done..|]. by split; [|left].
  - split; [done|]. left. split; [|done]. right. destruct Hce as [Hf He]. split; [done|]. exists (wrap err). rewrite Ev. auto.
  - destruct i as [[ci|e|m ci]|]; [done| | |done].
    + destruct Hn as [(err & -> & Hf) Hview]. split; [done|]. right. split; [done|]. split; [eauto|done].
    + destruct Hn as (-> & Ho). split; [done|]. right. by split.
Qed.

Lemma add_magnet_ok uri : op_ok (EngAddMagnet uri).
Proof.
  intros w Hw. cbn [wiring svc_spec]. unfold torrent.AddMagnet, call, magnet_hash. cbn [pbind run base_handle].
  destruct (metainfo.TorrentSpecFromMagnetUri uri) as [[sp|err]|m] eqn:Em; cbn [then_ok pbind run].
  - pose proof (add_and_start (metainfo.SInfoHash sp) (metainfo.SDisplayName sp) None
      (fun e => EWrap "failed to add magnet: " e "") w (spec_valid _ _ Em) Hw ltac:(done) ltac:(auto with torrents)) as Hc.
    destruct (add_torrent_opt _ _ _ w) as [[[t|e]|m] w1]; cbn [run] in *;
      [destruct (run base_handle (torrent.start t) w1)|..]; by destruct Hc as [? [[? _]|[_ []]]].
  - split; [done|]. exists (EWrap "failed to add magnet: " err "").
    apply spec_foreign in Em. eauto with torrents.
  - done.
Qed.

Lemma file_spec_valid mi i ts : metafile.TorrentSpecFromMetaInfoErr mi = Ok (i, ts) ->
  infohash.valid (metainfo.SInfoHash (metafile.spec ts)).
Proof.
  unfold metafile.TorrentSpecFromMetaInfoErr. destruct (metafile.as_result _) as [i'|]; [|done]. intros [= <- <-].
  cbn [metafile.spec metainfo.SInfoHash]. destruct (info.HasV1 i'); [apply sha1_valid|done].
Qed.

Lemma file_hash_valid mi h : file_hash mi = Val (Ok h) -> infohash.valid h /\ h <> infohash.zero.
Proof.
  unfold file_hash. destruct (metafile.TorrentSpecFromMetaInfoErr mi) as [[i ts]|] eqn:Em; [|done].
  destruct (checked_cases (metainfo.SInfoHash (metafile.spec ts))) as [[_ ->]|[Hz ->]]; [done|]. intros [= <-].
  split; [by eapply file_spec_valid|done].
Qed.

Lemma setInfo_foreign i : refusal_foreign (Some (setInfo i)).
Proof.
  intros e. unfold setInfo, validateInfo. repeat case_match; intros [= <-]; simplify_eq; apply foreign_wrap, foreign_opaque.
Qed.

Lemma add_file_ok c : op_ok (EngAddFile c).
Proof.
  intros w Hw. cbn [wiring svc_spec]. unfold torrent.AddFile, call.
  destruct (metafile.Load c bencode.EOF) as [mi|err]; cbn [pbind run base_handle]; [|by split; [|eexists]].
  unfold file_spec, file_hash, file_takes, file_not_set. destruct (metafile.TorrentSpecFromMetaInfoErr mi) as [[i ts]|err] eqn:Em.
  - pose proof (add_and_start (metainfo.SInfoHash (metafile.spec ts)) (metainfo.SDisplayName (metafile.spec ts)) (Some (setInfo i))
      (fun e => EWrap "failed to add torrent: " e "") w (file_spec_valid _ _ _ Em) Hw (setInfo_foreign i) ltac:(auto with torrents)) as Hc.
    destruct (add_torrent_opt _ _ _ w) as [[[t|e]|m] w1]; cbn [run] in *;
      [destruct (run base_handle (torrent.start t) w1)|..]; (destruct Hc as [? [[? ?]|[? ?]]]; (split; [done|]); [left|right]; eauto 10).
  - split; [done|]. left. split; [|done]. exists (EWrap "failed to add torrent: " err ""). apply foreign_spec_error in Em. eauto with torrents.
Qed.

(** ** Looking a torrent up *)

Lemma find_run hash w :
  run base_handle (torrent.find hash) w =
  (Val (match infohash.FromHexString hash with
        | Err err => Err (EWrap ("invalid info hash " +:+ quote hash +:+ ": ") err "")
        | Ok h => Ok (w_live w !! h)
        end), w).
Proof. unfold torrent.find. by destruct (infohash.FromHexString hash). Qed.

Lemma FromHexString_foreign s err : infohash.FromHexString s = Err err -> foreign err.
Proof.
  unfold infohash.FromHexString. case_bool_decide; [|intros [= <-]; eauto with torrents].
  clear. revert err. induction s as [s IH] using (induction_ltof1 _ String.length).
  intros err. destruct s as [|a [|b s]]; cbn [infohash.hex_decode]; [done|..].
  - destruct (infohash.hex_val a); intros [= <-]; apply foreign_opaque.
  - destruct (infohash.hex_val a); [|intros [= <-]; apply foreign_opaque].
    destruct (infohash.hex_val b); [|intros [= <-]; apply foreign_opaque].
    destruct (infohash.hex_decode s) as [|e] eqn:E; [done|]. intros [= <-].
    apply (IH s); [unfold ltof; simpl; lia|done].
Qed.

Lemma snapshot_ok hash : op_ok (EngSnapshot hash).
Proof.
  intros w Hw. cbn [wiring svc_spec]. unfold torrent.Snapshot. rewrite run_bind, find_run.
  unfold tracked_by. destruct (infohash.FromHexString hash) as [h|err]; cbn [run]; [|by eauto].
  destruct (w_live w !! h) as [t|] eqn:Hl.
  - destruct (holding_live w h t Hw Hl) as (o & Hh & Ho).
    unfold call. cbn [pbind run base_handle]. unfold with_obj.
    repeat (rewrite (ho_obj _ _ _ _ _ Hh); cbn [pbind run base_handle]).
    rewrite Ho. by split.
  - simpl. rewrite tracked_lookup, Hl. split_and!; [done|done|by eexists].
Qed.

Lemma map_file_id l :
  map (fun f => mkFileProgress (fp_path f) (fp_length f) (fp_bytes_completed f)) l = l.
Proof. induction l as [|[] l IH]; simpl; [done|]. by rewrite IH. Qed.

Lemma files_ok hash : op_ok (EngFiles hash).
Proof.
  intros w Hw. cbn [wiring svc_spec]. unfold torrent.Files. rewrite run_bind, find_run.
  unfold tracked_by. destruct (infohash.FromHexString hash) as [h|err]; cbn [run]; [|by eauto].
  destruct (w_live w !! h) as [t|] eqn:Hl.
  - destruct (holding_live w h t Hw Hl) as (o & Hh & Ho).
    unfold call. cbn [pbind run base_handle]. unfold with_obj, tfiles.
    rewrite (ho_obj _ _ _ _ _ Hh), Ho.
    destruct (o_info o); [by rewrite map_file_id|split_and!; [done|done|by eexists]].
  - simpl. rewrite tracked_lookup, Hl. split_and!; [done|done|by eexists].
Qed.

(** ** Removing a torrent's data *)

Lemma remove_all_subset p files : snd (path.remove_all p files) ⊆ files.
Proof.
  unfold path.remove_all. case_decide; [done|]. destruct (path.ends_with_dot p); [done|].
  simpl. intros f Hf. by apply elem_of_filter in Hf as [_ Hf].
Qed.

Lemma remove_all_foreign p files err : fst (path.remove_all p files) = Err err -> foreign err.
Proof.
  unfold path.remove_all. case_decide; [done|]. destruct (path.ends_with_dot p); [|done].
  intros [= <-]. apply foreign_opaque.
Qed.

Lemma remove_paths_ok paths w :
  inv w ->
  let '(r, w') := run base_handle (torrent.remove_paths paths) w in
  inv w' /\
  ((r = Val (Ok tt) /\ view_of w' = set_fs (view_of w) (remove_data paths (w_fs w))) \/
   (exists err fs', r = Val (Err err) /\ foreign err /\ fs' ⊆ w_fs w /\
      view_of w' = set_fs (view_of w) fs')).
Proof.
  revert w. induction paths as [|p paths IH]; intros w Hw; [by split; [|left]|].
  cbn [torrent.remove_paths]. unfold call. cbn [pbind run base_handle].
  unfold ok, os_remove_all.
  pose proof (next_remove_reads w Hw) as (Hf & Hw1 & Ev & _ & _ & _ & Efs & _).
  destruct (next_remove w) as [f w1]; cbn [fst snd] in *. destruct f as [e|].
  - cbn. split; [done|]. right. exists (EWrap "failed to remove torrent data: " e ""), (w_fs w).
    rewrite Ev. eauto with torrents.
  - pose proof (remove_all_subset p (w_fs w1)) as Hsub.
    pose proof (remove_all_foreign p (w_fs w1)) as Hfor.
    destruct (path.remove_all p (w_fs w1)) as [r fs] eqn:Er; cbn [fst snd] in *.
    assert (inv (with_fs w1 fs)) as Hw2 by done. rewrite Efs in *.
    assert (view_of (with_fs w1 fs) = set_fs (view_of w) fs) as Ev2 by (by rewrite <-Ev).
    destruct r as [[]|e]; cbn [fst snd].
    + specialize (IH _ Hw2). destruct (run base_handle _ (with_fs w1 fs)) as [r w3].
      destruct IH as [Hw3 IH]. split; [done|]. cbn [w_fs with_fs] in IH. rewrite Ev2 in IH.
      destruct IH as [[-> IH]|(err & fs' & -> & Herr & Hfs & IH)]; [left|right].
      * split; [done|]. rewrite IH. unfold remove_data; cbn [fold_left]. rewrite Er. done.
      * exists err, fs'. split_and!; [done|done|by transitivity fs|]. by rewrite IH.
    + cbn. split; [done|]. right. exists (EWrap "failed to remove torrent data: " e ""), fs.
      rewrite Ev2. eauto 10 with torrents.
Qed.

Lemma remove_ok hash del : op_ok (EngRemove hash del).
Proof.
  intros w Hw. cbn [wiring svc_spec]. unfold torrent.Remove. rewrite run_bind, find_run.
  destruct (infohash.FromHexString hash) as [h|err] eqn:Eh; cbn [run].
  2:{ split; [done|]. unfold failed. apply FromHexString_foreign in Eh. eauto with torrents. }
  destruct (w_live w !! h) as [t|] eqn:Hl.
  2:{ cbn [run]. simpl. by rewrite tracked_lookup, Hl. }
  destruct (holding_live w h t Hw Hl) as (o & Hh & Htr). rewrite Htr.
  unfold call. cbn [pbind run base_handle]. unfold with_obj. rewrite (ho_obj _ _ _ _ _ Hh).
  cbn [pbind run base_handle]. unfold upd. cbn [run].
  destruct (holding_drop _ _ _ _ _ Hh) as [Hi Hv].
  destruct (del && bool_decide (tname o <> "")); cbn [run]; [|done].
  pose proof (remove_paths_ok (torrent.data_paths dataDir (tname o)) _ Hi) as Hr.
  destruct (run base_handle _ (drop_torrent t w)) as [r w']. rewrite Hv in Hr.
  assert (w_fs (drop_torrent t w) = w_fs w) as Efs
    by (unfold drop_torrent; repeat case_match; done).
  rewrite Efs in Hr. destruct Hr as [Hi' Hr]. split; [done|].
  destruct Hr as [[-> ->]|(err & fs' & -> & ? & ? & ->)]; [by left|right; eauto 10].
Qed.

Lemma forget_ok h : op_ok (PiecesForget h).
Proof.
  intros w Hw. cbn. split; [done|]. split; [done|]. unfold view_of, set_cache; simpl.
  f_equal. apply map_filter_ext. intros k c _. unfold pieces.forget_match; simpl.
  rewrite bool_decide_eq_false. done.
Qed.

Lemma log_ok m : op_ok (LogErr m).
Proof. intros w Hw. cbn. done. Qed.

Lemma ctx_ok : op_ok CtxDoneErr.
Proof.
  intros w Hw. cbn. unfold ok.
  pose proof (next_ctx_reads w Hw) as (Hf & Hw1 & Ev & _).
  destruct (next_ctx w) as [[s|] w1]; cbn in *; [destruct Hf; eauto 10|auto].
Qed.

(** ** The refinement: the engine, the repositories and the cache, wired as
    server.go wires them, implement the specification the service relies on. *)
Lemma backend_implements :
  implements (fun B (e : svcE B) => run base_handle (wiring dataDir B e)) inv view_of
    (svc_spec dataDir).
Proof.
  intros B e. destruct e.
  - apply add_magnet_ok. - apply add_file_ok. - apply remove_ok. - apply snapshot_ok.
  - apply files_ok. - apply create_ok. - apply get_ok. - apply list_ok. - apply delete_ok.
  - apply set_metadata_ok. - apply set_bytes_completed_ok. - apply set_paused_ok.
  - apply forget_ok. - apply log_ok. - apply ctx_ok.
Qed.

(** Every run of a service program is an execution of the specification. *)
Lemma run_service_exec {A} (p : prog svcE A) w r w' :
  inv w -> run_service dataDir p w = (r, w') ->
  inv w' /\ exec (svc_spec dataDir) p (view_of w) r (view_of w').
Proof.
  intros Hw Hrun. unfold run_service in Hrun. rewrite run_interp in Hrun.
  by eapply run_refines; [apply backend_implements|..].
Qed.
End ops.
End backend.
