(* ===== verification/ServiceFacts.v ===== *)
(** * Theorems about the torrent service

    Every theorem is about [run_service], the service run with the concrete
    engine and repositories on a world, and speaks of the abstract state before
    and after ([view_of]). It is proved against [svc_spec] alone and carried to
    worlds by [run_service_exec]. *)

From S2P Require Import Prelude GoErrors Prog GoTime Infohash FilePath Url Magnet MagnetFacts Bencode MetaInfo Sqlite World Database Pieces Engine Service Spec Backend.
From Stdlib Require Import ZArith Lia String.
From stdpp Require Import base gmap strings list sorting.

Local Open Scope Z_scope.

(** A row is filed under its own hash. *)
Definition keyed (v : view) : Prop := map_Forall (fun h row => database.InfoHash row = h) (v_rows v).

Lemma view_of_keyed w : keyed (view_of w).
Proof.
  intros h row Hr. simpl in Hr. rewrite rows_of_lookup in Hr.
  destruct (sqlite.find_row _ h) as [r|] eqn:Ef; [|done]. injection Hr as <-.
  by apply sqlite.find_row_Some in Ef as [_ ?].
Qed.

(** The engine's snapshot of a torrent. *)
Definition snapshot_of (v : view) (hash : string) : option torrent.Progress :=
  progress_of hash <$> tracked_by v hash.

(** ** The programs against the specification *)

(** One call: the specification of the call is the hypothesis [Hc]. *)
Ltac wp_call Hc :=
  lazymatch goal with
  | |- wp _ (pbind _ _) _ _ => apply wp_bind
  | _ => idtac
  end;
  first [apply wp_vis; intros ? ? Hc; cbn [svc_spec] in Hc | fail];
  try (apply wp_ret).

Section specs.
Context `{Env} `{Faults} (dataDir : string).
Local Notation WP := (wp (svc_spec dataDir)).

Lemma wp_call {B C} (e : svcE B) (k : B -> prog svcE C) v (Q : res C -> view -> Prop) :
  (forall r v1, svc_spec dataDir B e v r v1 ->
     match r with Val b => WP (k b) v1 Q | Panicked m => Q (Panicked m) v1 end) ->
  WP (pbind (call e) k) v Q.
Proof. intros HQ. by apply wp_vis. Qed.

(** Reading a row. *)
Lemma wp_repo_get {C} h (k : result database.Torrent -> prog svcE C) v (Q : res C -> view -> Prop) :
  (forall row, v_rows v !! h = Some row -> WP (k (Ok row)) v Q) ->
  (v_rows v !! h = None -> WP (k (Err database.ErrTorrentNotFound)) v Q) ->
  (forall err, sql_faults = true -> foreign err -> WP (k (Err err)) v Q) ->
  WP (pbind (call (RepoGet h)) k) v Q.
Proof.
  intros H1 H2 H3. apply wp_call. cbn [svc_spec].
  intros r v1 [[-> ->]|(Hf & err & -> & Herr & ->)]; [|by apply H3].
  destruct (v_rows v !! h); auto.
Qed.

(** The engine's snapshot. *)
Lemma wp_snapshot {C} h (k : result torrent.Progress -> prog svcE C) v (Q : res C -> view -> Prop) :
  (forall s, (s = match snapshot_of v h with Some p => Ok p | None => s end) ->
     (snapshot_of v h = None -> is_ok s = false) -> WP (k s) v Q) ->
  WP (pbind (call (EngSnapshot h)) k) v Q.
Proof.
  intros H1. apply wp_call. cbn [svc_spec]. unfold snapshot_of in *.
  intros r v1 [-> Hr]. destruct (tracked_by v h); simpl in *; subst.
  - by apply H1.
  - destruct Hr as [err ->]. by apply H1.
Qed.

(** An update of a row. *)
Lemma wp_update {C} (e : svcE (result unit)) h f (k : result unit -> prog svcE C) v (Q : res C -> view -> Prop) :
  svc_spec dataDir _ e = update_spec h f ->
  (forall row now, v_rows v !! h = Some row ->
     WP (k (Ok tt)) (set_rows v (<[h := f now row]> (v_rows v))) Q) ->
  (v_rows v !! h = None -> WP (k (Err database.ErrTorrentNotFound)) v Q) ->
  (forall err, sql_faults = true -> foreign err -> WP (k (Err err)) v Q) ->
  WP (pbind (call e) k) v Q.
Proof.
  intros He H1 H2 H3. apply wp_call. rewrite He. unfold update_spec.
  intros r v1 [Hr|(Hf & err & -> & Herr & ->)]; [|by apply H3].
  destruct (v_rows v !! h) as [row|]; [destruct Hr as (now & -> & ->)|destruct Hr as [-> ->]]; auto.
Qed.

(** [torrent.Remove] tells a torrent it does not track by [ErrNotFound]. *)
Definition dropped (h : string) (v : view) : view :=
  match infohash.FromHexString h with
  | Ok hh => set_tracked v (delete hh (v_tracked v))
  | Err _ => v
  end.

(** The files left when the data of the torrent is removed with it. *)
Definition files_without (h : string) (v : view) : path.fs :=
  match tracked_by v h with
  | Some o =>
      if decide (tname o = "") then v_fs v
      else remove_data (torrent.data_paths dataDir (tname o)) (v_fs v)
  | None => v_fs v
  end.

Lemma dropped_untracked h v : tracked_by v h = None -> dropped h v = v.
Proof.
  unfold tracked_by, dropped. destruct (infohash.FromHexString h) as [hh|]; [|done].
  intros Hn. rewrite delete_id by done. by destruct v.
Qed.

Lemma wp_engine_remove {C} h (del : bool) (k : result unit -> prog svcE C) v (Q : res C -> view -> Prop) :
  (forall e : result unit, e = Ok tt \/ e = Err torrent.ErrNotFound -> is_ok (infohash.FromHexString h) = true ->
     WP (k e) (set_fs (dropped h v) (if del then files_without h v else v_fs v)) Q) ->
  (forall err, is_ok (infohash.FromHexString h) = false -> foreign err -> WP (k (Err err)) v Q) ->
  (forall err fs', del = true -> is_Some (tracked_by v h) -> foreign err -> fs' ⊆ v_fs v ->
     WP (k (Err err)) (set_fs (dropped h v) fs') Q) ->
  WP (pbind (call (EngRemove h del)) k) v Q.
Proof.
  intros H1 H2 H3. apply wp_call. cbn [svc_spec]. intros r v1.
  unfold files_without, dropped, tracked_by in *.
  destruct (infohash.FromHexString h) as [hh|]; [|intros (err & -> & ? & ->); by apply H2].
  destruct (v_tracked v !! hh) as [o|] eqn:Ht.
  - destruct del; simpl; [|intros [-> ->]; apply H1; auto].
    case_bool_decide as Hne.
    + rewrite decide_False in H1 by done. intros [[-> ->]|(err & fs' & -> & ? & ? & ->)]; [by apply H1; auto|by apply H3].
    + assert (tname o = "") as Hn by (destruct (decide (tname o = "")); [done|by exfalso]).
      rewrite decide_True in H1 by done. intros [-> ->]. apply H1; auto.
  - intros [-> ->]. rewrite delete_id in H1 by done.
    destruct v; destruct del; apply H1; auto.
Qed.

(** What a failed add leaves. *)
Definition add_failed (spec : res (result Hash)) (v v' : view) : Prop :=
  match spec with Val (Ok _) => env_faults = true | Val (Err _) => True | Panicked _ => False end /\
  (v' = v \/ exists hh ps, spec = Val (Ok hh) /\ v' = untracking hh ps v).

(** What an answer to an add is followed by. *)
Lemma add_spec_cases {C} spec (k : result string -> prog svcE C) v r v1 (Q : res C -> view -> Prop) :
  add_spec spec v r v1 ->
  (forall m, spec = Panicked m -> r = Panicked m -> Q (Panicked m) v) ->
  (forall hh o ps, spec = Val (Ok hh) -> started hh o -> r = Val (Ok (infohash.HexString hh)) ->
     WP (k (Ok (infohash.HexString hh))) (tracking hh o ps v) Q) ->
  (forall err v1, foreign err -> add_failed spec v v1 -> WP (k (Err err)) v1 Q) ->
  match r with Val b => WP (k b) v1 Q | Panicked m => Q (Panicked m) v1 end.
Proof.
  unfold add_spec, add_failed. intros Hr Hpanic H1 H2. destruct spec as [[hh|err']|m].
  - destruct Hr as [(o & ps & Ho & -> & ->)|(Hf & err & -> & Herr & Hv)]; [by auto|]. apply H2; [done|].
    split; [done|]. destruct Hv as [->|[ps ->]]; [by left|right; by exists hh, ps].
  - destruct Hr as (err & -> & Herr & ->). apply H2; [done|]. split; [done|by left].
  - destruct Hr as [-> ->]. auto.
Qed.

Lemma wp_add_magnet {C} uri (k : result string -> prog svcE C) v (Q : res C -> view -> Prop) :
  (forall m, magnet_hash uri = Panicked m -> Q (Panicked m) v) ->
  (forall hh o ps, magnet_hash uri = Val (Ok hh) -> started hh o ->
     WP (k (Ok (infohash.HexString hh))) (tracking hh o ps v) Q) ->
  (forall err v1, foreign err -> add_failed (magnet_hash uri) v v1 -> WP (k (Err err)) v1 Q) ->
  WP (pbind (call (EngAddMagnet uri)) k) v Q.
Proof. intros Hp H1 H2. apply wp_call. intros r v1 Hr. by eapply add_spec_cases; eauto. Qed.

(** ** The helpers of the service *)

(** What [persistMetadata] may leave: the name and length the engine knows,
    once it knows a name, unless the statement fails. *)
Definition metadata_saved (h : string) (v v' : view) : Prop :=
  match snapshot_of v h, v_rows v !! h with
  | Some p, Some row =>
      if decide (torrent.PName p = "") then v' = v
      else (exists now, v' = set_rows v
              (<[h := row_metadata (torrent.PName p) (torrent.PLength p) now row]> (v_rows v)))
           \/ (sql_faults = true /\ v' = v)
  | _, _ => v' = v
  end.

(** The same of [persistBytesCompleted]. *)
Definition bytes_saved (h : string) (v v' : view) : Prop :=
  match snapshot_of v h, v_rows v !! h with
  | Some p, Some row =>
      (exists now, v' = set_rows v
         (<[h := row_bytes (torrent.PBytesCompleted p) now row]> (v_rows v)))
      \/ (sql_faults = true /\ v' = v)
  | _, _ => v' = v
  end.

Definition ends (P : view -> view -> Prop) (v : view) (r : res unit) (v' : view) : Prop :=
  r = Val tt /\ P v v'.

Lemma wp_log m v (Q : res unit -> view -> Prop) : Q (Val tt) v -> WP (call (LogErr m)) v Q.
Proof. intros HQ. apply wp_vis. intros r v1 [-> ->]. by apply wp_ret. Qed.

Lemma persistMetadata_wp h v :
  WP (service.persistMetadata h) v (ends (metadata_saved h) v).
Proof.
  unfold service.persistMetadata. apply wp_snapshot. intros s Hs Hnone.
  destruct s as [p|err].
  - destruct (snapshot_of v h) as [p'|] eqn:Ep; [|by specialize (Hnone eq_refl)].
    injection Hs as ->. unfold ends, metadata_saved. rewrite Ep.
    case_decide as Hn.
    + apply wp_ret. split; [done|]. by destruct (v_rows v !! h).
    + apply (wp_update _ h (row_metadata (torrent.PName p') (torrent.PLength p'))); [done|..].
      * intros row now Hr. apply wp_ret. rewrite Hr. eauto.
      * intros Hr. apply wp_log. by rewrite Hr.
      * intros err Hf He. apply wp_log. destruct (v_rows v !! h); eauto.
  - apply wp_ret. split; [done|]. unfold metadata_saved. by destruct (snapshot_of v h).
Qed.

Lemma persistBytesCompleted_wp h v :
  WP (service.persistBytesCompleted h) v (ends (bytes_saved h) v).
Proof.
  unfold service.persistBytesCompleted. apply wp_snapshot. intros s Hs Hnone.
  destruct s as [p|err].
  - destruct (snapshot_of v h) as [p'|] eqn:Ep; [|by specialize (Hnone eq_refl)].
    injection Hs as ->. unfold ends, bytes_saved. rewrite Ep.
    apply (wp_update _ h (row_bytes (torrent.PBytesCompleted p'))); [done|..].
    + intros row now Hr. apply wp_ret. rewrite Hr. eauto.
    + intros Hr. apply wp_log. by rewrite Hr.
    + intros err Hf He. apply wp_log. destruct (v_rows v !! h); eauto.
  - apply wp_ret. split; [done|]. unfold bytes_saved. by destruct (snapshot_of v h).
Qed.

(** Whatever follows one of the two helpers runs on what it left. *)
Lemma wp_after {C} (p : prog svcE unit) P (k : unit -> prog svcE C) v (Q : res C -> view -> Prop) :
  WP p v (ends P v) -> (forall v1, P v v1 -> WP (k tt) v1 Q) -> WP (pbind p k) v Q.
Proof.
  intros Hp Hk. apply wp_bind. eapply wp_mono; [exact Hp|].
  intros r v1 [-> HP]. by apply Hk.
Qed.

(** ** Remove *)

Definition is_complete (v : view) (row : database.Torrent) : bool :=
  service.complete_of row
    (match snapshot_of v (database.InfoHash row) with
     | Some p => Ok p
     | None => Err torrent.ErrNotFound
     end).

(** The state after a torrent and everything kept about it is gone. *)
Definition removed (h : string) (delete_data : bool) (v : view) : view :=
  mkView (delete h (v_rows v)) (v_tracked (dropped h v))
    (filter (fun kv => fst (fst kv) <> h) (v_pieces v))
    (filter (fun kv => infohash.HexString (fst (fst kv)) <> h) (v_cache v))
    (if delete_data then files_without h v else v_fs v).

(** A failed removal: the rows, the piece table and its cache are as before,
    no file was created. *)
Definition kept (h : string) (v v' : view) : Prop :=
  v_rows v' = v_rows v /\ v_pieces v' = v_pieces v /\ v_cache v' = v_cache v /\
  v_fs v' ⊆ v_fs v /\ (v_tracked v' = v_tracked v \/ v_tracked v' = v_tracked (dropped h v)).

Definition Remove_post (h : string) (del : bool) (v : view) (r : res (result unit)) (v' : view) : Prop :=
  match v_rows v !! h with
  | None => r = Val (Err service.ErrTorrentNotFound) /\ v' = v
  | Some row =>
      let delete_data := del || negb (is_complete v row) in
      (r = Val (Ok tt) /\ is_ok (infohash.FromHexString h) = true /\ v' = removed h delete_data v) \/
      (exists err, r = Val (Err err) /\ foreign err /\ kept h v v' /\
         (sql_faults = true \/ is_ok (infohash.FromHexString h) = false \/
          (delete_data = true /\ is_Some (tracked_by v h))))
  end \/ (sql_faults = true /\ exists err, r = Val (Err err) /\ foreign err /\ v' = v).

Lemma kept_refl h v : kept h v v.
Proof. repeat split; auto. Qed.

Lemma kept_dropped h v fs' : fs' ⊆ v_fs v -> kept h v (set_fs (dropped h v) fs').
Proof. intros Hfs. unfold kept, dropped. destruct (infohash.FromHexString h); simpl; auto 10. Qed.

Lemma remove_data_subset paths files : remove_data paths files ⊆ files.
Proof.
  unfold remove_data. revert files. induction paths as [|p paths IH]; intros files; simpl; [done|].
  rewrite IH. apply remove_all_subset.
Qed.

Lemma files_without_subset h v : files_without h v ⊆ v_fs v.
Proof.
  unfold files_without. destruct (tracked_by v h); [|done].
  case_decide; [done|apply remove_data_subset].
Qed.

Lemma foreign_not e s : foreign e -> app_sentinel s = true -> error_is e s = false.
Proof. intros He Hs. by apply He. Qed.

Lemma dropped_rows h v : v_rows (dropped h v) = v_rows v.
Proof. unfold dropped. by destruct (infohash.FromHexString h). Qed.

Lemma dropped_pieces h v : v_pieces (dropped h v) = v_pieces v.
Proof. unfold dropped. by destruct (infohash.FromHexString h). Qed.

Lemma dropped_cache h v : v_cache (dropped h v) = v_cache v.
Proof. unfold dropped. by destruct (infohash.FromHexString h). Qed.

Lemma wp_isComplete {C} row (k : bool -> prog svcE C) v (Q : res C -> view -> Prop) :
  WP (k (is_complete v row)) v Q -> WP (pbind (service.isComplete row) k) v Q.
Proof.
  intros Hk. apply wp_bind, wp_snapshot. intros s Hs Hnone. apply wp_ret.
  replace (service.complete_of row s) with (is_complete v row); [done|].
  unfold is_complete. destruct (snapshot_of v _) as [p|]; [by rewrite Hs|].
  destruct s; [by specialize (Hnone eq_refl)|done].
Qed.

(** The second half, after the engine dropped the torrent and some of its
    files. *)
Lemma remove_row_wp h v fs' (Q : res (result unit) -> view -> Prop) row :
  v_rows v !! h = Some row ->
  Q (Val (Ok tt)) (set_fs (removed h false v) fs') ->
  (forall err, sql_faults = true -> foreign err -> Q (Val (Err err)) (set_fs (dropped h v) fs')) ->
  WP (service.remove_row h) (set_fs (dropped h v) fs') Q.
Proof.
  intros Hr HOk HErr. unfold service.remove_row. apply wp_call. cbn [svc_spec].
  intros r v2. cbn [v_rows set_fs]. rewrite dropped_rows, Hr.
  intros [[-> ->]|(Hf & err & -> & Herr & ->)].
  - apply wp_call. cbn [svc_spec]. intros r v2 [-> ->]. apply wp_ret.
    unfold removed, set_cache, set_pieces, set_rows, set_fs in *. simpl in *.
    by rewrite dropped_pieces, dropped_cache.
  - rewrite (foreign_not err) by done. apply wp_ret, HErr; auto with torrents.
Qed.

Lemma Remove_engine_wp h row d v (Q : res (result unit) -> view -> Prop) :
  v_rows v !! h = Some row ->
  (is_ok (infohash.FromHexString h) = true -> Q (Val (Ok tt)) (removed h d v)) ->
  (forall err v', foreign err -> kept h v v' ->
     sql_faults = true \/ is_ok (infohash.FromHexString h) = false \/
       (d = true /\ is_Some (tracked_by v h)) -> Q (Val (Err err)) v') ->
  WP (pbind (call (EngRemove h d)) (fun e =>
        match e with
        | Err err =>
            if error_is err EngErrNotFound then service.remove_row h
            else Ret (Err (EWrap "failed to remove torrent from engine: " err ""))
        | Ok _ => service.remove_row h
        end)) v Q.
Proof.
  intros Hr HOk HErr. apply wp_engine_remove.
  - intros e He Hhex.
    assert (WP (service.remove_row h) (set_fs (dropped h v) (if d then files_without h v else v_fs v)) Q) as Hrow.
    { apply (remove_row_wp _ _ _ _ row Hr).
      - by apply HOk.
      - intros err Hf Herr. apply HErr; [done| |by left].
        apply kept_dropped. destruct d; [apply files_without_subset|done]. }
    by destruct He as [-> | ->].
  - intros err Hhex Herr. rewrite (foreign_not err) by done.
    apply wp_ret, HErr; [auto with torrents|apply kept_refl|by right; left].
  - intros err fs' Hd Ht Herr Hfs. rewrite (foreign_not err) by done.
    apply wp_ret, HErr; [auto with torrents|by apply kept_dropped|by right; right].
Qed.

Lemma Remove_wp h del v : keyed v -> WP (service.Remove h del) v (Remove_post h del v).
Proof.
  intros Hk. unfold service.Remove. apply wp_repo_get.
  2:{ intros Hn. apply wp_ret. left. by rewrite Hn. }
  2:{ intros err Hf He. rewrite (foreign_not err) by done. apply wp_ret. right. eauto 10 with torrents. }
  intros row Hr. set (d := del || negb (is_complete v row)).
  assert (is_ok (infohash.FromHexString h) = true -> Remove_post h del v (Val (Ok tt)) (removed h d v)) as HOk
    by (intros Hhex; left; rewrite Hr; by left).
  assert (forall err v', foreign err -> kept h v v' ->
    sql_faults = true \/ is_ok (infohash.FromHexString h) = false \/
      (d = true /\ is_Some (tracked_by v h)) -> Remove_post h del v (Val (Err err)) v') as HErr
    by (intros err v' Herr Hkept Hwhy; left; rewrite Hr; right; eauto 10).
  pose proof (Remove_engine_wp h row d v (Remove_post h del v) Hr HOk HErr) as Hpost.
  destruct del; [exact Hpost|]. by apply wp_isComplete.
Qed.

(** ** Pause and Resume *)

Lemma wp_set_paused {C} h p (k : result unit -> prog svcE C) v (Q : res C -> view -> Prop) :
  (forall row now, v_rows v !! h = Some row ->
     WP (k (Ok tt)) (set_rows v (<[h := row_paused p now row]> (v_rows v))) Q) ->
  (v_rows v !! h = None -> WP (k (Err service.ErrTorrentNotFound)) v Q) ->
  (forall err, sql_faults = true -> foreign err -> WP (k (Err err)) v Q) ->
  WP (pbind (service.set_paused h p) k) v Q.
Proof.
  intros H1 H2 H3. apply wp_bind. unfold service.set_paused.
  apply (wp_update _ h (row_paused p)); [done|..].
  - intros row now Hr. apply wp_ret. by apply H1.
  - intros Hr. apply wp_ret. by apply H2.
  - intros err Hf Herr. rewrite (foreign_not err) by done. apply wp_ret. apply H3; auto with torrents.
Qed.

Lemma set_paused_wp h p v (Q : res (result unit) -> view -> Prop) :
  (forall row now, v_rows v !! h = Some row ->
     Q (Val (Ok tt)) (set_rows v (<[h := row_paused p now row]> (v_rows v)))) ->
  (v_rows v !! h = None -> Q (Val (Err service.ErrTorrentNotFound)) v) ->
  (forall err, sql_faults = true -> foreign err -> Q (Val (Err err)) v) ->
  WP (service.set_paused h p) v Q.
Proof.
  intros H1 H2 H3. unfold service.set_paused.
  apply (wp_update _ h (row_paused p)); [done|..].
  - intros row now Hr. apply wp_ret. by apply H1.
  - intros Hr. apply wp_ret. by apply H2.
  - intros err Hf Herr. rewrite (foreign_not err) by done. apply wp_ret. apply H3; auto with torrents.
Qed.

(** After the counter was saved, the torrent is dropped from the engine and
    its row is marked. *)
Definition Pause_post (h : string) (v : view) (r : res (result unit)) (v' : view) : Prop :=
  exists v1, bytes_saved h v v1 /\
  ((is_ok (infohash.FromHexString h) = true /\
    match v_rows v1 !! h with
    | Some row => exists now, r = Val (Ok tt) /\
        v' = set_rows (dropped h v1) (<[h := row_paused true now row]> (v_rows v1))
    | None => r = Val (Err service.ErrTorrentNotFound) /\ v' = dropped h v1
    end) \/
   (exists err, r = Val (Err err) /\ foreign err /\
      ((is_ok (infohash.FromHexString h) = false /\ v' = v1) \/
       (sql_faults = true /\ v' = dropped h v1)))).

Lemma set_fs_same v : set_fs v (v_fs v) = v.
Proof. by destruct v. Qed.

Lemma dropped_fs h v : v_fs (dropped h v) = v_fs v.
Proof. unfold dropped. by destruct (infohash.FromHexString h). Qed.

Lemma Pause_wp h v : WP (service.Pause h) v (Pause_post h v).
Proof.
  unfold service.Pause. eapply wp_after; [apply persistBytesCompleted_wp|].
  intros v1 Hv1. apply wp_engine_remove; [|intros err Hhex Herr|done].
  - intros e He Hhex. cbn [andb]. rewrite <-(dropped_fs h v1), set_fs_same.
    assert (WP (service.set_paused h true) (dropped h v1) (Pause_post h v)) as Hp.
    { apply set_paused_wp; rewrite ?dropped_rows.
      - intros row now Hr. exists v1. split; [done|]. left. rewrite Hr. eauto.
      - intros Hr. exists v1. split; [done|]. left. by rewrite Hr.
      - intros err Hf Herr. exists v1. split; [done|]. right. eauto 10. }
    by destruct He as [-> | ->].
  - rewrite (foreign_not err) by done. apply wp_ret. exists v1. split; [done|]. right.
    exists (EWrap "failed to remove torrent from engine: " err ""). auto 10 with torrents.
Qed.

(** The torrent of the row's magnet is tracked and started, and its metadata
    saved; or the row is marked as paused again; a row whose magnet has no hash
    makes the client panic. *)
Definition Resume_post (h : string) (v : view) (r : res (result unit)) (v' : view) : Prop :=
  match v_rows v !! h with
  | None => r = Val (Err service.ErrTorrentNotFound) /\ v' = v
  | Some row => exists now,
      let row1 := row_paused false now row in
      let v1 := set_rows v (<[h := row1]> (v_rows v)) in
      (exists hh o ps, magnet_hash (database.Magnet row) = Val (Ok hh) /\ started hh o /\
         r = Val (Ok tt) /\ metadata_saved (infohash.HexString hh) (tracking hh o ps v1) v') \/
      (exists err v2, r = Val (Err err) /\ foreign err /\
         add_failed (magnet_hash (database.Magnet row)) v1 v2 /\
         ((exists now', v' = set_rows v2 (<[h := row_paused true now' row1]> (v_rows v2))) \/
          (sql_faults = true /\ v' = v2))) \/
      (exists m, magnet_hash (database.Magnet row) = Panicked m /\ r = Panicked m /\ v' = v1)
  end \/ (sql_faults = true /\ exists err, r = Val (Err err) /\ foreign err /\ v' = v).

Definition rollback (h : string) (err : error) : prog svcE (result unit) :=
  pbind (call (RepoSetPaused h true)) (fun rb =>
  pbind (match rb with
         | Err rollbackErr =>
             call (LogErr ("failed to roll back pause state after resume failure: "
                           +:+ error_text rollbackErr))
         | Ok _ => Ret tt
         end) (fun _ => Ret (Err (EWrap "failed to re-add torrent to engine: " err "")))).

Lemma rollback_wp h err v row (Q : res (result unit) -> view -> Prop) :
  v_rows v !! h = Some row ->
  (forall now, Q (Val (Err (EWrap "failed to re-add torrent to engine: " err "")))
     (set_rows v (<[h := row_paused true now row]> (v_rows v)))) ->
  (sql_faults = true -> Q (Val (Err (EWrap "failed to re-add torrent to engine: " err ""))) v) ->
  WP (rollback h err) v Q.
Proof.
  intros Hr H1 H2. unfold rollback. apply (wp_update _ h (row_paused true)); [done|..].
  - intros row' now Hr'. rewrite Hr in Hr'. injection Hr' as <-. by apply wp_ret.
  - intros Hn. by rewrite Hr in Hn.
  - intros e Hf He. apply wp_bind, wp_log, wp_ret. by apply H2.
Qed.

Lemma Resume_wp h v : WP (service.Resume h) v (Resume_post h v).
Proof.
  unfold service.Resume. apply wp_repo_get.
  2:{ intros Hn. apply wp_ret. left. by rewrite Hn. }
  2:{ intros err Hf He. rewrite (foreign_not err) by done. apply wp_ret. right. eauto 10 with torrents. }
  intros row Hr. apply wp_set_paused.
  2:{ intros Hn. by rewrite Hr in Hn. }
  2:{ intros err Hf He. apply wp_ret. right. eauto 10. }
  intros row' now Hr'. rewrite Hr in Hr'. injection Hr' as <-.
  set (row1 := row_paused false now row). set (v1 := set_rows v _).
  assert (v_rows v1 !! h = Some row1) as Hr1 by apply lookup_insert_eq.
  apply wp_add_magnet.
  - intros m Em. left. rewrite Hr. exists now. right; right. eauto.
  - intros hh o ps Em Ho. eapply wp_after; [apply persistMetadata_wp|].
    intros v2 Hv2. apply wp_ret. left. rewrite Hr. exists now. left. by exists hh, o, ps.
  - intros err v2 Herr Hv2.
    assert (v_rows v2 !! h = Some row1) as Hr2
      by (by destruct Hv2 as [_ [->|(hh & ps & _ & ->)]]).
    apply (rollback_wp _ _ _ row1 _ Hr2); [intros now'|intros Hf]; left; rewrite Hr;
      exists now; right; left; eexists _, v2;
      (split; [done|]); (split; [auto with torrents|]); (split; [done|]); eauto.
Qed.

(** ** Reading *)

(** A managed torrent as the service reports it. *)
Definition live (v : view) (row : database.Torrent) : service.Torrent :=
  service.overlay row
    (match snapshot_of v (database.InfoHash row) with
     | Some p => Ok p
     | None => Err torrent.ErrNotFound
     end).

Lemma wp_hydrate {C} row (k : service.Torrent -> prog svcE C) v (Q : res C -> view -> Prop) :
  WP (k (live v row)) v Q -> WP (pbind (service.hydrate row) k) v Q.
Proof.
  intros Hk. apply wp_bind, wp_snapshot. intros s Hs Hnone. apply wp_ret.
  replace (service.overlay row s) with (live v row); [done|].
  unfold live. destruct (snapshot_of v _) as [p|]; [by rewrite Hs|].
  destruct s; [by specialize (Hnone eq_refl)|done].
Qed.

(** A statement failed: the operation reports it and nothing changed. *)
Definition query_failed {A} (r : res (result A)) : Prop :=
  sql_faults = true /\ exists err, r = Val (Err err) /\ foreign err.

Definition Get_post (h : string) (v : view) (r : res (result service.Torrent)) (v' : view) : Prop :=
  v' = v /\
  (r = Val (match v_rows v !! h with
            | Some row => Ok (live v row)
            | None => Err service.ErrTorrentNotFound
            end) \/ query_failed r).

Lemma Get_wp h v : WP (service.Get h) v (Get_post h v).
Proof.
  unfold service.Get. apply wp_repo_get.
  - intros row Hr. apply wp_hydrate, wp_ret. split; [done|]. left. by rewrite Hr.
  - intros Hr. apply wp_ret. split; [done|]. left. by rewrite Hr.
  - intros err Hf He. rewrite (foreign_not err) by done. apply wp_ret.
    split; [done|]. right. split; [done|]. eauto with torrents.
Qed.

Definition file_of (f : FileProgress) : service.File :=
  service.mkFile (fp_path f) (fp_length f) (fp_bytes_completed f).

(** The engine's answer for a managed torrent; a torrent whose info is not
    known yet has no file list and the client's method panics. *)
Definition Files_post (h : string) (v : view) (r : res (result (option (list service.File)))) (v' : view) : Prop :=
  v' = v /\
  (match v_rows v !! h with
   | None => r = Val (Err service.ErrTorrentNotFound)
   | Some _ =>
       match tracked_by v h with
       | None => r = Val (Ok None)
       | Some o =>
           match o_info o with
           | Some i => r = Val (Ok (Some (map file_of (i_files i))))
           | None => exists m, r = Panicked m
           end
       end
   end \/ query_failed r).

Lemma Files_wp h v : WP (service.Files h) v (Files_post h v).
Proof.
  unfold service.Files, Files_post. apply wp_repo_get.
  - intros row Hr. rewrite Hr. apply wp_call. cbn [svc_spec]. intros r v1 [-> Hf].
    destruct (tracked_by v h) as [o|].
    + destruct (o_info o); [subst r; by apply wp_ret; auto|]. destruct Hf as [m ->]. eauto.
    + destruct Hf as [err ->]. apply wp_ret. auto.
  - intros Hr. rewrite Hr. apply wp_ret. auto.
  - intros err Hf He. rewrite (foreign_not err) by done. apply wp_ret.
    split; [done|]. right. split; [done|]. eauto with torrents.
Qed.

Definition created_before (a b : database.Torrent) : Prop :=
  str_leb (formatTime (database.CreatedAt a)) (formatTime (database.CreatedAt b)) = true.

(** Every managed torrent once, in the order of the text of the creation
    time. *)
Definition List_post (v : view) (r : res (result (list service.Torrent))) (v' : view) : Prop :=
  v' = v /\
  ((exists rows, r = Val (Ok (map (live v) rows)) /\ rows ≡ₚ (map_to_list (v_rows v)).*2 /\
      Sorted created_before rows) \/ query_failed r).

Lemma hydrate_all_wp rows v :
  WP (service.hydrate_all rows) v (fun r v' => r = Val (map (live v) rows) /\ v' = v).
Proof.
  induction rows as [|row rows IH]; [by apply wp_ret|].
  cbn [service.hydrate_all]. apply wp_hydrate, wp_bind. eapply wp_mono; [exact IH|].
  intros r v1 [-> ->]. by apply wp_ret.
Qed.

Lemma List_wp v : WP service.List v (List_post v).
Proof.
  unfold service.List. apply wp_call. cbn [svc_spec].
  intros r v1 [(rows & -> & -> & Hperm & Hs)|(Hf & err & -> & Herr & ->)].
  - apply wp_bind. eapply wp_mono; [apply hydrate_all_wp|]. intros r v1 [-> ->].
    apply wp_ret. split; [done|]. left. by exists rows.
  - apply wp_ret. split; [done|]. right. split; [done|]. eauto with torrents.
Qed.

(** ** Adding *)

Definition persist_post (h magnet : string) (opts : service.AddOptions) (v : view)
    (r : res (result service.Torrent)) (v' : view) : Prop :=
  match v_rows v !! h with
  | Some _ => r = Val (Err service.ErrTorrentAlreadyExists) /\ v' = v
  | None => exists now,
      metadata_saved h
        (set_rows v (<[h := created_row (service.new_row h magnet opts) now]> (v_rows v))) v' /\
      Get_post h v' r v'
  end \/ (query_failed r /\ v' = v).

Lemma persist_wp h magnet opts v :
  WP (service.persist h magnet opts) v (persist_post h magnet opts v).
Proof.
  unfold service.persist. apply wp_call. cbn [svc_spec service.new_row database.InfoHash].
  unfold persist_post. intros r v1 [Hr|(Hf & err & -> & Herr & ->)].
  - destruct (v_rows v !! h) as [row|]; [destruct Hr as [-> ->]; apply wp_ret; auto|].
    destruct Hr as (now & -> & ->). eapply wp_after; [apply persistMetadata_wp|].
    intros v1 Hv1. eapply wp_mono; [apply Get_wp|]. intros r v2 Hg.
    pose proof Hg as [-> _]. left. eauto.
  - rewrite (foreign_not err) by done. apply wp_ret. right. split; [|done].
    split; [done|]. eauto with torrents.
Qed.

(** The add failed, or the client panicked for want of a hash. *)
Definition add_refused {A} (spec : res (result Hash)) (v : view) (r : res (result A)) (v' : view) : Prop :=
  (exists err, r = Val (Err err) /\ foreign err /\ add_failed spec v v') \/
  (exists m, spec = Panicked m /\ r = Panicked m /\ v' = v).

(** What an add leaves: the engine tracks the torrent and the row was
    created, or the add failed, or the client panicked for want of a hash. *)
Definition Add_post (spec : res (result Hash)) (magnet : Hash -> string) (opts : service.AddOptions) (v : view)
    (r : res (result service.Torrent)) (v' : view) : Prop :=
  (exists hh o ps, spec = Val (Ok hh) /\ started hh o /\
     persist_post (infohash.HexString hh) (magnet hh) opts (tracking hh o ps v) r v') \/
  add_refused spec v r v'.

Lemma AddMagnet_wp uri opts v :
  WP (service.AddMagnet uri opts) v (Add_post (magnet_hash uri) (fun _ => uri) opts v).
Proof.
  unfold service.AddMagnet. apply wp_add_magnet.
  - intros m Em. right; right. eauto.
  - intros hh o ps Em Ho. eapply wp_mono; [apply persist_wp|].
    intros r v' Hp. left. by exists hh, o, ps.
  - intros err v1 Herr Hv1. apply wp_ret. right; left. eauto with torrents.
Qed.

(** The same of a torrent file, when its info is taken; else what the client
    leaves of it. *)
Definition AddFile_post (c : string) (opts : service.AddOptions) (v : view)
    (r : res (result service.Torrent)) (v' : view) : Prop :=
  match metafile.Load c bencode.EOF with
  | Err _ => r = Val (Err service.ErrInvalidTorrentFile) /\ v' = v
  | Ok mi =>
      (file_takes mi v /\ Add_post (file_hash mi) (fun h => service.file_magnet (infohash.HexString h)) opts v r v') \/
      add_refused (file_hash mi) v r v' \/
      file_not_set mi v r v'
  end.

Lemma file_not_set_cases mi v (r : res (result string)) v' :
  file_not_set mi v r v' ->
  (exists err, r = Val (Err err) /\ foreign err /\
     forall err', foreign err' -> file_not_set mi v (Val (Err err') : res (result service.Torrent)) v') \/
  (exists m, r = Panicked m /\ file_not_set mi v (Panicked m : res (result service.Torrent)) v').
Proof.
  intros (i & ts & h & Hs & Hh & Hn). unfold file_not_set, not_set in *. destruct (setInfo i) as [ci|e|m ci] eqn:Ei; [done| |].
  - destruct Hn as [(err & -> & Hf) Hv]. left. exists err. split_and!; [done|done|]. intros err' Hf'. exists i, ts, h. rewrite Ei. eauto 10.
  - destruct Hn as (-> & Ho). right. exists m. split; [done|]. exists i, ts, h. rewrite Ei. eauto 10.
Qed.

Lemma AddFile_wp c opts v : WP (service.AddFile c opts) v (AddFile_post c opts v).
Proof.
  unfold service.AddFile. apply wp_call. cbn [svc_spec]. intros r v1.
  destruct (metafile.Load c bencode.EOF) as [mi|err] eqn:Em.
  - assert (forall r' v', (file_takes mi v /\ Add_post (file_hash mi) (fun h => service.file_magnet (infohash.HexString h)) opts v r' v') \/
      add_refused (file_hash mi) v r' v' \/ file_not_set mi v r' v' -> AddFile_post c opts v r' v') as Hpost
      by (intros r' v'; unfold AddFile_post; by rewrite Em).
    intros [[Hr Ht]|Hn].
    + apply (add_spec_cases _ _ _ _ _ _ Hr).
      * intros m Hm _. apply Hpost. right; left; right. eauto.
      * intros hh o ps Hh Ho ->. eapply wp_mono; [apply persist_wp|]. intros r' v' Hp. apply Hpost. left.
        split; [by eapply Ht|]. left. by exists hh, o, ps.
      * intros err v2 Herr Hv2. rewrite (foreign_not err) by done. apply wp_ret, Hpost. right; left; left. eauto with torrents.
    + apply file_not_set_cases in Hn as [(err & -> & Hf & Hn)|(m & -> & Hn)]; [|apply Hpost; by right; right].
      rewrite (foreign_not err) by done. apply wp_ret, Hpost. right; right. apply Hn. eauto with torrents.
  - intros (err' & -> & Hinv & ->). rewrite Hinv. apply wp_ret. unfold AddFile_post. by rewrite Em.
Qed.

(** ** Restore *)

(** One unpaused torrent: tracked and started with its metadata saved, or
    skipped. *)
Definition restored_row (row : database.Torrent) (v v' : view) : Prop :=
  add_failed (magnet_hash (database.Magnet row)) v v' \/
  exists hh o ps, magnet_hash (database.Magnet row) = Val (Ok hh) /\ started hh o /\
    metadata_saved (infohash.HexString hh) (tracking hh o ps v) v'.

Fixpoint restored (rows : list database.Torrent) (v v' : view) : Prop :=
  match rows with
  | [] => v' = v
  | row :: rows' =>
      if database.Paused row then restored rows' v v'
      else exists v1, restored_row row v v1 /\ restored rows' v1 v'
  end.

(** The result of a goroutine: nothing, or the end of the context. *)
Definition ctx_result (r : result unit) : Prop :=
  r = Ok tt \/ env_faults = true /\ exists s, ctx_sentinel s = true /\ r = Err (ESentinel s).

(** The row's magnet makes the parser or the client panic. *)
Definition no_hash (row : database.Torrent) : Prop := exists m, magnet_hash (database.Magnet row) = Panicked m.

Lemma restore_one_wp row v :
  WP (service.restore_one row) v
    (fun r v' => ((exists r', r = Val r' /\ ctx_result r') /\ restored_row row v v') \/
                 (no_hash row /\ (exists m, r = Panicked m) /\ v' = v)).
Proof.
  unfold service.restore_one, restored_row, ctx_result. apply wp_add_magnet.
  - intros m Em. right. split; [by exists m|]. eauto.
  - intros hh o ps Em Ho. eapply wp_after; [apply persistMetadata_wp|].
    intros v1 Hv1. apply wp_call. cbn [svc_spec]. intros r v2 [-> Hr].
    destruct Hr as [-> |(Hfe & s & Hs & ->)]; apply wp_ret; left;
      (split; [|by right; exists hh, o, ps]).
    + exists (Ok tt). auto.
    + exists (Err (ESentinel s)). split; [done|]. right. split; [done|]. by exists s.
  - intros err v1 Herr Hv1. apply wp_bind, wp_log, wp_ret. left.
    split; [exists (Ok tt); auto|by left].
Qed.

(** The restore of a list: all of it, or up to a row without a hash. *)
Definition restore_all_post (rows : list database.Torrent) (v : view) (r : res (result unit)) (v' : view) : Prop :=
  ((exists r', r = Val r' /\ ctx_result r') /\ restored rows v v') \/
  (exists pre row post, rows = pre ++ row :: post /\ database.Paused row = false /\ no_hash row /\
     (exists m, r = Panicked m) /\ restored pre v v').

Lemma restore_all_wp rows v : WP (service.restore_all rows) v (restore_all_post rows v).
Proof.
  revert v. induction rows as [|row rows IH]; intros v.
  - apply wp_ret. left. split; [|done]. exists (Ok tt). split; [done|by left].
  - cbn [service.restore_all]. destruct (database.Paused row) eqn:Hp.
    { eapply wp_mono; [apply IH|]. intros r v' [[Hr Hv]|(pre & row' & post & -> & Hp' & Hz & Hm & Hv)].
      - left. split; [done|]. cbn [restored]. by rewrite Hp.
      - right. exists (row :: pre), row', post. split_and!; try done. cbn [restored]. by rewrite Hp. }
    apply wp_bind. eapply wp_mono; [apply restore_one_wp|].
    intros r v1 [[(r1 & -> & Hr1) Hv1]|(Hz & [m ->] & ->)].
    2:{ right. exists [], row, rows. split_and!; try done. by eexists. }
    apply wp_bind. eapply wp_mono; [apply IH|].
    intros r v2 [[(r2 & -> & Hr2) Hv2]|(pre & row' & post & -> & Hp' & Hz & [m ->] & Hv2)].
    + apply wp_ret. left. split; [|cbn [restored]; rewrite Hp; by eauto].
      eexists. split; [done|]. by destruct r1.
    + right. exists (row :: pre), row', post. split_and!; try done; [by eexists|].
      cbn [restored]. rewrite Hp. eauto.
Qed.

Definition Restore_post (v : view) (r : res (result unit)) (v' : view) : Prop :=
  (exists rows, rows ≡ₚ (map_to_list (v_rows v)).*2 /\ restore_all_post rows v r v') \/
  (query_failed r /\ v' = v).

Lemma Restore_wp v : WP service.Restore v (Restore_post v).
Proof.
  unfold service.Restore. apply wp_call. cbn [svc_spec].
  intros r v1 [(rows & -> & -> & Hperm & _)|(Hf & err & -> & Herr & ->)].
  - eapply wp_mono; [apply restore_all_wp|]. intros r v' Hr. left. eauto.
  - apply wp_ret. right. split; [|done]. split; [done|]. eauto with torrents.
Qed.
End specs.
