(* ===== verification/Sample.v ===== *)
(** * A concrete environment

    An environment whose laws hold, schedules, and the worlds the witnesses
    run on. The worlds are reached from an empty one by running the service, so
    their invariant is a consequence of the refinement. *)

From S2P Require Import Prelude GoErrors Prog GoTime Infohash FilePath Url Info Magnet MagnetFacts Bencode MetaInfo Sqlite World Database Pieces Engine Service Spec Backend.
From Stdlib Require Import ZArith Lia Ascii String.
From stdpp Require Import base gmap strings list sorting.

Local Open Scope Z_scope.

Definition hashA : Hash := "AAAAAAAAAAAAAAAAAAAA".
Definition hashB : Hash := "jjjjjjjjjjjjjjjjjjjj".
Definition hexA : string := infohash.HexString hashA.
Definition hexB : string := infohash.HexString hashB.
Definition infoA : Info := mkInfo "debian" 4096 [mkFileProgress "debian/iso" 4096 0].

(** No authority is wrong. *)
Definition url0 : UrlEnv := {| parse_authority _ _ := None |}.

(** The encoding of a SHA2-256 multihash: its code, its length, the digest. *)
Definition multihash0 : Multihash := {|
  SHA2_256 := 18;
  mh_encode d code := String (ascii_of_N (Z.to_N code)) (String (ascii_of_nat (String.length d)) d);
  mh_decode b :=
    match b with
    | String c (String n d) =>
        if decide (nat_of_ascii n = String.length d)
        then Ok (mkMultihash (Z.of_N (N_of_ascii c)) (Z.of_nat (String.length d)) d)
        else Err (EOpaque "multihash length inconsistent")
    | _ => Err (EOpaque "multihash too short")
    end;
  mh_hex := infohash.HexString;
|}.

Lemma multihash_laws0 : @MultihashLaws multihash0.
Proof.
  constructor; cbn [mh_hex mh_decode mh_encode SHA2_256 multihash0].
  - apply hex_chars.
  - apply infohash.hex_decode_HexString.
  - intros d Hd. rewrite Hd. by rewrite decide_True.
Qed.

(** A .torrent file. *)
Definition torrent_text : string :=
  "d8:announce13:http://t/annc4:infod6:lengthi100e4:name4:arch12:piece lengthi100e6:pieces20:aaaaaaaaaaaaaaaaaaaaee".

(** Hashes of one value, RFC 3339 times only. *)
#[export] Instance env0 : Env := {|
  env_url := url0;
  env_multihash := multihash0;
  env_hashing := {| sha1_Sum _ := hashB; sha256_Sum _ := String.append hashB "jjjjjjjjjjjj" |};
  file_completed _ := 0;
  time_fallback s := Err (EOpaque "cannot parse");
|}.

#[export] Instance laws0 : EnvLaws.
Proof.
  constructor; [constructor|]; cbn [env_url env_multihash env_hashing sha1_Sum env0 url0 multihash0 parse_authority mh_decode].
  - done.
  - intros b e. destruct b as [|c [|n d]]; [intros [= <-]; apply foreign_opaque..|].
    case_decide; [done|]. intros [= <-]. apply foreign_opaque.
  - done.
Qed.

(** Nothing fails. *)
Definition reliable : Faults := {| sql_faults := false; env_faults := false |}.
(** Anything may fail. *)
Definition faulty : Faults := {| sql_faults := true; env_faults := true |}.

Definition noon (nsec : Z) : time := mkTime 2024 5 17 12 0 0 nsec.

(** A world without torrents. *)
Definition empty_world (files : path.fs) (s : schedule) : world :=
  mkWorld sqlite.empty_db Unlocked ∅ ∅ ∅ files [] (noon 0) s.

Lemma inv_empty_world `{Faults} files s : sched_ok s -> inv (empty_world files s).
Proof.
  intros Hs. split_and!; [|intros h t Ht; done|done|apply (bool_decide_unpack (valid_time _)); by vm_compute].
  split; [constructor|constructor].
Qed.

Definition dir : string := "data/downloads".

Definition after {A} (p : prog svcE A) (w : world) : world := snd (run_service dir p w).

Lemma inv_after `{Faults} {A} (p : prog svcE A) w : inv w -> inv (after p w).
Proof.
  intros Hw. unfold after. destruct (run_service dir p w) as [r w'] eqn:E.
  by destruct (run_service_exec dir p w r w' Hw E).
Qed.

(** The info of every torrent is known at once; nothing fails. *)
Definition calm : schedule :=
  mkSchedule [noon 510000000; noon 500000000] [] [] [GotInfo infoA; GotInfo infoA; GotInfo infoA; GotInfo infoA]
    [Verified 1024 [(0, true); (1, false)]; Verified 4096 [(1, true)]] [] [].

Lemma calm_ok `{Faults} : sched_ok calm.
Proof.
  constructor; cbn [calm sc_now sc_sql sc_client sc_info sc_verify sc_remove sc_ctx];
    repeat (apply Forall_cons; split); try apply Forall_nil; try done;
    apply (bool_decide_unpack (valid_time _)); by vm_compute.
Qed.

(** The downloads of the torrent [debian], among other files. *)
Definition disk : path.fs :=
  {[ (false, ["data"; "downloads"; "debian"; "iso"]); (false, ["data"; "downloads"; "other"]);
     (false, ["data"; "state.db"]) ]}.

Definition magnetA : string := service.file_magnet hexA.
Definition opts0 : service.AddOptions := service.mkAddOptions "linux" dir.

Definition world0 : world := empty_world disk calm.
(** [debian] was added. *)
Definition world1 : world := after (service.AddMagnet magnetA opts0) world0.
(** ... and paused. *)
Definition world2 : world := after (service.Pause hexA) world1.

Lemma inv_world0 `{Faults} : inv world0.
Proof. apply inv_empty_world, calm_ok. Qed.
Lemma inv_world1 `{Faults} : inv world1.
Proof. apply inv_after, inv_world0. Qed.
Lemma inv_world2 `{Faults} : inv world2.
Proof. apply inv_after, inv_world1. Qed.

(** The result of a run is its first component. *)
Lemma run_after {A} (p : prog svcE A) w r :
  fst (run_service dir p w) = r -> run_service dir p w = (r, after p w).
Proof. intros <-. unfold after. by destruct (run_service dir p w). Qed.

(** The environment in which a client call fails and the context of the next
    one ends. *)
Definition rough : schedule :=
  mkSchedule [noon 1] [None; Some (ESqlite 5 "database is locked")] [None; Some (EOpaque "closed")]
    [GotInfo infoA; CtxDone CtxCanceled] [VerifyFailed (EOpaque "i/o error") [(0, true)]] [Some (EOpaque "busy")]
    [Some CtxDeadlineExceeded].

Lemma rough_ok : @sched_ok faulty rough.
Proof.
  constructor; cbn [rough sc_now sc_sql sc_client sc_info sc_verify sc_remove sc_ctx];
    repeat (apply Forall_cons; split); try apply Forall_nil; try done;
    apply (bool_decide_unpack (valid_time _)); by vm_compute.
Qed.

(** The worlds with another schedule. *)
Lemma inv_with_sched `{Faults} w s : sched_ok s -> inv w -> inv (with_sched w s).
Proof. intros Hs (Hd & Ho & _ & Ht). by split_and!. Qed.

(** [debian] is paused and the client refuses torrents. *)
Definition refusing : schedule :=
  mkSchedule [noon 7] [] [Some (EOpaque "client is closed")] [] [] [] [].

Definition unreliable_client : Faults := {| sql_faults := false; env_faults := true |}.

Lemma refusing_ok : @sched_ok unreliable_client refusing.
Proof.
  constructor; cbn [refusing sc_now sc_sql sc_client sc_info sc_verify sc_remove sc_ctx];
    repeat (apply Forall_cons; split); try apply Forall_nil; try done;
    apply (bool_decide_unpack (valid_time _)); by vm_compute.
Qed.

Definition world2_refusing : world := with_sched world2 refusing.

(** The server restarted: the rows of [world1], nothing tracked. *)
Definition world_restarted : world :=
  with_live (with_sched world1 calm) ∅.

Lemma inv_world_restarted `{Faults} : inv world_restarted.
Proof.
  destruct inv_world1 as (Hd & _ & _ & Ht). split_and!; [done| |apply calm_ok|done].
  intros h t Hl. simpl in Hl. by rewrite lookup_empty in Hl.
Qed.
