(* ===== verification/ServiceTheorems.v ===== *)
(** * The service: what its operations guarantee

    The theorems of the torrent service on every world the invariant of
    [Backend] holds of, in every environment: whatever statement fails, whatever
    the torrent client does, whenever a context ends. *)

From S2P Require Import Prelude GoErrors Prog GoTime Infohash FilePath Url Info Magnet MagnetFacts Bencode MetaInfo Sqlite World Database Pieces Engine Service Spec Backend ServiceFacts Sample.
From Stdlib Require Import ZArith Lia String.
From stdpp Require Import base gmap strings list sorting.

Local Open Scope Z_scope.

(** A weakest-precondition fact about a service program, on worlds. *)
Lemma run_service_wp `{EnvLaws} `{Faults} {A} dataDir (p : prog svcE A) Q w r w' :
  wp (svc_spec dataDir) p (view_of w) Q -> inv w -> run_service dataDir p w = (r, w') ->
  Q r (view_of w').
Proof.
  intros Hp Hw Hrun. destruct (run_service_exec dataDir p w r w' Hw Hrun) as [_ Hex]. by apply Hp.
Qed.

Lemma checked_ok h hh : checked h = Val (Ok hh) -> hh = h /\ hh <> infohash.zero.
Proof. by destruct (checked_cases h) as [[_ ->]|[? ->]]; [|intros [= <-]]. Qed.

Lemma magnet_hash_valid `{Env} uri hh :
  magnet_hash uri = Val (Ok hh) -> infohash.valid hh /\ hh <> infohash.zero.
Proof.
  unfold magnet_hash. destruct (metainfo.TorrentSpecFromMagnetUri uri) as [[sp|]|] eqn:E; cbn [then_ok]; [|done|done].
  intros [-> ?]%checked_ok. split; [|done]. by eapply spec_valid.
Qed.

Section theorems.
Context `{EnvLaws} (dataDir : string).

Lemma Remove_ok `{Faults} h del w w' :
  inv w -> run_service dataDir (service.Remove h del) w = (Val (Ok tt), w') ->
  exists row, v_rows (view_of w) !! h = Some row /\
    view_of w' = removed dataDir h (del || negb (is_complete (view_of w) row)) (view_of w).
Proof.
  intros Hw Hrun.
  pose proof (run_service_wp _ _ _ _ _ _ (Remove_wp dataDir h del _ (view_of_keyed w)) Hw Hrun) as Hp.
  destruct Hp as [Hp|(_ & err & Hr & _)]; [|done].
  destruct (v_rows (view_of w) !! h) as [row|]; [|by destruct Hp].
  destruct Hp as [(_ & _ & Hv)|(err & Hr & _)]; [by exists row|done].
Qed.

Lemma removed_untracked h d v : tracked_by (removed dataDir h d v) h = None.
Proof.
  unfold tracked_by, removed, dropped. cbn [v_tracked]. destruct (infohash.FromHexString h) as [hh|] eqn:E; rewrite ?E; [|done].
  by apply lookup_delete_eq.
Qed.

(** C3. A successful [Remove] forgets the torrent everywhere: its row, its
    piece-completion rows and cache entries are gone and the engine no longer
    tracks it. Of the files, the data of the torrent is deleted when the caller
    asked for it or the torrent is incomplete, provided the engine tracks the
    torrent and knows its name; the files of a torrent that is not tracked, as
    one that is paused, all stay, whatever was asked. Nothing else changes. *)
Theorem Remove_forgets `{Faults} h del w w' :
  inv w -> run_service dataDir (service.Remove h del) w = (Val (Ok tt), w') ->
  exists row, v_rows (view_of w) !! h = Some row /\
    let delete_data := del || negb (is_complete (view_of w) row) in
    view_of w' = removed dataDir h delete_data (view_of w) /\
    tracked_by (view_of w') h = None /\
    v_fs (view_of w') =
      match tracked_by (view_of w) h with
      | Some o =>
          if delete_data && bool_decide (tname o <> "")
          then remove_data (torrent.data_paths dataDir (tname o)) (v_fs (view_of w))
          else v_fs (view_of w)
      | None => v_fs (view_of w)
      end.
Proof.
  intros Hw Hrun. destruct (Remove_ok _ _ _ _ Hw Hrun) as (row & Hr & Hv). exists row. split; [done|].
  cbn zeta. split; [done|]. rewrite Hv. split; [apply removed_untracked|].
  unfold removed, files_without. cbn [v_fs]. destruct (del || _), (tracked_by _ h) as [o|]; cbn [andb]; [|done..].
  by case_bool_decide; case_decide.
Qed.

(** C21. A [Remove] that reports an error leaves the torrent managed, so that
    it can be retried: rows, piece completion and cache are untouched and no
    file is created; [ErrTorrentNotFound] is reported only for a torrent that
    is not managed, and then nothing changed. It never panics. *)
Theorem Remove_failure_retries `{Faults} h del w r w' :
  inv w -> run_service dataDir (service.Remove h del) w = (r, w') -> r <> Val (Ok tt) ->
  exists err, r = Val (Err err) /\ kept h (view_of w) (view_of w') /\
    (error_is err SvcErrTorrentNotFound = true ->
     v_rows (view_of w) !! h = None /\ view_of w' = view_of w).
Proof.
  intros Hw Hrun Hne.
  pose proof (run_service_wp _ _ _ _ _ _ (Remove_wp dataDir h del _ (view_of_keyed w)) Hw Hrun) as Hp.
  destruct Hp as [Hp|(_ & err & -> & Herr & ->)].
  2:{ exists err. split_and!; [done|apply kept_refl|]. by rewrite (foreign_not err). }
  destruct (v_rows (view_of w) !! h) as [row|].
  - destruct Hp as [(-> & _)|(err & -> & Herr & Hk & _)]; [done|].
    exists err. split_and!; [done|done|]. by rewrite (foreign_not err).
  - destruct Hp as [-> ->]. eexists. split_and!; [done|apply kept_refl|done].
Qed.

(** When the database is available, removing a managed torrent succeeds
    unless its data has to be deleted while the engine tracks it. *)
Theorem Remove_succeeds `{Faults} h del w r w' row :
  sql_faults = false -> inv w -> run_service dataDir (service.Remove h del) w = (r, w') ->
  v_rows (view_of w) !! h = Some row -> is_ok (infohash.FromHexString h) = true ->
  (tracked_by (view_of w) h = None \/ (del = false /\ is_complete (view_of w) row = true)) ->
  r = Val (Ok tt).
Proof.
  intros Hf Hw Hrun Hr Hhex Hdata.
  pose proof (run_service_wp _ _ _ _ _ _ (Remove_wp dataDir h del _ (view_of_keyed w)) Hw Hrun) as Hp.
  destruct Hp as [Hp|(Hf' & _)]; [|congruence]. rewrite Hr in Hp.
  destruct Hp as [(-> & _)|(err & _ & _ & _ & [Hf'|[Hh|[Hd [o Ho]]]])]; [done|congruence..|].
  destruct Hdata as [Hn|[-> Hc]]; [by rewrite Hn in Ho|]. by rewrite Hc in Hd.
Qed.

(** The row [Pause] leaves: the counter the engine last reported and the
    mark, at the time of the second update. *)
Definition paused_row (v : view) (h : string) (now : time) (row : database.Torrent) : database.Torrent :=
  database.mkTorrent (database.InfoHash row) (database.Magnet row) (database.Label row)
    (database.TargetDir row) true (database.Name row) (database.Length row)
    (match snapshot_of v h with
     | Some p => torrent.PBytesCompleted p
     | None => database.BytesCompleted row
     end) (database.CreatedAt row) now.

Lemma Pause_ok `{Faults} h w r w' row :
  sql_faults = false -> inv w -> run_service dataDir (service.Pause h) w = (r, w') ->
  v_rows (view_of w) !! h = Some row -> is_ok (infohash.FromHexString h) = true ->
  r = Val (Ok tt) /\
  exists now, view_of w' =
    set_rows (dropped h (view_of w))
      (<[h := paused_row (view_of w) h now row]> (v_rows (view_of w))).
Proof.
  intros Hf Hw Hrun Hr Hhex.
  pose proof (run_service_wp _ _ _ _ _ _ (Pause_wp dataDir h (view_of w)) Hw Hrun) as Hp.
  destruct Hp as (v1 & Hb & [[_ Hp]|(err & _ & _ & [[Hh _]|[Hf' _]])]); [|congruence..].
  unfold bytes_saved in Hb. unfold paused_row. rewrite Hr in Hb.
  destruct (snapshot_of (view_of w) h) as [p|].
  - destruct Hb as [(now1 & ->)|[Hf' _]]; [|congruence].
    cbn [v_rows set_rows] in Hp. rewrite lookup_insert_eq in Hp.
    destruct Hp as (now & -> & ->). split; [done|]. exists now. rewrite insert_insert_eq.
    unfold dropped. by destruct (infohash.FromHexString h).
  - subst v1. rewrite Hr in Hp. destruct Hp as (now & -> & ->). split; [done|]. by exists now.
Qed.

(** C24. When the database is available, pausing a managed torrent succeeds:
    the engine drops it, its row is marked as paused and records the bytes
    the engine had completed; the files and every other torrent stay. *)
Theorem Pause_pauses `{Faults} h w r w' row :
  sql_faults = false -> inv w -> run_service dataDir (service.Pause h) w = (r, w') ->
  v_rows (view_of w) !! h = Some row -> is_ok (infohash.FromHexString h) = true ->
  r = Val (Ok tt) /\
  exists now, view_of w' =
    set_rows (dropped h (view_of w))
      (<[h := paused_row (view_of w) h now row]> (v_rows (view_of w))).
Proof. apply Pause_ok. Qed.

(** The engine reads a hash in either case, the repository only in its
    stored spelling: pausing by a spelling no row has reports
    [ErrTorrentNotFound] and yet drops the torrent from the engine, while its
    row stays as it was. *)
Theorem Pause_by_alias `{Faults} h hh w r w' :
  sql_faults = false -> inv w -> run_service dataDir (service.Pause h) w = (r, w') ->
  infohash.FromHexString h = Ok hh -> v_rows (view_of w) !! h = None ->
  r = Val (Err service.ErrTorrentNotFound) /\
  view_of w' = set_tracked (view_of w) (delete hh (v_tracked (view_of w))).
Proof.
  intros Hf Hw Hrun Hhex Hr.
  pose proof (run_service_wp _ _ _ _ _ _ (Pause_wp dataDir h (view_of w)) Hw Hrun) as Hp.
  destruct Hp as (v1 & Hb & [[_ Hp]|(err & _ & _ & [[Hh _]|[Hf' _]])]);
    [|by rewrite Hhex in Hh|congruence].
  unfold bytes_saved in Hb. rewrite Hr in Hb.
  assert (v1 = view_of w) as -> by by destruct (snapshot_of (view_of w) h).
  rewrite Hr in Hp. destruct Hp as [-> ->]. unfold dropped. by rewrite Hhex.
Qed.

(** C26. When nothing fails, resuming a managed torrent succeeds: the torrent
    its magnet names is tracked and started and its row is no longer marked as
    paused; the files, the piece completion and the rows of other torrents
    stay (the torrent of the magnet has its name and length recorded). *)
Theorem Resume_resumes `{Faults} h w r w' row hh :
  sql_faults = false -> env_faults = false -> inv w ->
  run_service dataDir (service.Resume h) w = (r, w') ->
  v_rows (view_of w) !! h = Some row -> magnet_hash (database.Magnet row) = Val (Ok hh) ->
  r = Val (Ok tt) /\
  exists o ps now, started hh o /\
    metadata_saved (infohash.HexString hh)
      (tracking hh o ps
        (set_rows (view_of w) (<[h := row_paused false now row]> (v_rows (view_of w)))))
      (view_of w').
Proof.
  intros Hf He Hw Hrun Hr Hm.
  pose proof (run_service_wp _ _ _ _ _ _ (Resume_wp dataDir h (view_of w)) Hw Hrun) as Hp.
  destruct Hp as [Hp|(Hf' & _)]; [|congruence]. rewrite Hr in Hp.
  destruct Hp as (now & [(hh' & o & ps & Hm' & Ho & -> & Hp)|[(err & v2 & _ & _ & [Hf' _] & _)|(m & Hm' & _)]]).
  - rewrite Hm in Hm'. injection Hm' as <-. split; [done|]. by exists o, ps, now.
  - rewrite Hm in Hf'. congruence.
  - congruence.
Qed.

(** When re-adding the torrent to the engine fails, [Resume] reports it
    and rolls the row back to paused (the database being available); a
    torrent that is not managed is reported as such and nothing changes. Only
    for a row whose magnet makes the parser or the client panic is there no
    report. *)
Theorem Resume_rolls_back `{Faults} h w r w' :
  sql_faults = false -> inv w -> run_service dataDir (service.Resume h) w = (r, w') ->
  r <> Val (Ok tt) ->
  match v_rows (view_of w) !! h with
  | None => r = Val (Err service.ErrTorrentNotFound) /\ view_of w' = view_of w
  | Some row => ~ no_hash row ->
      exists err now now' v1, r = Val (Err err) /\ foreign err /\
      add_failed (magnet_hash (database.Magnet row))
        (set_rows (view_of w) (<[h := row_paused false now row]> (v_rows (view_of w)))) v1 /\
      view_of w' = set_rows v1
        (<[h := row_paused true now' (row_paused false now row)]> (v_rows v1))
  end.
Proof.
  intros Hf Hw Hrun Hne.
  pose proof (run_service_wp _ _ _ _ _ _ (Resume_wp dataDir h (view_of w)) Hw Hrun) as Hp.
  destruct Hp as [Hp|(Hf' & _)]; [|congruence].
  destruct (v_rows (view_of w) !! h) as [row|]; [|done]. intros Hz.
  destruct Hp as (now & [(hh & o & ps & _ & _ & -> & _)|[(err & v1 & -> & Herr & Hadd & Hp)|(m & Hm & _)]]); [done| |by destruct Hz; exists m].
  destruct Hp as [(now' & Hv)|[Hf' _]]; [|congruence]. by exists err, now, now', v1.
Qed.

(** The row of a torrent that was just added. *)
Definition added_row `{Faults} (hh : Hash) (magnet : string) (opts : service.AddOptions) (o : tobj)
    (row : database.Torrent) : Prop :=
  database.InfoHash row = infohash.HexString hh /\ database.Magnet row = magnet /\
  database.Label row = service.OLabel opts /\ database.TargetDir row = service.OTargetDir opts /\
  database.Paused row = false /\ database.BytesCompleted row = 0 /\
  (sql_faults = false -> tname o <> "" ->
   database.Name row = tname o /\ database.Length row = tlength o).

(** The torrent [hh] is new, tracked and started, and has a row. *)
Definition added `{Faults} (hh : Hash) (magnet : string) (opts : service.AddOptions)
    (t : service.Torrent) (v v' : view) : Prop :=
  exists o ps row, started hh o /\ v_rows v !! infohash.HexString hh = None /\
    added_row hh magnet opts o row /\
    v' = tracking hh o ps (set_rows v (<[infohash.HexString hh := row]> (v_rows v))) /\
    t = live v' row.

Lemma tracked_by_hex v hh :
  infohash.valid hh -> tracked_by v (infohash.HexString hh) = v_tracked v !! hh.
Proof. intros Hv. unfold tracked_by. by rewrite infohash.FromHexString_HexString. Qed.

Lemma metadata_saved_added `{Faults} hh magnet opts o ps now v v' :
  infohash.valid hh ->
  metadata_saved (infohash.HexString hh)
    (set_rows (tracking hh o ps v)
      (<[infohash.HexString hh := created_row (service.new_row (infohash.HexString hh) magnet opts) now]> (v_rows v))) v' ->
  exists row, added_row hh magnet opts o row /\
    v' = tracking hh o ps (set_rows v (<[infohash.HexString hh := row]> (v_rows v))).
Proof.
  intros Hv. unfold metadata_saved, snapshot_of.
  rewrite tracked_by_hex by done. cbn [v_rows v_tracked set_rows set_tracked tracking].
  rewrite !lookup_insert_eq. cbn [fmap option_fmap option_map].
  case_decide as Hn; cbn [progress_of torrent.PName torrent.PLength] in *.
  - intros ->. eexists. split; [|done]. by split_and!.
  - intros [(now' & ->)|[Hf ->]].
    + eexists. split; [|unfold tracking, store_pieces, set_rows, set_tracked; simpl; by rewrite insert_insert_eq].
      by split_and!.
    + eexists. split; [|done]. split_and!; try done. congruence.
Qed.

Lemma Add_post_ok `{Faults} spec magnet opts v t v' :
  (forall hh, spec = Val (Ok hh) -> infohash.valid hh) ->
  Add_post spec magnet opts v (Val (Ok t)) v' ->
  exists hh, spec = Val (Ok hh) /\ added hh (magnet hh) opts t v v'.
Proof.
  intros Hvalid [(hh & o & ps & Hs & Ho & Hp)|[(err & Hr & _)|(m & _ & Hr & _)]]; [|done|done].
  exists hh. split; [done|].
  destruct Hp as [Hp|[[_ (err & Hr & _)] _]]; [|done]. cbn [v_rows tracking store_pieces set_tracked] in Hp.
  destruct (v_rows v !! infohash.HexString hh) eqn:Hrow; [by destruct Hp|].
  destruct Hp as (now & Hm & _ & Hg).
  apply metadata_saved_added in Hm as (row & Hadd & ->); [|by apply Hvalid].
  destruct Hg as [Hg|[_ (err & Hr & _)]]; [|done].
  cbn [v_rows set_rows tracking store_pieces set_tracked] in Hg.
  rewrite lookup_insert_eq in Hg. injection Hg as ->. by exists o, ps, row.
Qed.

Lemma AddMagnet_ok `{Faults} uri opts w t w' :
  inv w -> run_service dataDir (service.AddMagnet uri opts) w = (Val (Ok t), w') ->
  exists hh, magnet_hash uri = Val (Ok hh) /\ added hh uri opts t (view_of w) (view_of w').
Proof.
  intros Hw Hrun.
  pose proof (run_service_wp _ _ _ _ _ _ (AddMagnet_wp dataDir uri opts (view_of w)) Hw Hrun) as Hp.
  apply Add_post_ok in Hp as (hh & Hm & Ha); [by exists hh|]. by intros ? [? _]%magnet_hash_valid.
Qed.

(** C27. A successful [AddMagnet] adds exactly one torrent, the one the magnet
    names: it was not managed before, the engine tracks it with its info known
    and the download started, and its row carries the magnet and the options;
    the caller gets that row with the engine's live state. *)
Theorem AddMagnet_adds `{Faults} uri opts w t w' :
  inv w -> run_service dataDir (service.AddMagnet uri opts) w = (Val (Ok t), w') ->
  exists hh, magnet_hash uri = Val (Ok hh) /\ added hh uri opts t (view_of w) (view_of w').
Proof. apply AddMagnet_ok. Qed.

Lemma AddFile_ok `{Faults} c opts w mi t w' :
  inv w -> run_service dataDir (service.AddFile c opts) w = (Val (Ok t), w') -> metafile.Load c bencode.EOF = Ok mi ->
  file_takes mi (view_of w) /\
  exists hh, file_hash mi = Val (Ok hh) /\
    added hh ("magnet:?xt=urn:btih:" +:+ infohash.HexString hh) opts t (view_of w) (view_of w').
Proof.
  intros Hw Hrun Hmi.
  pose proof (run_service_wp _ _ _ _ _ _ (AddFile_wp dataDir c opts (view_of w)) Hw Hrun) as Hp.
  unfold AddFile_post in Hp. rewrite Hmi in Hp.
  destruct Hp as [[Ht Hp]|[[(err & Hr & _)|(m & _ & Hr & _)]|Hn]]; [|done|done|].
  - split; [done|]. apply Add_post_ok in Hp as (hh & Hm & Ha); [by exists hh|]. by intros ? [? _]%file_hash_valid.
  - destruct Hn as (i & ts & h & _ & _ & Hn). unfold not_set in Hn. destruct (setInfo i); [done|by destruct Hn as [(? & ? & _) _]|by destruct Hn].
Qed.

(** What is known of a file whose info dictionary was decoded. *)
Lemma spec_of_file mi i :
  metafile.as_result (metafile.UnmarshalInfo mi) = Ok i ->
  exists ts, metafile.TorrentSpecFromMetaInfoErr mi = Ok (i, ts) /\
    metainfo.SInfoHash (metafile.spec ts) = (if info.HasV1 i then sha1_Sum (metafile.InfoBytes mi) else infohash.zero).
Proof. intros Hi. unfold metafile.TorrentSpecFromMetaInfoErr, metafile.HashInfoBytes. rewrite Hi. eauto. Qed.

Lemma file_hash_is mi i :
  metafile.as_result (metafile.UnmarshalInfo mi) = Ok i ->
  file_hash mi = checked (if info.HasV1 i then sha1_Sum (metafile.InfoBytes mi) else infohash.zero).
Proof. intros Hi. destruct (spec_of_file mi i Hi) as (ts & Hs & Hh). unfold file_hash. by rewrite Hs, Hh. Qed.

(** A file whose info dictionary is none fails to be added. *)
Lemma AddFile_no_info `{Faults} c opts w r w' mi err :
  inv w -> run_service dataDir (service.AddFile c opts) w = (r, w') ->
  metafile.Load c bencode.EOF = Ok mi -> metafile.as_result (metafile.UnmarshalInfo mi) = Err err ->
  (exists e, r = Val (Err e) /\ foreign e) /\ view_of w' = view_of w.
Proof.
  intros Hw Hrun Hmi Herr.
  pose proof (run_service_wp _ _ _ _ _ _ (AddFile_wp dataDir c opts (view_of w)) Hw Hrun) as Hp.
  unfold AddFile_post in Hp. rewrite Hmi in Hp.
  assert (exists e, metafile.TorrentSpecFromMetaInfoErr mi = Err e) as [e He]
    by (unfold metafile.TorrentSpecFromMetaInfoErr; rewrite Herr; eauto).
  assert (file_hash mi = Val (Err e)) as Hh by (unfold file_hash; by rewrite He).
  destruct Hp as [[(i & ts & Hs & _) _]|[[(e' & -> & Hf & [_ Hv])|(m & Hm & _)]|(i & ts & h & Hs & _)]]; try congruence.
  split; [by eauto|]. destruct Hv as [Hv|(hh & ps & Hm & _)]; [done|congruence].
Qed.

(** C28. [AddFile] of a torrent file adds exactly one torrent, under the SHA-1
    of the bytes of the info dictionary the file has, and stores the canonical
    magnet of that hash, so that the torrent can be resumed without the file;
    the client has taken the info, unless it knew one. Data that is not a
    .torrent file is refused as such; a file whose info dictionary does not
    decode is a failed add; neither changes anything. *)
Theorem AddFile_adds `{Faults} c opts w r w' :
  inv w -> run_service dataDir (service.AddFile c opts) w = (r, w') ->
  match metafile.Load c bencode.EOF with
  | Err _ => r = Val (Err service.ErrInvalidTorrentFile) /\ view_of w' = view_of w
  | Ok mi =>
      match metafile.as_result (metafile.UnmarshalInfo mi) with
      | Err _ => (exists e, r = Val (Err e) /\ foreign e) /\ view_of w' = view_of w
      | Ok i => forall t, r = Val (Ok t) ->
          let hh := sha1_Sum (metafile.InfoBytes mi) in
          info.HasV1 i = true /\ takes hh (Some (setInfo i)) (view_of w) /\
          added hh ("magnet:?xt=urn:btih:" +:+ infohash.HexString hh) opts t (view_of w) (view_of w')
      end
  end.
Proof.
  intros Hw Hrun. destruct (metafile.Load c bencode.EOF) as [mi|err] eqn:Emi.
  2:{ pose proof (run_service_wp _ _ _ _ _ _ (AddFile_wp dataDir c opts (view_of w)) Hw Hrun) as Hp.
      unfold AddFile_post in Hp. by rewrite Emi in Hp. }
  destruct (metafile.as_result (metafile.UnmarshalInfo mi)) as [i|err] eqn:Ei; [|by eapply AddFile_no_info].
  intros t -> hh. destruct (AddFile_ok _ _ _ _ _ _ Hw Hrun Emi) as [(i' & ts' & Hs' & Ht) (h' & Hh & Ha)].
  destruct (spec_of_file mi i Ei) as (ts & Hs & Hts). rewrite Hs in Hs'. injection Hs' as <- <-. rewrite Hts in Ht.
  rewrite (file_hash_is mi i Ei) in Hh. apply checked_ok in Hh as [-> Hz].
  by destruct (info.HasV1 i).
Qed.

(** C29. A file whose info the client does not take, when the torrent is not in
    the client: when the info is refused the add fails and nothing changes; when
    the client panics, the torrent stays in the client without a row. *)
Theorem AddFile_bad_info `{Faults} c opts w r w' mi i :
  env_faults = false -> inv w -> run_service dataDir (service.AddFile c opts) w = (r, w') ->
  metafile.Load c bencode.EOF = Ok mi -> metafile.as_result (metafile.UnmarshalInfo mi) = Ok i ->
  let hh := sha1_Sum (metafile.InfoBytes mi) in
  info.HasV1 i = true -> hh <> infohash.zero -> v_tracked (view_of w) !! hh = None ->
  match setInfo i with
  | InfoSet _ => True
  | InfoRefused _ => (exists err, r = Val (Err err) /\ foreign err) /\ view_of w' = view_of w
  | InfoPanics m ci => r = Panicked m /\ exists o, o_hash o = hh /\ o_info o = ci /\ view_of w' = left_behind hh o (view_of w)
  end.
Proof.
  intros Hf Hw Hrun Hmi Hi hh Hv1 Hz Hnew.
  pose proof (run_service_wp _ _ _ _ _ _ (AddFile_wp dataDir c opts (view_of w)) Hw Hrun) as Hp.
  destruct (spec_of_file mi i Hi) as (ts & Hs & Hts). rewrite Hv1 in Hts. pose proof (file_hash_is mi i Hi) as Hh. rewrite Hv1 in Hh.
  unfold AddFile_post in Hp. rewrite Hmi, Hh in Hp. fold hh in Hp, Hts.
  destruct (checked_cases hh) as [[? _]|[_ Hc]]; [done|]. rewrite Hc in Hp.
  destruct Hp as [[(i' & ts' & Hs' & Ht) _]|[[(err & _ & _ & [Hfail _])|(m & Hm & _)]|(i' & ts' & h' & Hs' & Hh' & Hn)]];
    try (rewrite Hs in Hs'; injection Hs' as <- <-); try congruence.
  - rewrite Hts in Ht. destruct (setInfo i); [done|..]; destruct Ht as (o & Ho & _); congruence.
  - rewrite Hts, Hc in Hh'. injection Hh' as <-. unfold not_set in Hn. destruct (setInfo i) as [ci|e|m ci]; [done| |done].
    destruct Hn as [He [Hv|(o & o' & Ho & _)]]; [done|congruence].
Qed.

(** Adding a torrent that is already managed is refused and its row
    stays as it is; but the engine was called first: unless the add itself
    failed, the torrent is tracked and started now, even when its row is
    marked as paused. *)
Theorem AddMagnet_managed `{Faults} uri opts w r w' hh row :
  sql_faults = false -> env_faults = false -> inv w ->
  run_service dataDir (service.AddMagnet uri opts) w = (r, w') ->
  magnet_hash uri = Val (Ok hh) -> v_rows (view_of w) !! infohash.HexString hh = Some row ->
  r = Val (Err service.ErrTorrentAlreadyExists) /\
  exists o ps, started hh o /\ view_of w' = tracking hh o ps (view_of w).
Proof.
  intros Hf He Hw Hrun Em Hr.
  pose proof (run_service_wp _ _ _ _ _ _ (AddMagnet_wp dataDir uri opts (view_of w)) Hw Hrun) as Hp.
  rewrite Em in Hp. destruct Hp as [(hh' & o & ps & [= <-] & Ho & Hp)|[(err & _ & _ & [Hc _])|(m & Hc & _)]];
    [|congruence|done].
  destruct Hp as [Hp|[[Hc _] _]]; [|congruence]. cbn [v_rows tracking store_pieces set_tracked] in Hp.
  rewrite Hr in Hp. destruct Hp as [-> Hv]. split; [done|]. by exists o, ps.
Qed.

Lemma Get_ok `{Faults} h w :
  sql_faults = false -> inv w ->
  exists w', run_service dataDir (service.Get h) w =
     (Val (match v_rows (view_of w) !! h with
           | Some row => Ok (live (view_of w) row)
           | None => Err service.ErrTorrentNotFound
           end), w') /\ view_of w' = view_of w.
Proof.
  intros Hf Hw. destruct (run_service dataDir (service.Get h) w) as [r w'] eqn:Hrun.
  destruct (run_service_wp _ _ _ _ _ _ (Get_wp dataDir h (view_of w)) Hw Hrun) as [Hv [-> |[Hc _]]];
    [by exists w'|congruence].
Qed.

(** [Get], [List] and [Files] change nothing. [Get] lays the engine's
    live state over the row; [List] reports every managed torrent once, in
    the order of the text of its creation time; [Files] reports [None] for a
    torrent the engine does not track and panics when the torrent is tracked
    but its info is not known. *)
Theorem reads_are_pure `{Faults} h w :
  sql_faults = false -> inv w ->
  (exists w', run_service dataDir (service.Get h) w =
     (Val (match v_rows (view_of w) !! h with
           | Some row => Ok (live (view_of w) row)
           | None => Err service.ErrTorrentNotFound
           end), w') /\ view_of w' = view_of w) /\
  (exists w' rows, run_service dataDir service.List w =
     (Val (Ok (map (live (view_of w)) rows)), w') /\ view_of w' = view_of w /\
     rows ≡ₚ (map_to_list (v_rows (view_of w))).*2 /\ Sorted created_before rows) /\
  (exists r w', run_service dataDir (service.Files h) w = (r, w') /\
     Files_post h (view_of w) r (view_of w')).
Proof.
  intros Hf Hw. split_and!.
  - by apply Get_ok.
  - destruct (run_service dataDir service.List w) as [r w'] eqn:Hrun.
    destruct (run_service_wp _ _ _ _ _ _ (List_wp dataDir (view_of w)) Hw Hrun)
      as [Hv [(rows & -> & Hperm & Hs)|[Hc _]]]; [by exists w', rows|congruence].
  - destruct (run_service dataDir (service.Files h) w) as [r w'] eqn:Hrun.
    exists r, w'. split; [done|].
    apply (run_service_wp _ _ _ _ _ _ (Files_wp dataDir h (view_of w)) Hw Hrun).
Qed.
End theorems.

(** ** The theorems on concrete worlds *)

Lemma Remove_forgets_witness :
  exists row, v_rows (view_of world1) !! hexA = Some row /\
    view_of (after (service.Remove hexA true) world1) =
      removed dir hexA (true || negb (is_complete (view_of world1) row)) (view_of world1) /\
    tracked_by (view_of (after (service.Remove hexA true) world1)) hexA = None.
Proof.
  destruct (@Remove_forgets env0 laws0 dir reliable hexA true world1 (after (service.Remove hexA true) world1))
    as (row & Hr & Hv & Ht & _); [apply inv_world1|apply run_after; vm_compute; reflexivity|].
  exists row. split; [exact Hr|split; [exact Hv|exact Ht]].
Defined.

Lemma Remove_failure_retries_witness :
  exists err, fst (run_service dir (service.Remove hexB true) world1) = Val (Err err) /\
    kept hexB (view_of world1) (view_of (after (service.Remove hexB true) world1)) /\
    (error_is err SvcErrTorrentNotFound = true ->
     v_rows (view_of world1) !! hexB = None /\
     view_of (after (service.Remove hexB true) world1) = view_of world1).
Proof.
  apply (@Remove_failure_retries env0 laws0 dir reliable hexB true world1);
    [apply inv_world1|apply run_after; reflexivity|vm_compute; discriminate].
Defined.

Lemma Remove_succeeds_witness :
  fst (run_service dir (service.Remove hexA false) world2) = Val (Ok tt).
Proof.
  eapply (@Remove_succeeds env0 laws0 dir reliable hexA false world2);
    [reflexivity|apply inv_world2|apply run_after; reflexivity|vm_compute; reflexivity..|].
  left. vm_compute. reflexivity.
Defined.

Lemma Pause_pauses_witness :
  exists row, v_rows (view_of world1) !! hexA = Some row /\
  fst (run_service dir (service.Pause hexA) world1) = Val (Ok tt) /\
  exists now, view_of (after (service.Pause hexA) world1) =
    set_rows (dropped hexA (view_of world1))
      (<[hexA := paused_row (view_of world1) hexA now row]> (v_rows (view_of world1))).
Proof.
  eexists. split; [vm_compute; reflexivity|].
  apply (@Pause_pauses env0 laws0 dir reliable hexA world1);
    [reflexivity|apply inv_world1|apply run_after; reflexivity|vm_compute; reflexivity..].
Defined.

(** The hash [JJ...] spelled in upper case names the torrent [jj...]. *)
Definition hexJ : string := "6A6A6A6A6A6A6A6A6A6A6A6A6A6A6A6A6A6A6A6A".
Definition world_arch : world := after (service.AddFile torrent_text opts0) world0.

Lemma Pause_by_alias_witness :
  fst (run_service dir (service.Pause hexJ) world_arch) = Val (Err service.ErrTorrentNotFound) /\
  view_of (after (service.Pause hexJ) world_arch) =
  set_tracked (view_of world_arch) (delete hashB (v_tracked (view_of world_arch))).
Proof.
  apply (@Pause_by_alias env0 laws0 dir reliable hexJ hashB world_arch);
    [reflexivity|apply inv_after, inv_world0|apply run_after; reflexivity|vm_compute; reflexivity..].
Defined.

Lemma Resume_resumes_witness :
  exists row, v_rows (view_of world2) !! hexA = Some row /\
  fst (run_service dir (service.Resume hexA) world2) = Val (Ok tt) /\
  exists o ps now, started hashA o /\
    @metadata_saved reliable (infohash.HexString hashA)
      (tracking hashA o ps
        (set_rows (view_of world2) (<[hexA := row_paused false now row]> (v_rows (view_of world2)))))
      (view_of (after (service.Resume hexA) world2)).
Proof.
  eexists. split; [vm_compute; reflexivity|].
  eapply (@Resume_resumes env0 laws0 dir reliable hexA world2);
    [reflexivity|reflexivity|apply inv_world2|apply run_after; reflexivity|vm_compute; reflexivity
    |vm_compute; reflexivity].
Defined.

Lemma Resume_rolls_back_witness :
  match v_rows (view_of world2_refusing) !! hexA with
  | None => False
  | Some row => exists err now now' v1,
      fst (run_service dir (service.Resume hexA) world2_refusing) = Val (Err err) /\ foreign err /\
      @add_failed unreliable_client (magnet_hash (database.Magnet row))
        (set_rows (view_of world2_refusing)
          (<[hexA := row_paused false now row]> (v_rows (view_of world2_refusing)))) v1 /\
      view_of (after (service.Resume hexA) world2_refusing) =
      set_rows v1 (<[hexA := row_paused true now' (row_paused false now row)]> (v_rows v1))
  end.
Proof.
  assert (exists row, v_rows (view_of world2_refusing) !! hexA = Some row) as [row Hr]
    by (eexists; vm_compute; reflexivity).
  pose proof (@Resume_rolls_back env0 laws0 dir unreliable_client hexA world2_refusing
    (fst (run_service dir (service.Resume hexA) world2_refusing))
    (after (service.Resume hexA) world2_refusing) eq_refl) as Hp.
  rewrite Hr in *. apply Hp.
  - apply inv_with_sched; [apply refusing_ok|apply inv_world2].
  - by apply run_after.
  - vm_compute. discriminate.
  - intros [m Hm]. revert Hr. vm_compute. intros [= <-]. vm_compute in Hm. discriminate.
Defined.

Lemma AddMagnet_adds_witness :
  exists t hh, fst (run_service dir (service.AddMagnet magnetA opts0) world0) = Val (Ok t) /\
    magnet_hash magnetA = Val (Ok hh) /\
    @added reliable hh magnetA opts0 t (view_of world0)
      (view_of (after (service.AddMagnet magnetA opts0) world0)).
Proof.
  eexists.
  destruct (@AddMagnet_adds env0 laws0 dir reliable magnetA opts0 world0
    ltac:(match eval vm_compute in (fst (run_service dir (service.AddMagnet magnetA opts0) world0)) with
          | Val (Ok ?t) => exact t end)
    (after (service.AddMagnet magnetA opts0) world0)) as (hh & Hm & Ha).
  - apply inv_world0.
  - apply run_after. vm_compute. reflexivity.
  - exists hh. split; [vm_compute; reflexivity|]. split; [exact Hm|exact Ha].
Defined.

Lemma AddFile_adds_witness :
  fst (run_service dir (service.AddFile "not a torrent" opts0) world1) = Val (Err service.ErrInvalidTorrentFile) /\
  view_of (after (service.AddFile "not a torrent" opts0) world1) = view_of world1 /\
  exists t, fst (run_service dir (service.AddFile torrent_text opts0) world0) = Val (Ok t) /\
    @added reliable hashB ("magnet:?xt=urn:btih:" +:+ hexB) opts0 t (view_of world0) (view_of world_arch).
Proof.
  apply Logic.and_assoc. split.
  { exact (@AddFile_adds env0 laws0 dir reliable "not a torrent" opts0 world1 _ _ inv_world1 (run_after _ _ _ eq_refl)). }
  eexists. match goal with |- ?P /\ _ => assert P as Hrun by (vm_compute; reflexivity) end. split; [exact Hrun|].
  pose proof (@AddFile_adds env0 laws0 dir reliable torrent_text opts0 world0 _ _ inv_world0 (run_after _ _ _ Hrun)) as H3.
  lazymatch type of H3 with
  | match ?l with _ => _ end => let x := eval vm_compute in l in change l with x in H3
  end.
  cbv iota beta in H3.
  lazymatch type of H3 with
  | match ?l with _ => _ end => let x := eval vm_compute in l in change l with x in H3
  end.
  cbv iota beta in H3. exact (proj2 (proj2 (H3 _ eq_refl))).
Defined.

(** A torrent of both versions, in which the root of the pieces is not a hash. *)
Definition hybrid_info : bencode.value := bencode.Dict
  [("file tree", bencode.Dict [("a", bencode.Dict [("", bencode.Dict [("length", bencode.Int 5); ("pieces root", bencode.Str "abc")])])]);
   ("length", bencode.Int 5); ("meta version", bencode.Int 2); ("name", bencode.Str "a"); ("piece length", bencode.Int 16384);
   ("pieces", bencode.Str "aaaaaaaaaaaaaaaaaaaa")].
Definition hybrid_text : string := bencode.Marshal (bencode.Dict [("info", hybrid_info)]).
Definition hybrid_file : metafile.MetaInfo :=
  metafile.mkMetaInfo (bencode.Marshal hybrid_info) "" [] [] 0 "" "" "" [] [].

Lemma AddFile_bad_info_witness :
  exists m o, fst (run_service dir (service.AddFile hybrid_text opts0) world0) = Panicked m /\ o_info o = None /\
    view_of (after (service.AddFile hybrid_text opts0) world0) = left_behind hashB o (view_of world0).
Proof.
  eexists. match goal with |- exists o, ?P /\ _ => assert P as Hrun by (vm_compute; reflexivity) end.
  assert (metafile.Load hybrid_text bencode.EOF = Ok hybrid_file) as Hl by (vm_compute; reflexivity).
  eassert (metafile.as_result (metafile.UnmarshalInfo hybrid_file) = Ok _) as Hu by (vm_compute; reflexivity).
  destruct (@AddFile_bad_info env0 laws0 dir reliable hybrid_text opts0 world0 _ _ _ _ eq_refl inv_world0
    (run_after _ _ _ Hrun) Hl Hu eq_refl ltac:(discriminate) ltac:(vm_compute; reflexivity)) as [_ (o & _ & Ho & Hv)].
  exists o. split_and!; [exact Hrun|exact Ho|exact Hv].
Defined.

Lemma AddMagnet_managed_witness :
  fst (run_service dir (service.AddMagnet magnetA opts0) world2) = Val (Err service.ErrTorrentAlreadyExists) /\
  exists o ps, started hashA o /\
    view_of (after (service.AddMagnet magnetA opts0) world2) = tracking hashA o ps (view_of world2).
Proof.
  eapply (@AddMagnet_managed env0 laws0 dir reliable magnetA opts0 world2);
    [reflexivity|reflexivity|apply inv_world2|apply run_after; reflexivity|vm_compute; reflexivity
    |vm_compute; reflexivity].
Defined.

Lemma reads_are_pure_witness :
  (exists w', run_service dir (service.Get hexA) world2 =
     (Val (match v_rows (view_of world2) !! hexA with
           | Some row => Ok (live (view_of world2) row)
           | None => Err service.ErrTorrentNotFound
           end), w') /\ view_of w' = view_of world2) /\
  (exists w' rows, run_service dir service.List world2 =
     (Val (Ok (map (live (view_of world2)) rows)), w') /\ view_of w' = view_of world2 /\
     rows ≡ₚ (map_to_list (v_rows (view_of world2))).*2 /\ Sorted created_before rows) /\
  (exists r w', run_service dir (service.Files hexA) world2 = (r, w') /\
     @Files_post reliable hexA (view_of world2) r (view_of w')).
Proof. apply (@reads_are_pure env0 laws0 dir reliable hexA world2); [reflexivity|apply inv_world2]. Defined.
