(* ===== verification/MagnetTheorems.v ===== *)
(** * Magnet links, the theorems

    Magnets are read back as they were written; what the client adds is what
    the parameters of the magnet say; and the magnets that make the process
    panic are exactly those without a v1 hash, with that of zeros, and with one
    that decodes to too few bytes. *)

From S2P Require Import Prelude GoErrors Prog Infohash FilePath Url Magnet MagnetFacts World Service Spec Backend.
From S2P Require Import ServiceFacts Sample ServiceTheorems.
From Stdlib Require Import ZArith Lia Ascii String.
From stdpp Require Import base gmap strings list.
Import metainfo.

Local Open Scope Z_scope.

(** ** What the parser returns *)

Section parsed.
Context `{UrlEnv} `{Multihash}.

(** A magnet while the values of "xt" are read. *)
Record xts_read (m : MagnetV2) : Prop := {
  read_hash h : InfoHash m = Some h -> infohash.valid h;
  read_v2_hash h : V2InfoHash m = Some h -> String.length h = v2_size;
  read_full : url.full (Params m);
  read_only_xt k : k <> "xt" -> url.vals (Params m) k = [];
  read_xt : Forall (fun xt => has_prefix btihPrefix xt = false /\ has_prefix btmhPrefix xt = false) (url.vals (Params m) "xt");
}.

Lemma v2_hash_length encoded h : parseV2Infohash encoded = Val (Ok h) -> String.length h = v2_size.
Proof.
  unfold parseV2Infohash. destruct (infohash.hex_decode encoded) as [b|]; [|done]. destruct (mh_decode b) as [mh|]; [|done].
  destruct (_ || _) eqn:E; [done|]. intros [= <-]. apply orb_false_iff in E as [_ E]. by apply negb_false_iff, Nat.eqb_eq in E.
Qed.

Lemma parse_xt_read xt m m' : xts_read m -> parse_xt xt m = Val (Ok m') -> xts_read m'.
Proof.
  intros [Hh Hh2 Hfl Hk Hx]. unfold parse_xt. destruct (CutPrefix xt btihPrefix) as [enc|] eqn:E1.
  - destruct (InfoHash m); [done|]. destruct (parseEncodedV1Infohash enc) as [[h|]|] eqn:Eh; [|done|done]. intros [= <-].
    constructor; cbn [set_hash InfoHash V2InfoHash Params]; try done. intros h' [= <-]. by eapply v1_hash_valid.
  - destruct (CutPrefix xt btmhPrefix) as [enc|] eqn:E2.
    + destruct (V2InfoHash m); [done|]. destruct (parseV2Infohash enc) as [[h|]|] eqn:Eh; [|done|done]. intros [= <-].
      constructor; cbn [set_v2_hash InfoHash V2InfoHash Params]; try done. intros h' [= <-]. by eapply v2_hash_length.
    + intros [= <-]. constructor; cbn [lazyAddParam InfoHash V2InfoHash Params]; [done|done|by apply full_Add| |].
      * intros k Hne. rewrite url.vals_Add, decide_False, app_nil_r by congruence. by apply Hk.
      * rewrite url.vals_Add, decide_True by done. apply Forall_app. split; [done|]. constructor; [|constructor]. split; by apply CutPrefix_None.
Qed.

Lemma parse_xts_read xts m m' : xts_read m -> parse_xts xts m = Val (Ok m') -> xts_read m'.
Proof.
  revert m. induction xts as [|xt xts IH]; intros m Hm; cbn [parse_xts]; [by intros [= <-]|].
  destruct (parse_xt xt m) as [[m1|]|] eqn:E; cbn [then_ok]; [|done|done]. apply IH. by apply (parse_xt_read xt m).
Qed.

(** A magnet that the parser returns is well-formed, unless it has two names. *)
Lemma parsed_wf uri u m : url.Parse uri = Ok u -> (length (url.vals (url.Query (url.RawQuery u)) "dn") <= 1)%nat ->
  ParseMagnetV2Uri uri = Val (Ok m) -> wf_magnet m.
Proof.
  intros Hu Hdn. unfold ParseMagnetV2Uri. rewrite Hu. case_decide; [|done]. set (q := url.Query (url.RawQuery u)) in *.
  destruct (parse_xts (url.vals q "xt") _) as [[m1|]|] eqn:E; cbn [then_ok]; [|done|done].
  assert (xts_read m1) as [Hh Hh2 Hfl Hk Hx].
  { eapply parse_xts_read, E. constructor; cbn; try done. }
  assert (url.full q) as Hq by (intros k; apply url.values_of_nonempty).
  assert (exists dn q', popFirstValue (url.Del q "xt") "dn" = (dn, q') /\ url.full q' /\
    forall k, url.vals q' k = if decide (k = "dn") then [] else url.vals (url.Del q "xt") k) as (dn & q' & -> & Hfq & Hv).
  { unfold popFirstValue. assert (url.vals (url.Del q "xt") "dn" = url.vals q "dn") as Hd by (by rewrite vals_Del, decide_False). rewrite Hd.
    destruct (url.vals q "dn") as [|x [|y l]]; [|eexists _, _; split_and!; [done|by apply full_Del, full_Del|apply vals_Del]|cbn in Hdn; lia].
    eexists _, _. split_and!; [done|by apply full_Del|]. intros k. case_decide as Hkd; [by rewrite Hkd, Hd|done]. }
  intros [= <-]. destruct (copyParams_spec (Params m1) (url.Del q' "tr")) as [Hcf Hcv].
  constructor; cbn [InfoHash V2InfoHash Params]; [done|done|by apply Hcf| | |]; rewrite Hcv, vals_Del.
  - by rewrite Hk, decide_True.
  - rewrite Hk, decide_False, Hv, decide_True by done. done.
  - rewrite decide_False, Hv, decide_False, vals_Del, decide_True by done. by rewrite app_nil_r.
Qed.
End parsed.

(** C11. A magnet whose other parameters have values and are neither names,
    trackers nor hashes is read back as it was written, and so is every magnet
    that the parser returns for a URI with at most one name: [String] writes a
    text that [ParseMagnetV2Uri] reads as the same magnet, whatever its hashes,
    trackers, name and other parameters are, spaces, separators and bytes that
    are not ASCII included. (Of two names the second stays among the parameters,
    and is written first: [two_names_are_swapped].) *)
Theorem ParseMagnetV2Uri_String `{UrlEnv} `{MultihashLaws} m :
  (wf_magnet m -> ParseMagnetV2Uri (String_ m) = Val (Ok m)) /\
  (forall uri u, url.Parse uri = Ok u -> (length (url.vals (url.Query (url.RawQuery u)) "dn") <= 1)%nat ->
     ParseMagnetV2Uri uri = Val (Ok m) -> ParseMagnetV2Uri (String_ m) = Val (Ok m)).
Proof. split; [apply magnet_read_back|]. intros uri u Hu Hdn Hm. apply magnet_read_back. by apply (parsed_wf uri u). Qed.

(** What the client is asked to add is what the magnet says: the scheme is
    "magnet", the trackers are the values of "tr" in order, the name is the
    first "dn", and the v1 hash is the one the single value of "xt" with the
    prefix "urn:btih:" decodes to; without such a value the hash is the zero
    hash, and with two of them the magnet is refused. *)
Theorem TorrentSpec_of_magnet `{UrlEnv} `{Multihash} uri sp :
  TorrentSpecFromMagnetUri uri = Val (Ok sp) ->
  exists u, url.Parse uri = Ok u /\ url.Scheme u = "magnet" /\
  let q := url.Query (url.RawQuery u) in
  STrackers sp = [url.vals q "tr"] /\ SDisplayName sp = default "" (head (url.vals q "dn")) /\
  ((filter (fun xt => is_btih xt = true) (url.vals q "xt") = [] /\ SInfoHash sp = infohash.zero) \/
   (exists encoded, filter (fun xt => is_btih xt = true) (url.vals q "xt") = [btihPrefix +:+ encoded] /\
      parseEncodedV1Infohash encoded = Val (Ok (SInfoHash sp)))).
Proof.
  unfold TorrentSpecFromMagnetUri, ParseMagnetV2Uri. destruct (url.Parse uri) as [u|]; [|done].
  cbn [then_ok]. case_decide as Hs; [|done]. set (q := url.Query (url.RawQuery u)).
  destruct (parse_xts _ _) as [[m|]|] eqn:E; cbn [then_ok]; [|done|done].
  destruct (popFirstValue (url.Del q "xt") "dn") as [dn q'] eqn:Ep. cbn [then_ok]. intros [= <-].
  cbn [STrackers SDisplayName SInfoHash Trackers DisplayName InfoHash].
  assert (url.vals q' "tr" = url.vals q "tr" /\ dn = head (url.vals q "dn")) as [-> ->].
  { assert (forall k, k <> "dn" -> url.vals q' k = url.vals (url.Del q "xt") k) as Hk.
    { intros k Hk. revert Ep. unfold popFirstValue. destruct (url.vals _ "dn") as [|x [|y l]]; intros [= _ <-].
      - done.
      - rewrite vals_Del. by rewrite decide_False.
      - unfold url.vals. by rewrite lookup_insert_ne. }
    rewrite Hk, vals_Del, decide_False by done. split; [done|].
    revert Ep. unfold popFirstValue. rewrite vals_Del, decide_False by done.
    by destruct (url.vals q "dn") as [|x [|y l]]; intros [= <- _]. }
  exists u. split_and!; [done..|]. apply parse_xts_ok in E as [[Hf ->]|(_ & enc & h & Hf & Hd & ->)]; [by left|].
  right. by exists enc.
Qed.

(** ** Which magnets make the client panic *)

Section panics.
Context `{UrlEnv} `{Multihash}.

(** The texts of the v1 and v2 hashes among the values of "xt". *)
Definition v1_of (xt : string) : option string := CutPrefix xt btihPrefix.
Definition v2_of (xt : string) : option string := match v1_of xt with Some _ => None | None => CutPrefix xt btmhPrefix end.

(** 40 digits in base 16, or 32 in base 32, of which some may be padding. *)
Definition decodes (text h : string) : Prop :=
  String.length text = 40%nat /\ infohash.hex_decode text = Ok h \/ String.length text = 32%nat /\ base32.Decode text = Ok h.

Definition is_short (text : string) : Prop := exists h, decodes text h /\ String.length h <> infohash.Size.

(** At most one v2 hash, in addition to one that may be known, and it decodes. *)
Definition v2_accepted (known : option string) (xts : list string) : Prop :=
  match omap v2_of xts, known with
  | [], _ => True
  | [text], None => exists h, parseV2Infohash text = Val (Ok h)
  | _, _ => False
  end.

(** The v1 hash the values give: none, or the one there is. *)
Definition v1_given (known : option string) (xts : list string) (r : option string) : Prop :=
  match omap v1_of xts, known with
  | [], _ => r = known
  | [text], None => exists h, decodes text h /\ String.length h = infohash.Size /\ r = Some h
  | _, _ => False
  end.

Lemma v1_parse text : match parseEncodedV1Infohash text with
  | Val (Ok h) => decodes text h /\ String.length h = infohash.Size
  | Panicked _ => is_short text
  | Val (Err _) => forall h, ~ decodes text h
  end.
Proof.
  unfold parseEncodedV1Infohash, is_short, decodes. destruct (Nat.eqb_spec (String.length text) 40) as [He|Hne].
  - destruct (infohash.hex_decode text) as [h|e] eqn:Hd; [|intros h [[_ ?]|[? _]]; [done|lia]].
    destruct (Nat.eqb_spec (String.length h) infohash.Size); [by split; [left|]|]. exists h. split; [by left|done].
  - destruct (Nat.eqb_spec (String.length text) 32) as [He|Hne']; [|intros h [[? _]|[? _]]; lia].
    destruct (base32.Decode text) as [h|e] eqn:Hd; [|intros h [[? _]|[_ ?]]; [lia|done]].
    destruct (Nat.eqb_spec (String.length h) infohash.Size); [by split; [right|]|]. exists h. split; [by right|done].
Qed.

Lemma decodes_unique text h h' : decodes text h -> decodes text h' -> h = h'.
Proof. intros [[Hl Hd]|[Hl Hd]] [[Hl' Hd']|[Hl' Hd']]; congruence. Qed.

Lemma v2_never_panics text m : parseV2Infohash text <> Panicked m.
Proof. unfold parseV2Infohash. destruct (infohash.hex_decode text) as [b|]; [|done]. destruct (mh_decode b); [|done]. by destruct (_ || _). Qed.

Lemma v1_of_v1 xt text : CutPrefix xt btihPrefix = Some text -> v1_of xt = Some text.
Proof. done. Qed.

Lemma v2_of_v1 xt text : CutPrefix xt btihPrefix = Some text -> v2_of xt = None.
Proof. unfold v2_of, v1_of. by intros ->. Qed.

Lemma v1_of_other xt : CutPrefix xt btihPrefix = None -> v1_of xt = None.
Proof. done. Qed.

Lemma v2_of_other xt : CutPrefix xt btihPrefix = None -> v2_of xt = CutPrefix xt btmhPrefix.
Proof. unfold v2_of, v1_of. by intros ->. Qed.

(** The values are accepted, one after the other, exactly then. *)
Lemma parse_xts_accepts xts m r :
  (exists m', parse_xts xts m = Val (Ok m') /\ InfoHash m' = r) <-> v1_given (InfoHash m) xts r /\ v2_accepted (V2InfoHash m) xts.
Proof.
  revert m. induction xts as [|xt xts IH]; intros m; cbn [parse_xts].
  { unfold v1_given, v2_accepted. cbn. split; [by intros (m' & [= <-] & <-)|]. intros [-> _]. by exists m. }
  unfold parse_xt, v1_given, v2_accepted. cbn [omap list_omap].
  destruct (CutPrefix xt btihPrefix) as [text|] eqn:E1.
  - rewrite (v1_of_v1 xt text E1), (v2_of_v1 xt text E1). destruct (InfoHash m) as [h0|] eqn:Hm; cbn [then_ok].
    { split; [by intros (? & ? & _)|]. intros [Hf _]. by destruct (omap v1_of xts). }
    pose proof (v1_parse text) as Hp. destruct (parseEncodedV1Infohash text) as [[h|e]|p]; cbn [then_ok].
    + rewrite IH. unfold v1_given, v2_accepted. cbn [set_hash InfoHash V2InfoHash]. destruct Hp as [Hd Hl].
      destruct (omap v1_of xts) as [|t2 l2]; [|by destruct l2].
      split; [intros [-> Hv]; split; [by exists h|done]|]. intros [(h' & Hd' & _ & ->) Hv]. split; [f_equal; by apply (decodes_unique text)|done].
    + split; [by intros (? & ? & _)|]. intros [Hf _]. destruct (omap v1_of xts); [|done]. destruct Hf as (h & Hd & _). by destruct (Hp h).
    + split; [by intros (? & ? & _)|]. intros [Hf _]. destruct (omap v1_of xts); [|done]. destruct Hf as (h & Hd & Hl & _), Hp as (h' & Hd' & Hl').
      by rewrite (decodes_unique text h h' Hd Hd') in Hl.
  - rewrite (v1_of_other xt E1), (v2_of_other xt E1). destruct (CutPrefix xt btmhPrefix) as [text|] eqn:E2; cbn [then_ok]; [|by rewrite IH].
    destruct (V2InfoHash m) as [h0|] eqn:Hm; cbn [then_ok].
    { split; [by intros (? & ? & _)|]. intros [_ Hf]. by destruct (omap v2_of xts). }
    destruct (parseV2Infohash text) as [[h|e]|p] eqn:Ep; cbn [then_ok]; [|..|by destruct (v2_never_panics text p)].
    + rewrite IH. unfold v1_given, v2_accepted. cbn [set_v2_hash InfoHash V2InfoHash]. destruct (omap v2_of xts) as [|t2 l2]; [|by destruct l2].
      split; intros [Hv _]; (split; [done|]); [by exists h|done].
    + split; [by intros (? & ? & _)|]. intros [_ Hf]. destruct (omap v2_of xts); [|done]. destruct Hf as [h Hh]. congruence.
Qed.

(** A v1 hash that decodes to too few bytes is the first v1 hash, and what
    comes before it is accepted. *)
Definition short_hash (known : option string) (xts : list string) : Prop :=
  exists pre text post, xts = pre ++ (btihPrefix +:+ text) :: post /\
    omap v1_of pre = [] /\ v2_accepted known pre /\ is_short text.

Lemma short_hash_v1 known xt xts text : CutPrefix xt btihPrefix = Some text -> short_hash known (xt :: xts) <-> is_short text.
Proof.
  intros E. assert (xt = btihPrefix +:+ text) as Hx by (by apply CutPrefix_Some). split.
  - intros ([|x pre] & t & post & Hl & Hpre & _ & Ht); injection Hl as -> ->; [by rewrite CutPrefix_app in E; injection E as <-|].
    cbn [omap list_omap] in Hpre. by rewrite (v1_of_v1 x text E) in Hpre.
  - intros Ht. exists [], text, xts. rewrite Hx. split_and!; [done|done|done|done].
Qed.

(** A value that is no v1 hash is accepted first. *)
Lemma short_hash_other known known' xt xts : CutPrefix xt btihPrefix = None ->
  (forall pre, v2_accepted known (xt :: pre) <-> v2_accepted known' pre) -> short_hash known (xt :: xts) <-> short_hash known' xts.
Proof.
  intros E Hk. split.
  - intros ([|x pre] & t & post & Hl & Hpre & Hv & Ht); injection Hl as -> ->; [by rewrite CutPrefix_app in E|].
    exists pre, t, post. cbn [omap list_omap] in Hpre. rewrite (v1_of_other x E) in Hpre. split_and!; [done|done|by apply Hk|done].
  - intros (pre & t & post & -> & Hpre & Hv & Ht). exists (xt :: pre), t, post. cbn [omap list_omap]. rewrite (v1_of_other xt E).
    split_and!; [done|done|by apply Hk|done].
Qed.

Lemma short_hash_refused known xt xts : CutPrefix xt btihPrefix = None ->
  (forall pre, ~ v2_accepted known (xt :: pre)) -> ~ short_hash known (xt :: xts).
Proof.
  intros E Hk ([|x pre] & t & post & Hl & Hpre & Hv & Ht); injection Hl as -> ->; [by rewrite CutPrefix_app in E|]. by apply Hk in Hv.
Qed.

Lemma v2_accepted_cons known xt pre : CutPrefix xt btihPrefix = None ->
  v2_accepted known (xt :: pre) <->
  match CutPrefix xt btmhPrefix with
  | None => v2_accepted known pre
  | Some text => match known, parseV2Infohash text with None, Val (Ok h) => v2_accepted (Some h) pre | _, _ => False end
  end.
Proof.
  intros E. unfold v2_accepted at 1. cbn [omap list_omap]. rewrite (v2_of_other xt E).
  destruct (CutPrefix xt btmhPrefix) as [text|]; [|done]. unfold v2_accepted.
  destruct known as [k|]; [by destruct (omap v2_of pre)|].
  destruct (parseV2Infohash text) as [[h|e]|p]; destruct (omap v2_of pre) as [|? [|]]; (split; first [done|by intros [? ?]|intros _; by eexists]).
Qed.

(** The parser panics at a v1 hash that decodes to too few bytes, when it has
    accepted what comes before it and has no v1 hash yet. *)
Lemma parse_xts_panics xts m :
  (exists p, parse_xts xts m = Panicked p) <-> InfoHash m = None /\ short_hash (V2InfoHash m) xts.
Proof.
  revert m. induction xts as [|xt xts IH]; intros m; cbn [parse_xts].
  { split; [by intros (p & ?)|]. intros [_ (pre & t & post & Hl & _)]. by destruct pre. }
  unfold parse_xt. destruct (CutPrefix xt btihPrefix) as [text|] eqn:E1.
  - rewrite (short_hash_v1 _ xt xts text E1). destruct (InfoHash m) as [h0|] eqn:Hm; cbn [then_ok]; [by split; [intros [? ?]|intros [? _]]|].
    pose proof (v1_parse text) as Hp. unfold is_short. destruct (parseEncodedV1Infohash text) as [[h|e]|p]; cbn [then_ok].
    + rewrite IH. cbn [set_hash InfoHash]. split; [by intros [? _]|]. intros (_ & h' & Hd & Hl). destruct Hp as [Hd' Hl'].
      by rewrite (decodes_unique text h' h Hd Hd') in Hl.
    + split; [by intros [? ?]|]. intros (_ & h & Hd & _). by destruct (Hp h).
    + split; [done|]. intros _. by exists p.
  - destruct (CutPrefix xt btmhPrefix) as [text|] eqn:E2; cbn [then_ok].
    2:{ rewrite IH. cbn [lazyAddParam InfoHash V2InfoHash]. by rewrite (short_hash_other _ (V2InfoHash m) xt xts E1)
          by (intros pre; by rewrite (v2_accepted_cons _ xt pre E1), E2). }
    destruct (V2InfoHash m) as [h0|] eqn:Hm; cbn [then_ok].
    { split; [by intros [? ?]|]. intros [_ Hs]. exfalso. revert Hs. apply short_hash_refused; [done|]. intros pre Hf. by rewrite (v2_accepted_cons _ xt pre E1), E2 in Hf. }
    destruct (parseV2Infohash text) as [[h|e]|p] eqn:Ep; cbn [then_ok]; [|..|by destruct (v2_never_panics text p)].
    + rewrite IH. cbn [set_v2_hash InfoHash V2InfoHash]. by rewrite (short_hash_other None (Some h) xt xts E1)
        by (intros pre; by rewrite (v2_accepted_cons _ xt pre E1), E2, Ep).
    + split; [by intros [? ?]|]. intros [_ Hs]. exfalso. revert Hs. apply short_hash_refused; [done|]. intros pre Hf. by rewrite (v2_accepted_cons _ xt pre E1), E2, Ep in Hf.
Qed.

Lemma magnet_panics uri :
  (exists p, magnet_hash uri = Panicked p) <->
  exists u, url.Parse uri = Ok u /\ url.Scheme u = "magnet" /\
    let xts := url.vals (url.Query (url.RawQuery u)) "xt" in
    short_hash None xts \/
    (v2_accepted None xts /\ (omap v1_of xts = [] \/ exists text, omap v1_of xts = [text] /\ decodes text infohash.zero)).
Proof.
  unfold magnet_hash, TorrentSpecFromMagnetUri, ParseMagnetV2Uri, checked. destruct (url.Parse uri) as [u|e]; cbn [then_ok]; [|naive_solver].
  destruct (decide (url.Scheme u = "magnet")) as [Hs|Hs]; cbn [then_ok]; [|naive_solver].
  set (xts := url.vals _ "xt"). set (m0 := mkMagnetV2 None None [] "" ∅).
  pose proof (parse_xts_panics xts m0) as Hp. pose proof (parse_xts_accepts xts m0) as Ha. cbn [m0 InfoHash V2InfoHash] in Hp, Ha.
  assert (forall r, v1_given None xts r <-> (omap v1_of xts = [] /\ r = None) \/
    exists text h, omap v1_of xts = [text] /\ decodes text h /\ String.length h = infohash.Size /\ r = Some h) as Hg.
  { intros r. unfold v1_given. destruct (omap v1_of xts) as [|t [|t' l]]; naive_solver. }
  transitivity (short_hash None xts \/ exists m', parse_xts xts m0 = Val (Ok m') /\ default infohash.zero (InfoHash m') = infohash.zero).
  - assert (short_hash None xts <-> exists p, parse_xts xts m0 = Panicked p) as -> by (rewrite Hp; tauto). destruct (parse_xts xts m0) as [[m'|e]|p]; cbn [then_ok]; [|naive_solver..].
    destruct (popFirstValue _ _) as [dn q]; cbn [then_ok SInfoHash InfoHash]. unfold infohash.IsZero. case_bool_decide; naive_solver.
  - split.
    + intros [Hsh|(m' & Hm & Hz)]; [exists u; split_and!; auto|]. exists u. split_and!; [done..|]. right.
      destruct (Ha (InfoHash m')) as [Ha1 _]. destruct Ha1 as [Hv1 Hv2]; [by exists m'|]. split; [done|].
      apply Hg in Hv1 as [[? _]|(t & h & ? & Hd & _ & Hr)]; [by left|right]. rewrite Hr in Hz. cbn in Hz. subst h. by exists t.
    + intros (? & [= <-] & _ & [Hsh|[Hv Hc]]); [by left|right].
      destruct Hc as [Hc|(t & Hc & Hd)].
      * destruct (Ha None) as [_ Ha2]. destruct Ha2 as (m' & Hm & Hr); [split; [apply Hg; by left|done]|]. exists m'. by rewrite Hr.
      * destruct (Ha (Some infohash.zero)) as [_ Ha2]. destruct Ha2 as (m' & Hm & Hr); [|exists m'; by rewrite Hr].
        split; [|done]. apply Hg. right. by exists t, infohash.zero.
Qed.
End panics.

Section service.
Context `{EnvLaws} (dataDir : string).

Lemma persist_returns `{Faults} h magnet opts v r v' :
  persist_post h magnet opts v r v' -> exists a, r = Val a.
Proof.
  intros [Hp|[[_ (err & -> & _)] _]]; [|by eexists].
  destruct (v_rows v !! h); [destruct Hp as [-> _]; by eexists|].
  destruct Hp as (now & _ & _ & [->|[_ (err & -> & _)]]); by eexists.
Qed.

(** C33. [AddMagnet] panics exactly for two kinds of magnets: (a) the first v1
    hash among the values of the parameter xt is written in base 16 or 32, at the
    length of a hash, but decodes to other than 20 bytes, and before it there is
    at most one v2 hash, which decodes; (b) there is no v1 hash among the values,
    or one only, that of 20 zero bytes, and at most one v2 hash, which decodes.
    Nothing is changed then. *)
Theorem AddMagnet_panics_exactly `{Faults} uri opts w r w' :
  inv w -> run_service dataDir (service.AddMagnet uri opts) w = (r, w') ->
  ((exists m, r = Panicked m) <->
   exists u, url.Parse uri = Ok u /\ url.Scheme u = "magnet" /\
     let xts := url.vals (url.Query (url.RawQuery u)) "xt" in
     (exists pre text post, xts = pre ++ (btihPrefix +:+ text) :: post /\
        omap v1_of pre = [] /\ v2_accepted None pre /\ is_short text) \/
     (v2_accepted None xts /\ (omap v1_of xts = [] \/ exists text, omap v1_of xts = [text] /\ decodes text infohash.zero))) /\
  ((exists m, r = Panicked m) -> view_of w' = view_of w).
Proof.
  intros Hw Hrun. pose proof (magnet_panics uri) as Hx.
  pose proof (run_service_wp _ _ _ _ _ _ (AddMagnet_wp dataDir uri opts (view_of w)) Hw Hrun) as Hp.
  destruct Hp as [(hh & o & ps & Hm & _ & Hp)|[(err & -> & _ & [Hm _])|(m' & Hm & -> & Hv)]].
  - apply persist_returns in Hp as [a ->]. rewrite Hm in Hx. rewrite <- Hx. split; [naive_solver|by intros [? ?]].
  - split; [|by intros [? ?]]. rewrite <- Hx. split; [by intros [? ?]|]. intros [m Hp]. by rewrite Hp in Hm.
  - rewrite Hm in Hx. rewrite <- Hx. split; [naive_solver|done].
Qed.
End service.

(** ** The theorems on concrete magnets *)

Definition sample_magnet : MagnetV2 :=
  mkMagnetV2 (Some hashA) (Some "0123456789abcdef0123456789abcdef") ["http://t.example/a?b=c&d"; "udp://t.example"]
    "50% off + more" {["ws" := ["http://w.example/x;y"]; "xt" := ["urn:ed2k:31D6"]]}.

Lemma wf_sample_magnet : wf_magnet sample_magnet.
Proof.
  constructor; cbn [sample_magnet InfoHash V2InfoHash Params].
  - by intros h [= <-].
  - by intros h [= <-].
  - intros k. destruct (decide (k = "ws")) as [->|]; [done|].
    rewrite lookup_insert_ne by done. destruct (decide (k = "xt")) as [->|]; [done|].
    by rewrite lookup_singleton_ne.
  - reflexivity.
  - reflexivity.
  - by constructor.
Qed.

(** A hash in base 32. *)
Definition base32_uri : string := "magnet:?dn=a+b&xt=urn:btih:IFAUCQKBIFAUCQKBIFAUCQKBIFAUCQKB&tr=x&dn=c".

Definition one_name_uri : string := "magnet:?dn=a+b&xt=urn:btih:IFAUCQKBIFAUCQKBIFAUCQKBIFAUCQKB&tr=x&ws=y".
Definition one_name_magnet : MagnetV2 := mkMagnetV2 (Some hashA) None ["x"] "a b" {["ws" := ["y"]]}.

Lemma ParseMagnetV2Uri_String_witness :
  @ParseMagnetV2Uri url0 multihash0 (@String_ multihash0 sample_magnet) = Val (Ok sample_magnet) /\
  @ParseMagnetV2Uri url0 multihash0 one_name_uri = Val (Ok one_name_magnet) /\
  @ParseMagnetV2Uri url0 multihash0 (@String_ multihash0 one_name_magnet) = Val (Ok one_name_magnet).
Proof.
  split; [apply (@ParseMagnetV2Uri_String url0 multihash0 multihash_laws0 sample_magnet); apply wf_sample_magnet|].
  assert (@ParseMagnetV2Uri url0 multihash0 one_name_uri = Val (Ok one_name_magnet)) as Hp by (vm_compute; reflexivity). split; [exact Hp|].
  refine (proj2 (@ParseMagnetV2Uri_String url0 multihash0 multihash_laws0 one_name_magnet) one_name_uri _ eq_refl _ Hp). vm_compute. lia.
Defined.

(** The name that is not used is written before the one that is. *)
Example two_names_are_swapped :
  let m := mkMagnetV2 None None [] "a" {["dn" := ["b"]]} in
  @ParseMagnetV2Uri url0 multihash0 "magnet:?dn=a&dn=b" = Val (Ok m) /\
  @ParseMagnetV2Uri url0 multihash0 (@String_ multihash0 m) = Val (Ok (mkMagnetV2 None None [] "b" {["dn" := ["a"]]})).
Proof. vm_compute. split; reflexivity. Qed.

Lemma TorrentSpec_of_magnet_witness :
  exists u, url.Parse base32_uri = Ok u /\ url.Scheme u = "magnet" /\
  let q := url.Query (url.RawQuery u) in
  [["x"]] = [url.vals q "tr"] /\ "a b" = default "" (head (url.vals q "dn")) /\
  ((filter (fun xt => is_btih xt = true) (url.vals q "xt") = [] /\ hashA = infohash.zero) \/
   (exists encoded, filter (fun xt => is_btih xt = true) (url.vals q "xt") = [btihPrefix +:+ encoded] /\
      parseEncodedV1Infohash encoded = Val (Ok hashA))).
Proof.
  apply (@TorrentSpec_of_magnet url0 multihash0 base32_uri
    (mkTorrentSpec hashA None [["x"]] "a b" [] [] [])). vm_compute. reflexivity.
Defined.

(** A magnet that only has a name, and one whose hash ends in padding. *)
Definition padded_uri : string := "magnet:?xt=urn:btih:AAAAAAAAAAAAAAAAAAAAAAAAAA======".

Lemma AddMagnet_panics_exactly_witness :
  ((exists m, fst (run_service dir (service.AddMagnet "magnet:?dn=x" opts0) world1) = Panicked m) /\
   view_of (after (service.AddMagnet "magnet:?dn=x" opts0) world1) = view_of world1) /\
  (exists m, fst (run_service dir (service.AddMagnet padded_uri opts0) world1) = Panicked m) /\
  view_of (after (service.AddMagnet padded_uri opts0) world1) = view_of world1.
Proof.
  split.
  - destruct (@AddMagnet_panics_exactly env0 laws0 dir reliable "magnet:?dn=x" opts0 world1 _ _ inv_world1 (run_after _ _ _ eq_refl)) as [Hp Hv].
    split; [apply Hp|apply Hv, Hp]; (eexists; split; [vm_compute; reflexivity|split; [reflexivity|]]; right; split; [exact I|left; reflexivity]).
  - destruct (@AddMagnet_panics_exactly env0 laws0 dir reliable padded_uri opts0 world1 _ _ inv_world1 (run_after _ _ _ eq_refl)) as [Hp Hv].
    split; [apply Hp|apply Hv, Hp]; (eexists; split; [vm_compute; reflexivity|split; [reflexivity|]]; left;
      exists [], "AAAAAAAAAAAAAAAAAAAAAAAAAA======", []; split_and!; [vm_compute; reflexivity|reflexivity|exact I|]; eexists; split; [right; split; vm_compute; reflexivity|discriminate]).
Defined.

Example hashless_magnet : @magnet_hash url0 multihash0 "magnet:?dn=x" = Panicked "zero value".
Proof. vm_compute. reflexivity. Qed.

Example padded_magnet : @magnet_hash url0 multihash0 padded_uri = Panicked "16".
Proof. vm_compute. reflexivity. Qed.

(** A v1 hash that does not decode is an error. *)
Example undecodable_magnet :
  exists err, fst (run_service dir (service.AddMagnet "magnet:?xt=urn:btih:abc" opts0) world1) = Val (Err err).
Proof. vm_compute. by eexists. Qed.
