(* ===== verification/Sync.v ===== *)
(** * The engine and the repository stay in step

    A torrent is tracked by the engine exactly when it is managed and not
    paused. Every successful operation of the service keeps that, and [Restore]
    establishes it when the server starts. *)

From S2P Require Import Prelude GoErrors Prog GoTime Infohash FilePath Url Info Magnet MagnetFacts Bencode MetaInfo Sqlite World Database Pieces Engine Service Spec Backend ServiceFacts Sample ServiceTheorems.
From Stdlib Require Import ZArith Lia String.
From stdpp Require Import base gmap strings list sorting.

Local Open Scope Z_scope.

(** What the correspondence is about: the magnet and the mark of each row. *)
Definition kinds (v : view) : gmap string (string * bool) :=
  (fun row => (database.Magnet row, database.Paused row)) <$> v_rows v.

Section sync.
Context `{EnvLaws} (dataDir : string).

(** The canonical magnet of a hash names the hash. *)
Lemma magnet_of_hash hh : infohash.valid hh -> hh <> infohash.zero ->
  magnet_hash (service.file_magnet (infohash.HexString hh)) = Val (Ok hh).
Proof.
  intros Hv Hz. unfold magnet_hash, service.file_magnet.
  destruct (spec_of_hash hh Hv) as (sp & -> & Hh & _). cbn [then_ok]. rewrite Hh.
  by destruct (checked_cases hh) as [[? _]|[_ ->]].
Qed.

(** Every row is filed under the canonical text of the hash its magnet
    names, which is a hash. *)
Definition coherent (v : view) : Prop :=
  forall h m p, kinds v !! h = Some (m, p) ->
    exists hh, infohash.valid hh /\ h = infohash.HexString hh /\ magnet_hash m = Val (Ok hh).

Definition synced (v : view) : Prop :=
  forall hh, is_Some (v_tracked v !! hh) <-> exists m, kinds v !! infohash.HexString hh = Some (m, false).

Definition good (v : view) : Prop := coherent v /\ synced v.

Lemma good_ext v v' : kinds v' = kinds v -> v_tracked v' = v_tracked v -> good v -> good v'.
Proof. intros Hk Ht. unfold good, coherent, synced. by rewrite Hk, Ht. Qed.

Lemma kinds_lookup v h row :
  v_rows v !! h = Some row -> kinds v !! h = Some (database.Magnet row, database.Paused row).
Proof. intros Hr. unfold kinds. by rewrite lookup_fmap, Hr. Qed.

Lemma kinds_lookup_None v h : v_rows v !! h = None -> kinds v !! h = None.
Proof. intros Hr. unfold kinds. by rewrite lookup_fmap, Hr. Qed.

Lemma kinds_insert v h row :
  kinds (set_rows v (<[h := row]> (v_rows v))) =
  <[h := (database.Magnet row, database.Paused row)]> (kinds v).
Proof. unfold kinds. simpl. by rewrite fmap_insert. Qed.

(** An update that keeps the magnet and the mark is invisible. *)
Lemma kinds_update v h row row' :
  v_rows v !! h = Some row -> database.Magnet row' = database.Magnet row ->
  database.Paused row' = database.Paused row ->
  kinds (set_rows v (<[h := row']> (v_rows v))) = kinds v.
Proof.
  intros Hr Hm Hp. rewrite kinds_insert, Hm, Hp. apply insert_id. by apply kinds_lookup.
Qed.

Lemma metadata_saved_kinds `{Faults} h v v' :
  metadata_saved h v v' -> kinds v' = kinds v /\ v_tracked v' = v_tracked v.
Proof.
  unfold metadata_saved. destruct (snapshot_of v h); [|by intros ->].
  destruct (v_rows v !! h) as [row|] eqn:Hr; [|by intros ->].
  case_decide; [by intros ->|]. intros [(now & ->)|[_ ->]]; [|done].
  split; [|done]. by eapply kinds_update.
Qed.

Lemma bytes_saved_kinds `{Faults} h v v' :
  bytes_saved h v v' -> kinds v' = kinds v /\ v_tracked v' = v_tracked v.
Proof.
  unfold bytes_saved. destruct (snapshot_of v h); [|by intros ->].
  destruct (v_rows v !! h) as [row|] eqn:Hr; [|by intros ->].
  intros [(now & ->)|[_ ->]]; [|done]. split; [|done]. by eapply kinds_update.
Qed.

(** A new or resumed torrent: unpaused and tracked. *)
Lemma good_track v v' hh m o :
  infohash.valid hh -> magnet_hash m = Val (Ok hh) ->
  kinds v' = <[infohash.HexString hh := (m, false)]> (kinds v) ->
  v_tracked v' = <[hh := o]> (v_tracked v) -> good v -> good v'.
Proof.
  intros Hv Hm Hk Ht [Hc Hs]. split.
  - intros h m' p. rewrite Hk. destruct (decide (h = infohash.HexString hh)) as [->|Hne].
    + rewrite lookup_insert_eq. intros [= <- <-]. by exists hh.
    + rewrite lookup_insert_ne by done. apply Hc.
  - intros hh'. rewrite Hk, Ht. destruct (decide (hh' = hh)) as [->|Hne].
    + rewrite !lookup_insert_eq. split; eauto.
    + rewrite !lookup_insert_ne; [apply Hs|by intros ?%infohash.HexString_inj|done].
Qed.

(** A paused or removed torrent: no longer tracked. *)
Lemma good_untrack v v' hh (x : option (string * bool)) :
  (forall m p, x = Some (m, p) -> p = true /\ exists p', kinds v !! infohash.HexString hh = Some (m, p')) ->
  kinds v' = partial_alter (fun _ => x) (infohash.HexString hh) (kinds v) ->
  v_tracked v' = delete hh (v_tracked v) -> good v -> good v'.
Proof.
  intros Hx Hk Ht [Hc Hs]. split.
  - intros h m' p. rewrite Hk. destruct (decide (h = infohash.HexString hh)) as [->|Hne].
    + rewrite lookup_partial_alter_eq. intros E. destruct (Hx _ _ E) as [_ (p' & Hp')].
      by eapply Hc.
    + rewrite lookup_partial_alter_ne by done. apply Hc.
  - intros hh'. rewrite Hk, Ht. destruct (decide (hh' = hh)) as [->|Hne].
    + rewrite lookup_delete_eq, lookup_partial_alter_eq. split; [by intros [? ?]|].
      intros [m E]. by destruct (Hx _ _ E) as [? _].
    + rewrite lookup_delete_ne, lookup_partial_alter_ne; [apply Hs| |done].
      by intros ?%infohash.HexString_inj.
Qed.

Lemma good_key v h row : good v -> v_rows v !! h = Some row ->
  exists hh, infohash.valid hh /\ h = infohash.HexString hh /\ magnet_hash (database.Magnet row) = Val (Ok hh).
Proof. intros [Hc _] Hr. eapply Hc, kinds_lookup, Hr. Qed.

Lemma dropped_hex hh v :
  infohash.valid hh -> dropped (infohash.HexString hh) v = set_tracked v (delete hh (v_tracked v)).
Proof. intros Hv. unfold dropped. by rewrite infohash.FromHexString_HexString. Qed.

(** ** The operations *)

Lemma added_good `{Faults} hh m opts t v v' :
  infohash.valid hh -> magnet_hash m = Val (Ok hh) -> added hh m opts t v v' -> good v -> good v'.
Proof.
  intros Hv Hm (o & ps & row & Ho & Hn & (_ & Em & _ & _ & Ep & _) & -> & _).
  eapply (good_track _ _ hh m o); [done|done| |done..].
  unfold kinds. simpl. by rewrite fmap_insert, Em, Ep.
Qed.

Lemma Remove_good h del v v' row :
  v_rows v !! h = Some row -> v' = removed dataDir h del v -> good v -> good v'.
Proof.
  intros Hr -> Hg. destruct (good_key v h row Hg Hr) as (hh & Hv & -> & _).
  apply (good_untrack v _ hh None); [done| |by simpl; rewrite dropped_hex|done].
  unfold kinds, removed. simpl. by rewrite fmap_delete.
Qed.

Lemma Pause_good `{Faults} h v v' :
  Pause_post h v (Val (Ok tt)) v' -> good v -> good v'.
Proof.
  intros (v1 & Hb & [[_ Hp]|(err & Hr & _)]) Hg; [|done].
  apply bytes_saved_kinds in Hb as [Hk Ht].
  apply (good_ext _ v1) in Hg; [|done..]. clear Hk Ht.
  destruct (v_rows v1 !! h) as [row|] eqn:Hr; [|by destruct Hp].
  destruct Hp as (now & _ & ->). destruct (good_key v1 h row Hg Hr) as (hh & Hv & -> & _).
  apply (good_untrack v1 _ hh (Some (database.Magnet row, true))); [| | |done].
  - intros m p [= <- <-]. split; [done|]. eexists. by apply kinds_lookup.
  - rewrite dropped_hex by done. apply (kinds_insert (set_tracked v1 _)).
  - by rewrite dropped_hex.
Qed.

Lemma Resume_good `{Faults} h v v' :
  Resume_post h v (Val (Ok tt)) v' -> good v -> good v'.
Proof.
  intros Hp Hg. destruct Hp as [Hp|(_ & err & Hr & _)]; [|done].
  destruct (v_rows v !! h) as [row|] eqn:Hr; [|by destruct Hp].
  destruct Hp as (now & [(hh & o & ps & Hm & Ho & _ & Hp)|[(err & v2 & ? & _)|(m & _ & ? & _)]]); [|done|done].
  destruct (good_key v h row Hg Hr) as (hh' & Hv & -> & Hm'). rewrite Hm in Hm'.
  injection Hm' as <-. apply metadata_saved_kinds in Hp as [Hk Ht].
  apply (good_track v _ hh (database.Magnet row) o Hv Hm); [|by rewrite Ht|done].
  rewrite Hk. apply kinds_insert.
Qed.

(** The operations of the service, their results reduced to success. *)
Inductive op : Type :=
| OpAddMagnet (uri : string) (opts : service.AddOptions)
| OpAddFile (contents : string) (opts : service.AddOptions)
| OpGet (h : string)
| OpList
| OpFiles (h : string)
| OpRemove (h : string) (deleteFiles : bool)
| OpPause (h : string)
| OpResume (h : string).

(** The world after a successful operation. *)
Definition succeeds (o : op) (w w' : world) : Prop :=
  match o with
  | OpAddMagnet uri opts => exists t, run_service dataDir (service.AddMagnet uri opts) w = (Val (Ok t), w')
  | OpAddFile c opts => exists t, run_service dataDir (service.AddFile c opts) w = (Val (Ok t), w')
  | OpGet h => exists t, run_service dataDir (service.Get h) w = (Val (Ok t), w')
  | OpList => exists l, run_service dataDir service.List w = (Val (Ok l), w')
  | OpFiles h => exists l, run_service dataDir (service.Files h) w = (Val (Ok l), w')
  | OpRemove h del => run_service dataDir (service.Remove h del) w = (Val (Ok tt), w')
  | OpPause h => run_service dataDir (service.Pause h) w = (Val (Ok tt), w')
  | OpResume h => run_service dataDir (service.Resume h) w = (Val (Ok tt), w')
  end.

(** Between two operations the client transfers and hashes data: what it
    knows of a torrent, the piece completion and the files change, but not
    which torrents it has. *)
Definition background (w w' : world) : Prop :=
  v_rows (view_of w') = v_rows (view_of w) /\
  forall hh, is_Some (v_tracked (view_of w') !! hh) <-> is_Some (v_tracked (view_of w) !! hh).

Definition op_step `{Faults} (w w' : world) : Prop :=
  (exists o, succeeds o w w') \/ (inv w' /\ background w w').

Lemma background_good w w' : background w w' -> good (view_of w) -> good (view_of w').
Proof.
  intros [Hr Ht] [Hc Hs]. unfold good, coherent, synced, kinds. rewrite Hr.
  split; [exact Hc|]. intros hh. rewrite Ht. apply Hs.
Qed.

Lemma succeeds_good `{Faults} o w w' :
  inv w -> succeeds o w w' -> good (view_of w) -> inv w' /\ good (view_of w').
Proof.
  intros Hw Hs Hg.
  assert (inv w') as Hw'.
  { assert (forall A (p : prog svcE A) r, run_service dataDir p w = (r, w') -> inv w') as Hinv
      by (intros A p r E; by destruct (run_service_exec _ _ _ _ _ Hw E)).
    destruct o; cbn [succeeds] in Hs; try (match type of Hs with ex _ => destruct Hs as [t Hs] end); exact (Hinv _ _ _ Hs). }
  split; [done|].
  destruct o; cbn [succeeds] in Hs; try (match type of Hs with ex _ => destruct Hs as [t Hs] end).
  - apply (AddMagnet_ok _ _ _ _ _ _ Hw) in Hs as (hh & Hm & Ha).
    eapply added_good; [by eapply magnet_hash_valid|done|done|done].
  - destruct (metafile.Load contents bencode.EOF) as [mi|] eqn:Emi.
    + destruct (AddFile_ok _ _ _ _ _ _ _ Hw Hs Emi) as [_ (hh & Em & Ha)]. apply file_hash_valid in Em as [Em Hz].
      pose proof (magnet_of_hash hh Em Hz). by eapply added_good.
    + pose proof (run_service_wp _ _ _ _ _ _ (AddFile_wp _ _ _ _) Hw Hs) as Hp. unfold AddFile_post in Hp.
      rewrite Emi in Hp. by destruct Hp.
  - by destruct (run_service_wp _ _ _ _ _ _ (Get_wp _ _ _) Hw Hs) as [-> _].
  - by destruct (run_service_wp _ _ _ _ _ _ (List_wp _ _) Hw Hs) as [-> _].
  - by destruct (run_service_wp _ _ _ _ _ _ (Files_wp _ _ _) Hw Hs) as [-> _].
  - apply (Remove_ok _ _ _ _ _ Hw) in Hs as (row & Hr & Hv). by eapply Remove_good.
  - pose proof (run_service_wp _ _ _ _ _ _ (Pause_wp _ _ _) Hw Hs). by eapply Pause_good.
  - pose proof (run_service_wp _ _ _ _ _ _ (Resume_wp _ _ _) Hw Hs). by eapply Resume_good.
Qed.

(** C1. From a state in which the engine tracks exactly the unpaused managed
    torrents, every sequence of successful operations - adds by magnet and by
    file, removals, pauses, resumes and reads, in any order and in any
    environment, with the client working in between - leads to such a state
    again, and every row stays filed under the hash its magnet names. *)
Theorem reachable_in_sync `{Faults} w w' :
  inv w -> good (view_of w) -> rtc op_step w w' -> inv w' /\ good (view_of w').
Proof.
  intros Hw Hg Hsteps. induction Hsteps as [w|w1 w2 w3 [[o Ho]|[Hi Hb]] _ IH]; [done|..].
  - by destruct (succeeds_good o w1 w2 Hw Ho Hg) as [??]; apply IH.
  - apply IH; [done|by eapply background_good].
Qed.

(** ** Restore *)

(** The unpaused rows of a list name the hash. *)
Definition named_by (rows : list database.Torrent) (hh : Hash) : Prop :=
  exists row, row ∈ rows /\ database.Paused row = false /\ magnet_hash (database.Magnet row) = Val (Ok hh).

Lemma named_by_cons row rows hh :
  named_by (row :: rows) hh <->
  (database.Paused row = false /\ magnet_hash (database.Magnet row) = Val (Ok hh)) \/
  named_by rows hh.
Proof.
  unfold named_by. split.
  - intros (r & Hin & Hp & Hm). apply elem_of_cons in Hin as [->|Hin]; [by left|].
    right. eauto.
  - intros [[Hp Hm]|(r & Hin & Hp & Hm)]; [exists row|exists r]; rewrite elem_of_cons; auto.
Qed.

Lemma restored_row_kinds `{Faults} row v v' :
  restored_row row v v' -> kinds v' = kinds v.
Proof.
  intros [[_ [->|(hh & ps & _ & ->)]]|(hh & o & ps & _ & _ & Hm)]; [done|done|].
  by apply metadata_saved_kinds in Hm as [-> _].
Qed.

Lemma restored_kinds `{Faults} rows v v' : restored rows v v' -> kinds v' = kinds v.
Proof.
  revert v. induction rows as [|row rows IH]; intros v; simpl; [by intros ->|].
  destruct (database.Paused row); [apply IH|].
  intros (v1 & Hr & Hrs). apply restored_row_kinds in Hr as <-. by apply IH.
Qed.

(** Nothing is tracked that was not tracked or named by an unpaused row. *)
Lemma restored_tracked `{Faults} rows v v' hh :
  restored rows v v' -> is_Some (v_tracked v' !! hh) ->
  is_Some (v_tracked v !! hh) \/ named_by rows hh.
Proof.
  revert v. induction rows as [|row rows IH]; intros v; simpl; [by intros ->; left|].
  rewrite named_by_cons. destruct (database.Paused row) eqn:Hp; [intros Hr Hh|intros (v1 & Hr & Hrs) Hh].
  - destruct (IH v Hr Hh); auto.
  - destruct (IH v1 Hrs Hh) as [Hv1|]; [|by auto].
    destruct Hr as [[_ [->|(h1 & ps & _ & ->)]]|(h1 & o & ps & Hm & _ & Hs)]; [by auto|..].
    + simpl in Hv1. apply lookup_delete_is_Some in Hv1 as [_ Hv1]. by left.
    + apply metadata_saved_kinds in Hs as [_ Ht]. rewrite Ht in Hv1. simpl in Hv1.
      rewrite lookup_insert_is_Some in Hv1. destruct Hv1 as [<-|[_ Hv1]]; [by right; left|by left].
Qed.

(** When nothing fails, everything named is tracked. *)
Lemma restored_all_tracked `{Faults} rows v v' hh :
  env_faults = false ->
  Forall (fun row => exists hh, magnet_hash (database.Magnet row) = Val (Ok hh)) rows ->
  restored rows v v' -> is_Some (v_tracked v !! hh) \/ named_by rows hh ->
  is_Some (v_tracked v' !! hh).
Proof.
  intros He Hall. revert v. induction Hall as [|row rows [h0 Hok] Hall IH]; intros v; simpl.
  { intros -> [Hv|(row & Hin & _)]; [done|]. by apply elem_of_nil in Hin. }
  rewrite named_by_cons. destruct (database.Paused row) eqn:Hp.
  - intros Hr Hn. apply (IH v Hr). destruct Hn as [|[[? _]|]]; [by left|done|by right].
  - intros (v1 & Hr & Hrs) Hn. apply (IH v1 Hrs).
    destruct Hr as [[Hb _]|(h1 & o & ps & Hm & _ & Hs)]; [rewrite Hok in Hb; congruence|].
    apply metadata_saved_kinds in Hs as [_ Ht]. rewrite Ht. simpl.
    rewrite lookup_insert_is_Some. destruct (decide (h1 = hh)) as [->|Hne]; [by left; left|].
    destruct Hn as [Hv|[[_ Hm']|Hn]]; [by left; right|congruence|by right].
Qed.

Lemma named_by_rows v rows hh :
  coherent v -> rows ≡ₚ (map_to_list (v_rows v)).*2 ->
  named_by rows hh <-> exists m, kinds v !! infohash.HexString hh = Some (m, false).
Proof.
  intros Hc Hperm. unfold named_by. split.
  - intros (row & Hin & Hp & Hm). rewrite Hperm in Hin.
    apply list_elem_of_fmap in Hin as ([h row'] & -> & Hin). apply elem_of_map_to_list in Hin.
    pose proof (kinds_lookup _ _ _ Hin) as Hk. simpl in *.
    destruct (Hc _ _ _ Hk) as (hh' & _ & -> & Hm'). rewrite Hm in Hm'. injection Hm' as <-.
    rewrite Hp in Hk. eauto.
  - intros [m Hk]. destruct (Hc _ _ _ Hk) as (hh' & _ & E & Hm).
    apply infohash.HexString_inj in E as <-.
    unfold kinds in Hk. rewrite lookup_fmap in Hk.
    destruct (v_rows v !! infohash.HexString hh) as [row|] eqn:Hr; [|done]. injection Hk as <- Hp.
    exists row. split_and!; [|done|done]. rewrite Hperm. apply list_elem_of_fmap.
    exists (infohash.HexString hh, row). by rewrite elem_of_map_to_list.
Qed.

Lemma rows_coherent v rows row :
  coherent v -> rows ≡ₚ (map_to_list (v_rows v)).*2 -> row ∈ rows ->
  exists hh, magnet_hash (database.Magnet row) = Val (Ok hh).
Proof.
  intros Hc Hperm Hin. rewrite Hperm in Hin.
  apply list_elem_of_fmap in Hin as ([h row'] & -> & Hin). apply elem_of_map_to_list in Hin.
  apply kinds_lookup in Hin. destruct (Hc _ _ _ Hin) as (hh & _ & _ & Hm). by exists hh.
Qed.

(** C8. [Restore] run on a fresh engine puts it in step with the repository:
    when nothing fails it succeeds, and the engine then tracks exactly the
    torrents that are managed and not paused. *)
Theorem Restore_syncs `{Faults} w r w' :
  sql_faults = false -> env_faults = false -> inv w ->
  coherent (view_of w) -> v_tracked (view_of w) = ∅ ->
  run_service dataDir service.Restore w = (r, w') ->
  r = Val (Ok tt) /\ good (view_of w').
Proof.
  intros Hf He Hw Hc Ht Hrun.
  pose proof (run_service_wp _ _ _ _ _ _ (Restore_wp _ _) Hw Hrun) as Hp.
  destruct Hp as [(rows & Hperm & [[(r' & -> & Hres) Hr]|(pre & row & post & -> & _ & Hz & _)])|[[? _] _]]; [| |congruence].
  2:{ destruct (rows_coherent _ _ row Hc Hperm) as (hh & Hm); [by apply elem_of_app; right; left|].
      destruct Hz as [m Hz]. congruence. }
  destruct Hres as [-> |(? & _)]; [|congruence].
  pose proof (restored_kinds _ _ _ Hr) as Hk.
  split; [done|]. split; [by unfold coherent; rewrite Hk|].
  intros hh. rewrite Hk, <-(named_by_rows _ _ _ Hc Hperm). split.
  - intros Hh. destruct (restored_tracked _ _ _ _ Hr Hh) as [Hv|]; [|done].
    rewrite Ht, lookup_empty in Hv. by destruct Hv.
  - intros Hn. eapply restored_all_tracked; [done| |done|by right].
    apply Forall_forall. intros row Hin. by apply (rows_coherent _ _ row Hc Hperm).
Qed.

(** Whatever fails, [Restore] keeps every row's magnet and mark, never
    makes the engine track a torrent that was not tracked unless an unpaused
    row names it, and reports only a failed read of the repository or the end
    of its context: an engine failure is skipped. It panics only over a row
    whose magnet makes the parser or the client panic. *)
Theorem Restore_is_safe `{Faults} w r w' :
  inv w -> run_service dataDir service.Restore w = (r, w') ->
  kinds (view_of w') = kinds (view_of w) /\
  (forall hh, is_Some (v_tracked (view_of w') !! hh) ->
     is_Some (v_tracked (view_of w) !! hh) \/
     exists h row, v_rows (view_of w) !! h = Some row /\ database.Paused row = false /\
       magnet_hash (database.Magnet row) = Val (Ok hh)) /\
  ((exists r', r = Val r' /\ ctx_result r') \/ query_failed r \/
   ((exists m, r = Panicked m) /\ exists h row, v_rows (view_of w) !! h = Some row /\ no_hash row)).
Proof.
  intros Hw Hrun.
  pose proof (run_service_wp _ _ _ _ _ _ (Restore_wp _ _) Hw Hrun) as Hp.
  destruct Hp as [(rows & Hperm & Hr)|[Hq ->]]; [|split_and!; auto].
  assert (exists pre, pre ⊆ rows /\ restored pre (view_of w) (view_of w')) as (pre & Hsub & Hpre).
  { destruct Hr as [[_ Hr]|(pre & row & post & -> & _ & _ & _ & Hr)]; [by exists rows|].
    exists pre. split; [|done]. intros x Hx. apply elem_of_app. by left. }
  split_and!; [by eapply restored_kinds| |].
  2:{ destruct Hr as [[Hr _]|(pre' & row & post & -> & _ & Hz & Hm & _)]; [by left|]. right; right. split; [done|].
      assert (row ∈ pre' ++ row :: post) as Hin by (apply elem_of_app; right; left). rewrite Hperm in Hin.
      apply list_elem_of_fmap in Hin as ([h row'] & -> & Hin). apply elem_of_map_to_list in Hin.
      by exists h, row'. }
  intros hh Hh. destruct (restored_tracked _ _ _ _ Hpre Hh) as [|(row & Hin & Hp & Hm)]; [by left|].
  right. apply Hsub in Hin. rewrite Hperm in Hin.
  apply list_elem_of_fmap in Hin as ([h row'] & -> & Hin). apply elem_of_map_to_list in Hin.
  by exists h, row'.
Qed.
End sync.

(** ** The theorems on concrete worlds *)

Lemma good_world0 : good (view_of world0).
Proof.
  split.
  - intros h m p Hk. unfold kinds in Hk. rewrite lookup_fmap in Hk. vm_compute in Hk. done.
  - intros hh. split; [intros [o Ho]; vm_compute in Ho; done|].
    intros [m Hk]. unfold kinds in Hk. rewrite lookup_fmap in Hk. vm_compute in Hk. done.
Qed.

(** An add, a pause and a resume. *)
Definition world3 : world := after (service.Resume hexA) world2.

Lemma steps_world3 `{Faults} : rtc (op_step dir) world0 world3.
Proof.
  apply rtc_l with world1; [|apply rtc_l with world2; [|apply rtc_once]].
  - left. exists (OpAddMagnet magnetA opts0). cbn [succeeds]. eexists.
    apply (run_after (service.AddMagnet magnetA opts0) world0). vm_compute. reflexivity.
  - left. exists (OpPause hexA). apply (run_after (service.Pause hexA) world1). vm_compute. reflexivity.
  - left. exists (OpResume hexA). apply (run_after (service.Resume hexA) world2). vm_compute. reflexivity.
Qed.

Lemma reachable_in_sync_witness : @inv reliable world3 /\ good (view_of world3).
Proof.
  apply (@reachable_in_sync env0 laws0 dir reliable world0 world3);
    [apply inv_world0|apply good_world0|apply steps_world3].
Defined.

Lemma coherent_restarted : coherent (view_of world_restarted).
Proof.
  assert (good (view_of world1)) as [Hc _].
  { eapply (@succeeds_good env0 laws0 dir reliable (OpAddMagnet magnetA opts0) world0);
      [apply inv_world0| |apply good_world0].
    eexists.
    apply (run_after (service.AddMagnet magnetA opts0) world0). vm_compute. reflexivity. }
  exact Hc.
Qed.

Lemma Restore_syncs_witness :
  fst (run_service dir service.Restore world_restarted) = Val (Ok tt) /\
  good (view_of (after service.Restore world_restarted)).
Proof.
  apply (@Restore_syncs env0 laws0 dir reliable world_restarted);
    [reflexivity|reflexivity|apply inv_world_restarted|apply coherent_restarted
    |vm_compute; reflexivity|apply run_after; reflexivity].
Defined.

Definition world_rough : world := with_sched world_restarted rough.

Lemma Restore_is_safe_witness :
  kinds (view_of (after service.Restore world_rough)) = kinds (view_of world_rough) /\
  (forall hh, is_Some (v_tracked (view_of (after service.Restore world_rough)) !! hh) ->
     is_Some (v_tracked (view_of world_rough) !! hh) \/
     exists h row, v_rows (view_of world_rough) !! h = Some row /\ database.Paused row = false /\
       magnet_hash (database.Magnet row) = Val (Ok hh)) /\
  ((exists r', fst (run_service dir service.Restore world_rough) = Val r' /\ @ctx_result faulty r') \/
   @query_failed faulty _ (fst (run_service dir service.Restore world_rough)) \/
   ((exists m, fst (run_service dir service.Restore world_rough) = Panicked m) /\
    exists h row, v_rows (view_of world_rough) !! h = Some row /\ no_hash row)).
Proof.
  apply (@Restore_is_safe env0 laws0 dir faulty world_rough);
    [apply inv_with_sched; [apply rough_ok|apply inv_world_restarted]|apply run_after; reflexivity].
Defined.
