(* ===== verification/PieceCache.v ===== *)
(** * The piece cache under concurrency

    The torrent client calls [Get] and [Set] of the piece repository from many
    goroutines while the service calls [Forget]. Here any number of these calls
    run interleaved, a step being one call on the mutex, the database or the
    map; a goroutine that asks for a lock that is taken waits. *)

From S2P Require Import Prelude GoErrors Prog GoTime Infohash FilePath Sqlite World Pieces Engine Spec Backend Sample.
From Stdlib Require Import ZArith Lia String.
From stdpp Require Import base gmap strings list.

Local Open Scope Z_scope.

(** What is cached is what the table says. *)
Definition agree (m : gmap (string * Z) bool) (c : gmap PieceKey bool) : Prop :=
  forall h i b, c !! (h, i) = Some b -> m !! (infohash.HexString h, i) = Some b.

Definition agrees (w : world) : Prop := agree (sqlite.piece_completion (w_db w)) (w_cache w).

(** Which lock a goroutine holds; a writer knows the table and the map. *)
Inductive held : Type :=
| Nothing
| Reading
| Writing (m : gmap (string * Z) bool) (c : gmap PieceKey bool).

(** A goroutine that holds [md] touches the map and the table only under the
    lock they need, and releases the write lock only when they agree. *)
Fixpoint disciplined {A} (md : held) (p : prog baseE A) : Prop :=
  match p with
  | Ret _ => md = Nothing
  | Try _ _ => False
  | Vis e k =>
      (match e in baseE B return (B -> prog baseE A) -> Prop with
       | MuLock => fun k => md = Nothing /\ forall m c, agree m c -> disciplined (Writing m c) (k tt)
       | MuUnlock => fun k =>
           match md with Writing m c => agree m c /\ disciplined Nothing (k tt) | _ => False end
       | MuRLock => fun k => md = Nothing /\ disciplined Reading (k tt)
       | MuRUnlock => fun k => md = Reading /\ disciplined Nothing (k tt)
       | CacheLookup _ => fun k => md = Reading /\ forall o, disciplined Reading (k o)
       | CacheStore pk b => fun k =>
           match md with Writing m c => disciplined (Writing m (<[pk := b]> c)) (k tt) | _ => False end
       | CacheDeleteFunc f => fun k =>
           match md with
           | Writing m c =>
               disciplined (Writing m (filter (fun kv => f (fst kv) (snd kv) = false) c)) (k tt)
           | _ => False
           end
       | SqlExec (sqlite.UpsertPiece h i b) => fun k =>
           match md with
           | Writing m c =>
               (forall n, disciplined (Writing (<[(h, i) := b]> m) c) (k (Ok n))) /\
               (forall err, disciplined (Writing m c) (k (Err err)))
           | _ => False
           end
       | _ => fun _ => False
       end) k
  end.

(** The calls the client and the service make. *)
Inductive piece_op : Type :=
| PGet (pk : PieceKey)
| PSet (pk : PieceKey) (complete : bool)
| PForget (infoHash : string).

Definition piece_prog (o : piece_op) : prog baseE unit :=
  match o with
  | PGet pk => pbind (pieces.Get pk) (fun _ => Ret tt)
  | PSet pk c => pbind (pieces.Set_ pk c) (fun _ => Ret tt)
  | PForget h => pieces.Forget h
  end.

Lemma agree_set m c h i b :
  agree m c -> agree (<[(infohash.HexString h, i) := b]> m) (<[(h, i) := b]> c).
Proof.
  intros Ha h' i' b'. destruct (decide ((h', i') = (h, i))) as [[= -> ->]|Hne].
  - by rewrite !lookup_insert_eq.
  - rewrite !lookup_insert_ne; [apply Ha| |done].
    intros [= ->%infohash.HexString_inj ->]. by apply Hne.
Qed.

Lemma agree_filter m c (P : PieceKey * bool -> Prop) `{!forall x, Decision (P x)} :
  agree m c -> agree m (filter P c).
Proof. intros Ha h i b Hb. apply map_lookup_filter_Some in Hb as [Hb _]. by apply Ha. Qed.

Lemma piece_prog_disciplined o : disciplined Nothing (piece_prog o).
Proof.
  destruct o as [pk|[h i] b|h]; cbn.
  - split; [done|]. split; [done|]. by intros [|].
  - split; [done|]. intros m c Ha. split; [|done]. intros n. cbn. split; [by apply agree_set|done].
  - split; [done|]. intros m c Ha. split; [by apply agree_filter|done].
Qed.

(** ** Interleavings *)

(** A lock that is taken makes the goroutine wait. *)
Definition enabled (B : Type) (e : baseE B) (w : world) : Prop :=
  match e with
  | MuLock => w_mu w = Unlocked
  | MuRLock => w_mu w <> Locked
  | _ => True
  end.

(** The goroutines while nobody writes: [n] of them hold the read lock. *)
Inductive readers {A} : nat -> list (thread baseE A) -> Prop :=
| readers_nil : readers 0 []
| readers_out n p ts : disciplined Nothing p -> readers n ts -> readers n (Running p :: ts)
| readers_in n p ts : disciplined Reading p -> readers n ts -> readers (S n) (Running p :: ts).

Definition pool_ok {A} (c : list (thread baseE A) * world) : Prop :=
  let '(ts, w) := c in
  match w_mu w with
  | Unlocked => agrees w /\ readers 0 ts
  | RLocked n => agrees w /\ n <> 0%nat /\ readers n ts
  | Locked => exists l p r, ts = l ++ Running p :: r /\ readers 0 (l ++ r) /\
      disciplined (Writing (sqlite.piece_completion (w_db w)) (w_cache w)) p
  end.

Lemma readers_app_inv {A} n (l r : list (thread baseE A)) t :
  readers n (l ++ t :: r) ->
  exists p, t = Running p /\
    ((disciplined Nothing p /\ readers n (l ++ r)) \/
     (disciplined Reading p /\ exists n', n = S n' /\ readers n' (l ++ r))).
Proof.
  revert n. induction l as [|u l IH]; intros n Hr; simpl in *.
  - inversion Hr; subst; eauto 10.
  - inversion Hr as [|n' p ts Hp Hr'|n' p ts Hp Hr']; subst;
      destruct (IH _ Hr') as (q & -> & [[Hq Hr'']|[Hq (k & -> & Hr'')]]); exists q; (split; [done|]);
      [left|right|left|right]; (split; [done|]); eauto using @readers_out, @readers_in.
Qed.

Lemma readers_insert {A} n (l r : list (thread baseE A)) p :
  disciplined Nothing p -> readers n (l ++ r) -> readers n (l ++ Running p :: r).
Proof.
  revert n. induction l as [|u l IH]; intros n Hp Hr; simpl in *; [by apply readers_out|].
  inversion Hr; subst; [apply readers_out|apply readers_in]; auto.
Qed.

Lemma readers_insert_in {A} n (l r : list (thread baseE A)) p :
  disciplined Reading p -> readers n (l ++ r) -> readers (S n) (l ++ Running p :: r).
Proof.
  revert n. induction l as [|u l IH]; intros n Hp Hr; simpl in *; [by apply readers_in|].
  inversion Hr; subst; [apply readers_out|apply readers_in]; auto.
Qed.

Lemma readers_split {A} n (l r l' r' : list (thread baseE A)) t p :
  l ++ t :: r = l' ++ Running p :: r' -> readers n (l' ++ r') ->
  (l = l' /\ t = Running p /\ r = r') \/
  exists q, t = Running q /\ (disciplined Nothing q \/ n <> 0%nat).
Proof.
  revert n l'. induction l as [|u l IH]; intros n [|u' l'] E Hr; simpl in *.
  - injection E as -> ->. auto.
  - injection E as -> ->. right. inversion Hr; subst; eauto.
  - injection E as -> <-. right. apply readers_app_inv in Hr as (q & -> & [[Hq _]|[_ (n' & -> & _)]]); eauto.
  - injection E as -> E. inversion Hr; subst.
    + destruct (IH _ _ E H3) as [(-> & -> & ->)|(q & -> & Hq)]; [auto|eauto].
    + right. destruct (IH _ _ E H3) as [(-> & -> & ->)|(q & -> & Hq)]; eauto.
Qed.

Section pool.
Context `{Env} {A : Type}.
Local Notation step := (pool_step base_handle enabled (A := A)).

(** What the writer does next. *)
Lemma writer_step B (e : baseE B) (k : B -> prog baseE A) w l r :
  w_mu w = Locked -> readers 0 (l ++ r) ->
  disciplined (Writing (sqlite.piece_completion (w_db w)) (w_cache w)) (Vis e k) ->
  pool_ok (l ++ resume k (fst (base_handle _ e w)) :: r, snd (base_handle _ e w)).
Proof.
  intros Hmu Hr Hd.
  destruct e; cbn [disciplined] in Hd; try done; try (by destruct Hd).
  - destruct q; try done. destruct Hd as [Hok Herr]. cbn [base_handle ok fst snd].
    unfold sql_exec, next_sql.
    destruct (pop None (sc_sql (w_sched w))) as [[err|] s]; cbn; rewrite Hmu; eauto 10.
  - destruct Hd as [Ha Hd]. cbn. split; [exact Ha|]. by apply readers_insert.
  - cbn. rewrite Hmu. eauto 10.
  - cbn. rewrite Hmu. eauto 10.
Qed.

(** A goroutine that holds nothing takes a lock or is finished. *)
Lemma outside_step B (e : baseE B) (k : B -> prog baseE A) w n l r :
  enabled B e w -> agrees w -> (w_mu w = Unlocked /\ n = 0%nat \/ w_mu w = RLocked n /\ n <> 0%nat) ->
  disciplined Nothing (Vis e k) -> readers n (l ++ r) ->
  pool_ok (l ++ resume k (fst (base_handle _ e w)) :: r, snd (base_handle _ e w)).
Proof.
  intros Hen Ha Hmu Hd Hr.
  destruct e; cbn [disciplined] in Hd; try done; try (by destruct Hd).
  - destruct q; done.
  - destruct Hd as [_ Hd]. cbn in Hen. destruct Hmu as [[Hmu ->]|[Hmu _]]; [|congruence].
    cbn. exists l, (k tt), r. split_and!; [done|done|by apply Hd].
  - destruct Hd as [_ Hd]. cbn in *. destruct Hmu as [[-> ->]|[-> Hn]];
      (split; [exact Ha|]); (split; [done|]); by apply readers_insert_in.
Qed.

(** A reader looks up a piece or releases the lock. *)
Lemma reader_step B (e : baseE B) (k : B -> prog baseE A) w n l r :
  agrees w -> w_mu w = RLocked (S n) -> disciplined Reading (Vis e k) -> readers n (l ++ r) ->
  pool_ok (l ++ resume k (fst (base_handle _ e w)) :: r, snd (base_handle _ e w)).
Proof.
  intros Ha Hmu Hd Hr.
  destruct e; cbn [disciplined] in Hd; try done; try (by destruct Hd).
  - destruct q; done.
  - destruct Hd as [_ Hd]. cbn. rewrite Hmu.
    destruct n as [|n]; (split; [exact Ha|]); [|split; [done|]]; by apply readers_insert.
  - destruct Hd as [_ Hd]. cbn. rewrite Hmu. split; [exact Ha|]. split; [done|].
    apply readers_insert_in; [apply Hd|done].
Qed.

Lemma pool_step_ok c c' : pool_ok c -> step c c' -> pool_ok c'.
Proof.
  intros Hc Hstep. destruct Hstep as [l r B e k w Hen]. unfold pool_ok in Hc.
  destruct (w_mu w) as [|n|] eqn:Hmu.
  - destruct Hc as [Ha Hr]. apply readers_app_inv in Hr as (p & [= <-] & [[Hd Hr]|[_ (n & ? & _)]]); [|done].
    eapply outside_step; eauto.
  - destruct Hc as (Ha & Hn & Hr).
    apply readers_app_inv in Hr as (p & [= <-] & [[Hd Hr]|[Hd (n' & -> & Hr)]]).
    + eapply outside_step; eauto.
    + eapply reader_step; eauto.
  - destruct Hc as (l' & p & r' & E & Hr & Hd).
    destruct (readers_split _ _ _ _ _ _ _ E Hr) as [(-> & [= <-] & ->)|(q & [= <-] & [Hq|?])];
      [by apply writer_step| |done].
    destruct e; cbn [disciplined enabled] in *; try done; try (by destruct Hq).
    + by destruct q.
    + congruence.
Qed.

Lemma pool_steps_ok c c' : pool_ok c -> rtc step c c' -> pool_ok c'.
Proof. intros Hc Hs. induction Hs; eauto using pool_step_ok. Qed.
End pool.

Section theorems.
Context `{Env}.
Local Notation step := (pool_step base_handle enabled (A := unit)).

Definition start_pool (ops : list piece_op) : list (thread baseE unit) :=
  (fun o => Running (piece_prog o)) <$> ops.

Lemma start_pool_ok ops w : w_mu w = Unlocked -> agrees w -> pool_ok (start_pool ops, w).
Proof.
  intros Hmu Ha. unfold pool_ok. rewrite Hmu. split; [done|].
  induction ops as [|o ops IH]; [constructor|]. apply readers_out; [apply piece_prog_disciplined|done].
Qed.

(** C6. In every interleaving of any number of concurrent [Get], [Set] and
    [Forget] calls, with any statement failing, every cached completion is
    the one in the table unless a writer is between its two writes; so no
    lookup ever answers what the table does not say. *)
Theorem cache_never_disagrees ops w ts w' :
  w_mu w = Unlocked -> agrees w -> rtc step (start_pool ops, w) (ts, w') ->
  (w_mu w' <> Locked -> agrees w') /\
  (forall l pk k r, ts = l ++ Running (Vis (CacheLookup pk) k) :: r -> agrees w').
Proof.
  intros Hmu Ha Hs. apply pool_steps_ok in Hs; [|by apply start_pool_ok].
  unfold pool_ok in Hs. destruct (w_mu w') as [|n|]; [by destruct Hs..|].
  destruct Hs as (l & p & r & -> & Hr & Hd). split; [done|]. intros l' pk k r' E.
  assert (E' : l' ++ Running (Vis (CacheLookup pk) k) :: r' = l ++ Running p :: r) by done.
  destruct (readers_split _ _ _ _ _ _ _ E' Hr) as [(-> & [= <-] & ->)|(q & [= <-] & [Hq|?])];
    [by destruct Hd|by destruct Hq|done].
Qed.

Definition finished (t : thread baseE unit) : Prop := t = Running (Ret tt).

Lemma split_not_finished (ts : list (thread baseE unit)) :
  Forall finished ts \/ exists l t r, ts = l ++ t :: r /\ ~ finished t.
Proof.
  induction ts as [|t ts [IH|(l & u & r & -> & Hu)]]; [by left| |right].
  - destruct t as [[[]|B e k|B p k]|m]; [left; by constructor|right..];
      eexists [], _, ts; by split.
  - by exists (t :: l), u, r.
Qed.

Lemma reader_can_step ts l n w :
  n <> 0%nat -> w_mu w <> Unlocked -> readers n ts -> exists c, step (l ++ ts, w) c.
Proof.
  intros Hn Hu Hr. revert l. induction Hr as [|n p ts Hp Hr IH|n p ts Hp Hr IH]; intros l; [done|..].
  - rewrite cons_middle, app_assoc. by apply IH.
  - destruct p as [[]|B e k|B p k]; [done| |done].
    eexists. apply pool_call. destruct e; cbn in *; try done; by destruct Hp.
Qed.

(** The calls never deadlock: as long as one of the goroutines is not
    finished, one of them can go on. *)
Theorem no_deadlock ops w ts w' :
  w_mu w = Unlocked -> agrees w -> rtc step (start_pool ops, w) (ts, w') ->
  Forall finished ts \/ exists c, step (ts, w') c.
Proof.
  intros Hmu Ha Hs. apply pool_steps_ok in Hs; [|by apply start_pool_ok].
  unfold pool_ok in Hs. destruct (w_mu w') as [|n|] eqn:Hmu'.
  - destruct Hs as [_ Hr]. destruct (split_not_finished ts) as [|(l & t & r & -> & Ht)]; [by left|].
    right. apply readers_app_inv in Hr as (p & -> & [[Hd _]|[_ (? & ? & _)]]); [|done].
    destruct p as [[]|B e k|B p k]; [by destruct Ht| |done].
    eexists. apply pool_call. destruct e; cbn in *; try done. congruence.
  - destruct Hs as (_ & Hn & Hr). right. by apply (reader_can_step ts [] n); [|congruence|].
  - destruct Hs as (l & p & r & -> & _ & Hd). right.
    destruct p as [[]|B e k|B p k]; [done| |done].
    eexists. apply pool_call. destruct e; cbn in *; try done; by destruct Hd.
Qed.
End theorems.

(** ** Loading the cache *)

Definition piece_of (x : string * Z * bool) : sqlite.piece_row :=
  let '(h, i, c) := x in sqlite.mkPieceRow h i c.

Definition canonical_key (k : string * Z) : Prop := infohash.canonical (fst k).

Lemma load_rows_spec l acc :
  NoDup l.*1 -> Forall canonical_key l.*1 ->
  exists m, pieces.load_rows (piece_of <$> l) acc = Ok m /\
    (forall h i b, (infohash.HexString h, i, b) ∈ l -> m !! (h, i) = Some b) /\
    (forall h i, (infohash.HexString h, i) ∉ l.*1 -> m !! (h, i) = acc !! (h, i)).
Proof.
  revert acc. induction l as [|[[x i] b] l IH]; intros acc Hnd Hc; rewrite ?fmap_cons in *;
    cbn [fst] in *.
  { exists acc. split_and!; [done| |done]. intros h j c Hin. by apply elem_of_nil in Hin. }
  apply NoDup_cons in Hnd as [Hni Hnd]. apply Forall_cons in Hc as [(h & Hv & E) Hc].
  simpl in E; subst x.
  cbn [pieces.load_rows piece_of sqlite.p_info_hash sqlite.p_piece_index sqlite.p_complete].
  rewrite infohash.FromHexString_HexString by done.
  destruct (IH (<[(h, i) := b]> acc) Hnd Hc) as (m & -> & H1 & H2).
  exists m. split; [done|]. split.
  - intros h' j c Hin. apply elem_of_cons in Hin as [[= E -> ->]|Hin]; [|by apply H1].
    apply infohash.HexString_inj in E as ->. by rewrite H2, lookup_insert_eq.
  - intros h' j Hni'. apply not_elem_of_cons in Hni' as [Hne Hni'].
    rewrite H2 by done. apply lookup_insert_ne. by intros [= -> ->].
Qed.

(** The map the cache should be: the table, by hash instead of text. *)
Definition mirrors (m : gmap (string * Z) bool) (c : gmap PieceKey bool) : Prop :=
  forall h i, c !! (h, i) = m !! (infohash.HexString h, i).

Lemma load_rows_mirrors m :
  Forall canonical_key (map_to_list m).*1 ->
  exists c, pieces.load_rows (sqlite.query_pieces (sqlite.mkDb [] m)) ∅ = Ok c /\ mirrors m c.
Proof.
  intros Hc. unfold sqlite.query_pieces; cbn [sqlite.piece_completion].
  destruct (load_rows_spec (map_to_list m) ∅) as (c & Hl & H1 & H2);
    [apply NoDup_fst_map_to_list|done|].
  exists c. split; [done|]. intros h i.
  destruct (m !! (infohash.HexString h, i)) as [b|] eqn:Em.
  - apply H1. by apply elem_of_map_to_list.
  - rewrite H2, lookup_empty; [done|]. intros Hin.
    apply list_elem_of_fmap in Hin as ([k b] & E & Hin). simpl in E; subst k.
    apply elem_of_map_to_list in Hin. congruence.
Qed.

Lemma load_rows_malformed l acc :
  Exists (fun r => is_ok (infohash.FromHexString (sqlite.p_info_hash r)) = false) l ->
  is_ok (pieces.load_rows l acc) = false.
Proof.
  intros Hl. revert acc. induction Hl as [r l Hr|r l Hr IH]; intros acc; simpl;
    by destruct (infohash.FromHexString _).
Qed.

Section load.
Context `{Env}.

(** [Load] reads the whole table into the cache: afterwards a piece has a
    cached completion exactly when the table has a row for it, and it is the
    row's. When the query fails or a row's hash is malformed, [Load] reports
    an error and the cache stays as it was. The table is never changed. *)
Theorem Load_mirrors_table w r w' :
  run base_handle pieces.Load w = (r, w') ->
  w_db w' = w_db w /\
  match r with
  | Val (Ok _) => Forall canonical_key (map_to_list (sqlite.piece_completion (w_db w))).*1 ->
      mirrors (sqlite.piece_completion (w_db w)) (w_cache w')
  | Val (Err _) => w_cache w' = w_cache w
  | Panicked _ => False
  end /\
  (sc_sql (w_sched w) = [] -> Forall canonical_key (map_to_list (sqlite.piece_completion (w_db w))).*1 ->
   r = Val (Ok tt)) /\
  (Exists (fun x => is_ok (infohash.FromHexString (sqlite.p_info_hash x)) = false)
     (sqlite.query_pieces (w_db w)) -> r <> Val (Ok tt)).
Proof.
  unfold pieces.Load, call. cbn [pbind run base_handle]. unfold ok, sql_query, next_sql.
  pose proof (load_rows_mirrors (sqlite.piece_completion (w_db w))) as Hm.
  pose proof (load_rows_malformed (sqlite.query_pieces (w_db w)) ∅) as Hbad.
  change (sqlite.query_pieces (sqlite.mkDb [] (sqlite.piece_completion (w_db w))))
    with (sqlite.query_pieces (w_db w)) in Hm.
  destruct (sc_sql (w_sched w)) as [|[err|] s]; cbn [pop fst snd pbind run w_db with_sched].
  2:{ intros [= <- <-]. by split_and!. }
  all: destruct (pieces.load_rows _ _) as [c|err]; intros [= <- <-]; (split; [done|]); simpl.
  - split_and!; [|done|by intros Hx%Hbad].
    intros Hc. by destruct (Hm Hc) as (c' & [= ->] & Hmir).
  - split_and!; [done| |done]. intros _ Hc. by destruct (Hm Hc) as (c' & ? & _).
  - split_and!; [|done|by intros Hx%Hbad].
    intros Hc. by destruct (Hm Hc) as (c' & [= ->] & Hmir).
  - split_and!; [done|done|done].
Qed.
End load.

(** ** The theorems on concrete worlds *)

Definition piece_world : world :=
  with_cache (with_db (empty_world disk calm)
    (sqlite.mkDb [] {[ (hexA, 0) := true; (hexA, 7) := false; (hexB, 0) := true ]}))
    {[ (hashA, 0) := true ]}.

Definition racing : list piece_op :=
  [PSet (hashA, 7) true; PGet (hashA, 0); PSet (hashA, 7) false; PForget hexA].

Lemma agrees_piece_world : agrees piece_world.
Proof.
  intros h i b Hb. simpl in Hb. apply lookup_singleton_Some in Hb as [[= <- <-] <-].
  vm_compute. reflexivity.
Qed.

(** An executable scheduler: the indices of the goroutines that step. *)
Definition enabledb (B : Type) (e : baseE B) (w : world) : bool :=
  match e with
  | MuLock => match w_mu w with Unlocked => true | _ => false end
  | MuRLock => match w_mu w with Locked => false | _ => true end
  | _ => true
  end.

Lemma enabledb_enabled B (e : baseE B) w : enabledb B e w = true -> enabled B e w.
Proof. destruct e; cbn; destruct (w_mu w); done. Qed.

Fixpoint step_at `{Env} (i : nat) (ts : list (thread baseE unit)) (w : world)
    : option (list (thread baseE unit) * world) :=
  match i, ts with
  | O, Running (Vis e k) :: ts' =>
      if enabledb _ e w then
        Some (resume k (fst (base_handle _ e w)) :: ts', snd (base_handle _ e w))
      else None
  | S j, t :: ts' =>
      match step_at j ts' w with Some (ts1, w1) => Some (t :: ts1, w1) | None => None end
  | _, _ => None
  end.

Fixpoint run_pool `{Env} (sched : list nat) (c : list (thread baseE unit) * world)
    : option (list (thread baseE unit) * world) :=
  match sched with
  | [] => Some c
  | i :: sched' => match step_at i (fst c) (snd c) with Some c1 => run_pool sched' c1 | None => None end
  end.

Lemma step_at_sound `{Env} i ts w l c :
  step_at i ts w = Some c ->
  pool_step base_handle enabled (l ++ ts, w) (l ++ fst c, snd c).
Proof.
  revert i l c. induction ts as [|t ts IH]; intros [|i] l c; simpl; try done.
  - destruct t as [[|B e k|]|]; try done. destruct (enabledb _ e w) eqn:E; [|done].
    intros [= <-]. apply pool_call. by apply enabledb_enabled.
  - destruct (step_at i ts w) as [[ts1 w1]|] eqn:E; [|by destruct t as [[]|]].
    intros Hc. assert (c = (t :: ts1, w1)) as -> by (destruct t as [[]|]; congruence).
    pose proof (IH i (l ++ [t]) (ts1, w1) E) as Hs. cbn [fst snd] in *.
    by rewrite <-!app_assoc in Hs.
Qed.

Lemma run_pool_sound `{Env} sched c c' :
  run_pool sched c = Some c' -> rtc (pool_step base_handle enabled) c c'.
Proof.
  revert c. induction sched as [|i sched IH]; intros [ts w]; simpl; [by intros [= <-]|].
  destruct (step_at i ts w) as [[ts1 w1]|] eqn:E; [|done]. intros Hr.
  eapply rtc_l; [|by apply IH]. by apply (step_at_sound i ts w [] (ts1, w1)).
Qed.

(** The reader takes the lock and looks up its piece between the two writers;
    the second writer is still waiting. *)
Definition race : list (thread baseE unit) * world :=
  default (start_pool racing, piece_world)
    (run_pool [0; 0; 0; 0; 1; 1; 1; 2; 2; 2; 2; 3; 3]%nat (start_pool racing, piece_world)).

Lemma race_runs : rtc (pool_step base_handle enabled) (start_pool racing, piece_world) (fst race, snd race).
Proof.
  apply (run_pool_sound [0; 0; 0; 0; 1; 1; 1; 2; 2; 2; 2; 3; 3]%nat). vm_compute. reflexivity.
Qed.

Lemma cache_never_disagrees_witness :
  (w_mu (snd race) <> Locked -> agrees (snd race)) /\
  (forall l pk k r, fst race = l ++ Running (Vis (CacheLookup pk) k) :: r -> agrees (snd race)).
Proof.
  apply (@cache_never_disagrees env0 racing piece_world (fst race) (snd race));
    [reflexivity|apply agrees_piece_world|apply race_runs].
Defined.

Lemma no_deadlock_witness :
  Forall finished (fst race) \/ exists c, pool_step base_handle enabled (fst race, snd race) c.
Proof.
  apply (@no_deadlock env0 racing piece_world (fst race) (snd race));
    [reflexivity|apply agrees_piece_world|apply race_runs].
Defined.

Lemma Load_mirrors_table_witness :
  w_db (snd (run base_handle pieces.Load piece_world)) = w_db piece_world /\
  match fst (run base_handle pieces.Load piece_world) with
  | Val (Ok _) => Forall canonical_key (map_to_list (sqlite.piece_completion (w_db piece_world))).*1 ->
      mirrors (sqlite.piece_completion (w_db piece_world))
        (w_cache (snd (run base_handle pieces.Load piece_world)))
  | Val (Err _) => w_cache (snd (run base_handle pieces.Load piece_world)) = w_cache piece_world
  | Panicked _ => False
  end /\
  (sc_sql (w_sched piece_world) = [] ->
   Forall canonical_key (map_to_list (sqlite.piece_completion (w_db piece_world))).*1 ->
   fst (run base_handle pieces.Load piece_world) = Val (Ok tt)) /\
  (Exists (fun x => is_ok (infohash.FromHexString (sqlite.p_info_hash x)) = false)
     (sqlite.query_pieces (w_db piece_world)) ->
   fst (run base_handle pieces.Load piece_world) <> Val (Ok tt)).
Proof. apply (@Load_mirrors_table env0 piece_world). apply surjective_pairing. Defined.
