(* ===== verification/ServerStorage.v ===== *)
(** * The server's piece completion under the file storage

    The server gives the file storage its piece repository
    (internal/server/torrent/client.go, internal/server/database/piece.go) as
    the piece completion. The repository keeps the promise of the interface, so
    that all theorems about the storage hold with it; and what the database
    says of the pieces is backed by the files. *)

From S2P Require Import Prelude GoErrors Prog GoTime Infohash FilePath Sqlite World Pieces Engine Spec Backend Sample PieceCache.
From S2P Require Import FilePath Segments Info InfoTheorems Disk FileIo FileIoSpec FileIoFacts FileStorage StorageFacts StorageMarks StorageSafety StorageOpen StorageClient StorageTheorems.
From Stdlib Require Import ZArith Lia Ascii String.
From stdpp Require Import base gmap strings list.
Import os fileio filestorage.

Local Open Scope Z_scope.
Local Open Scope prog_scope.

Module server_storage.
Section completion.
Context {EN : Env}.

(** The repository behind the interface. *)
Definition repository_get (pk : PieceKey) (w : world) : res (result Disk.Completion) * world :=
  let '(r, w') := run base_handle (pieces.Get pk) w in
  (match r with
   | Val (Ok c) => Val (Ok (Disk.mkCompletion None (pieces.CompletionOk c) (pieces.Complete c)))
   | Val (Err err) => Val (Err err)
   | Panicked m => Panicked m
   end, w').

Definition repository_set (pk : PieceKey) (complete : bool) (w : world) : res (option error) * world :=
  let '(r, w') := run base_handle (pieces.Set_ pk complete) w in
  (match r with
   | Val (Ok _) => Val None
   | Val (Err err) => Val (Some err)
   | Panicked m => Panicked m
   end, w').

#[export] Instance repository : PieceCompletion world := {
  pc_get := repository_get;
  pc_set := repository_set;
  pc_range := None;
  pc_persistent := pieces.Persistent;
}.

(** The cache holds exactly the rows, and nobody holds the lock. *)
Record synced (w : world) : Prop := {
  sy_mu : w_mu w = Unlocked;
  sy_rows : forall h i b, w_cache w !! (h, i) = Some b <-> sqlite.piece_completion (w_db w) !! (infohash.HexString h, i) = Some b;
}.

Lemma synced_set w h i b : synced w ->
  synced (with_mu (with_cache (with_db w (sqlite.mkDb (sqlite.torrent (w_db w))
    (<[(infohash.HexString h, i) := b]> (sqlite.piece_completion (w_db w))))) (<[(h, i) := b]> (w_cache w))) Unlocked).
Proof.
  intros [_ Hr]. constructor; [done|]. cbn. intros h' i' b'. destruct (decide ((h', i') = (h, i))) as [[= -> ->]|Hne].
  - by rewrite !lookup_insert_eq.
  - rewrite !lookup_insert_ne; [apply Hr| |done]. intros [= ->%infohash.HexString_inj ->]. by apply Hne.
Qed.

#[export] Program Instance repository_laws : PieceCompletionLaws world := { pc_ok := synced; pc_view := w_cache }.
Next Obligation.
  intros [h i] w _ [Hmu Hr]. cbn [pc_get repository]. unfold repository_get, pieces.Get. cbn. rewrite Hmu. cbn.
  exists (with_mu (with_mu w (RLocked 1)) Unlocked). split_and!; [|by constructor|done].
  by destruct (w_cache w !! (h, i)).
Qed.
Next Obligation.
  intros [h i] b w _ Hs. cbn [pc_set repository]. unfold repository_set, pieces.Set_. cbn.
  unfold sql_exec, next_sql. destruct (pop None (sc_sql (w_sched (with_mu w Locked)))) as [[err|] l] eqn:Ep; cbn.
  - do 2 eexists. split; [done|]. split; [|done]. destruct Hs as [_ Hr]. by constructor.
  - do 2 eexists. split; [done|]. split; [|done]. destruct (synced_set w h i b Hs) as [_ Hr]. by constructor.
Qed.
Next Obligation. done. Qed.

(** C5. With the server's piece repository as its piece completion, for a torrent
    that was opened in an empty place and is used by a client that keeps to the
    contract, whichever statements fail: when the piece_completion table has a
    piece of the torrent as complete, all bytes of the piece are in the torrent's
    files. This is not so after the torrent is opened again over its files
    ([StorageTheorems.limits.reopening_cuts_a_finished_file]). *)
Theorem rows_are_backed_by_data `{ML : MmapLib} `{HOL : HolesLaws} `{SW : SectionWriter} k i n dir hash (m0 m1 m : machine world) t q :
  opened k i n dir hash m0 m1 t -> reach k i n t anything m1 m -> 0 <= q < n ->
  sqlite.piece_completion (w_db (m_pc m)) !! (infohash.HexString hash, q) = Some true ->
  piece_stored i t (view_of m) q.
Proof.
  intros Ho Hr Hq Hrow. pose proof (session_in_order k i n dir hash _ _ _ _ _ Ho Hr) as [Hi Hlay Hok].
  apply (ok_stored _ _ _ _ _ Hok q Hq). unfold done_at. cbn. apply (sy_rows _ (inv_pc _ _ Hi)).
  by rewrite (opened_hash k i n dir hash m0 m1 t Ho).
Qed.
End completion.

(** ** On a server *)

Import sample.

Definition server_machine : machine world := mkMachine _ ∅ ∅ 0 {["."]} ∅ [] (empty_world disk calm).

Definition server_opened : machine world := snd (act Mapped (OpenTorrent "data" true sample.two_files "HASH") server_machine).
Definition server_first_piece : machine world :=
  foldl (fun m o => snd (act Mapped (perform sample.the_torrent o) m)) server_opened sample.first_piece.

Lemma rows_are_backed_by_data_witness :
  sqlite.piece_completion (w_db (m_pc server_first_piece)) !! (infohash.HexString "HASH", 0) = Some true /\
  piece_stored sample.two_files sample.the_torrent (view_of server_first_piece) 0.
Proof.
  assert (opened Mapped sample.two_files 2 "data" "HASH" server_machine server_opened sample.the_torrent) as Ho.
  { split; [|split; [|split]].
    - constructor; cbn; try done. by intros f [x Hx].
    - apply sample.is_opened.
    - by repeat constructor.
    - by vm_compute. }
  split; [by vm_compute|].
  apply (rows_are_backed_by_data Mapped sample.two_files 2 "data" "HASH" _ _ server_first_piece _ 0 Ho); [|done|by vm_compute].
  apply (reach_op _ _ _ _ _ _ (snd (act Mapped (perform sample.the_torrent (OpWrite 0 (sample.B "abcd") 0)) server_opened))); [|done|].
  - apply (reach_op _ _ _ _ _ _ server_opened); [apply reach_start|done|]. split; [done|]. by vm_compute.
  - split; [done|]. apply sample.stored_by_bytes. by vm_compute.
Defined.
End server_storage.
