(* ===== verification/DataPaths.v ===== *)
(** * Where a torrent's data is, and what [Remove] deletes

    [torrent.Remove] of engine.go deletes the paths the data of a torrent is
    expected at; the file storage ([FilePath.v]) placed it. *)

From S2P Require Import Prelude GoErrors Prog GoTime Infohash FilePath Sqlite World Database Pieces Engine Service Spec Backend ServiceFacts Sample ServiceTheorems.
From Stdlib Require Import ZArith Lia String.
From stdpp Require Import base gmap strings list.

Local Open Scope Z_scope.

(** ** What [Remove] deletes *)

Lemma no_sep_app a b : path.no_sep (a +:+ b) = path.no_sep a && path.no_sep b.
Proof.
  induction a as [|c a IH]; [done|]. rewrite str_app_cons. cbn [path.no_sep]. rewrite IH.
  by rewrite andb_assoc.
Qed.

Lemma plain_part n : path.plain_name n = true -> path.plain_name (n +:+ ".part") = true.
Proof.
  unfold path.plain_name. rewrite !andb_true_iff, !bool_decide_eq_true. intros [Hs Hn].
  rewrite no_sep_app, Hs. split; [done|].
  destruct n as [|x n]; [by destruct Hn|]. rewrite str_app_cons.
  pose proof (str_length_app n ".part") as Hl. simpl in Hl.
  split_and!; intros E%(f_equal String.length); simpl in E; rewrite Hl in E; lia.
Qed.

(** The places of a torrent's data: the two children of the data directory. *)
Definition own_data (dataDir name : string) (f : bool * list string) : Prop :=
  path.under (path.rooted dataDir, path.comps dataDir ++ [name]) f \/
  path.under (path.rooted dataDir, path.comps dataDir ++ [name +:+ ".part"]) f.

#[export] Instance own_data_dec dataDir name f : Decision (own_data dataDir name f).
Proof. apply or_dec; apply path.under_dec. Defined.

Lemma remove_data_plain dataDir name files :
  dataDir <> "" -> path.plain_name name = true ->
  remove_data (torrent.data_paths dataDir name) files =
  filter (fun f => ~ own_data dataDir name f) files.
Proof.
  intros Hd Hn. unfold remove_data, torrent.data_paths. cbn [fold_left].
  rewrite !path.remove_all_child by (try apply plain_part; done). cbn [snd].
  apply leibniz_equiv. intros f. rewrite !elem_of_filter. unfold own_data. tauto.
Qed.

Lemma under_self r cs rest : path.under (r, cs) (r, cs ++ rest).
Proof. split; [done|]. by exists rest. Qed.

(** A name that is "." makes the first path the data directory itself. *)
Lemma remove_data_dot dataDir files f :
  dataDir <> "" -> path.comps dataDir <> [] -> path.under (path.loc dataDir) f ->
  f ∉ remove_data (torrent.data_paths dataDir ".") files.
Proof.
  intros Hd Hc Hf. unfold remove_data, torrent.data_paths. cbn [fold_left].
  assert (Hj : path.loc (path.Join [dataDir; "."]) = path.loc dataDir).
  { assert (path.Join [dataDir; "."] = path.Clean (dataDir +:+ String path.sep ".")) as -> by by destruct dataDir.
    unfold path.loc. destruct (path.loc_Clean (dataDir +:+ String path.sep ".")) as [-> ->].
    rewrite path.rooted_app, path.comps_app_sep by done. change (path.split ".") with ["."].
    cbn [fold_left]. unfold path.clean_step. rewrite decide_True by tauto. by rewrite rev_involutive. }
  assert (Hdot : path.ends_with_dot (path.Join [dataDir; "."]) = false).
  { destruct (path.ends_with_dot _) eqn:E; [|done]. exfalso. apply Hc.
    assert (path.Join [dataDir; "."] = ".") as Hj'.
    { assert (path.Join [dataDir; "."] = path.Clean (dataDir +:+ String path.sep ".")) as Hclean
        by by destruct dataDir.
      unfold path.ends_with_dot in E. apply orb_true_iff in E as [E|E];
        apply bool_decide_eq_true in E; [done|]. destruct E as [E _]. rewrite Hclean in *.
      by apply path.last_Clean. }
    rewrite Hj' in Hj. by injection Hj as _ <-. }
  intros Hin. apply remove_all_subset in Hin. unfold path.remove_all in Hin.
  rewrite decide_False in Hin by by apply path.Join_not_empty.
  rewrite Hdot, Hj in Hin. cbn [snd] in Hin. by apply elem_of_filter in Hin as [? _].
Qed.

Section theorems.
Context `{EnvLaws} (dataDir : string) (HdataDir : dataDir <> "").

(** C22. For a torrent whose name is an ordinary file name, [Remove] deletes
    exactly the files at or below <dataDir>/<name> and <dataDir>/<name>.part,
    when the torrent is tracked and its deletion was asked for or the torrent
    is incomplete; in all other cases it deletes no file. *)
Theorem Remove_deletes_own_data `{Faults} h del w w' row :
  inv w -> run_service dataDir (service.Remove h del) w = (Val (Ok tt), w') ->
  v_rows (view_of w) !! h = Some row ->
  (forall o, tracked_by (view_of w) h = Some o -> tname o = "" \/ path.plain_name (tname o) = true) ->
  w_fs w' =
    match tracked_by (view_of w) h with
    | Some o =>
        if (del || negb (is_complete (view_of w) row)) && bool_decide (tname o <> "")
        then filter (fun f => ~ own_data dataDir (tname o) f) (w_fs w)
        else w_fs w
    | None => w_fs w
    end.
Proof.
  intros Hw Hrun Hr Hplain. apply (Remove_ok _ _ _ _ _ Hw) in Hrun as (row' & Hr' & Hv).
  rewrite Hr in Hr'. injection Hr' as <-.
  apply (f_equal v_fs) in Hv. cbn [v_fs view_of removed] in Hv. rewrite Hv. unfold files_without.
  destruct (tracked_by _ h) as [o|] eqn:Ho; [|by case_match].
  specialize (Hplain o eq_refl).
  case_bool_decide as Hn; rewrite ?andb_true_r, ?andb_false_r.
  - destruct Hplain as [?|Hplain]; [done|]. rewrite decide_False, remove_data_plain by done.
    by case_match.
  - rewrite decide_True by done.
    by case_match.
Qed.

(** The name comes from the torrent and is not checked: removing an
    incomplete (or to be deleted) torrent whose name is "." deletes the whole
    data directory, the data of every other torrent included. *)
Theorem Remove_dot_deletes_everything `{Faults} h del w w' row o f :
  inv w -> run_service dataDir (service.Remove h del) w = (Val (Ok tt), w') ->
  v_rows (view_of w) !! h = Some row -> tracked_by (view_of w) h = Some o -> tname o = "." ->
  del || negb (is_complete (view_of w) row) = true ->
  path.comps dataDir <> [] -> path.under (path.loc dataDir) f ->
  f ∉ w_fs w'.
Proof.
  intros Hw Hrun Hr Ho Hn Hd Hc Hf. apply (Remove_ok _ _ _ _ _ Hw) in Hrun as (row' & Hr' & Hv).
  rewrite Hr in Hr'. injection Hr' as <-. rewrite Hd in Hv.
  apply (f_equal v_fs) in Hv. cbn [v_fs view_of removed] in Hv. rewrite Hv. unfold files_without.
  rewrite Ho, Hn. rewrite decide_False by done. by apply remove_data_dot.
Qed.
End theorems.

(** ** Concrete worlds *)

Lemma Remove_deletes_own_data_witness :
  exists row, v_rows (view_of world1) !! hexA = Some row /\
  w_fs (after (service.Remove hexA false) world1) =
    match tracked_by (view_of world1) hexA with
    | Some o =>
        if (false || negb (is_complete (view_of world1) row)) && bool_decide (tname o <> "")
        then filter (fun f => ~ own_data dir (tname o) f) (w_fs world1)
        else w_fs world1
    | None => w_fs world1
    end.
Proof.
  eexists. split; [vm_compute; reflexivity|].
  eapply (@Remove_deletes_own_data env0 laws0 dir ltac:(discriminate) reliable hexA false world1);
    [apply inv_world1|apply run_after; vm_compute; reflexivity|vm_compute; reflexivity|].
  intros o Ho. right. vm_compute in Ho. injection Ho as <-. vm_compute. reflexivity.
Defined.

(** A torrent named "." with the file [iso], in the client whose storage is
    the downloads directory. *)
Definition info_dot : Info := mkInfo "." 4096 [mkFileProgress "iso" 4096 0].
Definition dotted : schedule := mkSchedule [] [] [] [GotInfo info_dot] [Verified 16 []] [] [].

Lemma dotted_ok `{Faults} : sched_ok dotted.
Proof. constructor; cbn; repeat (apply Forall_cons; split); try apply Forall_nil; done. Qed.

Definition world_dot : world :=
  after (service.AddMagnet magnetA opts0) (empty_world disk dotted).

(** The storage accepts the torrent: its file is the child [iso] of the
    directory. *)
Example storage_accepts_dot : storage.OpenTorrent dir "." [["iso"]] = Some ["data/downloads/iso"].
Proof. reflexivity. Qed.

Lemma Remove_dot_deletes_everything_witness :
  (false, ["data"; "downloads"; "other"]) ∈ w_fs world_dot /\
  (false, ["data"; "downloads"; "other"]) ∉ w_fs (after (service.Remove hexA false) world_dot).
Proof.
  split; [apply (bool_decide_unpack (_ ∈ _)); vm_compute; reflexivity|].
  eapply (@Remove_dot_deletes_everything env0 laws0 dir ltac:(discriminate) reliable hexA false world_dot);
    [apply inv_after, inv_empty_world, dotted_ok|apply run_after; vm_compute; reflexivity
    |vm_compute; reflexivity..|vm_compute; discriminate|apply (under_self false ["data"; "downloads"] ["other"])].
Defined.
