(* ===== verification/Listing.v ===== *)
(** * The order of a listing

    [TorrentRepository.List] orders by the column [created_at], the text
    [formatTime] wrote; the comparison is the database's, byte by byte. *)

From S2P Require Import Prelude GoErrors Prog GoTime Infohash FilePath Sqlite World Database Pieces Engine Service Spec Backend ServiceFacts Sample ServiceTheorems.
From Stdlib Require Import ZArith Lia String.
From stdpp Require Import base gmap strings list sorting.

Local Open Scope Z_scope.

Lemma view_of_valid_times `{Faults} w h row :
  inv w -> v_rows (view_of w) !! h = Some row -> valid_time (database.CreatedAt row).
Proof.
  intros ([_ Hst] & _) Hr. rewrite rows_lookup in Hr.
  destruct (sqlite.find_row _ h) as [r|] eqn:Ef; [|done]. injection Hr as <-.
  destruct (find_row_stamped _ _ _ Hst Ef) as (c & u & Hc & _ & Ec & _).
  unfold to_torrent; cbn. by rewrite Ec, row_time_format.
Qed.

#[export] Instance created_before_trans : Transitive created_before.
Proof. intros a b c. unfold created_before. apply str_leb_trans. Qed.

Lemma created_before_sec a b :
  valid_time (database.CreatedAt a) -> valid_time (database.CreatedAt b) -> created_before a b ->
  sec_key (database.CreatedAt a) <= sec_key (database.CreatedAt b).
Proof.
  intros Ha Hb Hab. destruct (Z.le_gt_cases (sec_key (database.CreatedAt a)) (sec_key (database.CreatedAt b)))
    as [|Hlt]; [done|].
  pose proof (formatTime_sec_order _ _ Hb Ha Hlt) as Ht. unfold created_before, text_lt in *. congruence.
Qed.

Lemma sorted_nth {A} (R : A -> A -> Prop) `{!Transitive R} l i j a b :
  Sorted R l -> (i < j)%nat -> l !! i = Some a -> l !! j = Some b -> R a b.
Proof.
  intros Hs. apply Sorted_StronglySorted in Hs; [|done]. revert i j.
  induction Hs as [|x l Hl IH Hx]; intros i j Hij Ha Hb; [done|].
  destruct j as [|j]; [lia|]. destruct i as [|i]; simpl in *.
  - injection Ha as <-. rewrite Forall_forall in Hx. apply Hx. by eapply list_elem_of_lookup_2.
  - eapply (IH i j); [lia|done..].
Qed.

Section theorems.
Context `{EnvLaws} (dataDir : string).

(** A listing holds every managed torrent exactly once and is ordered by
    the second of creation: of two listed torrents the first was not added in
    a later second. *)
Theorem List_ordered_by_second `{Faults} w l w' :
  inv w -> run_service dataDir service.List w = (Val (Ok l), w') ->
  map service.InfoHash l ≡ₚ (map_to_list (v_rows (view_of w))).*1 /\
  forall i j a b, (i < j)%nat -> l !! i = Some a -> l !! j = Some b ->
    sec_key (service.CreatedAt a) <= sec_key (service.CreatedAt b).
Proof.
  intros Hw Hrun.
  destruct (run_service_wp _ _ _ _ _ _ (List_wp dataDir (view_of w)) Hw Hrun)
    as [_ [(rows & [= ->] & Hperm & Hs)|[_ (err & ? & _)]]]; [|done].
  assert (Hin : forall row, row ∈ rows -> exists h, v_rows (view_of w) !! h = Some row).
  { intros row Hrow. rewrite Hperm in Hrow.
    apply list_elem_of_fmap in Hrow as ([h row'] & -> & Hx). apply elem_of_map_to_list in Hx. by exists h. }
  split.
  - rewrite map_map. rewrite (Permutation_map _ Hperm), map_map.
    apply reflexive_eq, list_fmap_ext. intros i [h row] Hx. apply list_elem_of_lookup_2 in Hx.
    apply elem_of_map_to_list in Hx. pose proof (view_of_keyed w h row Hx) as Hk.
    unfold live, service.overlay. by destruct (snapshot_of _ _).
  - intros i j a b Hij Ha Hb.
    apply list_lookup_fmap_Some in Ha as (ra & -> & Hra). apply list_lookup_fmap_Some in Hb as (rb & -> & Hrb).
    assert (forall row, service.CreatedAt (live (view_of w) row) = database.CreatedAt row) as Hc.
    { intros row. unfold live, service.overlay. by destruct (snapshot_of _ _). }
    rewrite !Hc. pose proof (sorted_nth _ _ _ _ _ _ Hs Hij Hra Hrb) as Hab.
    destruct (Hin ra) as [ha Hha]; [by eapply list_elem_of_lookup_2|].
    destruct (Hin rb) as [hb Hhb]; [by eapply list_elem_of_lookup_2|].
    apply created_before_sec; eauto using view_of_valid_times.
Qed.
End theorems.

(** Two torrents added within one second: [formatTime] drops the trailing zeros
    of the fraction, and "Z" is after every digit. *)
Definition same_second : schedule :=
  mkSchedule [noon 500000000; noon 505000000; noon 510000000; noon 515000000] [] []
    [GotInfo infoA; GotInfo infoA] [] [] [].

Lemma same_second_ok `{Faults} : sched_ok same_second.
Proof.
  constructor; cbn [same_second sc_now sc_sql sc_client sc_info sc_verify sc_remove sc_ctx];
    repeat (apply Forall_cons; split); try apply Forall_nil; try done;
    apply (bool_decide_unpack (valid_time _)); by vm_compute.
Qed.

Definition world_two : world :=
  after (service.AddMagnet (service.file_magnet hexB) opts0)
    (after (service.AddMagnet magnetA opts0) (empty_world disk same_second)).

Lemma List_ordered_by_second_witness :
  exists l, fst (run_service dir service.List world_two) = Val (Ok l) /\
  map service.InfoHash l ≡ₚ (map_to_list (v_rows (view_of world_two))).*1 /\
  forall i j a b, (i < j)%nat -> l !! i = Some a -> l !! j = Some b ->
    sec_key (service.CreatedAt a) <= sec_key (service.CreatedAt b).
Proof.
  eexists. split; [vm_compute; reflexivity|].
  apply (@List_ordered_by_second env0 laws0 dir reliable world_two _ (after service.List world_two));
    [apply inv_after, inv_after, inv_empty_world, same_second_ok|apply run_after; vm_compute; reflexivity].
Defined.

(** Within a second the listing is not in the order of creation, although
    the method is documented to be: the torrent added 10 ms later comes first. *)
Theorem List_misorders_within_a_second :
  exists w l w' a b, @inv reliable w /\ run_service dir service.List w = (Val (Ok l), w') /\
    l = [a; b] /\ before (service.CreatedAt b) (service.CreatedAt a) = true.
Proof.
  exists world_two. do 4 eexists. split_and!;
    [apply inv_after, inv_after, inv_empty_world, same_second_ok
    |apply run_after; vm_compute; reflexivity|reflexivity|vm_compute; reflexivity].
Qed.
