(* ===== verification/Http.v ===== *)
(** * net/http and mime

    The parts of the standard library the API, the UI and the client library
    are written against: requests and their query and form values, the
    [http.ResponseWriter] with its rules about headers that were sent, the
    helpers [http.Error] and [http.Redirect], the matching of [http.ServeMux],
    and the media type of a Content-Type header. A handler is a program over
    [httpE]: it calls the torrent service, writes the response and logs. *)

From S2P Require Import Prelude GoErrors Prog GoTime Json Url World Service.
From Stdlib Require Import ZArith Lia Ascii String.
From stdpp Require Import base gmap strings list.

Local Open Scope Z_scope.
Local Open Scope prog_scope.

(** ** mime *)

Module mime.

Definition is_token_char (c : ascii) : bool :=
  let n := json.byte c in
  json.between 33 126 n &&
  negb (existsb (fun x => n =? x) [40; 41; 60; 62; 64; 44; 59; 58; 92; 34; 47; 91; 93; 63; 61]).

Fixpoint consume_token (s : string) : string * string :=
  match s with
  | String c r => if is_token_char c then let '(t, r') := consume_token r in (String c t, r') else ("", s)
  | "" => ("", "")
  end.

Definition is_space (c : ascii) : bool :=
  existsb (fun x => json.byte c =? x) [32; 9; 10; 11; 12; 13].

Fixpoint trim_left (s : string) : string :=
  match s with
  | String c r => if is_space c then trim_left r else s
  | "" => ""
  end.

Fixpoint trim_right (s : string) : string :=
  match s with
  | "" => ""
  | String c r => match trim_right r with
                  | "" => if is_space c then "" else String c ""
                  | t => String c t
                  end
  end.

Definition trim (s : string) : string := trim_right (trim_left s).

(** [strings.ToLower], as far as the result is compared with ASCII words: the
    ASCII letters and the two other runes whose lower case is one of them (the
    dotted capital I and the Kelvin sign). *)
Fixpoint to_lower (s : string) : string :=
  match s with
  | "" => ""
  | String a s1 =>
      if json.between 65 90 (json.byte a) then String (json.char (json.byte a + 32)) (to_lower s1)
      else match s1 with
      | String b s2 =>
          if (json.byte a =? 196) && (json.byte b =? 176) then String "i" (to_lower s2)
          else match s2 with
          | String c s3 =>
              if (json.byte a =? 226) && (json.byte b =? 132) && (json.byte c =? 170) then String "k" (to_lower s3)
              else String a (to_lower s1)
          | "" => String a (to_lower s1)
          end
      | "" => String a ""
      end
  end.

(** [checkMediaTypeDisposition] *)
Definition check (s : string) : bool :=
  match consume_token s with
  | ("", _) => false
  | (_, "") => true
  | (_, String "/" r) =>
      match consume_token r with
      | ("", _) => false
      | (_, rest) => bool_decide (rest = "")
      end
  | _ => false
  end.

(** [consumeValue]: a token or a quoted string, and what follows. A backslash
    escapes the next byte when that is no token character. *)
Fixpoint quoted_value (s : string) : option (string * string) :=
  match s with
  | "" => None
  | String c r =>
      if json.byte c =? 34 then Some ("", r)
      else if json.byte c =? 92 then
        match r with
        | String d r' =>
            if is_token_char d then json.on_fst (String c) (quoted_value r)
            else json.on_fst (String d) (quoted_value r')
        | "" => None
        end
      else if (json.byte c =? 13) || (json.byte c =? 10) then None
      else json.on_fst (String c) (quoted_value r)
  end.

Definition consume_value (s : string) : option (string * string) :=
  match s with
  | String c r =>
      if json.byte c =? 34 then quoted_value r
      else match consume_token s with ("", _) => None | p => Some p end
  | "" => None
  end.

(** [consumeMediaParam]: the name in lower case, the value, the rest. *)
Definition consume_param (s : string) : option (string * string * string) :=
  match trim_left s with
  | String ";" r =>
      match consume_token (trim_left r) with
      | ("", _) => None
      | (p, r1) =>
          match trim_left r1 with
          | String "=" r2 =>
              match consume_value (trim_left r2) with
              | Some (v, r3) => Some (to_lower p, v, r3)
              | None => None
              end
          | _ => None
          end
      end
  | _ => None
  end.

(** Does a parameter occur with two values? Every parameter takes a byte or
    more, so the length of the text is fuel enough. *)
Fixpoint conflict (fuel : nat) (seen : list (string * string)) (v : string) : bool :=
  match fuel with
  | O => false
  | S f =>
      match trim_left v with
      | "" => false
      | _ =>
          match consume_param v with
          | None => false
          | Some (k, x, rest) =>
              match find (fun kv => bool_decide (fst kv = k)) seen with
              | Some kv => if decide (snd kv = x) then conflict f seen rest else true
              | None => conflict f ((k, x) :: seen) rest
              end
          end
      end
  end.

(** The first result of [mime.ParseMediaType]. *)
Definition media_type (v : string) : string :=
  let '(base, params, found) := url.cut ";" v in
  let t := trim (to_lower base) in
  if negb (check t) then ""
  else if conflict (String.length v) [] (if found then String ";" params else "") then ""
  else t.

End mime.

(** ** Requests *)

(** A request whose path is clean: the decoded segments of the path (a trailing
    slash is the segment "/"), the query, the Content-Type header and the body. *)
Record Request : Type := mkRequest {
  r_method : string;
  r_path : list string;
  r_query : string;
  r_content_type : string;
  r_body : string;
}.

(** The fields and the files of a form. *)
Record Form : Type := mkForm {
  f_values : list (string * string);
  f_files : list (string * string);
}.

(** What the handlers call and the repository does not hold: the reader and the
    writer of multipart bodies, the [Required] rule of ozzo-validation and the
    text of the decoder's errors. *)
Class HttpEnv : Type := {
  (** [mime/multipart]: a Content-Type header and a body. *)
  multipart_read : string -> string -> result Form;
  multipart_write : Form -> string * string;
  (** [validation.Required] on a field and its value. *)
  required : string -> string -> option error;
  (** [encoding/json]: the error the decoder reports on a text. *)
  json_error : string -> error;
}.

(** The documented behaviour: a written form is read back, [Required] refuses
    exactly the empty string, the errors are the packages' own. *)
Class HttpLaws `{HttpEnv} : Prop := {
  multipart_roundtrip f : multipart_read (fst (multipart_write f)) (snd (multipart_write f)) = Ok f;
  multipart_media_type f : mime.media_type (fst (multipart_write f)) = "multipart/form-data";
  required_some field v : required field v = None <-> v <> "";
  required_foreign field v e : required field v = Some e -> foreign e;
  json_error_foreign s : foreign (json_error s);
}.

Section request.
Context `{HttpEnv}.

(** [r.ParseMultipartForm] and the values [r.FormValue] looks in: the query
    comes before the fields of the body. *)
Definition ParseMultipartForm (r : Request) : result Form :=
  match multipart_read (r_content_type r) (r_body r) with
  | Err e => Err e
  | Ok f =>
      match url.ParseQuery (r_query r) with
      | (_, Some e) => Err e
      | (vs, None) => Ok (mkForm (vs ++ f_values f) (f_files f))
      end
  end.

Definition FormValue (f : Form) (key : string) : string := url.get (f_values f) key.

(** [r.FormFile]: the first file of that name. *)
Definition FormFile (f : Form) (key : string) : result string :=
  match find (fun kv => bool_decide (fst kv = key)) (f_files f) with
  | Some kv => Ok (snd kv)
  | None => Err (EOpaque "http: no such file")
  end.

(** [r.URL.Query().Get] *)
Definition QueryGet (r : Request) (key : string) : string := url.get (fst (url.ParseQuery (r_query r))) key.
End request.

(** ** The response writer *)

Record writer : Type := mkWriter {
  wr_header : gmap string string;                        (* [w.Header()] *)
  wr_sent : option (Z * gmap string string);             (* the status and headers on the wire *)
  wr_body : string;
}.

Definition new_writer : writer := mkWriter ∅ None "".

Definition header_set (k v : string) (w : writer) : writer :=
  mkWriter (<[k := v]> (wr_header w)) (wr_sent w) (wr_body w).

(** The first call sends the headers; later ones are superfluous. *)
Definition write_header (status : Z) (w : writer) : writer :=
  match wr_sent w with
  | Some _ => w
  | None => mkWriter (wr_header w) (Some (status, wr_header w)) (wr_body w)
  end.

(** Writing sends the headers with status 200 when they were not. *)
Definition write (s : string) (w : writer) : writer :=
  let w1 := write_header 200 w in
  mkWriter (wr_header w1) (wr_sent w1) (wr_body w1 +:+ s).

(** What the client receives when the handler has returned. *)
Record Response : Type := mkResponse {
  rs_status : Z;
  rs_header : gmap string string;
  rs_body : string;
}.

Definition finish (w : writer) : Response :=
  match wr_sent (write_header 200 w) with
  | Some (st, h) => mkResponse st h (wr_body w)
  | None => mkResponse 200 ∅ (wr_body w)
  end.

(** ** Handlers *)

(** The torrent service as the handlers see it ([TorrentService]). *)
Inductive tsE : Type -> Type :=
| TsAddMagnet (uri : string) (opts : service.AddOptions) : tsE (result service.Torrent)
| TsAddFile (contents : string) (opts : service.AddOptions) : tsE (result service.Torrent)
| TsGet (hash : string) : tsE (result service.Torrent)
| TsFiles (hash : string) : tsE (result (option (list service.File)))
| TsList : tsE (result (list service.Torrent))
| TsRemove (hash : string) (deleteFiles : bool) : tsE (result unit)
| TsPause (hash : string) : tsE (result unit)
| TsResume (hash : string) : tsE (result unit).

Inductive httpE : Type -> Type :=
| Service {A} (c : tsE A) : httpE A
| HeaderSet (k v : string) : httpE unit
| WriteHeader (status : Z) : httpE unit
| Write (s : string) : httpE unit
| Panic (msg : string) : httpE unit
| LogHttp (line : string) : httpE unit.

Definition Handler : Type := Request -> list string -> prog httpE unit.

(** [http.Error] *)
Definition Error (message : string) (code : Z) : prog httpE unit :=
  call (HeaderSet "Content-Type" "text/plain; charset=utf-8");;
  call (HeaderSet "X-Content-Type-Options" "nosniff");;
  call (WriteHeader code);;
  call (Write (message +:+ newline)).

(** [htmlEscape] *)
Fixpoint html_escape (s : string) : string :=
  match s with
  | "" => ""
  | String c r =>
      (if decide (c = "&"%char) then "&amp;"
       else if decide (c = "<"%char) then "&lt;"
       else if decide (c = ">"%char) then "&gt;"
       else if decide (c = dquote) then "&#34;"
       else if decide (c = "'"%char) then "&#39;"
       else String c "") +:+ html_escape r
  end.

Definition status_text (code : Z) : string :=
  if code =? 303 then "See Other" else if code =? 307 then "Temporary Redirect" else "".

(** [http.Redirect] to an absolute path *)
Definition Redirect (r : Request) (to : string) (code : Z) : prog httpE unit :=
  call (HeaderSet "Location" to);;
  (if decide (r_method r = "GET" \/ r_method r = "HEAD")
   then call (HeaderSet "Content-Type" "text/html; charset=utf-8") else Ret tt);;
  call (WriteHeader code);;
  (if decide (r_method r = "GET")
   then call (Write ("<a href=" +:+ String dquote (html_escape to) +:+ String dquote (">" +:+
                     status_text code +:+ "</a>." +:+ newline +:+ newline)))
   else Ret tt).

(** The state of a request: the service's, the response and the log. *)
Record hstate (S : Type) : Type := mkHstate {
  h_svc : S;
  h_writer : writer;
  h_log : list string;
}.
Arguments mkHstate {S} _ _ _.
Arguments h_svc {S} _.
Arguments h_writer {S} _.
Arguments h_log {S} _.

Definition on_writer {S} (f : writer -> writer) (h : hstate S) : hstate S :=
  mkHstate (h_svc h) (f (h_writer h)) (h_log h).
Definition with_svc {S} (s : S) (h : hstate S) : hstate S := mkHstate s (h_writer h) (h_log h).
Definition log_line {S} (m : string) (h : hstate S) : hstate S :=
  mkHstate (h_svc h) (h_writer h) (h_log h ++ [m]).

Definition http_handle {S} (svc : handler tsE S) : handler httpE (hstate S) := fun B e =>
  match e in httpE B return hstate S -> res B * hstate S with
  | Service c => fun h => let '(r, s) := svc _ c (h_svc h) in (r, with_svc s h)
  | HeaderSet k v => fun h => (Val tt, on_writer (header_set k v) h)
  | WriteHeader st => fun h => (Val tt, on_writer (write_header st) h)
  | Write s => fun h => (Val tt, on_writer (write s) h)
  | Panic m => fun h => (Panicked m, h)
  | LogHttp m => fun h => (Val tt, log_line m h)
  end.

(** A handler under a [recordingResponseWriter]: the calls of [httpE] and the
    writer's [status] field. *)
Inductive midE : Type -> Type :=
| Http {B} (e : httpE B) : midE B
| SetStatus (status : Z) : midE unit
| GetStatus : midE Z.

Definition mid_handle {S} (svc : handler tsE S) : handler midE (hstate S * Z) := fun B e =>
  match e in midE B return hstate S * Z -> res B * (hstate S * Z) with
  | Http e => fun h => let '(r, h') := http_handle svc _ e (fst h) in (r, (h', snd h))
  | SetStatus st => fun h => (Val tt, (fst h, st))
  | GetStatus => fun h => (Val (snd h), h)
  end.

(** ** Routing: [http.ServeMux] *)

Inductive pseg : Type := Lit (s : string) | Wild.

#[export] Instance pseg_eq_dec : EqDecision pseg.
Proof. solve_decision. Defined.

Record route : Type := mkRoute {
  rt_method : string;
  rt_path : list pseg;
  rt_multi : bool;       (* the pattern ends in a slash: it matches every path below *)
  rt_handler : Handler;
}.

(** The routes whose next segment is the literal [s], and the wildcards, one
    level down. *)
Definition descend (p : pseg -> bool) (rs : list route) : list route :=
  omap (fun rt =>
    match rt_path rt with
    | x :: l => if p x then Some (mkRoute (rt_method rt) l (rt_multi rt) (rt_handler rt)) else None
    | [] => None
    end) rs.

Definition lit_child (s : string) : list route -> list route :=
  descend (fun x => match x with Lit t => bool_decide (t = s) | Wild => false end).
Definition wild_child : list route -> list route :=
  descend (fun x => match x with Wild => true | Lit _ => false end).

(** [routingNode.matchPath]: literals first, then the wildcard, then a pattern
    for everything below; the matches of the wildcards are collected. *)
Fixpoint match_path (rs : list route) (path matches : list string) : option (Handler * list string) :=
  let multi := find (fun rt => bool_decide (rt_path rt = []) && rt_multi rt) rs in
  match path with
  | [] =>
      match find (fun rt => bool_decide (rt_path rt = []) && negb (rt_multi rt)) rs with
      | Some rt => Some (rt_handler rt, matches)
      | None => None
      end
  | seg :: rest =>
      match match_path (lit_child seg rs) rest matches with
      | Some x => Some x
      | None =>
          match (if decide (seg = "/") then None
                 else match_path (wild_child rs) rest (matches ++ [seg])) with
          | Some x => Some x
          | None => (fun rt => (rt_handler rt, matches)) <$> multi
          end
      end
  end.

(** The routes of a method. *)
Definition method_routes (m : string) (rs : list route) : list route :=
  List.filter (fun rt => bool_decide (rt_method rt = m)) rs.

Definition route_match (rs : list route) (method : string) (path : list string)
    : option (Handler * list string) :=
  match match_path (method_routes method rs) path [] with
  | Some x => Some x
  | None =>
      if decide (method = "HEAD") then match_path (method_routes "GET" rs) path [] else None
  end.

(** The methods other patterns allow for the path. *)
Definition allowed (rs : list route) (path : list string) : list string :=
  List.filter (fun m => match route_match rs m path with Some _ => true | None => false end)
    ["DELETE"; "GET"; "HEAD"; "POST"].

(** The path with a slash at its end, and the query. *)
Definition slash_url (r : Request) : string :=
  "/" +:+ String.concat "/" (r_path r) +:+ "/" +:+
  (if decide (r_query r = "") then "" else "?" +:+ r_query r).

(** [ServeMux.ServeHTTP] of a request whose path is clean: the handler of the
    pattern, a redirection to the path with a slash, 405 or 404. *)
Definition ServeHTTP (rs : list route) (r : Request) : prog httpE unit :=
  match route_match rs (r_method r) (r_path r) with
  | Some (h, values) => h r values
  | None =>
      match (if decide (last (r_path r) = Some "/") then None
             else route_match rs (r_method r) (r_path r ++ ["/"])) with
      | Some _ => Redirect r (slash_url r) 307
      | None =>
          match allowed rs (r_path r) with
          | [] => Error "404 page not found" 404
          | ms => call (HeaderSet "Allow" (String.concat ", " ms));; Error "Method Not Allowed" 405
          end
      end
  end.

(** [r.PathValue] of the only wildcard of a pattern *)
Definition PathValue (values : list string) : string :=
  match values with v :: _ => v | [] => "" end.
