(* ===== verification/Api.v ===== *)
(** * The JSON API

    internal/server/api: the request and response types with their JSON, the
    handlers of /api/v1/torrents and the two middlewares, as programs over the
    torrent service and the response writer of [Http]. *)

From S2P Require Import Prelude GoErrors Prog GoTime Strconv World Service Json Http.
From Stdlib Require Import ZArith Lia Ascii String.
From stdpp Require Import base gmap strings list.

Local Open Scope Z_scope.
Local Open Scope prog_scope.

Module api.
Import json.

(** ** The types and their JSON *)

Record Torrent : Type := mkTorrent {
  InfoHash : string;
  Magnet : string;
  Label : string;
  TargetDir : string;
  Paused : bool;
  CreatedAt : time;
  UpdatedAt : time;
  Name : string;
  Length : Z;
  BytesCompleted : Z;
  ActivePeers : Z;
  Seeders : Z;
}.

#[export] Instance Torrent_eq_dec : EqDecision Torrent.
Proof. solve_decision. Defined.

Definition newTorrent (t : service.Torrent) : Torrent :=
  mkTorrent (service.InfoHash t) (service.Magnet t) (service.Label t) (service.TargetDir t)
    (service.Paused t) (service.CreatedAt t) (service.UpdatedAt t) (service.Name t)
    (service.Length t) (service.BytesCompleted t) (service.ActivePeers t) (service.Seeders t).

(** The zero value. *)
Definition zero_torrent : Torrent := mkTorrent "" "" "" "" false zero_time zero_time "" 0 0 0 0.

Definition torrent_members (t : Torrent) : list (string * value) :=
  member "infoHash" (of_string (InfoHash t)) ++
  member "magnet" (of_string (Magnet t)) ++
  member "label" (of_string (Label t)) ++
  member "targetDir" (of_string (TargetDir t)) ++
  member "paused" (Bool (Paused t)) ++
  member "createdAt" (of_time (CreatedAt t)) ++
  member "updatedAt" (of_time (UpdatedAt t)) ++
  omit_if (bool_decide (Name t = "")) (member "name" (of_string (Name t))) ++
  omit_if (Length t =? 0) (member "length" (of_int (Length t))) ++
  omit_if (BytesCompleted t =? 0) (member "bytesCompleted" (of_int (BytesCompleted t))) ++
  omit_if (ActivePeers t =? 0) (member "activePeers" (of_int (ActivePeers t))) ++
  omit_if (Seeders t =? 0) (member "seeders" (of_int (Seeders t))).

(** [time.Time.MarshalJSON] refuses a year that has not four digits. *)
Definition year_ok (t : time) : bool := (0 <=? t_year t) && (t_year t <=? 9999).

Definition torrent_json (t : Torrent) : option value :=
  if year_ok (CreatedAt t) && year_ok (UpdatedAt t) then Some (Object (torrent_members t)) else None.

Fixpoint torrents_json (l : list Torrent) : option (list value) :=
  match l with
  | [] => Some []
  | t :: l' =>
      v ← torrent_json t;
      vs ← torrents_json l';
      Some (v :: vs)
  end.

(** [AddTorrentResponse] and [GetTorrentResponse] *)
Definition torrent_response (t : Torrent) : option value :=
  v ← torrent_json t; Some (Object (member "torrent" v)).

(** [ListTorrentsResponse] *)
Definition list_response (l : list Torrent) : option value :=
  vs ← torrents_json l; Some (Object (member "torrents" (Array vs))).

(** [RemoveTorrentResponse], [PauseTorrentResponse], [ResumeTorrentResponse] *)
Definition empty_response : option value := Some (Object []).

(** [ErrorResponse]: the status is not sent in the body. *)
Definition error_response (message : string) : option value :=
  Some (Object (member "error" (of_string message))).

(** The fields of the types, by their tags. *)
Section fields.
Context (fallback : string -> result time).

Definition torrent_fields : fields Torrent :=
  [("infoHash", field InfoHash (fun x t => mkTorrent x (Magnet t) (Label t) (TargetDir t) (Paused t) (CreatedAt t) (UpdatedAt t) (Name t) (Length t) (BytesCompleted t) (ActivePeers t) (Seeders t)) set_string);
   ("magnet", field Magnet (fun x t => mkTorrent (InfoHash t) x (Label t) (TargetDir t) (Paused t) (CreatedAt t) (UpdatedAt t) (Name t) (Length t) (BytesCompleted t) (ActivePeers t) (Seeders t)) set_string);
   ("label", field Label (fun x t => mkTorrent (InfoHash t) (Magnet t) x (TargetDir t) (Paused t) (CreatedAt t) (UpdatedAt t) (Name t) (Length t) (BytesCompleted t) (ActivePeers t) (Seeders t)) set_string);
   ("targetDir", field TargetDir (fun x t => mkTorrent (InfoHash t) (Magnet t) (Label t) x (Paused t) (CreatedAt t) (UpdatedAt t) (Name t) (Length t) (BytesCompleted t) (ActivePeers t) (Seeders t)) set_string);
   ("paused", field Paused (fun x t => mkTorrent (InfoHash t) (Magnet t) (Label t) (TargetDir t) x (CreatedAt t) (UpdatedAt t) (Name t) (Length t) (BytesCompleted t) (ActivePeers t) (Seeders t)) set_bool);
   ("createdAt", field CreatedAt (fun x t => mkTorrent (InfoHash t) (Magnet t) (Label t) (TargetDir t) (Paused t) x (UpdatedAt t) (Name t) (Length t) (BytesCompleted t) (ActivePeers t) (Seeders t)) (set_time fallback));
   ("updatedAt", field UpdatedAt (fun x t => mkTorrent (InfoHash t) (Magnet t) (Label t) (TargetDir t) (Paused t) (CreatedAt t) x (Name t) (Length t) (BytesCompleted t) (ActivePeers t) (Seeders t)) (set_time fallback));
   ("name", field Name (fun x t => mkTorrent (InfoHash t) (Magnet t) (Label t) (TargetDir t) (Paused t) (CreatedAt t) (UpdatedAt t) x (Length t) (BytesCompleted t) (ActivePeers t) (Seeders t)) set_string);
   ("length", field Length (fun x t => mkTorrent (InfoHash t) (Magnet t) (Label t) (TargetDir t) (Paused t) (CreatedAt t) (UpdatedAt t) (Name t) x (BytesCompleted t) (ActivePeers t) (Seeders t)) set_int64);
   ("bytesCompleted", field BytesCompleted (fun x t => mkTorrent (InfoHash t) (Magnet t) (Label t) (TargetDir t) (Paused t) (CreatedAt t) (UpdatedAt t) (Name t) (Length t) x (ActivePeers t) (Seeders t)) set_int64);
   ("activePeers", field ActivePeers (fun x t => mkTorrent (InfoHash t) (Magnet t) (Label t) (TargetDir t) (Paused t) (CreatedAt t) (UpdatedAt t) (Name t) (Length t) (BytesCompleted t) x (Seeders t)) set_int64);
   ("seeders", field Seeders (fun x t => mkTorrent (InfoHash t) (Magnet t) (Label t) (TargetDir t) (Paused t) (CreatedAt t) (UpdatedAt t) (Name t) (Length t) (BytesCompleted t) (ActivePeers t) x) set_int64)].

Definition torrent_response_fields : fields Torrent :=
  [("torrent", set_struct torrent_fields)].

Definition list_response_fields : fields (list Torrent) :=
  [("torrents", set_list zero_torrent (set_struct torrent_fields))].

(** The message of an [ErrorResponse]. *)
Definition error_fields : fields string := [("error", set_string)].
End fields.

Record AddTorrentRequest : Type := mkAddTorrentRequest {
  RMagnet : string;
  RLabel : string;
  RTargetDir : string;
}.

Definition request_fields : fields AddTorrentRequest :=
  [("magnet", field RMagnet (fun x t => mkAddTorrentRequest x (RLabel t) (RTargetDir t)) set_string);
   ("label", field RLabel (fun x t => mkAddTorrentRequest (RMagnet t) x (RTargetDir t)) set_string);
   ("targetDir", field RTargetDir (fun x t => mkAddTorrentRequest (RMagnet t) (RLabel t) x) set_string)].

Definition request_json (r : AddTorrentRequest) : value :=
  Object (member "magnet" (of_string (RMagnet r)) ++ member "label" (of_string (RLabel r)) ++
          member "targetDir" (of_string (RTargetDir r))).

Section handlers.
Context `{HttpEnv}.

(** ** Reading requests and writing responses *)

(** [AddTorrentRequest.Validate] *)
Definition Validate (r : AddTorrentRequest) : option error := required "magnet" (RMagnet r).

(** [decode[AddTorrentRequest]] *)
Definition decode_request (body : string) : result AddTorrentRequest :=
  let '(t, failed) := decode (set_struct request_fields) body (mkAddTorrentRequest "" "" "") in
  if failed then Err (EWrap "failed to decode request: " (json_error body) "")
  else match Validate t with
       | Some e => Err e
       | None => Ok t
       end.

(** The encoder writes nothing when a value cannot be encoded. *)
Definition writeJSON (status : Z) (v : option value) : prog httpE unit :=
  call (HeaderSet "Content-Type" "application/json");;
  call (WriteHeader status);;
  match v with
  | Some x => call (Write (encode x))
  | None => Ret tt
  end.

Definition writeErrorf (status : Z) (message : string) : prog httpE unit :=
  writeJSON status (error_response message).

(** ** The handlers *)

Definition addMagnet (r : Request) : prog httpE unit :=
  match decode_request (r_body r) with
  | Err err => writeErrorf 400 (error_text err)
  | Ok request =>
      t <- call (Service (TsAddMagnet (RMagnet request)
                   (service.mkAddOptions (RLabel request) (RTargetDir request))));;
      match t with
      | Err err =>
          if error_is err SvcErrTorrentAlreadyExists then writeErrorf 409 "torrent already exists"
          else writeErrorf 500 ("failed to add torrent: " +:+ error_text err)
      | Ok t => writeJSON 201 (torrent_response (newTorrent t))
      end
  end.

Definition addFile (r : Request) : prog httpE unit :=
  match ParseMultipartForm r with
  | Err err => writeErrorf 400 ("failed to parse multipart form: " +:+ error_text err)
  | Ok form =>
      match FormFile form "file" with
      | Err _ => writeErrorf 400 "missing file part"
      | Ok file =>
          t <- call (Service (TsAddFile file
                       (service.mkAddOptions (FormValue form "label") (FormValue form "targetDir"))));;
          match t with
          | Err err =>
              if error_is err SvcErrInvalidTorrentFile then writeErrorf 400 "invalid torrent file"
              else if error_is err SvcErrTorrentAlreadyExists then writeErrorf 409 "torrent already exists"
              else writeErrorf 500 ("failed to add torrent: " +:+ error_text err)
          | Ok t => writeJSON 201 (torrent_response (newTorrent t))
          end
      end
  end.

Definition Add (r : Request) (_ : list string) : prog httpE unit :=
  let mediaType := mime.media_type (r_content_type r) in
  if decide (mediaType = "multipart/form-data") then addFile r
  else if decide (mediaType = "" \/ mediaType = "application/json") then addMagnet r
  else writeErrorf 415 ("unsupported content type " +:+ quote mediaType).

Definition List (r : Request) (_ : list string) : prog httpE unit :=
  torrents <- call (Service TsList);;
  match torrents with
  | Err err => writeErrorf 500 ("failed to list torrents: " +:+ error_text err)
  | Ok torrents => writeJSON 200 (list_response (map newTorrent torrents))
  end.

Definition does_not_exist (hash : string) : string := "torrent " +:+ quote hash +:+ " does not exist".

Definition Get (r : Request) (values : list string) : prog httpE unit :=
  t <- call (Service (TsGet (PathValue values)));;
  match t with
  | Err err =>
      if error_is err SvcErrTorrentNotFound then writeErrorf 404 (does_not_exist (PathValue values))
      else writeErrorf 500 ("failed to load torrent: " +:+ error_text err)
  | Ok t => writeJSON 200 (torrent_response (newTorrent t))
  end.

(** The end of [Remove], [Pause] and [Resume]. *)
Definition finish_action (hash failure : string) (err : result unit) : prog httpE unit :=
  match err with
  | Err err =>
      if error_is err SvcErrTorrentNotFound then writeErrorf 404 (does_not_exist hash)
      else writeErrorf 500 (failure +:+ error_text err)
  | Ok _ => writeJSON 200 empty_response
  end.

Definition Remove (r : Request) (values : list string) : prog httpE unit :=
  let deleteFiles := bool_decide (QueryGet r "files" = "true") in
  err <- call (Service (TsRemove (PathValue values) deleteFiles));;
  finish_action (PathValue values) "failed to remove torrent: " err.

Definition Pause (r : Request) (values : list string) : prog httpE unit :=
  err <- call (Service (TsPause (PathValue values)));;
  finish_action (PathValue values) "failed to pause torrent: " err.

Definition Resume (r : Request) (values : list string) : prog httpE unit :=
  err <- call (Service (TsResume (PathValue values)));;
  finish_action (PathValue values) "failed to resume torrent: " err.

(** [TorrentAPI.Register] *)
Definition routes : list route :=
  let root := [Lit "api"; Lit "v1"; Lit "torrents"] in
  [mkRoute "POST" root false Add;
   mkRoute "GET" root false List;
   mkRoute "GET" (root ++ [Wild]) false Get;
   mkRoute "DELETE" (root ++ [Wild]) false Remove;
   mkRoute "POST" (root ++ [Wild; Lit "pause"]) false Pause;
   mkRoute "POST" (root ++ [Wild; Lit "resume"]) false Resume].

(** ** The middlewares *)

(** [Recovery]: a panic is logged and answered with status 500. *)
Definition Recovery (next : Request -> prog httpE unit) (r : Request) : prog httpE unit :=
  Try (next r) (fun rv =>
    match rv with
    | Val _ => Ret tt
    | Panicked msg =>
        call (LogHttp ("handler panicked: " +:+ msg));;
        writeErrorf 500 "internal server error"
    end).

(** [recordingResponseWriter]: the status of every [WriteHeader] is recorded. *)
Definition record {B} (e : httpE B) : prog midE B :=
  match e in httpE B return prog midE B with
  | WriteHeader st => call (SetStatus st);; call (Http (WriteHeader st))
  | e => call (Http e)
  end.

(** The line of a request: method, path and status. *)
Definition log_text (r : Request) (st : Z) : string :=
  "http request " +:+ r_method r +:+ " /" +:+ String.concat "/" (r_path r) +:+ " " +:+ int_text st.

(** [Logging] *)
Definition Logging (next : Request -> prog httpE unit) (r : Request) : prog midE unit :=
  call (SetStatus 200);;
  interp (@record) (next r);;
  st <- call GetStatus;;
  call (Http (LogHttp (log_text r st))).

(** A request to the server: the middlewares around the mux. A panic that
    leaves the handler ends the connection without a response. *)
Definition serve_logged {S} (svc : handler tsE S) (rs : list route) (s : S) (r : Request)
    : option Response * S * list string :=
  let '(a, (h, _)) := run (mid_handle svc) (Logging (Recovery (ServeHTTP rs)) r)
                        (mkHstate s new_writer [], 0) in
  (match a with Val _ => Some (finish (h_writer h)) | Panicked _ => None end, h_svc h, h_log h).

Definition serve {S} (svc : handler tsE S) (rs : list route) (s : S) (r : Request) : option Response * S :=
  fst (serve_logged svc rs s r).

End handlers.

(** ** Reading back what was written *)

(** The torrents JSON can express: instants of four-digit years, 64-bit counts. *)
Record expressible (t : Torrent) : Prop := {
  ex_created : valid_time (CreatedAt t);
  ex_updated : valid_time (UpdatedAt t);
  ex_length : in_int64 (Length t) = true;
  ex_bytes : in_int64 (BytesCompleted t) = true;
  ex_peers : in_int64 (ActivePeers t) = true;
  ex_seeders : in_int64 (Seeders t) = true;
}.

#[global] Instance expressible_dec t : Decision (expressible t).
Proof.
  refine (cast_if (decide (valid_time (CreatedAt t) /\ valid_time (UpdatedAt t) /\ in_int64 (Length t) = true /\
    in_int64 (BytesCompleted t) = true /\ in_int64 (ActivePeers t) = true /\ in_int64 (Seeders t) = true)));
    [by split; naive_solver|intros []; naive_solver].
Defined.

(** The text of a torrent as JSON carries it. *)
Definition received (t : Torrent) : Torrent :=
  mkTorrent (sanitize (InfoHash t)) (sanitize (Magnet t)) (sanitize (Label t)) (sanitize (TargetDir t))
    (Paused t) (CreatedAt t) (UpdatedAt t) (sanitize (Name t)) (Length t) (BytesCompleted t)
    (ActivePeers t) (Seeders t).

(** A field that is left out when it is empty is read back when the variable is
    empty. *)
Lemma set_omitted {T A} (fs : fields T) name (get : T -> A) set (st : setter A) (empty : bool) v x t :
  utf8_valid name = true -> find_field fs name = Some (field get set st) ->
  (forall old, st v old = (x, false)) -> (empty = true -> set x t = t) ->
  set_members fs (omit_if empty (member name v)) t = (set x t, false).
Proof.
  intros Hn Hf Hst He. destruct empty; simpl omit_if.
  - by rewrite He.
  - rewrite (set_members_member _ _ _ _ _ Hn Hf). unfold field. by rewrite Hst.
Qed.

Lemma set_field {T A} (fs : fields T) name (get : T -> A) set (st : setter A) v x t :
  utf8_valid name = true -> find_field fs name = Some (field get set st) ->
  (forall old, st v old = (x, false)) ->
  set_members fs (member name v) t = (set x t, false).
Proof. intros Hn Hf Hst. by apply (set_omitted fs name get set st false). Qed.

Lemma set_torrent fb t :
  expressible t -> set_members (torrent_fields fb) (torrent_members t) zero_torrent = (received t, false).
Proof.
  intros [H1 H2 H3 H4 H5 H6]. unfold torrent_members, zero_torrent.
  do 7 (rewrite set_members_app; erewrite set_field;
    [|reflexivity|reflexivity|intros; first [by apply set_string_of|by apply set_time_of|reflexivity]];
    cbn iota beta; cbn [InfoHash Magnet Label TargetDir Paused CreatedAt UpdatedAt Name Length BytesCompleted ActivePeers Seeders]).
  do 5 (rewrite ?set_members_app; erewrite set_omitted;
    [|reflexivity|reflexivity|intros; first [by apply set_string_of|by apply set_int64_of]
     |first [intros E%bool_decide_eq_true|intros E%Z.eqb_eq]; rewrite E; reflexivity];
    cbn iota beta; cbn [InfoHash Magnet Label TargetDir Paused CreatedAt UpdatedAt Name Length BytesCompleted ActivePeers Seeders]).
  done.
Qed.

End api.
