(* ===== verification/ApiFacts.v ===== *)
(** * Facts about the API

    What the handlers do, as equations the theorems about the API and the
    client library share: the texts they write are read back, and a request is
    answered by one response that the service's answer determines. *)

From S2P Require Import Prelude GoErrors Prog GoTime World Service Json Http Api.
From Stdlib Require Import ZArith Lia Ascii String.
From stdpp Require Import base gmap strings list.

Local Open Scope Z_scope.
Import json api.

(** ** The texts *)

Lemma wf_members_app l1 l2 : wf (Object (l1 ++ l2)) = wf (Object l1) && wf (Object l2).
Proof. apply forallb_app. Qed.

Lemma wf_member name v : wf v = true -> wf (Object (member name v)) = true.
Proof. intros H. simpl. by rewrite valid_escape, H. Qed.

Lemma wf_omit b l : wf (Object l) = true -> wf (Object (omit_if b l)) = true.
Proof. by destruct b. Qed.

Lemma wf_torrent t : expressible t -> wf (Object (torrent_members t)) = true.
Proof.
  intros Ht. unfold torrent_members. rewrite !wf_members_app, !andb_true_iff.
  repeat match goal with |- _ /\ _ => split end;
    repeat apply wf_omit; apply wf_member; auto using ex_created, ex_updated with torrents.
Qed.

Definition flat (v : value) : bool := match v with Array _ | Object _ => false | _ => true end.

Lemma depth_flat_object l : forallb (fun m => flat (snd m)) l = true -> depth (Object l) = 1%N.
Proof.
  intros H. cbn [depth]. replace (fold_right _ _ _) with 0%N; [done|].
  induction l as [|[k v] l IH]; [done|]. simpl in *. apply andb_true_iff in H as [Hv Hl].
  rewrite <- IH by done. by destruct v.
Qed.

Lemma depth_member name v : depth (Object (member name v)) = (1 + depth v)%N.
Proof. change (1 + N.max (depth v) 0 = 1 + depth v)%N. by rewrite N.max_0_r. Qed.

Lemma depth_torrent t : depth (Object (torrent_members t)) = 1%N.
Proof.
  apply depth_flat_object. unfold torrent_members, omit_if.
  destruct (bool_decide _), (Length t =? 0), (BytesCompleted t =? 0), (ActivePeers t =? 0), (Seeders t =? 0);
    reflexivity.
Qed.

Lemma valid_year_ok t : valid_time t -> year_ok t = true.
Proof. intros ([? ?] & _). unfold year_ok. by rewrite !(proj2 (Z.leb_le _ _)). Qed.

Lemma torrent_json_Some t : expressible t -> torrent_json t = Some (Object (torrent_members t)).
Proof. intros Ht. unfold torrent_json. by rewrite !valid_year_ok by (by destruct Ht). Qed.

Section texts.
Context (fb : string -> result time).

Lemma decode_torrent_response t :
  expressible t -> exists v, torrent_response t = Some v /\
  decode (set_struct (torrent_response_fields fb)) (encode v) zero_torrent = (received t, false).
Proof.
  intros Ht. unfold torrent_response. rewrite torrent_json_Some by done. eexists. split; [done|].
  rewrite decode_encode.
  - cbn [set_struct]. rewrite (set_members_member _ _ (set_struct (torrent_fields fb))) by done.
    cbn [set_struct]. by apply set_torrent.
  - apply wf_member, wf_torrent, Ht.
  - by rewrite depth_member, depth_torrent.
Qed.

Lemma torrents_json_Some l : Forall expressible l ->
  torrents_json l = Some (map (fun t => Object (torrent_members t)) l).
Proof.
  induction 1 as [|t l Ht _ IH]; [done|]. cbn [torrents_json]. rewrite torrent_json_Some by done.
  simpl. by rewrite IH.
Qed.

Lemma set_torrents l : Forall expressible l ->
  set_elems zero_torrent (set_struct (torrent_fields fb)) (map (fun t => Object (torrent_members t)) l) [] = (map received l, false).
Proof.
  induction 1 as [|t l Ht _ IH]; [done|]. cbn [map set_elems]. cbn [set_struct tail].
  rewrite set_torrent by done. by rewrite IH.
Qed.

Lemma list_response_wf l :
  Forall expressible l ->
  let v := Object (member "torrents" (Array (map (fun t => Object (torrent_members t)) l))) in
  list_response l = Some v /\ wf v = true /\ (depth v <= max_depth)%N.
Proof.
  intros Hl v. split_and!.
  - unfold list_response. by rewrite torrents_json_Some.
  - apply wf_member. cbn [wf]. apply forallb_forall. intros x (t & <- & Ht)%List.in_map_iff.
    apply wf_torrent. rewrite List.Forall_forall in Hl. auto.
  - unfold v. rewrite depth_member. clear Hl v.
    change (1 + (1 + fold_right N.max 0 (map depth (map (fun t => Object (torrent_members t)) l))) <= max_depth)%N.
    assert (fold_right N.max 0 (map depth (map (fun t => Object (torrent_members t)) l)) <= 1)%N; [|unfold max_depth; lia].
    induction l as [|t l IH]; [done|]. cbn [map fold_right]. rewrite depth_torrent. lia.
Qed.

Lemma decode_list_response l :
  Forall expressible l -> exists v, list_response l = Some v /\
  decode (set_struct (list_response_fields fb)) (encode v) [] = (map received l, false).
Proof.
  intros Hl. destruct (list_response_wf l Hl) as (-> & Hwf & Hd). eexists. split; [done|].
  rewrite decode_encode by done.
  cbn [set_struct]. rewrite (set_members_member _ _ (set_list zero_torrent (set_struct (torrent_fields fb)))) by done.
  cbn [set_list]. by apply set_torrents.
Qed.

(** The list has no member [torrent]. *)
Lemma decode_list_as_torrent l :
  Forall expressible l -> exists v, list_response l = Some v /\
  decode (set_struct (torrent_response_fields fb)) (encode v) zero_torrent = (zero_torrent, false).
Proof.
  intros Hl. destruct (list_response_wf l Hl) as (-> & Hwf & Hd). eexists. split; [done|].
  by rewrite decode_encode.
Qed.
End texts.

Lemma decode_error_response m : exists v, error_response m = Some v /\
  decode (set_struct error_fields) (encode v) "" = (sanitize m, false).
Proof.
  eexists. split; [done|]. rewrite decode_encode; [|by apply wf_member; auto with torrents|done].
  cbn [set_struct]. rewrite (set_members_member _ _ set_string) by done. by apply set_string_of.
Qed.

Lemma decode_empty_response {T} (zero : T) : decode (set_struct []) (encode (Object [])) zero = (zero, false).
Proof. by rewrite decode_encode. Qed.

(** A request the client library writes is decoded as it was given. *)
Definition received_request (r : AddTorrentRequest) : AddTorrentRequest :=
  mkAddTorrentRequest (sanitize (RMagnet r)) (sanitize (RLabel r)) (sanitize (RTargetDir r)).

Lemma decode_request_json r :
  decode (set_struct request_fields) (encode (request_json r)) (mkAddTorrentRequest "" "" "") =
  (received_request r, false).
Proof.
  unfold request_json. rewrite decode_encode; [|
    by rewrite !wf_members_app, !wf_member by auto with torrents|done].
  cbn [set_struct].
  do 3 (rewrite ?set_members_app; erewrite set_field;
    [|reflexivity|reflexivity|intros; by apply set_string_of]; cbn iota beta; cbn [RMagnet RLabel RTargetDir]).
  done.
Qed.

(** ** Responses *)

Definition json_response (st : Z) (v : option value) : Response :=
  mkResponse st {["Content-Type" := "application/json"]} (from_option encode "" v).

Definition error_reply (st : Z) (m : string) : Response := json_response st (error_response m).

(** What [Recovery] answers when nothing was sent. *)
Definition internal_error : Response := error_reply 500 "internal server error".

Definition answer (p : Z * option value) : Response := json_response (fst p) (snd p).

Definition get_reply (hash : string) (t : result service.Torrent) : Z * option value :=
  match t with
  | Ok t => (200, torrent_response (newTorrent t))
  | Err e => if error_is e SvcErrTorrentNotFound then (404, error_response (does_not_exist hash))
             else (500, error_response ("failed to load torrent: " +:+ error_text e))
  end.

Definition list_reply (l : result (list service.Torrent)) : Z * option value :=
  match l with
  | Ok l => (200, list_response (map newTorrent l))
  | Err e => (500, error_response ("failed to list torrents: " +:+ error_text e))
  end.

Definition action_reply (hash failure : string) (u : result unit) : Z * option value :=
  match u with
  | Ok _ => (200, empty_response)
  | Err e => if error_is e SvcErrTorrentNotFound then (404, error_response (does_not_exist hash))
             else (500, error_response (failure +:+ error_text e))
  end.

Definition add_magnet_reply (t : result service.Torrent) : Z * option value :=
  match t with
  | Ok t => (201, torrent_response (newTorrent t))
  | Err e => if error_is e SvcErrTorrentAlreadyExists then (409, error_response "torrent already exists")
             else (500, error_response ("failed to add torrent: " +:+ error_text e))
  end.

Definition add_file_reply (t : result service.Torrent) : Z * option value :=
  match t with
  | Ok t => (201, torrent_response (newTorrent t))
  | Err e => if error_is e SvcErrInvalidTorrentFile then (400, error_response "invalid torrent file")
             else if error_is e SvcErrTorrentAlreadyExists then (409, error_response "torrent already exists")
             else (500, error_response ("failed to add torrent: " +:+ error_text e))
  end.

Section run.
Context `{HttpEnv} {S : Type} (svc : handler tsE S).

Definition respond (st : Z) (v : option value) (h : hstate S) : hstate S :=
  on_writer (fun w =>
    let w1 := write_header st (header_set "Content-Type" "application/json" w) in
    match v with Some x => write (encode x) w1 | None => w1 end) h.

Lemma run_writeJSON st v h : run (http_handle svc) (writeJSON st v) h = (Val tt, respond st v h).
Proof. by destruct v. Qed.

Lemma respond_svc st v h : h_svc (respond st v h) = h_svc h.
Proof. done. Qed.

Lemma finish_respond st v h : h_writer h = new_writer -> finish (h_writer (respond st v h)) = json_response st v.
Proof. intros E. unfold respond, on_writer. cbn [h_writer]. rewrite E. by destruct v. Qed.

(** The recording writer only records. *)
Lemma run_record {A} (p : prog httpE A) h st :
  exists st', run (mid_handle svc) (interp (@record) p) (h, st) =
    (fst (run (http_handle svc) p h), (snd (run (http_handle svc) p h), st')).
Proof.
  revert h st. induction p as [A a|A B e k IH|A B q IHq k IH]; intros h st.
  - by exists st.
  - cbn [interp]. rewrite run_bind. cbn [run].
    assert (exists st1, run (mid_handle svc) (record e) (h, st) =
      (fst (http_handle svc B e h), (snd (http_handle svc B e h), st1))) as [st1 ->].
    { destruct e; eexists; cbn; try done.
      destruct (svc A0 c (h_svc h)) as [[b|m] s]; done. }
    destruct (http_handle svc B e h) as [[b|m] h1]; [|by exists st1]. apply IH.
  - cbn [interp run]. destruct (IHq h st) as [st1 ->].
    destruct (run (http_handle svc) q h) as [r h1]. apply IH.
Qed.

(** Every request is answered: the handler's response, or status 500. *)
Lemma serve_eq rs s r :
  serve svc rs s r =
  let '(a, h) := run (http_handle svc) (ServeHTTP rs r) (mkHstate s new_writer []) in
  (Some (finish (h_writer (match a with Val _ => h | Panicked _ => respond 500 (error_response "internal server error") h end))),
   h_svc h).
Proof.
  unfold serve, serve_logged, Logging. cbn [pbind call run mid_handle fst snd].
  rewrite run_bind. destruct (run_record (Recovery (ServeHTTP rs) r) (mkHstate s new_writer []) 200) as [st ->].
  unfold Recovery. cbn [run]. destruct (run (http_handle svc) (ServeHTTP rs r) _) as [[a|m] h]; [done|].
  cbn [pbind call run http_handle]. unfold writeErrorf. rewrite run_writeJSON. done.
Qed.

(** A handler that calls the service once and answers in JSON. *)
Definition replies {A} (p : prog httpE unit) (c : tsE A) (reply : A -> Z * option value) : Prop :=
  forall h, h_writer h = new_writer ->
  let '(a, s) := svc A c (h_svc h) in
  exists h', h_svc h' = s /\
    match a with
    | Val x => run (http_handle svc) p h = (Val tt, h') /\ finish (h_writer h') = answer (reply x)
    | Panicked m => run (http_handle svc) p h = (Panicked m, h') /\ h_writer h' = new_writer
    end.

Lemma replies_intro {A} (c : tsE A) (k : A -> prog httpE unit) (reply : A -> Z * option value) :
  (forall x, k x = writeJSON (fst (reply x)) (snd (reply x))) ->
  replies (x <- call (Service c);; k x)%prog c reply.
Proof.
  intros Hk h Hw. cbn [pbind call run http_handle]. destruct (svc A c (h_svc h)) as [[x|m] s].
  - rewrite Hk, run_writeJSON. eexists. split; [|split; [done|by apply finish_respond]]. done.
  - eexists. split; [|split; [done|]]; done.
Qed.

Lemma serve_replies {A} rs s r hd values (c : tsE A) reply :
  route_match rs (r_method r) (r_path r) = Some (hd, values) ->
  replies (hd r values) c reply ->
  serve svc rs s r =
  let '(a, s') := svc A c s in
  (Some (match a with Val x => answer (reply x) | Panicked _ => internal_error end), s').
Proof.
  intros Hm Hr. rewrite serve_eq. unfold ServeHTTP. rewrite Hm.
  specialize (Hr (mkHstate s new_writer []) eq_refl). cbn [h_svc] in Hr.
  destruct (svc A c s) as [[x|m] s']; destruct Hr as (h' & <- & -> & Hf).
  - by rewrite Hf.
  - by rewrite finish_respond.
Qed.

(** A handler that answers without calling the service. *)
Lemma serve_direct rs s r hd values st v :
  route_match rs (r_method r) (r_path r) = Some (hd, values) ->
  hd r values = writeJSON st v ->
  serve svc rs s r = (Some (json_response st v), s).
Proof.
  intros Hm Hr. rewrite serve_eq. unfold ServeHTTP. rewrite Hm, Hr, run_writeJSON.
  by rewrite finish_respond.
Qed.

(** ** The replies of the endpoints *)

Lemma Get_replies r values :
  replies (Get r values) (TsGet (PathValue values)) (get_reply (PathValue values)).
Proof. apply replies_intro. intros x. by repeat (simpl; case_match). Qed.

Lemma List_replies r values : replies (List r values) TsList list_reply.
Proof. apply replies_intro. intros x. by repeat (simpl; case_match). Qed.

Lemma Remove_replies r values :
  replies (Remove r values) (TsRemove (PathValue values) (bool_decide (QueryGet r "files" = "true")))
    (action_reply (PathValue values) "failed to remove torrent: ").
Proof. apply replies_intro. intros x. unfold finish_action. by repeat (simpl; case_match). Qed.

Lemma Pause_replies r values :
  replies (Pause r values) (TsPause (PathValue values)) (action_reply (PathValue values) "failed to pause torrent: ").
Proof. apply replies_intro. intros x. unfold finish_action. by repeat (simpl; case_match). Qed.

Lemma Resume_replies r values :
  replies (Resume r values) (TsResume (PathValue values)) (action_reply (PathValue values) "failed to resume torrent: ").
Proof. apply replies_intro. intros x. unfold finish_action. by repeat (simpl; case_match). Qed.

Lemma addMagnet_replies r req :
  decode_request (r_body r) = Ok req ->
  replies (addMagnet r) (TsAddMagnet (RMagnet req) (service.mkAddOptions (RLabel req) (RTargetDir req))) add_magnet_reply.
Proof.
  intros E. unfold addMagnet. rewrite E. apply replies_intro. intros x. by repeat (simpl; case_match).
Qed.

Lemma addFile_replies r form file :
  ParseMultipartForm r = Ok form -> FormFile form "file" = Ok file ->
  replies (addFile r)
    (TsAddFile file (service.mkAddOptions (FormValue form "label") (FormValue form "targetDir"))) add_file_reply.
Proof.
  intros E1 E2. unfold addFile. rewrite E1, E2. apply replies_intro. intros x. by repeat (simpl; case_match).
Qed.

End run.
