(* ===== verification/JsonIndent.v ===== *)
(** * Indented JSON

    [json.Encoder] after [SetIndent("", "  ")], as the commands of cmd/ print
    their results: every element and member on a line of its own, two spaces
    per level, and empty arrays and objects on one line. The text is read back
    to the same value. *)

From S2P Require Import Prelude GoErrors GoTime Json.
From Stdlib Require Import ZArith Lia Ascii String.
From stdpp Require Import base gmap strings list.

Local Open Scope Z_scope.
Import json.

Fixpoint blanks (n : nat) : string :=
  match n with
  | O => ""
  | S m => "  " +:+ blanks m
  end.

(** A new line at level [n]. *)
Definition line (n : nat) : string := newline +:+ blanks n.

Fixpoint print_indent (n : nat) (v : value) : string :=
  match v with
  | Array [] => "[]"
  | Object [] => "{}"
  | Array l =>
      "[" +:+ line (S n) +:+ String.concat ("," +:+ line (S n)) (map (print_indent (S n)) l) +:+ line n +:+ "]"
  | Object l =>
      "{" +:+ line (S n) +:+
      String.concat ("," +:+ line (S n)) (map (fun m => quoted (fst m) +:+ ": " +:+ print_indent (S n) (snd m)) l) +:+
      line n +:+ "}"
  | _ => print v
  end.

(** [enc.SetIndent("", "  "); enc.Encode(v)] *)
Definition encode_indent (v : value) : string := print_indent 0 v +:+ newline.

Definition indent_member (n : nat) (m : string * value) : string :=
  quoted (fst m) +:+ ": " +:+ print_indent n (snd m).

(** ** Reading it back *)

Lemma skip_blanks n s : skip_ws (blanks n +:+ s) = skip_ws s.
Proof. induction n as [|n IH]; [by rewrite str_app_nil_l|]. cbn [blanks].
  by rewrite <- str_app_assoc, !str_app_cons, str_app_nil_l.
Qed.

Lemma skip_line n s : skip_ws (line n +:+ s) = skip_ws s.
Proof. unfold line, newline. rewrite <- str_app_assoc, str_app_cons, str_app_nil_l. apply skip_blanks. Qed.

Lemma parse_value_skip f d s t : skip_ws s = skip_ws t -> parse_value f d s = parse_value f d t.
Proof. intros E. destruct f; [done|]. cbn [parse_value]. by rewrite E. Qed.

Lemma parse_members_skip f d s t : skip_ws s = skip_ws t -> parse_members f d s = parse_members f d t.
Proof. intros E. destruct f; [done|]. cbn [parse_members]. by rewrite E. Qed.

Lemma parse_elems_skip f d s t : skip_ws s = skip_ws t -> parse_elems f d s = parse_elems f d t.
Proof. intros E. destruct f; [done|]. cbn [parse_elems]. by rewrite (parse_value_skip f d s t). Qed.

Lemma stops_line n s : stops (line n +:+ s) = true.
Proof. unfold line. by rewrite <- str_app_assoc. Qed.

Definition reads_indent (v : value) : Prop :=
  forall n f d rest, (2 * String.length (print_indent n v) <= f)%nat -> (d + depth v <= max_depth)%N ->
  stops rest = true -> parse_value f d (print_indent n v +:+ rest) = Some (v, rest).

(** The elements of an array at level [n] and its closing bracket. *)
Lemma reads_indent_elems n l f d rest :
  l <> [] -> Forall reads_indent l ->
  (2 * String.length (String.concat ("," +:+ line (S n)) (map (print_indent (S n)) l)) + 3 <= f)%nat ->
  (d + fold_right N.max 0%N (map depth l) <= max_depth)%N ->
  parse_elems f d (String.concat ("," +:+ line (S n)) (map (print_indent (S n)) l) +:+ line n +:+ "]" +:+ rest) =
  Some (l, rest).
Proof.
  intros Hne Hl. revert f. induction Hl as [|v l Hv Hl IH]; [done|]. intros f Hf Hd.
  destruct f as [|f]; [lia|]. cbn [map fold_right] in *. rewrite concat_cons in *.
  cbn [parse_elems]. destruct l as [|v' l]; cbn [map] in *.
  - rewrite (Hv (S n) f d); [|lia|lia|apply stops_line]. cbn [mbind option_bind].
    rewrite skip_line, str_app_cons, str_app_nil_l. done.
  - rewrite !str_length_app in Hf. cbn [String.length] in Hf.
    rewrite <- !str_app_assoc. rewrite (Hv (S n) f d); [|lia|lia|done]. cbn [mbind option_bind].
    rewrite (str_app_cons "," ""), str_app_nil_l.
    change (skip_ws (String "," ?x)) with (String "," x). change (after_word "," (String "," ?x)) with (Some x).
    cbn [mbind option_bind]. rewrite (parse_elems_skip f d _ _ (skip_line _ _)). rewrite IH; [done|done| |lia].
    lia.
Qed.

Lemma reads_indent_members n l f d rest :
  l <> [] -> Forall (fun m => reads_indent (snd m)) l -> forallb (fun m => valid_string (fst m)) l = true ->
  (2 * String.length (String.concat ("," +:+ line (S n)) (map (indent_member (S n)) l)) + 3 <= f)%nat ->
  (d + fold_right N.max 0%N (map (fun m => depth (snd m)) l) <= max_depth)%N ->
  parse_members f d (String.concat ("," +:+ line (S n)) (map (indent_member (S n)) l) +:+ line n +:+ "}" +:+ rest) =
  Some (l, rest).
Proof.
  intros Hne Hl. revert f. induction Hl as [|[k v] l Hv Hl IH]; [done|]. intros f Hs Hf Hd.
  destruct f as [|f]; [lia|]. cbn [map fold_right forallb fst snd] in *. rewrite concat_cons in *.
  apply andb_true_iff in Hs as [Hk Hs].
  assert (forall t, indent_member (S n) (k, v) +:+ t =
    String quot (k +:+ String quot (String ":" (String " " (print_indent (S n) v +:+ t))))) as Hm.
  { intros t. unfold indent_member, quoted. cbn [fst snd].
    by rewrite !str_app_cons, <- !str_app_assoc, !str_app_cons. }
  assert (String.length (print_indent (S n) v) + 4 <= String.length (indent_member (S n) (k, v)))%nat as Hlen.
  { unfold indent_member, quoted. cbn [fst snd]. rewrite !str_app_cons. cbn [String.length].
    rewrite !str_length_app. cbn [String.length]. rewrite str_app_nil_l. simpl. lia. }
  assert (forall t, stops t = true -> (2 * String.length (indent_member (S n) (k, v)) <= f + 1)%nat ->
    parse_value f d (String " " (print_indent (S n) v +:+ t)) = Some (v, t)) as Hread.
  { intros t Ht Hft. rewrite (parse_value_skip f d _ (print_indent (S n) v +:+ t)) by done.
    apply Hv; [cbn [snd]; lia|cbn [snd]; lia|done]. }
  cbn [parse_members]. destruct l as [|[k' v'] l]; cbn [map] in *.
  - rewrite Hm. change (skip_ws (String quot ?x)) with (String quot x).
    change (after_word _ (String quot ?x)) with (Some x). cbn [mbind option_bind].
    rewrite valid_string_scan by done. cbn [mbind option_bind].
    change (after_word _ (skip_ws (String ":" ?x))) with (Some x). cbn [mbind option_bind].
    rewrite Hread by (done || apply stops_line || lia).
    cbn [mbind option_bind]. rewrite skip_line, str_app_cons, str_app_nil_l. done.
  - rewrite !str_length_app in Hf. cbn [String.length] in Hf. rewrite <- !str_app_assoc.
    rewrite Hm. change (skip_ws (String quot ?x)) with (String quot x).
    change (after_word _ (String quot ?x)) with (Some x). cbn [mbind option_bind].
    rewrite valid_string_scan by done. cbn [mbind option_bind].
    change (after_word _ (skip_ws (String ":" ?x))) with (Some x). cbn [mbind option_bind].
    rewrite Hread by (done || lia). cbn [mbind option_bind].
    rewrite (str_app_cons "," ""), str_app_nil_l.
    change (after_word "," (skip_ws (String "," ?x))) with (Some x).
    cbn [mbind option_bind]. rewrite (parse_members_skip f d _ _ (skip_line _ _)).
    rewrite IH; [done|done|done| |lia]. lia.
Qed.

Lemma print_indent_head n v : wf v = true ->
  exists c r, print_indent n v = String c r /\ is_space c = false /\ (byte c =? 93) = false.
Proof.
  intros H. destruct v as [|b|x|s|[|v l]|[|m l]];
    try (destruct (print_head _ H) as (c & r & E & ? & ?); by exists c, r);
    (do 2 eexists; split; [cbn [print_indent]; rewrite str_app_cons; reflexivity|done]).
Qed.

Lemma reads_indent_Array l : Forall reads_indent l -> forallb wf l = true -> reads_indent (Array l).
Proof.
  intros IH Hwf n f d rest Hf Hd Hr. destruct l as [|v l].
  { apply (reads_Array [] ltac:(constructor) eq_refl f d rest); [exact Hf|exact Hd|done]. }
  destruct f as [|f]; [simpl in Hf; lia|]. cbn [print_indent depth] in *.
  rewrite <- !str_app_assoc, (str_app_cons "["), str_app_nil_l. cbn [parse_value].
  change (skip_ws (String "[" ?x)) with (String "[" x). cbn iota beta.
  change (byte "[" =? 34) with false. change (byte "[" =? 91) with true. cbn iota.
  rewrite (proj2 (N.leb_gt max_depth d)) by (change (map depth (v :: l)) with (depth v :: map depth l) in Hd; lia).
  rewrite skip_line, (parse_elems_skip f (d + 1) _ _ (skip_line _ _)).
  assert (exists c r, String.concat ("," +:+ line (S n)) (map (print_indent (S n)) (v :: l)) +:+ line n +:+ "]" +:+ rest
    = String c r /\ is_space c = false /\ (byte c =? 93) = false) as (c & r & Ec & Hsp & H93).
  { cbn [forallb] in Hwf. apply andb_true_iff in Hwf as [Hv _].
    destruct (print_indent_head (S n) v Hv) as (c & r & Ec & ? & ?). exists c.
    cbn [map]. rewrite concat_cons.
    destruct (map (print_indent (S n)) l); rewrite Ec, <- ?str_app_assoc, !str_app_cons; eauto. }
  rewrite Ec at 1. cbn [skip_ws]. rewrite Hsp, after_word_miss; [|intros ? [= <- _]; done|done].
  rewrite reads_indent_elems; [done..| |lia].
  rewrite !str_length_app in Hf. cbn [String.length] in Hf. unfold line, newline in *.
  rewrite !str_length_app in *. cbn [String.length] in *. lia.
Qed.

Lemma indent_member_head n m : exists r, indent_member n m = String quot r.
Proof. unfold indent_member, quoted. rewrite str_app_cons. by eexists. Qed.

Lemma reads_indent_Object l :
  Forall (fun m => reads_indent (snd m)) l ->
  forallb (fun m => valid_string (fst m) && wf (snd m)) l = true -> reads_indent (Object l).
Proof.
  intros IH Hwf n f d rest Hf Hd Hr. destruct l as [|m l].
  { apply (reads_Object [] ltac:(constructor) eq_refl f d rest); [exact Hf|exact Hd|done]. }
  destruct f as [|f]; [simpl in Hf; lia|]. cbn [print_indent depth] in *.
  rewrite <- !str_app_assoc, (str_app_cons "{"), str_app_nil_l. cbn [parse_value].
  change (skip_ws (String "{" ?x)) with (String "{" x). cbn iota beta.
  change (byte "{" =? 34) with false. change (byte "{" =? 91) with false.
  change (byte "{" =? 123) with true. cbn iota.
  rewrite (proj2 (N.leb_gt max_depth d)) by (cbn [map fold_right] in Hd; lia).
  fold (indent_member (S n)) in *. rewrite skip_line, (parse_members_skip f (d + 1) _ _ (skip_line _ _)).
  assert (exists r, String.concat ("," +:+ line (S n)) (map (indent_member (S n)) (m :: l)) +:+ line n +:+ "}" +:+ rest
    = String quot r) as (r & Ec).
  { cbn [map]. rewrite concat_cons. destruct (indent_member_head (S n) m) as [r ->].
    destruct (map (indent_member (S n)) l); rewrite <- ?str_app_assoc, !str_app_cons; by eexists. }
  rewrite Ec at 1. cbn [skip_ws]. change (is_space quot) with false. cbn iota.
  change (after_word "}" (String quot r)) with (@None string). cbn iota.
  rewrite reads_indent_members; [done..| | |lia].
  + apply forallb_forall. intros x Hx. rewrite forallb_forall in Hwf. by apply Hwf, andb_true_iff in Hx as [? _].
  + rewrite !str_length_app in Hf. cbn [String.length] in Hf. unfold line, newline in *.
    rewrite !str_length_app in *. cbn [String.length] in *. lia.
Qed.

Lemma wf_reads_indent v : wf v = true -> reads_indent v.
Proof.
  induction v as [|b|x|s|l IH|l IH] using value_nested_ind; intros Hwf;
    [intros n f d rest Hf; by apply wf_reads .. | | ].
  - apply reads_indent_Array; [|done]. by apply (forallb_Forall_imp wf).
  - apply reads_indent_Object; [|done].
    apply (forallb_Forall_imp (fun m => valid_string (fst m) && wf (snd m))); [|done].
    eapply Forall_impl; [exact IH|]. intros m Hm [_ ?]%andb_true_iff. auto.
Qed.

(** What is printed with indentation is read back as what is encoded without. *)
Lemma decode_encode_indent {T} (st : setter T) v (zero : T) :
  wf v = true -> (depth v <= max_depth)%N -> decode st (encode_indent v) zero = st v zero.
Proof.
  intros Hwf Hd. unfold decode, encode_indent, parse.
  rewrite (wf_reads_indent v Hwf 0%nat (fuel_for _) 0%N); [done| |by rewrite N.add_0_l|done].
  unfold fuel_for. rewrite str_length_app. lia.
Qed.
