(* ===== verification/HttpClient.v ===== *)
(** * The client library

    pkg/client: a [Client] builds requests for the JSON API, sends them through
    [http.Client] and decodes the responses. Its methods are programs over
    [wireE], whose only call sends a request; [wire_handle] answers it with the
    server of [Api], so running a method against it is a request over HTTP. *)

From S2P Require Import Prelude GoErrors Prog GoTime FilePath Url World Service Json Http Api.
From Stdlib Require Import ZArith Lia Ascii String.
From stdpp Require Import base gmap strings list.

Local Open Scope Z_scope.
Local Open Scope prog_scope.

(** [http.Client.Do]: the method, the path, the query, the Content-Type and the
    body of the request. Redirections are not followed here: no endpoint of the
    API answers with one. *)
Inductive wireE : Type -> Type :=
| Do (method target query contentType body : string) : wireE (result Response).

Module client.
Import json.

Record Torrent : Type := mkTorrent {
  InfoHash : string;
  Magnet : string;
  Label : string;
  TargetDir : string;
  Paused : bool;
  CreatedAt : time;
  UpdatedAt : time;
  Name : string;
  Length : Z;
  BytesCompleted : Z;
  ActivePeers : Z;
  Seeders : Z;
}.

#[export] Instance Torrent_eq_dec : EqDecision Torrent.
Proof. solve_decision. Defined.

Definition fromAPI (t : api.Torrent) : Torrent :=
  mkTorrent (api.InfoHash t) (api.Magnet t) (api.Label t) (api.TargetDir t) (api.Paused t)
    (api.CreatedAt t) (api.UpdatedAt t) (api.Name t) (api.Length t) (api.BytesCompleted t)
    (api.ActivePeers t) (api.Seeders t).

(** The path of the base URL. *)
Record Client : Type := mkClient { base_path : string }.

(** [New], given [url.Parse]: the path of an address. *)
Definition New (url_parse : string -> result string) (address : string) : result Client :=
  match url_parse address with
  | Err err => Err (EWrap "failed to parse address: " err "")
  | Ok p => Ok (mkClient p)
  end.

Section client.
Context `{Env} `{HttpEnv}.

Definition doBody {R} (response : setter R) (zero : R) (c : Client)
    (method endpoint body contentType : string) : prog wireE (result R) :=
  let '(pathPart, query, _) := url.cut "?" endpoint in
  resp <- call (Do method (path.Join [base_path c; pathPart]) query contentType body);;
  match resp with
  | Err err => Ret (Err (EWrap "failed to send request: " err ""))
  | Ok resp =>
      if (200 <=? rs_status resp) && (rs_status resp <=? 226) then
        let '(r, failed) := decode response (rs_body resp) zero in
        if failed then Ret (Err (EWrap "failed to decode response: " (json_error (rs_body resp)) ""))
        else Ret (Ok r)
      else
        let '(message, _) := decode (set_struct api.error_fields) (rs_body resp) "" in
        Ret (Err (EApi (rs_status resp) message))
  end.

(** [do]: a request without a body, or with a JSON body. *)
Definition do {R} (response : setter R) (zero : R) (c : Client) (method endpoint : string)
    (request : option value) : prog wireE (result R) :=
  match request with
  | None => doBody response zero c method endpoint "" ""
  | Some v => doBody response zero c method endpoint (encode v) "application/json"
  end.

(** [errors.As] with an [ErrorResponse] and a test of its status *)
Definition has_status (status : Z) (err : error) : bool :=
  match as_api err with
  | Some (st, _) => st =? status
  | None => false
  end.
Definition IsNotFound : error -> bool := has_status 404.
Definition IsConflict : error -> bool := has_status 409.
Definition IsBadRequest : error -> bool := has_status 400.

Definition torrents_path : string := "/api/v1/torrents".

(** The torrent of a response. *)
Definition the_torrent (r : result api.Torrent) : result Torrent := outcome_map fromAPI r.

Definition torrent_response : setter api.Torrent := set_struct (api.torrent_response_fields time_fallback).
Definition list_response : setter (list api.Torrent) := set_struct (api.list_response_fields time_fallback).
(** A response without fields. *)
Definition empty_response : setter unit := set_struct [].

Definition AddMagnet (c : Client) (magnet label targetDir : string) : prog wireE (result Torrent) :=
  response <- do torrent_response api.zero_torrent c "POST" torrents_path
                (Some (api.request_json (api.mkAddTorrentRequest magnet label targetDir)));;
  Ret (the_torrent response).

(** The reader yields its contents or fails. *)
Definition buildAddFileBody (reader : result string) (label targetDir : string)
    : result (string * string) :=
  match reader with
  | Err err => Err (EWrap "failed to read torrent file: " err "")
  | Ok contents =>
      Ok (multipart_write (mkForm
        ((if decide (label <> "") then [("label", label)] else []) ++
         (if decide (targetDir <> "") then [("targetDir", targetDir)] else []))
        [("file", contents)]))
  end.

Definition AddFile (c : Client) (reader : result string) (label targetDir : string)
    : prog wireE (result Torrent) :=
  match buildAddFileBody reader label targetDir with
  | Err err => Ret (Err err)
  | Ok (contentType, body) =>
      response <- doBody torrent_response api.zero_torrent c "POST" torrents_path body contentType;;
      Ret (the_torrent response)
  end.

Definition List (c : Client) : prog wireE (result (list Torrent)) :=
  response <- do list_response [] c "GET" torrents_path None;;
  Ret (outcome_map (map fromAPI) response).

Definition Get (c : Client) (hash : string) : prog wireE (result Torrent) :=
  response <- do torrent_response api.zero_torrent c "GET" (path.Join [torrents_path; hash]) None;;
  Ret (the_torrent response).

Definition Remove (c : Client) (hash : string) (deleteFiles : bool) : prog wireE (result unit) :=
  let endpoint := path.Join [torrents_path; hash] in
  do empty_response tt c "DELETE" (if deleteFiles then endpoint +:+ "?files=true" else endpoint) None.

Definition Pause (c : Client) (hash : string) : prog wireE (result unit) :=
  do empty_response tt c "POST" (path.Join [torrents_path; hash; "pause"]) None.

Definition Resume (c : Client) (hash : string) : prog wireE (result unit) :=
  do empty_response tt c "POST" (path.Join [torrents_path; hash; "resume"]) None.

End client.
End client.

(** ** Over the wire *)

(** The segments of a clean path. *)
Definition segments (p : string) : list string :=
  match path.comps p with [] => ["/"] | l => l end.

(** The server at the other end of the connection. *)
Definition wire_handle `{HttpEnv} {S} (svc : handler tsE S) (rs : list route) : handler wireE S :=
  fun B e =>
  match e in wireE B return S -> res B * S with
  | Do method target query contentType body => fun s =>
      let '(resp, s') := api.serve svc rs s (mkRequest method (segments target) query contentType body) in
      (Val (match resp with Some resp => Ok resp | None => Err (EOpaque "EOF") end), s')
  end.

(** The torrent service of the server: every method runs on the world. *)
Definition ts_handle `{Env} (dataDir : string) : handler tsE world := fun B c =>
  match c in tsE B return world -> res B * world with
  | TsAddMagnet uri opts => run_service dataDir (service.AddMagnet uri opts)
  | TsAddFile contents opts => run_service dataDir (service.AddFile contents opts)
  | TsGet h => run_service dataDir (service.Get h)
  | TsFiles h => run_service dataDir (service.Files h)
  | TsList => run_service dataDir service.List
  | TsRemove h del => run_service dataDir (service.Remove h del)
  | TsPause h => run_service dataDir (service.Pause h)
  | TsResume h => run_service dataDir (service.Resume h)
  end.
