(* ===== verification/Cli.v ===== *)
(** * The commands

    cmd/: what the subcommands of the torrents binary do with the flags and the
    argument cobra parsed. Every [RunE] is a program that sends requests through
    the client library, opens files and writes to the standard output; main
    turns its error into the exit status. *)

From S2P Require Import Prelude GoErrors Prog GoTime World Service Json JsonIndent Http Api HttpClient.
From Stdlib Require Import ZArith Lia Ascii String.
From stdpp Require Import base gmap strings list.

Local Open Scope Z_scope.
Local Open Scope prog_scope.
Import json.

(** What a command calls: the server, [os.Open] (an error, or a reader that
    yields the contents or fails), and a write to the standard output. *)
Inductive cliE : Type -> Type :=
| Server {B : Type} (e : wireE B) : cliE B
| OsOpen (name : string) : cliE (result (result string))
| Stdout (text : string) : cliE (option error).

(** A method of the client library, called by a command. *)
Definition request {A} (p : prog wireE A) : prog cliE A := interp (fun B e => call (Server e)) p.

(** ** The JSON of client.Torrent

    The type has no tags: its members carry the names of its fields. *)

Module output.

Definition torrent_members (t : client.Torrent) : list (string * value) :=
  member "InfoHash" (of_string (client.InfoHash t)) ++
  member "Magnet" (of_string (client.Magnet t)) ++
  member "Label" (of_string (client.Label t)) ++
  member "TargetDir" (of_string (client.TargetDir t)) ++
  member "Paused" (Bool (client.Paused t)) ++
  member "CreatedAt" (of_time (client.CreatedAt t)) ++
  member "UpdatedAt" (of_time (client.UpdatedAt t)) ++
  member "Name" (of_string (client.Name t)) ++
  member "Length" (of_int (client.Length t)) ++
  member "BytesCompleted" (of_int (client.BytesCompleted t)) ++
  member "ActivePeers" (of_int (client.ActivePeers t)) ++
  member "Seeders" (of_int (client.Seeders t)).

Definition torrent_json (t : client.Torrent) : option value :=
  if api.year_ok (client.CreatedAt t) && api.year_ok (client.UpdatedAt t)
  then Some (Object (torrent_members t)) else None.

Definition torrents_json (l : list client.Torrent) : option value :=
  Array <$> mapM torrent_json l.

(** What [Encode] reports when a value cannot be written. *)
Definition marshal_error : error :=
  EOpaque "json: error calling MarshalJSON for type time.Time: Time.MarshalJSON: year outside of range [0,9999]".

(** [json.NewEncoder(cmd.OutOrStdout())], [SetIndent("", "  ")], [Encode] *)
Definition Encode (v : option value) : prog cliE (option error) :=
  match v with
  | None => Ret (Some marshal_error)
  | Some v => call (Stdout (encode_indent v))
  end.

End output.

(** ** The commands *)

Section commands.
Context `{Env} `{HttpEnv} (url_parse : string -> result string).

(** A command whose only result is an error: delete, pause and resume. *)
Definition action (address failure : string) (act : client.Client -> prog wireE (result unit))
    : prog cliE (option error) :=
  match client.New url_parse address with
  | Err err => Ret (Some err)
  | Ok c =>
      r <- request (act c);;
      match r with
      | Err err => Ret (Some (EWrap failure err ""))
      | Ok _ => Ret None
      end
  end.
End commands.

Module add.
Section add.
Context `{Env} `{HttpEnv} (url_parse : string -> result string).

(** The torrent file is opened after the client was built; an error of
    [os.Open] is reported in its own words. *)
Definition RunE (address label targetDir arg : string) : prog cliE (option error) :=
  match client.New url_parse address with
  | Err err => Ret (Some err)
  | Ok c =>
      let finish (torrent : result client.Torrent) :=
        match torrent with
        | Err err => Ret (Some (EWrap "failed to add torrent: " err ""))
        | Ok t => output.Encode (output.torrent_json t)
        end in
      if String.prefix "magnet:?" arg then
        torrent <- request (client.AddMagnet c arg label targetDir);;
        finish torrent
      else
        f <- call (OsOpen arg);;
        match f with
        | Err err => Ret (Some (EWrap "failed to open torrent file: " err ""))
        | Ok reader =>
            torrent <- request (client.AddFile c reader label targetDir);;
            finish torrent
        end
  end.
End add.
End add.

Module list.
Section list.
Context `{Env} `{HttpEnv} (url_parse : string -> result string).

Definition RunE (address : string) : prog cliE (option error) :=
  match client.New url_parse address with
  | Err err => Ret (Some err)
  | Ok c =>
      torrents <- request (client.List c);;
      match torrents with
      | Err err => Ret (Some (EWrap "failed to list torrents: " err ""))
      | Ok l => output.Encode (output.torrents_json l)
      end
  end.
End list.
End list.

Module delete.
Definition RunE `{Env} `{HttpEnv} (url_parse : string -> result string) (address : string) (deleteFiles : bool)
    (arg : string) : prog cliE (option error) :=
  action url_parse address "failed to delete torrent: " (fun c => client.Remove c arg deleteFiles).
End delete.

Module pause.
Definition RunE `{Env} `{HttpEnv} (url_parse : string -> result string) (address arg : string)
    : prog cliE (option error) :=
  action url_parse address "failed to pause torrent: " (fun c => client.Pause c arg).
End pause.

Module resume.
Definition RunE `{Env} `{HttpEnv} (url_parse : string -> result string) (address arg : string)
    : prog cliE (option error) :=
  action url_parse address "failed to resume torrent: " (fun c => client.Resume c arg).
End resume.

Module main.
(** [os.Exit(1)] after an error, else the end of [main]. *)
Definition exit_status (err : option error) : Z :=
  match err with Some _ => 1 | None => 0 end.
End main.

(** ** Running a command *)

(** The files of the machine and a standard output that takes everything. *)
Definition cli_handle {S} (wire : handler wireE S) (files : string -> result (result string))
    : handler cliE (S * string) := fun B e =>
  match e in cliE B return S * string -> res B * (S * string) with
  | Server e => fun '(s, out) => let '(a, s') := wire _ e s in (a, (s', out))
  | OsOpen name => fun st => (Val (files name), st)
  | Stdout text => fun '(s, out) => (Val None, (s, out +:+ text))
  end.
