(* ===== verification/Ui.v ===== *)
(** * The web interface

    internal/server/ui: the handlers of the pages and fragments. The views are
    generated from templates; a view is an argument that says what it writes
    for a model and whether rendering it fails. *)

From S2P Require Import Prelude GoErrors Prog GoTime Strconv Json World Service Http.
From Stdlib Require Import ZArith Lia Ascii String.
From stdpp Require Import base gmap strings list.

Local Open Scope Z_scope.
Local Open Scope prog_scope.

Module ui.

Record ShowViewModel : Type := mkShowViewModel {
  SVTorrent : service.Torrent;
  SVFiles : option (list service.File);
}.

Record NewViewModel : Type := mkNewViewModel {
  NVSource : string;
  NVMagnet : string;
  NVLabel : string;
  NVTargetDir : string;
  NVError : string;
}.

(** What a component writes and the error of rendering it. *)
Definition View (model : Type) : Type := model -> string * option error.

Class Views : Type := {
  view_List : View (list service.Torrent);
  view_Show : View ShowViewModel;
  view_ShowDetail : View ShowViewModel;
  view_New : View NewViewModel;
  view_TorrentTable : View (list service.Torrent);
  view_TorrentRow : View service.Torrent;
}.

Record addTorrentForm : Type := mkForm {
  Source : string;
  Magnet : string;
  Label : string;
  TargetDir : string;
}.

Definition errMissingMagnet : error := ESentinel UiErrMissingMagnet.
Definition errMissingFile : error := ESentinel UiErrMissingFile.

Section handlers.
Context `{HttpEnv} `{Views}.

(** [render] panics when the view fails; the status is sent by then. *)
Definition render {model} (status : Z) (view : View model) (m : model) : prog httpE unit :=
  call (HeaderSet "Content-Type" "text/html; charset=utf-8");;
  call (WriteHeader status);;
  let '(text, err) := view m in
  call (Write text);;
  match err with
  | Some e => call (Panic (error_text e))
  | None => Ret tt
  end.

Definition List (r : Request) (_ : list string) : prog httpE unit :=
  torrents <- call (Service TsList);;
  match torrents with
  | Err _ => Error "failed to list torrents" 500
  | Ok torrents => render 200 view_List torrents
  end.

(** The files of [Show] and [Detail]: the error is dropped. *)
Definition files_or_nil (files : result (option (list service.File))) : option (list service.File) :=
  match files with Ok l => l | Err _ => None end.

Definition Show (r : Request) (values : list string) : prog httpE unit :=
  let hash := PathValue values in
  t <- call (Service (TsGet hash));;
  match t with
  | Err err =>
      if error_is err SvcErrTorrentNotFound then Error "torrent not found" 404
      else Error "failed to load torrent" 500
  | Ok t =>
      files <- call (Service (TsFiles hash));;
      render 200 view_Show (mkShowViewModel t (files_or_nil files))
  end.

Definition Detail (r : Request) (values : list string) : prog httpE unit :=
  let hash := PathValue values in
  t <- call (Service (TsGet hash));;
  match t with
  | Err _ => Error "failed to load torrent" 500
  | Ok t =>
      files <- call (Service (TsFiles hash));;
      render 200 view_ShowDetail (mkShowViewModel t (files_or_nil files))
  end.

Definition New (r : Request) (_ : list string) : prog httpE unit :=
  render 200 view_New (mkNewViewModel "" "" "" "" "").

Definition Table (r : Request) (_ : list string) : prog httpE unit :=
  torrents <- call (Service TsList);;
  match torrents with
  | Err _ => Error "failed to list torrents" 500
  | Ok torrents => render 200 view_TorrentTable torrents
  end.

Definition renderNewError (form : addTorrentForm) (message : string) : prog httpE unit :=
  render 400 view_New (mkNewViewModel (Source form) (Magnet form) (Label form) (TargetDir form) message).

Definition addMagnet (form : addTorrentForm) : prog httpE (option error) :=
  if decide (Magnet form = "") then Ret (Some errMissingMagnet)
  else
    t <- call (Service (TsAddMagnet (Magnet form) (service.mkAddOptions (Label form) (TargetDir form))));;
    Ret (match t with Err e => Some e | Ok _ => None end).

Definition addFile (f : Form) (form : addTorrentForm) : prog httpE (option error) :=
  match FormFile f "file" with
  | Err _ => Ret (Some errMissingFile)
  | Ok file =>
      t <- call (Service (TsAddFile file (service.mkAddOptions (Label form) (TargetDir form))));;
      Ret (match t with Err e => Some e | Ok _ => None end)
  end.

Definition form_of (f : Form) : addTorrentForm :=
  let source := FormValue f "source" in
  mkForm (if decide (source = "") then "magnet" else source)
    (FormValue f "magnet") (FormValue f "label") (FormValue f "target_dir").

Definition Add (r : Request) (_ : list string) : prog httpE unit :=
  match ParseMultipartForm r with
  | Err err => renderNewError (mkForm "" "" "" "") ("failed to parse form: " +:+ error_text err)
  | Ok f =>
      let form := form_of f in
      err <- (if decide (Source form = "file") then addFile f form else addMagnet form);;
      match err with
      | None => Redirect r "/" 303
      | Some err =>
          if error_is err UiErrMissingMagnet then renderNewError form "magnet URI is required"
          else if error_is err UiErrMissingFile then renderNewError form "a torrent file is required"
          else if error_is err SvcErrInvalidTorrentFile then renderNewError form "invalid torrent file"
          else if error_is err SvcErrTorrentAlreadyExists then renderNewError form "torrent already exists"
          else renderNewError form ("failed to add torrent: " +:+ error_text err)
      end
  end.

Definition Delete (r : Request) (values : list string) : prog httpE unit :=
  let hash := PathValue values in
  let deleteFiles := bool_decide (QueryGet r "files" = "true") in
  err <- call (Service (TsRemove hash deleteFiles));;
  match err with
  | Err _ => Error "failed to delete torrent" 500
  | Ok _ => call (WriteHeader 200)
  end.

Definition toggle (values : list string) (action : string -> tsE (result unit)) : prog httpE unit :=
  let hash := PathValue values in
  err <- call (Service (action hash));;
  match err with
  | Err _ => Error "failed to toggle torrent" 500
  | Ok _ =>
      t <- call (Service (TsGet hash));;
      match t with
      | Err _ => Error "failed to load torrent" 500
      | Ok t => render 200 view_TorrentRow t
      end
  end.

Definition Pause (r : Request) (values : list string) : prog httpE unit := toggle values TsPause.
Definition Resume (r : Request) (values : list string) : prog httpE unit := toggle values TsResume.

(** [TorrentHandler.Register]; the pattern "/{$}" is the path "/" alone. *)
Definition routes : list route :=
  [mkRoute "GET" [Lit "/"] false List;
   mkRoute "GET" [Lit "torrents"; Lit "new"] false New;
   mkRoute "GET" [Lit "torrents"; Wild] false Show;
   mkRoute "POST" [Lit "torrents"] false Add;
   mkRoute "GET" [Lit "ui"; Lit "torrents"] false Table;
   mkRoute "GET" [Lit "ui"; Lit "torrents"; Wild] false Detail;
   mkRoute "POST" [Lit "ui"; Lit "torrents"; Wild; Lit "pause"] false Pause;
   mkRoute "POST" [Lit "ui"; Lit "torrents"; Wild; Lit "resume"] false Resume;
   mkRoute "DELETE" [Lit "ui"; Lit "torrents"; Wild] false Delete].

End handlers.
End ui.

(** ** The helpers of the views

    The functions the templates of internal/server/ui call to turn a torrent
    into text. [humanBytes] is modelled with its floating point arithmetic: the
    conversion to [float64] rounds to 53 bits, the division by a power of two
    is exact, and "%.1f" rounds the exact value of the quotient half to even. *)

Module views.

(** ** component/status_dot.templ, torrent_row.templ, view/torrent/show.templ *)

Definition statusDotClass (kind : string) : string :=
  if decide (kind = "seeding") then "bg-green-500"
  else if decide (kind = "paused") then "bg-yellow-500"
  else if decide (kind = "pending") then "bg-gray-400"
  else "bg-indigo-500".

Definition statusDotLabel (kind : string) : string :=
  if decide (kind = "seeding") then "seeding"
  else if decide (kind = "paused") then "paused"
  else if decide (kind = "pending") then "waiting for metadata"
  else "downloading".

Definition displayName (t : service.Torrent) : string :=
  if decide (service.Name t <> "") then service.Name t else "(metadata pending)".

Definition torrentStatusKind (t : service.Torrent) : string :=
  if service.Paused t then "paused"
  else if service.Length t =? 0 then "pending"
  else if service.Length t <=? service.BytesCompleted t then "seeding"
  else "downloading".

Definition showTitle (t : service.Torrent) : string :=
  if decide (service.Name t <> "") then service.Name t else "Torrent detail".

Definition detailComplete (t : service.Torrent) : string :=
  if (0 <? service.Length t) && (service.Length t <=? service.BytesCompleted t) then "true" else "false".

Definition em_dash : string := String (json.char 226) (String (json.char 128) (String (json.char 148) "")).

Definition labelOrDash (s : string) : string := if decide (s = "") then em_dash else s.
Definition dirOrDash (s : string) : string := if decide (s = "") then "(default)" else s.

Definition peerCount (t : service.Torrent) : string :=
  int_text (service.Seeders t) +:+ " seeders / " +:+ int_text (service.ActivePeers t) +:+ " connected".

Definition statusLabel (t : service.Torrent) : string :=
  if service.Paused t then "Paused"
  else if service.Length t =? 0 then "Fetching metadata"
  else if service.Length t <=? service.BytesCompleted t then "Seeding"
  else "Downloading".

Definition sourceOrDefault (source : string) : string :=
  if decide (source = "file") then "file" else "magnet".

(** ** component/progress_bar.templ *)

(** [n / d] rounded to the nearest integer, half to even, for [d > 0]. *)
Definition round_div (n d : Z) : Z :=
  let q := n / d in
  let r := n mod d in
  if (2 * r <? d) || ((2 * r =? d) && Z.even q) then q else q + 1.

(** [float64(n)] for a positive [n]: 53 significant bits. *)
Definition to_float (n : Z) : Z :=
  let k := Z.log2 n - 52 in
  if k <=? 0 then n else round_div n (2 ^ k) * 2 ^ k.

Definition unit : Z := 1024.

(** The loop of [humanBytes]: [v] shrinks by the unit while [div] grows; ten
    bits at a time, so seven rounds are more than an [int64] needs. *)
Fixpoint scale (fuel : nat) (v div : Z) (exp : nat) : Z * nat :=
  match fuel with
  | O => (div, exp)
  | S f => if unit <=? v then scale f (v / unit) (div * unit) (S exp) else (div, exp)
  end.

(** "KMGTPE"[exp]; an index out of range panics. *)
Definition prefix (exp : nat) : option ascii := String.get exp "KMGTPE".

(** "%.1f": a number of tenths. *)
Definition tenths_text (t : Z) : string :=
  int_text (t / 10) +:+ "." +:+ int_text (t mod 10).

(** [None] is the panic of the index. *)
Definition humanBytes (n : Z) : option string :=
  if n <? unit then Some (int_text n +:+ " B")
  else
    let '(div, exp) := scale 7 (n / unit) unit 0 in
    p ← prefix exp;
    Some (tenths_text (round_div (to_float n * 10) div) +:+ " " +:+ String p "iB").

End views.
