(* ===== verification/Server.v ===== *)
(** * The server process

    internal/server/config.go, server.go and database.Open: the configuration
    and its validation, and [Run], which opens the resources in order, restores
    the torrents, serves until the context ends, and closes what it opened. The
    calls [Run] makes are a call language of its own, [startE]; a run against
    the answers of the environment leaves a trace of what was opened, used and
    closed. The two goroutines of the errgroup are a step relation. *)

From S2P Require Import Prelude GoErrors Prog GoTime FilePath World Service Json Http Api Ui.
From Stdlib Require Import ZArith Lia Ascii String.
From stdpp Require Import base gmap strings list relations.

Local Open Scope Z_scope.
Local Open Scope prog_scope.

Module config.

Record Config : Type := mkConfig {
  HTTPAddress : string;
  DataDirectory : string;
  LoggingLevel : string;
}.

(** [defaultDataDir], given the answer of [os.UserHomeDir] *)
Definition defaultDataDir (home : result string) : string :=
  match home with
  | Err _ => "data"
  | Ok home => path.Join [home; ".local"; "share"; "torrents"]
  end.

Definition DefaultConfig (home : result string) : Config :=
  mkConfig ":7373" (defaultDataDir home) "info".

(** [LoadConfig], given [toml.DecodeFile]: what it stores in a zero [Config]. *)
Definition LoadConfig (decode_file : string -> Config -> result Config) (file : string) : result Config :=
  match decode_file file (mkConfig "" "" "") with
  | Err err => Err (EWrap "failed to decode config file: " err "")
  | Ok config => Ok config
  end.

Definition validate_http (c : Config) : option error :=
  if decide (HTTPAddress c = "") then Some (EOpaque "http address is required") else None.

Definition validate_data (c : Config) : option error :=
  if decide (DataDirectory c = "") then Some (EOpaque "data directory is required") else None.

Definition levels : list string := ["debug"; "info"; "warn"; "error"].

Definition validate_logging (c : Config) : option error :=
  if decide (mime.to_lower (LoggingLevel c) ∈ levels) then None
  else Some (EOpaque ("invalid log level: " +:+ quote (LoggingLevel c))).

(** [errors.Join]: nil when every error is nil. *)
Definition join_errors (l : list (option error)) : option error :=
  match omap id l with [] => None | es => Some (EJoin es) end.

Definition Validate (c : Config) : option error :=
  join_errors [validate_http c; validate_data c; validate_logging c].

(** [slog.Level] *)
Inductive Level : Type := LevelDebug | LevelInfo | LevelWarn | LevelError.

Definition newLogger (c : Config) : Level :=
  let l := mime.to_lower (LoggingLevel c) in
  if decide (l = "debug") then LevelDebug
  else if decide (l = "warn") then LevelWarn
  else if decide (l = "error") then LevelError
  else LevelInfo.

End config.

(** ** Start-up *)

Module server.

(** The calls of [Run], [database.Open] and [torrent.NewClient]. *)
Inductive startE : Type -> Type :=
| MkdirAll (p : string) : startE (option error)
| SqlOpen (dsn : string) : startE (option error)
| DbPing : startE (option error)
| MigrateNew : startE (option error)        (* the migration source, driver and migrator *)
| MigrateUp : startE (option error)
| DbClose : startE unit
| PiecesLoad : startE (option error)
| ClientNew (dataDir : string) : startE (option error)
| ClientClose : startE unit
| ServiceRestore : startE (option error)
| Serve (address : string) : startE (option error)   (* the errgroup, until both goroutines ended *)
| LogDebugLine (msg : string) : startE unit.

(** [if err != nil { return fmt.Errorf(pre + "%w", err) }] *)
Definition check (r : option error) (pre : string) (k : prog startE (option error)) : prog startE (option error) :=
  match r with
  | Some err => Ret (Some (EWrap pre err ""))
  | None => k
  end.

(** [defer close(); k] *)
Definition deferred (close : startE unit) (k : prog startE (option error)) : prog startE (option error) :=
  r <- k;;
  call close;;
  Ret r.

Definition dsn (p : string) : string :=
  p +:+ "?_pragma=journal_mode(wal)" +:+ "&_pragma=busy_timeout(5000)" +:+
  "&_pragma=synchronous(normal)" +:+ "&_pragma=cache_size(-65536)" +:+
  "&_pragma=mmap_size(268435456)" +:+ "&_pragma=temp_store(memory)".

Definition migrateUp : prog startE (option error) :=
  r <- call MigrateNew;;
  match r with
  | Some err => Ret (Some err)
  | None =>
      u <- call MigrateUp;;
      match u with
      | Some err =>
          if error_is err MigrateErrNoChange then Ret None
          else Ret (Some (EWrap "failed to apply migrations: " err ""))
      | None => Ret None
      end
  end.

(** [database.Open]: the database is closed again when it cannot be used. *)
Definition Open (p : string) : prog startE (option error) :=
  o <- call (SqlOpen (dsn p));;
  check o "failed to open database: " (
    e <- call DbPing;;
    match e with
    | Some err => call DbClose;; Ret (Some (EWrap "failed to connect to database: " err ""))
    | None =>
        m <- migrateUp;;
        match m with
        | Some err => call DbClose;; Ret (Some (EWrap "failed to run migrations: " err ""))
        | None => call (LogDebugLine "database opened");; Ret None
        end
    end).

(** [torrent.NewClient]; the piece repository is there. *)
Definition NewClient (dataDir : string) : prog startE (option error) :=
  if decide (dataDir = "") then Ret (Some (EOpaque "data directory is required"))
  else
    m <- call (MkdirAll dataDir);;
    check m "failed to create data directory: " (
      c <- call (ClientNew dataDir);;
      check c "failed to create torrent client: " (Ret None)).

Definition Run (c : config.Config) : prog startE (option error) :=
  check (config.Validate c) "invalid configuration: " (
    call (LogDebugLine "starting torrents server");;
    m <- call (MkdirAll (config.DataDirectory c));;
    check m "failed to create data directory: " (
      o <- Open (path.Join [config.DataDirectory c; "state.db"]);;
      check o "failed to open database: " (
        deferred DbClose (
          l <- call PiecesLoad;;
          check l "failed to load piece completion cache: " (
            let downloadsDir := path.Join [config.DataDirectory c; "downloads"] in
            n <- NewClient downloadsDir;;
            check n "failed to start torrent client: " (
              deferred ClientClose (
                r <- call ServiceRestore;;
                check r "failed to restore torrents: " (
                  s <- call (Serve (config.HTTPAddress c));;
                  match s with
                  | Some err => if error_is err HttpErrServerClosed then Ret None else Ret (Some err)
                  | None => Ret None
                  end)))))))).

(** ** Traces *)

(** What succeeded, and what was closed. *)
Inductive event : Type :=
| EvMkdir (p : string)
| EvOpenDb (dsn : string)
| EvMigrated
| EvLoaded
| EvCloseDb
| EvOpenClient (dataDir : string)
| EvRestored
| EvServe (address : string)      (* serving started, however it ended *)
| EvCloseClient.

(** The environment answers the fallible calls from a list; when it is used up
    every call succeeds. *)
Definition start_state : Type := list (option error) * list event.

Definition fallible (ev : list event) (s : start_state) : res (option error) * start_state :=
  let '(a, l) := pop None (fst s) in
  (Val a, (l, snd s ++ match a with None => ev | Some _ => [] end)).

Definition start_handle : handler startE start_state := fun B e =>
  match e in startE B return start_state -> res B * start_state with
  | MkdirAll p => fallible [EvMkdir p]
  | SqlOpen d => fallible [EvOpenDb d]
  | DbPing | MigrateNew => fallible []
  | MigrateUp => fun s =>
      let '(a, l) := pop None (fst s) in
      let done := match a with None => true | Some e => error_is e MigrateErrNoChange end in
      (Val a, (l, snd s ++ if done then [EvMigrated] else []))
  | PiecesLoad => fallible [EvLoaded]
  | DbClose => fun s => (Val tt, (fst s, snd s ++ [EvCloseDb]))
  | ClientNew d => fallible [EvOpenClient d]
  | ClientClose => fun s => (Val tt, (fst s, snd s ++ [EvCloseClient]))
  | ServiceRestore => fallible [EvRestored]
  | Serve a => fun s =>
      let '(r, l) := pop None (fst s) in (Val r, (l, snd s ++ [EvServe a]))
  | LogDebugLine _ => fun s => (Val tt, s)
  end.

(** The order in which resources may be opened, used and closed. *)
Inductive phase : Type :=
| Closed
| DbOpen (migrated loaded : bool)
| Online (restored served : bool).

Definition advance (p : phase) (e : event) : option phase :=
  match e, p with
  | EvMkdir _, p => Some p
  | EvOpenDb _, Closed => Some (DbOpen false false)
  | EvMigrated, DbOpen false false => Some (DbOpen true false)
  | EvLoaded, DbOpen true false => Some (DbOpen true true)
  | EvOpenClient _, DbOpen true true => Some (Online false false)
  | EvRestored, Online false false => Some (Online true false)
  | EvServe _, Online true false => Some (Online true true)
  | EvCloseClient, Online _ _ => Some (DbOpen true true)
  | EvCloseDb, DbOpen _ _ => Some Closed
  | _, _ => None
  end.

Fixpoint replay (p : phase) (l : list event) : option phase :=
  match l with
  | [] => Some p
  | e :: l' => match advance p e with Some p' => replay p' l' | None => None end
  end.

(** ** Serving and shutting down *)

Inductive serve_state : Type := Serving | ServeReturned.
Inductive shutdown_state : Type := WaitingForContext | ShuttingDown | ShutdownReturned.

(** The errgroup: whether its context ended, its goroutines, the first error. *)
Record group : Type := mkGroup {
  g_done : bool;
  g_serve : serve_state;
  g_shutdown : shutdown_state;
  g_err : option error;
}.

Definition group0 : group := mkGroup false Serving WaitingForContext None.

(** [errgroup]: the first error is kept and ends the context. *)
Definition returned (e : option error) (g : group) : group :=
  match e with
  | None => g
  | Some e => mkGroup true (g_serve g) (g_shutdown g) (match g_err g with None => Some e | o => o end)
  end.

Inductive group_step : group -> group -> Prop :=
| step_cancel g :                                  (* the context of [Run] ends *)
    g_done g = false -> group_step g (mkGroup true (g_serve g) (g_shutdown g) (g_err g))
| step_listen_fails g e :                          (* [ListenAndServe] fails by itself *)
    g_serve g = Serving -> error_is e HttpErrServerClosed = false ->
    group_step g (returned (Some e) (mkGroup (g_done g) ServeReturned (g_shutdown g) (g_err g)))
| step_shutdown g :                                (* [<-ctx.Done()], then [Shutdown] *)
    g_done g = true -> g_shutdown g = WaitingForContext ->
    group_step g (mkGroup (g_done g) (g_serve g) ShuttingDown (g_err g))
| step_listen_closed g :                           (* [Shutdown] makes [ListenAndServe] return *)
    g_serve g = Serving -> g_shutdown g <> WaitingForContext ->
    group_step g (returned (Some (ESentinel HttpErrServerClosed))
                    (mkGroup (g_done g) ServeReturned (g_shutdown g) (g_err g)))
| step_shutdown_returns g e :                      (* idle, or after 30 seconds *)
    g_shutdown g = ShuttingDown ->
    (forall err, e = Some err -> error_is err HttpErrServerClosed = false) ->
    group_step g (returned e (mkGroup (g_done g) (g_serve g) ShutdownReturned (g_err g))).

(** [g.Wait()] returns. *)
Definition finished (g : group) : Prop := g_serve g = ServeReturned /\ g_shutdown g = ShutdownReturned.

(** What [Run] makes of the group's error. *)
Definition run_result (g : group) : option error :=
  match g_err g with
  | Some err => if error_is err HttpErrServerClosed then None else Some err
  | None => None
  end.

Section mux.
Context `{HttpEnv} `{ui.Views} (static : Handler).

(** The routes [Run] registers. *)
Definition mux : list route :=
  api.routes ++ ui.routes ++ [mkRoute "GET" [Lit "static"] true static].
End mux.

End server.

(** ** The commands

    cmd/serve: the configuration [Run] is called with. *)
Module serve.
Definition configuration (home : result string)
    (decode_file : string -> config.Config -> result config.Config) (args : list string)
    : result config.Config :=
  match args with
  | file :: _ =>
      match config.LoadConfig decode_file file with
      | Err err => Err (EWrap "failed to load configuration file: " err "")
      | Ok c => Ok c
      end
  | [] => Ok (config.DefaultConfig home)
  end.
End serve.
