(* ===== verification/HttpSample.v ===== *)
(** * A concrete HTTP environment

    Functions that stand for the multipart reader and writer, the [Required]
    rule and the views, with their laws: the witnesses of the theorems about
    the API run in it. A form is written with a mark before every byte. *)

From S2P Require Import Prelude GoErrors Prog GoTime World Service Json Http Api HttpClient Ui Server.
From Stdlib Require Import ZArith Lia Ascii String.
From stdpp Require Import base gmap strings list.

Local Open Scope Z_scope.

Fixpoint write_str (s rest : string) : string :=
  match s with
  | "" => String "e" rest
  | String c s' => String "c" (String c (write_str s' rest))
  end.

Fixpoint read_str (s : string) : option (string * string) :=
  match s with
  | String "e" rest => Some ("", rest)
  | String "c" (String c r) => json.on_fst (String c) (read_str r)
  | _ => None
  end.

Lemma read_write_str s rest : read_str (write_str s rest) = Some (s, rest).
Proof. induction s as [|c s IH]; simpl; [done|]. by rewrite IH. Qed.

Fixpoint write_pairs (l : list (string * string)) (rest : string) : string :=
  match l with
  | [] => String "z" rest
  | (a, b) :: l' => String "p" (write_str a (write_str b (write_pairs l' rest)))
  end.

Fixpoint read_pairs (fuel : nat) (s : string) : option (list (string * string) * string) :=
  match fuel, s with
  | S f, String "p" r =>
      '(a, r1) ← read_str r;
      '(b, r2) ← read_str r1;
      '(l, r3) ← read_pairs f r2;
      Some ((a, b) :: l, r3)
  | S _, String "z" rest => Some ([], rest)
  | _, _ => None
  end.

Lemma write_pairs_length l rest : (length l <= String.length (write_pairs l rest))%nat.
Proof.
  assert (forall s t, String.length t <= String.length (write_str s t))%nat as Hs.
  { intros s t. induction s as [|c s IH]; simpl; lia. }
  induction l as [|[a b] l IH]; simpl; [lia|].
  pose proof (Hs a (write_str b (write_pairs l rest))). pose proof (Hs b (write_pairs l rest)). lia.
Qed.

Lemma read_write_pairs l rest f : (length l < f)%nat -> read_pairs f (write_pairs l rest) = Some (l, rest).
Proof.
  revert f. induction l as [|[a b] l IH]; intros [|f] Hf; try (simpl in Hf; lia); [done|].
  cbn [write_pairs read_pairs]. rewrite read_write_str. cbn [mbind option_bind].
  rewrite read_write_str. cbn [mbind option_bind]. rewrite IH; [done|]. simpl in Hf. lia.
Qed.

Definition form_type : string := "multipart/form-data; boundary=X".

Definition write_form (f : Form) : string * string :=
  (form_type, write_pairs (f_values f) (write_pairs (f_files f) "")).

Definition read_form (ctype body : string) : result Form :=
  if decide (ctype = form_type) then
    let fuel := S (String.length body) in
    match read_pairs fuel body with
    | Some (vs, r) =>
        match read_pairs fuel r with
        | Some (fs, _) => Ok (mkForm vs fs)
        | None => Err (EOpaque "multipart: NextPart: EOF")
        end
    | None => Err (EOpaque "multipart: NextPart: EOF")
    end
  else Err (EOpaque "request Content-Type isn't multipart/form-data").

#[export] Instance http0 : HttpEnv := {|
  multipart_read := read_form;
  multipart_write := write_form;
  required field v := if decide (v = "") then Some (EOpaque (field +:+ ": cannot be blank.")) else None;
  json_error s := EOpaque "invalid character";
|}.

#[export] Instance http_laws0 : HttpLaws.
Proof.
  constructor; cbn [multipart_read multipart_write required json_error http0].
  - intros [vs fs]. unfold read_form, write_form. cbn [fst snd f_values f_files].
    rewrite decide_True by done.
    assert (length fs <= String.length (write_pairs fs ""))%nat by apply write_pairs_length.
    assert (String.length (write_pairs fs "") <= String.length (write_pairs vs (write_pairs fs "")))%nat.
    { generalize (write_pairs fs ""). intros t. induction vs as [|[a b] vs IH]; simpl; [lia|].
      assert (forall s u, String.length u <= String.length (write_str s u))%nat as Hs.
      { intros s u. induction s as [|c s IHs]; simpl; lia. }
      pose proof (Hs a (write_str b (write_pairs vs t))). pose proof (Hs b (write_pairs vs t)). lia. }
    rewrite read_write_pairs by (pose proof (write_pairs_length vs (write_pairs fs "")); lia).
    by rewrite read_write_pairs by lia.
  - done.
  - intros field v. case_decide; split; intros; try done; congruence.
  - intros field v e. case_decide; [|done]. intros [= <-]. apply foreign_opaque.
  - intros s. apply foreign_opaque.
Qed.

(** Pages that show the name, the last one of which cannot be rendered. *)
#[export] Instance views0 : ui.Views := {|
  ui.view_List l := (String.concat "," (map service.Name l), None);
  ui.view_Show m := (service.Name (ui.SVTorrent m), None);
  ui.view_ShowDetail m := (service.Name (ui.SVTorrent m), None);
  ui.view_New m := (ui.NVError m, None);
  ui.view_TorrentTable l := (String.concat "," (map service.Name l), None);
  ui.view_TorrentRow t := (service.Name t, Some (EOpaque "short write"));
|}.

Definition static0 : Handler := fun _ _ => Error "404 page not found" 404.

Definition client0 : client.Client := client.mkClient "".
