(* ===== verification/Remote.v ===== *)
(** * The client library against the server

    A method of the client library, run over HTTP against the API, does to the
    service what the corresponding method of the service does, and returns its
    answer: the text as JSON carries it, the errors as status codes. *)

From S2P Require Import Prelude GoErrors Prog GoTime FilePath Url World Service Json Http Api ApiFacts HttpClient Ui Server.
From Stdlib Require Import ZArith Lia Ascii String.
From stdpp Require Import base gmap strings list.

Local Open Scope Z_scope.
Import json.

(** ** Where requests go *)

Lemma match_path_lit rs s rest m x :
  match_path (lit_child s rs) rest m = Some x -> match_path rs (s :: rest) m = Some x.
Proof. intros Hx. cbn [match_path]. by rewrite Hx. Qed.

Lemma match_path_wild rs s rest m x :
  match_path (lit_child s rs) rest m = None -> s <> "/" ->
  match_path (wild_child rs) rest (m ++ [s]) = Some x -> match_path rs (s :: rest) m = Some x.
Proof. intros Hn Hs Hx. cbn [match_path]. by rewrite Hn, decide_False, Hx. Qed.

Lemma route_match_some rs method p x :
  match_path (method_routes method rs) p [] = Some x -> route_match rs method p = Some x.
Proof. intros Hx. unfold route_match. by rewrite Hx. Qed.

Section routes.
Context `{HttpEnv} `{ui.Views} (static : Handler).

Lemma route_list : route_match (server.mux static) "GET" ["api"; "v1"; "torrents"] = Some (api.List, []).
Proof. reflexivity. Qed.

Lemma route_add : route_match (server.mux static) "POST" ["api"; "v1"; "torrents"] = Some (api.Add, []).
Proof. reflexivity. Qed.

Lemma route_get h : h <> "/" ->
  route_match (server.mux static) "GET" ["api"; "v1"; "torrents"; h] = Some (api.Get, [h]).
Proof.
  intros Hh. apply route_match_some. do 3 apply match_path_lit. by apply match_path_wild.
Qed.

Lemma route_delete h : h <> "/" ->
  route_match (server.mux static) "DELETE" ["api"; "v1"; "torrents"; h] = Some (api.Remove, [h]).
Proof.
  intros Hh. apply route_match_some. do 3 apply match_path_lit. by apply match_path_wild.
Qed.

Lemma route_pause h : h <> "/" ->
  route_match (server.mux static) "POST" ["api"; "v1"; "torrents"; h; "pause"] = Some (api.Pause, [h]).
Proof.
  intros Hh. apply route_match_some. do 3 apply match_path_lit. by apply match_path_wild.
Qed.

Lemma route_resume h : h <> "/" ->
  route_match (server.mux static) "POST" ["api"; "v1"; "torrents"; h; "resume"] = Some (api.Resume, [h]).
Proof.
  intros Hh. apply route_match_some. do 3 apply match_path_lit. by apply match_path_wild.
Qed.
End routes.

(** A hash as the API uses it: one path component without a question mark. *)
Definition one_segment (h : string) : bool := path.plain_name h && negb (url.contains "?" h).

Lemma plain_slash h : path.plain_name h = true -> h <> "/".
Proof. intros Hh ->. discriminate Hh. Qed.

Lemma plain_name_app h t :
  path.plain_name h = true -> path.no_sep t = true -> (2 < String.length t)%nat ->
  path.plain_name (h +:+ t) = true.
Proof.
  unfold path.plain_name. intros [Hh _]%andb_true_iff Ht Hlen. apply andb_true_iff. split.
  - induction h as [|c h IH]; [done|]. rewrite str_app_cons. simpl in *.
    apply andb_true_iff in Hh as [-> Hh]. by apply IH.
  - apply bool_decide_eq_true. split_and!; intros E; apply (f_equal String.length) in E;
      rewrite str_length_app in E; simpl in E; lia.
Qed.

(** ** The paths of the endpoints *)

Lemma Join_hash h : path.plain_name h = true ->
  path.Join [client.torrents_path; h] = "/api/v1/torrents/" +:+ h /\
  path.comps ("/api/v1/torrents/" +:+ h) = ["api"; "v1"; "torrents"; h].
Proof.
  intros Hh.
  assert (path.comps ("/api/v1/torrents" +:+ String path.sep h) = ["api"; "v1"; "torrents"; h]) as E
    by (by rewrite path.comps_child).
  split; [|exact E].
  change (path.Clean ("/api/v1/torrents" +:+ String path.sep h) = "/api/v1/torrents/" +:+ h).
  unfold path.Clean. by rewrite E.
Qed.

Lemma Join_action h a : path.plain_name h = true -> path.plain_name a = true ->
  path.Join [client.torrents_path; h; a] = "/api/v1/torrents/" +:+ h +:+ String path.sep a /\
  path.comps ("/api/v1/torrents/" +:+ h +:+ String path.sep a) = ["api"; "v1"; "torrents"; h; a].
Proof.
  intros Hh Ha.
  assert (path.comps ("/api/v1/torrents" +:+ String path.sep (h +:+ String path.sep a)) =
    ["api"; "v1"; "torrents"; h; a]) as E.
  { rewrite <- (str_app_cons path.sep h), str_app_assoc, path.comps_child by done. by rewrite path.comps_child. }
  split; [|exact E].
  change (path.Clean ("/api/v1/torrents" +:+ String path.sep (h +:+ String path.sep a)) =
    "/api/v1/torrents/" +:+ h +:+ String path.sep a).
  unfold path.Clean. by rewrite E.
Qed.

(** The server is mounted at the root of the address. *)
Definition at_root (c : client.Client) : Prop := client.base_path c = "" \/ client.base_path c = "/".

Lemma segments_at_root c p : at_root c -> path.rooted p = true -> path.comps p <> [] ->
  segments (path.Join [client.base_path c; p]) = path.comps p.
Proof.
  intros Hc Hp Hne.
  assert (path.comps (path.Join [client.base_path c; p]) = path.comps p) as E.
  { destruct Hc as [-> | ->].
    - destruct p as [|x p]; [done|]. apply path.loc_Clean.
    - change (path.comps (path.Clean ("/" +:+ String path.sep p)) = path.comps p).
      rewrite (proj2 (path.loc_Clean _)), path.comps_app_sep by done.
      unfold path.comps. by rewrite Hp. }
  unfold segments. rewrite E. by destruct (path.comps p).
Qed.

(** ** Errors over the wire

    The status and message of the response to each error of the service, and
    the answer of a method of the library. *)

Definition api_error (p : Z * string) : error := EApi (fst p) (sanitize (snd p)).

Definition get_error (hash : string) (e : error) : Z * string :=
  if error_is e SvcErrTorrentNotFound then (404, api.does_not_exist hash)
  else (500, "failed to load torrent: " +:+ error_text e).

Definition list_error (e : error) : Z * string := (500, "failed to list torrents: " +:+ error_text e).

Definition action_error (hash failure : string) (e : error) : Z * string :=
  if error_is e SvcErrTorrentNotFound then (404, api.does_not_exist hash)
  else (500, failure +:+ error_text e).

Definition add_magnet_error (e : error) : Z * string :=
  if error_is e SvcErrTorrentAlreadyExists then (409, "torrent already exists")
  else (500, "failed to add torrent: " +:+ error_text e).

Definition add_file_error (e : error) : Z * string :=
  if error_is e SvcErrInvalidTorrentFile then (400, "invalid torrent file")
  else if error_is e SvcErrTorrentAlreadyExists then (409, "torrent already exists")
  else (500, "failed to add torrent: " +:+ error_text e).

(** A panic of the service is the API's internal error. *)
Definition remote {A B} (f : A -> B) (err : error -> Z * string) (a : res (result A)) : result B :=
  match a with
  | Val (Ok x) => Ok (f x)
  | Val (Err e) => Err (api_error (err e))
  | Panicked _ => Err (EApi 500 "internal server error")
  end.

(** A torrent of the service as the client library returns it. *)
Definition remote_torrent (t : service.Torrent) : client.Torrent :=
  client.fromAPI (api.received (api.newTorrent t)).

(** The torrents of an answer are expressible in JSON. *)
Definition good_torrent (a : res (result service.Torrent)) : Prop :=
  forall t, a = Val (Ok t) -> api.expressible (api.newTorrent t).
Definition good_torrents (a : res (result (list service.Torrent))) : Prop :=
  forall l, a = Val (Ok l) -> Forall (fun t => api.expressible (api.newTorrent t)) l.

Definition good_torrentb (a : res (result service.Torrent)) : bool :=
  match a with Val (Ok t) => bool_decide (api.expressible (api.newTorrent t)) | _ => true end.
Definition good_torrentsb (a : res (result (list service.Torrent))) : bool :=
  match a with
  | Val (Ok l) => forallb (fun t => bool_decide (api.expressible (api.newTorrent t))) l
  | _ => true
  end.

Lemma good_torrentb_true a : good_torrentb a = true -> good_torrent a.
Proof. intros Ha t ->. by apply bool_decide_eq_true in Ha. Qed.

Lemma good_torrentsb_true a : good_torrentsb a = true -> good_torrents a.
Proof.
  intros Ha l ->. apply List.Forall_forall. intros t Ht. simpl in Ha. rewrite forallb_forall in Ha.
  by apply (bool_decide_eq_true _), Ha.
Qed.

(** ** A request over the wire *)

Section wire.
Context `{Env} `{HttpEnv} `{ui.Views} {S : Type} (svc : handler tsE S) (static : Handler).

Abbreviation over := (run (wire_handle svc (server.mux static))) (only parsing).

(** What the client library makes of a response. *)
Definition interpret {R} (st : setter R) (zero : R) (resp : Response) : result R :=
  if (200 <=? rs_status resp) && (rs_status resp <=? 226) then
    let '(r, failed) := decode st (rs_body resp) zero in
    if failed then Err (EWrap "failed to decode response: " (json_error (rs_body resp)) "") else Ok r
  else Err (EApi (rs_status resp) (fst (decode (set_struct api.error_fields) (rs_body resp) ""))).

Lemma run_doBody {R} (st : setter R) zero c method endpoint body ctype s p q found :
  url.cut "?" endpoint = (p, q, found) ->
  over (client.doBody st zero c method endpoint body ctype) s =
  let '(resp, s') := api.serve svc (server.mux static) s
    (mkRequest method (segments (path.Join [client.base_path c; p])) q ctype body) in
  (Val (match resp with
        | Some resp => interpret st zero resp
        | None => Err (EWrap "failed to send request: " (EOpaque "EOF") "")
        end), s').
Proof.
  intros Hcut. unfold client.doBody. rewrite Hcut. cbn [pbind call run wire_handle].
  destruct (api.serve svc _ s _) as [[resp|] s']; [|done]. unfold interpret.
  destruct ((200 <=? rs_status resp) && (rs_status resp <=? 226)).
  - by destruct (decode st (rs_body resp) zero) as [r []].
  - by destruct (decode _ (rs_body resp) "").
Qed.

Lemma interpret_ok {R} (st : setter R) zero status v x :
  ((200 <=? status) && (status <=? 226)) = true -> decode st (encode v) zero = (x, false) ->
  interpret st zero (json_response status (Some v)) = Ok x.
Proof. intros Hs Hd. unfold interpret. cbn [json_response rs_status rs_body from_option]. by rewrite Hs, Hd. Qed.

Lemma interpret_error {R} (st : setter R) zero status m :
  ((200 <=? status) && (status <=? 226)) = false ->
  interpret st zero (error_reply status m) = Err (EApi status (sanitize m)).
Proof.
  intros Hs. unfold interpret, error_reply. destruct (decode_error_response m) as (v & -> & E).
  cbn [json_response rs_status rs_body from_option]. by rewrite Hs, E.
Qed.

(** The answer of an endpoint, by the service's answer. *)
Lemma interpret_reply {A R} (st : setter R) zero (reply : result A -> Z * option value)
    (err : error -> Z * string) (f : A -> R) (a : res (result A)) :
  (forall x, a = Val (Ok x) -> exists status v, reply (Ok x) = (status, Some v) /\
     ((200 <=? status) && (status <=? 226)) = true /\ decode st (encode v) zero = (f x, false)) ->
  (forall e, a = Val (Err e) -> reply (Err e) = (fst (err e), api.error_response (snd (err e))) /\
     ((200 <=? fst (err e)) && (fst (err e) <=? 226)) = false) ->
  interpret st zero (match a with Val x => answer (reply x) | Panicked _ => internal_error end) =
  remote f err a.
Proof.
  intros Hok Herr. destruct a as [[x|e]|m].
  - destruct (Hok x eq_refl) as (status & v & -> & Hs & Hd). by apply interpret_ok.
  - destruct (Herr e eq_refl) as [-> Hs]. by apply interpret_error.
  - by apply interpret_error.
Qed.

Lemma run_endpoint {A R} (st : setter R) zero c method endpoint body ctype s p q found segs
    hd values (call : tsE (result A)) reply err (f : A -> R) :
  url.cut "?" endpoint = (p, q, found) ->
  segments (path.Join [client.base_path c; p]) = segs ->
  route_match (server.mux static) method segs = Some (hd, values) ->
  replies svc (hd (mkRequest method segs q ctype body) values) call reply ->
  (forall a s', svc _ call s = (a, s') ->
     interpret st zero (match a with Val x => answer (reply x) | Panicked _ => internal_error end) = remote f err a) ->
  over (client.doBody st zero c method endpoint body ctype) s =
  let '(a, s') := svc _ call s in (Val (remote f err a), s').
Proof.
  intros Hcut Hseg Hroute Hrep Hint. rewrite (run_doBody _ _ _ _ _ _ _ _ _ _ _ Hcut), Hseg.
  rewrite (serve_replies svc _ _ _ hd values call reply) by done.
  destruct (svc _ call s) as [a s'] eqn:E. by rewrite (Hint a s').
Qed.

Lemma interpret_torrent status (reply : result service.Torrent -> Z * option value) err a :
  (forall t, reply (Ok t) = (status, api.torrent_response (api.newTorrent t))) ->
  (forall e, reply (Err e) = (fst (err e), api.error_response (snd (err e)))) ->
  ((200 <=? status) && (status <=? 226)) = true ->
  (forall e, ((200 <=? fst (err e)) && (fst (err e) <=? 226)) = false) ->
  good_torrent a ->
  interpret client.torrent_response api.zero_torrent
    (match a with Val x => answer (reply x) | Panicked _ => internal_error end) =
  remote (fun t => api.received (api.newTorrent t)) err a.
Proof.
  intros Hok Herr Hs Hes Hgood. apply interpret_reply.
  - intros t ->. destruct (decode_torrent_response time_fallback (api.newTorrent t)) as (v & Ev & Ed);
      [by apply Hgood|]. exists status, v. by rewrite Hok, Ev.
  - intros e _. auto.
Qed.

Lemma interpret_action hash failure a :
  interpret client.empty_response tt
    (match a with Val x => answer (action_reply hash failure x) | Panicked _ => internal_error end) =
  remote (fun u : unit => u) (action_error hash failure) a.
Proof.
  apply interpret_reply.
  - intros [] _. by exists 200, (Object []).
  - intros e _. unfold action_error. simpl. by destruct (error_is e _).
Qed.

Lemma outcome_map_remote {A B C} (g : B -> C) (f : A -> B) err a :
  outcome_map g (remote f err a) = remote (fun x => g (f x)) err a.
Proof. by destruct a as [[]|]. Qed.

(** ** The methods *)

Lemma run_Get c h s :
  at_root c -> one_segment h = true -> good_torrent (fst (svc _ (TsGet h) s)) ->
  over (client.Get c h) s =
  let '(a, s') := svc _ (TsGet h) s in (Val (remote remote_torrent (get_error h) a), s').
Proof.
  intros Hc [Hh Hq%negb_true_iff]%andb_true_iff Hgood. destruct (Join_hash h Hh) as [Hj Hcomps].
  unfold client.Get, client.do. rewrite Hj, run_bind.
  erewrite (run_endpoint _ _ _ _ _ _ _ _ _ _ _ ["api"; "v1"; "torrents"; h] api.Get [h] (TsGet h) (get_reply h)
    (get_error h) (fun t => api.received (api.newTorrent t)));
    [|apply url.cut_absent; by rewrite url.contains_app
     |rewrite segments_at_root, Hcomps by (try done; by rewrite Hcomps); reflexivity
     |by apply route_get, plain_slash|apply Get_replies|].
  - destruct (svc _ (TsGet h) s) as [a s']. cbn [run]. unfold client.the_torrent. by rewrite outcome_map_remote.
  - intros a s' E. rewrite E in Hgood. apply (interpret_torrent 200); [done| |done| |done].
    + intros e. unfold get_error. simpl. by destruct (error_is e _).
    + intros e. unfold get_error. by destruct (error_is e _).
Qed.

Lemma run_List c s :
  at_root c -> good_torrents (fst (svc _ TsList s)) ->
  over (client.List c) s =
  let '(a, s') := svc _ TsList s in (Val (remote (map remote_torrent) list_error a), s').
Proof.
  intros Hc Hgood. unfold client.List, client.do. rewrite run_bind.
  erewrite (run_endpoint _ _ _ _ _ _ _ _ _ _ _ ["api"; "v1"; "torrents"] api.List [] TsList list_reply
    list_error (fun l => map api.received (map api.newTorrent l)));
    [|by apply url.cut_absent|by rewrite segments_at_root|apply route_list|apply List_replies|].
  - destruct (svc _ TsList s) as [a s']. cbn [run]. rewrite outcome_map_remote.
    destruct a as [[l|e]|m]; [|done..]. cbn [remote]. by rewrite !map_map.
  - intros a s' E. rewrite E in Hgood. apply interpret_reply; [|done].
    intros l ->. destruct (decode_list_response time_fallback (map api.newTorrent l)) as (v & Ev & Ed).
    { by apply Forall_map, Hgood. }
    exists 200, v. simpl. by rewrite Ev.
Qed.

Lemma run_Remove c h del s :
  at_root c -> one_segment h = true ->
  over (client.Remove c h del) s =
  let '(a, s') := svc _ (TsRemove h del) s in
  (Val (remote id (action_error h "failed to remove torrent: ") a), s').
Proof.
  intros Hc [Hh Hq%negb_true_iff]%andb_true_iff. destruct (Join_hash h Hh) as [Hj Hcomps].
  unfold client.Remove, client.do. rewrite Hj.
  assert (url.contains "?" ("/api/v1/torrents/" +:+ h) = false) as Hq' by (by rewrite url.contains_app).
  assert (url.cut "?" (if del then ("/api/v1/torrents/" +:+ h) +:+ "?files=true" else "/api/v1/torrents/" +:+ h) =
    ("/api/v1/torrents/" +:+ h, if del then "files=true" else "", del)) as Hcut.
  { destruct del; [by apply url.cut_present|by apply url.cut_absent]. }
  erewrite (run_endpoint _ _ _ _ _ _ _ _ _ _ _ ["api"; "v1"; "torrents"; h] api.Remove [h] (TsRemove h del)
    (action_reply h "failed to remove torrent: ") (action_error h "failed to remove torrent: ") (fun u : unit => u));
    [done|exact Hcut|rewrite segments_at_root, Hcomps by (try done; by rewrite Hcomps); reflexivity
     |by apply route_delete, plain_slash| |intros; apply interpret_action].
  destruct del; apply Remove_replies.
Qed.

Lemma run_action c h (name : string) hd (ts : string -> tsE (result unit)) failure s :
  at_root c -> one_segment h = true -> path.plain_name name = true -> url.contains "?" name = false ->
  route_match (server.mux static) "POST" ["api"; "v1"; "torrents"; h; name] = Some (hd, [h]) ->
  (forall r, replies svc (hd r [h]) (ts h) (action_reply h failure)) ->
  over (client.do client.empty_response tt c "POST" (path.Join [client.torrents_path; h; name]) None) s =
  let '(a, s') := svc _ (ts h) s in (Val (remote id (action_error h failure) a), s').
Proof.
  intros Hc [Hh Hq%negb_true_iff]%andb_true_iff Hn Hnq Hroute Hrep.
  destruct (Join_action h name Hh Hn) as [Hj Hcomps]. unfold client.do. rewrite Hj.
  pose proof (url.cut_absent "?" ("/api/v1/torrents/" +:+ h +:+ String path.sep name)) as Hcut.
  rewrite !url.contains_app, Hq in Hcut. cbn [url.contains] in Hcut. rewrite decide_False, Hnq in Hcut by done.
  erewrite (run_endpoint _ _ _ _ _ _ _ _ _ _ _ ["api"; "v1"; "torrents"; h; name] hd [h] (ts h)
    (action_reply h failure) (action_error h failure) (fun u : unit => u));
    [done|by apply Hcut|rewrite segments_at_root, Hcomps by (try done; by rewrite Hcomps); reflexivity
     |done|done|intros; apply interpret_action].
Qed.

Lemma run_Pause c h s : at_root c -> one_segment h = true ->
  over (client.Pause c h) s =
  let '(a, s') := svc _ (TsPause h) s in (Val (remote id (action_error h "failed to pause torrent: ") a), s').
Proof.
  intros Hc Hh. apply (run_action c h "pause" api.Pause TsPause); try done.
  - apply route_pause, plain_slash. by apply andb_true_iff in Hh as [? _].
  - intros r. apply Pause_replies.
Qed.

Lemma run_Resume c h s : at_root c -> one_segment h = true ->
  over (client.Resume c h) s =
  let '(a, s') := svc _ (TsResume h) s in (Val (remote id (action_error h "failed to resume torrent: ") a), s').
Proof.
  intros Hc Hh. apply (run_action c h "resume" api.Resume TsResume); try done.
  - apply route_resume, plain_slash. by apply andb_true_iff in Hh as [? _].
  - intros r. apply Resume_replies.
Qed.

Context `{!HttpLaws}.

Lemma run_AddMagnet c magnet label dir s :
  at_root c -> magnet <> "" ->
  let ts := TsAddMagnet (sanitize magnet) (service.mkAddOptions (sanitize label) (sanitize dir)) in
  good_torrent (fst (svc _ ts s)) ->
  over (client.AddMagnet c magnet label dir) s =
  let '(a, s') := svc _ ts s in (Val (remote remote_torrent add_magnet_error a), s').
Proof.
  intros Hc Hm ts Hgood. unfold client.AddMagnet, client.do. rewrite run_bind.
  erewrite (run_endpoint _ _ _ _ _ _ _ _ _ _ _ ["api"; "v1"; "torrents"] api.Add [] ts add_magnet_reply
    add_magnet_error (fun t => api.received (api.newTorrent t)));
    [|by apply url.cut_absent|by rewrite segments_at_root|apply route_add| |].
  - destruct (svc _ ts s) as [a s']. cbn [run]. unfold client.the_torrent. by rewrite outcome_map_remote.
  - unfold api.Add. cbn [r_content_type]. change (mime.media_type "application/json") with "application/json".
    rewrite decide_False, decide_True by auto.
    apply (addMagnet_replies svc _ (received_request (api.mkAddTorrentRequest magnet label dir))).
    unfold api.decode_request. cbn [r_body]. rewrite decode_request_json. unfold api.Validate.
    rewrite (proj2 (required_some _ _)); [done|]. intros E%sanitize_nil. done.
  - intros a s' E. rewrite E in Hgood. apply (interpret_torrent 201); [done| |done| |done].
    + intros e. unfold add_magnet_error. simpl. by destruct (error_is e _).
    + intros e. unfold add_magnet_error. by destruct (error_is e _).
Qed.

Lemma run_AddMagnet_empty c label dir s :
  at_root c -> exists m,
  over (client.AddMagnet c "" label dir) s = (Val (Err (EApi 400 m)), s).
Proof.
  intros Hc. destruct (required "magnet" "") as [e|] eqn:Er; [|by apply required_some in Er].
  exists (sanitize (error_text e)). unfold client.AddMagnet, client.do. rewrite run_bind.
  erewrite run_doBody by (by apply url.cut_absent). rewrite segments_at_root by done.
  erewrite (serve_direct svc _ _ _ api.Add [] 400 (api.error_response (error_text e))); [|apply route_add|].
  - cbn [run]. fold (error_reply 400 (error_text e)). unfold client.the_torrent. by rewrite interpret_error.
  - unfold api.Add. cbn [r_content_type]. change (mime.media_type "application/json") with "application/json".
    rewrite decide_False, decide_True by auto. unfold api.addMagnet, api.decode_request. cbn [r_body].
    rewrite decode_request_json. unfold api.Validate. cbn [received_request api.RMagnet]. change (sanitize "") with "". by rewrite Er.
Qed.

Lemma run_AddFile c contents label dir s :
  at_root c ->
  let ts := TsAddFile contents (service.mkAddOptions label dir) in
  good_torrent (fst (svc _ ts s)) ->
  over (client.AddFile c (Ok contents) label dir) s =
  let '(a, s') := svc _ ts s in (Val (remote remote_torrent add_file_error a), s').
Proof.
  intros Hc ts Hgood. unfold client.AddFile, client.buildAddFileBody.
  set (form := mkForm _ _). destruct (multipart_write form) as [ctype body] eqn:Ew. rewrite run_bind.
  pose proof (multipart_roundtrip form) as Hrt. pose proof (multipart_media_type form) as Hmt.
  rewrite Ew in Hrt, Hmt. cbn [fst snd] in Hrt, Hmt.
  erewrite (run_endpoint _ _ _ _ _ _ _ _ _ _ _ ["api"; "v1"; "torrents"] api.Add [] ts add_file_reply
    add_file_error (fun t => api.received (api.newTorrent t)));
    [|by apply url.cut_absent|by rewrite segments_at_root|apply route_add| |].
  - destruct (svc _ ts s) as [a s']. cbn [run]. unfold client.the_torrent. by rewrite outcome_map_remote.
  - unfold api.Add. cbn [r_content_type]. rewrite Hmt, decide_True by done.
    assert (ParseMultipartForm (mkRequest "POST" ["api"; "v1"; "torrents"] "" ctype body) = Ok form) as Hp.
    { unfold ParseMultipartForm. cbn [r_content_type r_body r_query]. rewrite Hrt. done. }
    assert (FormValue form "label" = label /\ FormValue form "targetDir" = dir) as [El Ed].
    { unfold form, FormValue, url.get. cbn [f_values].
      destruct (decide (label <> "")) as [|Hl], (decide (dir <> "")) as [|Hd];
        repeat match goal with Hn : ~ (?x <> "") |- _ => apply dec_stable in Hn; subst end; by split. }
    unfold ts. rewrite <- El at 1. rewrite <- Ed at 1. by apply addFile_replies.
  - intros a s' E. rewrite E in Hgood. apply (interpret_torrent 201); [done| |done| |done].
    + intros e. unfold add_file_error. simpl. by destruct (error_is e SvcErrInvalidTorrentFile), (error_is e SvcErrTorrentAlreadyExists).
    + intros e. unfold add_file_error. by destruct (error_is e SvcErrInvalidTorrentFile), (error_is e SvcErrTorrentAlreadyExists).
Qed.

End wire.
