(* ===== verification/RemoteTheorems.v ===== *)
(** * The client library: what its methods guarantee

    Every method of pkg/client, run against a server whose service is any
    handler at all, is the service's operation: it does the same to the service
    and returns the same answer. The last theorems run it against the service
    of the server itself. *)

From S2P Require Import Prelude GoErrors Prog GoTime Infohash FilePath Sqlite Url World Database Engine Service Spec Backend ServiceFacts Sample ServiceTheorems Json Http Api ApiFacts HttpClient Ui Server HttpSample Remote.
From Stdlib Require Import ZArith Lia Ascii String.
From stdpp Require Import base gmap strings list.

Local Open Scope Z_scope.
Import json.

Section remote.
Context `{Env} `{HttpEnv} `{ui.Views} {S : Type} (svc : handler tsE S) (static : Handler).

Abbreviation over := (run (wire_handle svc (server.mux static))) (only parsing).

(** C30. [Get] and [List] over HTTP are the service's: they change what it
    changes and return its torrents, with the text as JSON carries it, or an
    [ErrorResponse] with the status of its error. *)
Theorem reads_over_http c h s :
  at_root c -> one_segment h = true ->
  good_torrent (fst (svc _ (TsGet h) s)) -> good_torrents (fst (svc _ TsList s)) ->
  over (client.Get c h) s =
    (let '(a, s') := svc _ (TsGet h) s in (Val (remote remote_torrent (get_error h) a), s')) /\
  over (client.List c) s =
    (let '(a, s') := svc _ TsList s in (Val (remote (map remote_torrent) list_error a), s')).
Proof. intros Hc Hh Hg Hl. split; [by apply run_Get|by apply run_List]. Qed.

(** C9. [Remove], [Pause] and [Resume] over HTTP are the service's: one call
    with the same hash and the same wish to delete files, and its answer. *)
Theorem actions_over_http c h del s :
  at_root c -> one_segment h = true ->
  over (client.Remove c h del) s =
    (let '(a, s') := svc _ (TsRemove h del) s in
     (Val (remote id (action_error h "failed to remove torrent: ") a), s')) /\
  over (client.Pause c h) s =
    (let '(a, s') := svc _ (TsPause h) s in
     (Val (remote id (action_error h "failed to pause torrent: ") a), s')) /\
  over (client.Resume c h) s =
    (let '(a, s') := svc _ (TsResume h) s in
     (Val (remote id (action_error h "failed to resume torrent: ") a), s')).
Proof. intros Hc Hh. split_and!; [by apply run_Remove|by apply run_Pause|by apply run_Resume]. Qed.

(** C34. [AddMagnet] and [AddFile] over HTTP are the service's: the magnet and
    the options arrive as JSON carries them, the file and its options byte for
    byte; an empty magnet is refused with status 400 before the service sees it. *)
Theorem adds_over_http `{!HttpLaws} c text label dir s :
  at_root c ->
  let magnet := TsAddMagnet (sanitize text) (service.mkAddOptions (sanitize label) (sanitize dir)) in
  let file := TsAddFile text (service.mkAddOptions label dir) in
  good_torrent (fst (svc _ magnet s)) -> good_torrent (fst (svc _ file s)) ->
  (text <> "" -> over (client.AddMagnet c text label dir) s =
     let '(a, s') := svc _ magnet s in (Val (remote remote_torrent add_magnet_error a), s')) /\
  (exists m, over (client.AddMagnet c "" label dir) s = (Val (Err (EApi 400 m)), s)) /\
  over (client.AddFile c (Ok text) label dir) s =
     let '(a, s') := svc _ file s in (Val (remote remote_torrent add_file_error a), s').
Proof.
  intros Hc magnet file Hm Hf.
  split_and!; [intros; by apply run_AddMagnet|by apply run_AddMagnet_empty|by apply run_AddFile].
Qed.

(** The helpers of the library recognise the service's errors through the
    status codes, however the service wrapped them: [IsNotFound] is
    [ErrTorrentNotFound], [IsConflict] is [ErrTorrentAlreadyExists] and
    [IsBadRequest] is [ErrInvalidTorrentFile]. *)
Theorem errors_are_recognised h failure e :
  client.IsNotFound (api_error (get_error h e)) = error_is e SvcErrTorrentNotFound /\
  client.IsNotFound (api_error (action_error h failure e)) = error_is e SvcErrTorrentNotFound /\
  client.IsConflict (api_error (add_magnet_error e)) = error_is e SvcErrTorrentAlreadyExists /\
  client.IsBadRequest (api_error (add_file_error e)) = error_is e SvcErrInvalidTorrentFile /\
  (error_is e SvcErrInvalidTorrentFile = false ->
   client.IsConflict (api_error (add_file_error e)) = error_is e SvcErrTorrentAlreadyExists).
Proof.
  unfold get_error, action_error, add_magnet_error, add_file_error.
  split_and!; try (intros ->);
    repeat match goal with |- context [if ?b then _ else _] => destruct b end; done.
Qed.

(** A hash that is empty or holds a question mark is not sent as a hash:
    [Get] of the empty hash asks for the list, finds no torrent in the answer
    and returns the zero torrent without an error, and the text after a
    question mark becomes the query, so that [Remove] without [deleteFiles]
    deletes the files. *)
Theorem hash_is_not_escaped c h s :
  at_root c -> one_segment h = true ->
  (forall l s', svc _ TsList s = (Val (Ok l), s') -> good_torrents (Val (Ok l)) ->
     over (client.Get c "") s = (Val (Ok (client.fromAPI api.zero_torrent)), s')) /\
  over (client.Remove c (h +:+ "?files=true") false) s =
    (let '(a, s') := svc _ (TsRemove h true) s in
     (Val (remote id (action_error h "failed to remove torrent: ") a), s')).
Proof.
  intros Hc Hh. split.
  - intros l s' Hl Hgood. unfold client.Get, client.do. rewrite run_bind.
    erewrite run_doBody by (by apply url.cut_absent). rewrite segments_at_root by done.
    rewrite (serve_replies svc _ _ _ api.List [] TsList list_reply); [|apply route_list|apply List_replies].
    rewrite Hl. cbn [run]. unfold client.the_torrent, answer, list_reply. cbn [fst snd].
    destruct (decode_list_as_torrent time_fallback (map api.newTorrent l)) as (v & -> & Ed);
      [by apply Forall_map, Hgood|].
    by erewrite (interpret_ok _ _ 200 v).
  - rewrite <- (run_Remove svc static c h true s) by done. f_equal.
    apply andb_true_iff in Hh as [Hh _]. destruct (Join_hash h Hh) as [Hj _].
    destruct (Join_hash (h +:+ "?files=true")) as [Hj' _].
    { apply plain_name_app; [done|done|simpl; lia]. }
    unfold client.Remove. by rewrite Hj, Hj', str_app_assoc.
Qed.
End remote.

(** ** The client library against the server's own service *)

Section end_to_end.
Context `{EnvLaws} `{HttpEnv} `{ui.Views} `{Faults} (dataDir : string) (static : Handler).

Abbreviation online := (run (wire_handle (ts_handle dataDir) (server.mux static))) (only parsing).

Lemma row_times w h row :
  inv w -> v_rows (view_of w) !! h = Some row ->
  valid_time (database.CreatedAt row) /\ valid_time (database.UpdatedAt row).
Proof.
  intros ([_ Hst] & _) Hr. cbn [v_rows view_of] in Hr. rewrite rows_of_lookup in Hr.
  destruct (sqlite.find_row (sqlite.torrent (w_db w)) h) as [r|] eqn:E; [|done]. injection Hr as <-.
  destruct (find_row_stamped _ _ _ Hst E) as (c & u & Hc & Hu & Ec & Eu).
  unfold to_torrent, row_time. cbn [database.CreatedAt database.UpdatedAt].
  by rewrite Ec, Eu, !parse_rfc3339_format.
Qed.

(** A torrent the engine does not track is reported as its row has it. *)
Lemma live_untracked v row :
  snapshot_of v (database.InfoHash row) = None ->
  live v row = service.overlay row (Err torrent.ErrNotFound).
Proof. intros E. unfold live. by rewrite E. Qed.

(** Through the client library, one call sees what the one before it did. *)
Definition then_get (p : prog wireE (result unit)) (c : client.Client) (h : string)
    : prog wireE (result client.Torrent) :=
  (r <- p;;
   match r with
   | Err err => Ret (Err err)
   | Ok _ => client.Get c h
   end)%prog.

(** Reading over HTTP what was written over HTTP: when the database is
    available, [Pause] of a managed torrent through the client library succeeds
    and [Get] then returns it paused and without peers, with the magnet and the
    progress the server keeps. *)
Theorem Pause_then_Get_over_http c h w row :
  sql_faults = false -> inv w -> at_root c -> one_segment h = true ->
  v_rows (view_of w) !! h = Some row -> is_ok (infohash.FromHexString h) = true ->
  in_int64 (database.Length row) = true ->
  in_int64 (match snapshot_of (view_of w) h with
            | Some p => torrent.PBytesCompleted p
            | None => database.BytesCompleted row
            end) = true ->
  exists t w', online (then_get (client.Pause c h) c h) w = (Val (Ok t), w') /\
    client.Paused t = true /\ client.ActivePeers t = 0 /\
    client.Magnet t = sanitize (database.Magnet row) /\ client.Length t = database.Length row.
Proof.
  intros Hf Hw Hc Hh Hr Hhex Hlen Hbytes. unfold then_get. rewrite run_bind, run_Pause by done.
  cbn [ts_handle]. destruct (run_service dataDir (service.Pause h) w) as [a w1] eqn:Hrun.
  destruct (run_service_exec dataDir _ _ _ _ Hw Hrun) as [Hw1 _].
  destruct (Pause_ok dataDir h w a w1 row Hf Hw Hrun Hr Hhex) as [-> [now Hv]]. cbn [remote].
  set (row1 := paused_row (view_of w) h now row) in *.
  assert (v_rows (view_of w1) !! h = Some row1) as Hr1 by (rewrite Hv; apply lookup_insert_eq).
  assert (database.InfoHash row = h) as Eh by (by apply (view_of_keyed w)).
  assert (snapshot_of (view_of w1) (database.InfoHash row1) = None) as Hsnap.
  { unfold snapshot_of, row1, paused_row, tracked_by. cbn [database.InfoHash]. rewrite Eh, Hv.
    unfold dropped. destruct (infohash.FromHexString h) as [hh|]; [|done]. cbn. by rewrite lookup_delete_eq. }
  destruct (row_times _ _ _ Hw1 Hr1) as [Hcr Hup].
  destruct (Get_ok dataDir h w1 Hf Hw1) as (w2 & Hget & _). rewrite Hr1, live_untracked in Hget by done.
  rewrite run_Get; [|done..|].
  - cbn [ts_handle]. rewrite Hget. eexists _, w2. split; [reflexivity|]. done.
  - cbn [ts_handle]. rewrite Hget. intros t [= <-]. constructor; done.
Qed.

(** When [Remove] through the client library reports success, [Get] of the
    same hash answers with an error the library recognises as not found. *)
Theorem Remove_then_Get_over_http c h del w w1 :
  sql_faults = false -> inv w -> at_root c -> one_segment h = true ->
  online (client.Remove c h del) w = (Val (Ok tt), w1) ->
  exists err w', online (then_get (client.Remove c h del) c h) w = (Val (Err err), w') /\
    client.IsNotFound err = true /\ view_of w' = view_of w1 /\
    v_rows (view_of w1) = delete h (v_rows (view_of w)).
Proof.
  intros Hf Hw Hc Hh Hrem. unfold then_get. rewrite run_bind, Hrem.
  rewrite run_Remove in Hrem by done. cbn [ts_handle] in Hrem.
  destruct (run_service dataDir (service.Remove h del) w) as [a w1'] eqn:Hrun.
  injection Hrem as Ha ->. assert (a = Val (Ok tt)) as ->.
  { destruct a as [[[]|e]|m]; [done|discriminate Ha..]. }
  destruct (run_service_exec dataDir _ _ _ _ Hw Hrun) as [Hw1 _].
  destruct (Remove_ok dataDir h del w w1 Hw Hrun) as (row & Hr & Hv).
  destruct (Get_ok dataDir h w1 Hf Hw1) as (w2 & Hget & Hv2).
  assert (v_rows (view_of w1) = delete h (v_rows (view_of w))) as Hrows by (by rewrite Hv).
  rewrite Hrows, lookup_delete_eq in Hget.
  rewrite run_Get; [|done..|].
  - cbn [ts_handle]. rewrite Hget. eexists _, w2. by split_and!.
  - cbn [ts_handle]. rewrite Hget. by intros t [= ].
Qed.
End end_to_end.

Lemma pair_of_fst {A B} (p : A * B) a : fst p = a -> p = (a, snd p).
Proof. intros <-. by destruct p. Qed.

(** ** Witnesses: the library against the sample server *)

Abbreviation sample_over := (run (wire_handle (ts_handle dir) (server.mux static0))) (only parsing).
Abbreviation sample_ts c w := (ts_handle dir _ c w) (only parsing).

Lemma reads_over_http_witness :
  sample_over (client.Get client0 hexA) world1 =
    (let '(a, s') := sample_ts (TsGet hexA) world1 in (Val (remote remote_torrent (get_error hexA) a), s')) /\
  sample_over (client.List client0) world1 =
    (let '(a, s') := sample_ts TsList world1 in (Val (remote (map remote_torrent) list_error a), s')).
Proof.
  apply (reads_over_http (ts_handle dir) static0 client0 hexA world1).
  - by left.
  - by vm_compute.
  - apply good_torrentb_true. by vm_compute.
  - apply good_torrentsb_true. by vm_compute.
Defined.

Lemma actions_over_http_witness :
  sample_over (client.Remove client0 hexA true) world1 =
    (let '(a, s') := sample_ts (TsRemove hexA true) world1 in
     (Val (remote id (action_error hexA "failed to remove torrent: ") a), s')) /\
  sample_over (client.Pause client0 hexA) world1 =
    (let '(a, s') := sample_ts (TsPause hexA) world1 in
     (Val (remote id (action_error hexA "failed to pause torrent: ") a), s')) /\
  sample_over (client.Resume client0 hexA) world1 =
    (let '(a, s') := sample_ts (TsResume hexA) world1 in
     (Val (remote id (action_error hexA "failed to resume torrent: ") a), s')).
Proof.
  apply (actions_over_http (ts_handle dir) static0 client0 hexA true world1); [by left|by vm_compute].
Defined.

Lemma adds_over_http_witness :
  (magnetA <> "" -> sample_over (client.AddMagnet client0 magnetA "linux" "") world0 =
     let '(a, s') := sample_ts (TsAddMagnet (sanitize magnetA)
       (service.mkAddOptions (sanitize "linux") (sanitize ""))) world0 in
     (Val (remote remote_torrent add_magnet_error a), s')) /\
  (exists m, sample_over (client.AddMagnet client0 "" "linux" "") world0 = (Val (Err (EApi 400 m)), world0)) /\
  sample_over (client.AddFile client0 (Ok magnetA) "linux" "") world0 =
     let '(a, s') := sample_ts (TsAddFile magnetA (service.mkAddOptions "linux" "")) world0 in
     (Val (remote remote_torrent add_file_error a), s').
Proof.
  apply (adds_over_http (ts_handle dir) static0 client0 magnetA "linux" "" world0).
  - by left.
  - apply good_torrentb_true. by vm_compute.
  - apply good_torrentb_true. by vm_compute.
Defined.

Lemma errors_are_recognised_witness :
  client.IsConflict (api_error (add_file_error service.ErrTorrentAlreadyExists)) = true.
Proof.
  destruct (errors_are_recognised hexA "" service.ErrTorrentAlreadyExists) as (_ & _ & _ & _ & E).
  rewrite E; reflexivity.
Defined.

Lemma hash_is_not_escaped_witness :
  (forall l s', sample_ts TsList world1 = (Val (Ok l), s') -> good_torrents (Val (Ok l)) ->
     sample_over (client.Get client0 "") world1 = (Val (Ok (client.fromAPI api.zero_torrent)), s')) /\
  sample_over (client.Remove client0 (hexA +:+ "?files=true") false) world1 =
    (let '(a, s') := sample_ts (TsRemove hexA true) world1 in
     (Val (remote id (action_error hexA "failed to remove torrent: ") a), s')).
Proof.
  apply (hash_is_not_escaped (ts_handle dir) static0 client0 hexA world1); [by left|by vm_compute].
Defined.

Lemma Pause_then_Get_over_http_witness :
  exists t w', sample_over (then_get (client.Pause client0 hexA) client0 hexA) world1 = (Val (Ok t), w') /\
    client.Paused t = true /\ client.ActivePeers t = 0 /\
    client.Magnet t = sanitize magnetA /\ client.Length t = 4096.
Proof.
  assert (exists row, v_rows (view_of world1) !! hexA = Some row /\ database.Magnet row = magnetA /\
    database.Length row = 4096) as (row & Hr & <- & <-) by (eexists; split_and!; by vm_compute).
  apply (@Pause_then_Get_over_http env0 laws0 http0 views0 reliable dir static0 client0 hexA world1 row);
    [reflexivity|apply inv_world1|by left|by vm_compute|done|by vm_compute| |by vm_compute].
  assert (E : v_rows (view_of world1) !! hexA = Some row) by done. vm_compute in E. injection E as <-. by vm_compute.
Defined.

Lemma Remove_then_Get_over_http_witness :
  exists err w', sample_over (then_get (client.Remove client0 hexA false) client0 hexA) world1 = (Val (Err err), w') /\
    client.IsNotFound err = true /\
    view_of w' = view_of (snd (sample_over (client.Remove client0 hexA false) world1)) /\
    v_rows (view_of (snd (sample_over (client.Remove client0 hexA false) world1))) =
      delete hexA (v_rows (view_of world1)).
Proof.
  apply (@Remove_then_Get_over_http env0 laws0 http0 views0 reliable dir static0 client0 hexA false world1);
    [reflexivity|apply inv_world1|by left|by vm_compute|].
  apply pair_of_fst. vm_compute. reflexivity.
Defined.
