(* ===== verification/ApiTheorems.v ===== *)
(** * The API: what every request is answered with

    Theorems about the JSON endpoints in front of any service: that every
    request is answered once, in JSON and with a status of the documented set,
    whatever the service does; that a request that cannot be understood does
    not reach the service; that torrents survive the JSON encoding; and what
    the middlewares make of a handler that panics half-way. *)

From S2P Require Import Prelude GoErrors Prog GoTime Infohash FilePath World Service Sample Json Http Api ApiFacts HttpClient Ui Server HttpSample Remote.
From Stdlib Require Import ZArith Lia Ascii String.
From stdpp Require Import base gmap strings list.

Local Open Scope Z_scope.
Import json.

(** ** Which handler a path can reach *)

Lemma descend_in p rs rt : rt ∈ descend p rs ->
  exists rt0 x, rt0 ∈ rs /\ rt_handler rt = rt_handler rt0 /\ rt_path rt0 = x :: rt_path rt /\ p x = true.
Proof.
  unfold descend. rewrite list_elem_of_omap. intros (rt0 & Hin & E).
  destruct (rt_path rt0) as [|x l] eqn:Ep; [done|]. destruct (p x) eqn:Ex; [|done].
  injection E as <-. by exists rt0, x.
Qed.

Lemma find_in {A} (f : A -> bool) l x : find f l = Some x -> x ∈ l.
Proof. intros H%find_some. apply list_elem_of_In. by destruct H. Qed.

Lemma match_path_handler rs p m hd values :
  match_path rs p m = Some (hd, values) -> exists rt, rt ∈ rs /\ rt_handler rt = hd.
Proof.
  revert rs m values. induction p as [|s p IH]; intros rs m values; cbn [match_path].
  - destruct (find _ rs) as [rt|] eqn:E; [|done]. intros [= <- _]. exists rt. split; [by apply find_in in E|done].
  - destruct (match_path (lit_child s rs) p m) as [[hd1 v1]|] eqn:E1.
    { intros [= <- _]. destruct (IH _ _ _ E1) as (rt & Hin & <-).
      destruct (descend_in _ _ _ Hin) as (rt0 & x & ? & -> & _). by exists rt0. }
    destruct (decide (s = "/")).
    + destruct (find _ rs) as [rt|] eqn:E; [|done]. intros [= <- _]. exists rt. split; [by apply find_in in E|done].
    + destruct (match_path (wild_child rs) p (m ++ [s])) as [[hd1 v1]|] eqn:E2.
      { intros [= <- _]. destruct (IH _ _ _ E2) as (rt & Hin & <-).
        destruct (descend_in _ _ _ Hin) as (rt0 & x & ? & -> & _). by exists rt0. }
      destruct (find _ rs) as [rt|] eqn:E; [|done]. intros [= <- _]. exists rt. split; [by apply find_in in E|done].
Qed.

Lemma wild_child_none rs : Forall (fun rt => exists s l, rt_path rt = Lit s :: l) rs -> wild_child rs = [].
Proof.
  induction 1 as [|rt rs (s & l & E) _ IH]; [done|].
  change (wild_child (rt :: rs)) with
    ((match (match rt_path rt with
             | x :: l => if (match x with Wild => true | Lit _ => false end)
                         then Some (mkRoute (rt_method rt) l (rt_multi rt) (rt_handler rt)) else None
             | [] => None end) with Some y => y :: wild_child rs | None => wild_child rs end)).
  by rewrite E.
Qed.

Lemma match_path_nil p m : match_path [] p m = None.
Proof.
  revert m. induction p as [|s p IH]; intros m; [done|]. cbn [match_path].
  change (lit_child s []) with (@nil route). change (wild_child []) with (@nil route).
  rewrite !IH. by case_decide.
Qed.

Lemma no_empty_path (f : route -> bool) rs :
  Forall (fun rt => exists s l, rt_path rt = Lit s :: l) rs ->
  find (fun rt => bool_decide (rt_path rt = []) && f rt) rs = None.
Proof.
  induction 1 as [|rt rs (s & l & E) _ IH]; [done|]. cbn [find]. by rewrite E.
Qed.

Section api.
Context `{HttpEnv} `{ui.Views} {S : Type} (svc : handler tsE S) (static : Handler).

Lemma mux_starts_literal m :
  Forall (fun rt => exists s l, rt_path rt = Lit s :: l) (method_routes m (server.mux static)).
Proof.
  apply List.Forall_forall. intros rt [Hin _]%filter_In.
  repeat (destruct Hin as [<-|Hin]; [by do 2 eexists|]). done.
Qed.

Lemma method_routes_in m rs rt : rt ∈ method_routes m rs -> rt ∈ rs.
Proof. rewrite !list_elem_of_In. by intros [? _]%filter_In. Qed.

(** ** What a handler of the API answers *)

Definition statuses : list Z := [200; 201; 400; 404; 409; 415; 500].

(** A JSON response of the set without a call of the service, or after one. *)
Definition answers (p : prog httpE unit) : Prop :=
  (exists st v, p = api.writeJSON st v /\ st ∈ statuses) \/
  (exists A (c : tsE A) reply, replies svc p c reply /\ forall x, fst (reply x) ∈ statuses).

Definition answering (hd : Handler) : Prop := forall r values, answers (hd r values).

Ltac a_status := repeat first [apply list_elem_of_here|apply list_elem_of_further].

Lemma answers_direct st v : st ∈ statuses -> answers (api.writeJSON st v).
Proof. left. eauto. Qed.

Lemma answers_reply {A} p (c : tsE A) reply :
  replies svc p c reply -> (forall x, fst (reply x) ∈ statuses) -> answers p.
Proof. right. eauto. Qed.

Lemma action_statuses h f x : fst (action_reply h f x) ∈ statuses.
Proof. destruct x as [|e]; simpl; [|destruct (error_is e _)]; a_status. Qed.

Lemma List_answering : answering api.List.
Proof. intros r v. eapply answers_reply; [apply List_replies|]. intros []; a_status. Qed.
Lemma Get_answering : answering api.Get.
Proof.
  intros r v. eapply answers_reply; [apply Get_replies|].
  intros [|e]; simpl; [|destruct (error_is e _)]; a_status.
Qed.
Lemma Remove_answering : answering api.Remove.
Proof. intros r v. eapply answers_reply; [apply Remove_replies|]. apply action_statuses. Qed.
Lemma Pause_answering : answering api.Pause.
Proof. intros r v. eapply answers_reply; [apply Pause_replies|]. apply action_statuses. Qed.
Lemma Resume_answering : answering api.Resume.
Proof. intros r v. eapply answers_reply; [apply Resume_replies|]. apply action_statuses. Qed.

Lemma addMagnet_answers r : answers (api.addMagnet r).
Proof.
  destruct (api.decode_request (r_body r)) as [req|e] eqn:E.
  - eapply answers_reply; [by apply addMagnet_replies|].
    intros [|e]; simpl; [|destruct (error_is e _)]; a_status.
  - unfold api.addMagnet. rewrite E. apply answers_direct. a_status.
Qed.

Lemma addFile_answers r : answers (api.addFile r).
Proof.
  destruct (ParseMultipartForm r) as [form|e] eqn:E1.
  - destruct (FormFile form "file") as [file|e] eqn:E2.
    + eapply answers_reply; [by apply addFile_replies|].
      intros [|e]; simpl; [|destruct (error_is e SvcErrInvalidTorrentFile); [|destruct (error_is e _)]]; a_status.
    + unfold api.addFile. rewrite E1, E2. apply answers_direct. a_status.
  - unfold api.addFile. rewrite E1. apply answers_direct. a_status.
Qed.

Lemma Add_answering : answering api.Add.
Proof.
  intros r v. unfold api.Add. case_decide; [apply addFile_answers|].
  case_decide; [apply addMagnet_answers|]. apply answers_direct. a_status.
Qed.

Lemma mux_api : Forall (fun rt => hd_error (rt_path rt) = Some (Lit "api") -> answering (rt_handler rt))
  (server.mux static).
Proof.
  unfold server.mux, api.routes, ui.routes. cbn [app].
  apply Forall_cons; split; [intros _; exact Add_answering|].
  apply Forall_cons; split; [intros _; exact List_answering|].
  apply Forall_cons; split; [intros _; exact Get_answering|].
  apply Forall_cons; split; [intros _; exact Remove_answering|].
  apply Forall_cons; split; [intros _; exact Pause_answering|].
  apply Forall_cons; split; [intros _; exact Resume_answering|].
  repeat (apply Forall_cons; split; [cbn [hd_error rt_path]; discriminate|]). by apply Forall_nil.
Qed.

(** A path under /api reaches a handler of the API. *)
Lemma api_handler m rest hd values :
  route_match (server.mux static) m ("api" :: rest) = Some (hd, values) ->
  answering hd.
Proof.
  assert (forall m', match_path (method_routes m' (server.mux static)) ("api" :: rest) [] = Some (hd, values) ->
    answering hd) as Hm.
  { intros m' E. cbn [match_path] in E. rewrite (wild_child_none _ (mux_starts_literal m')) in E.
    destruct (match_path (lit_child "api" _) rest []) as [[hd1 v1]|] eqn:E1.
    - injection E as <- _. destruct (match_path_handler _ _ _ _ _ E1) as (rt & Hin & <-).
      destruct (descend_in _ _ _ Hin) as (rt0 & x & Hin0 & -> & Hp & Hx).
      apply method_routes_in in Hin0. pose proof mux_api as Hall. rewrite Forall_forall in Hall.
      apply (Hall _ Hin0). rewrite Hp. destruct x as [t|]; [|done]. by apply bool_decide_eq_true in Hx as ->.
    - rewrite decide_False, match_path_nil, (no_empty_path rt_multi _ (mux_starts_literal m')) in E by done.
      done. }
  unfold route_match. destruct (match_path _ _ _) as [x|] eqn:E; [intros [= ->]; by eapply Hm|].
  case_decide; [apply Hm|done].
Qed.

Definition is_json (resp : Response) : Prop :=
  rs_header resp = {["Content-Type" := "application/json"]} /\
  exists v, rs_body resp = from_option encode "" v.

(** Every request that matches a pattern of the API is answered, in JSON
    and with one of the seven statuses, after at most one call of the service,
    whatever the service does: an error becomes a status and a panic of the
    service becomes 500. *)
Theorem api_always_answers m rest q ctype body hd values s :
  route_match (server.mux static) m ("api" :: rest) = Some (hd, values) ->
  exists resp s',
    api.serve svc (server.mux static) s (mkRequest m ("api" :: rest) q ctype body) = (Some resp, s') /\
    is_json resp /\ rs_status resp ∈ statuses /\
    (s' = s \/ exists A (c : tsE A), s' = snd (svc A c s)).
Proof.
  intros Hm. pose proof (api_handler _ _ _ _ Hm (mkRequest m ("api" :: rest) q ctype body) values) as Ha.
  destruct Ha as [(st & v & E & Hst)|(A & c & reply & Hr & Hst)].
  - exists (json_response st v), s. split; [by apply (serve_direct _ _ _ _ hd values)|].
    split; [split; [done|by exists v]|]. auto.
  - rewrite (serve_replies svc _ s (mkRequest m ("api" :: rest) q ctype body) hd values c reply) by done.
    destruct (svc A c s) as [[x|msg] s'] eqn:E; eexists _, s'; split; try reflexivity.
    + split; [split; [done|by exists (snd (reply x))]|]. split; [apply Hst|]. right. exists A, c. by rewrite E.
    + split; [split; [done|by eexists]|]. split; [a_status|]. right. exists A, c. by rewrite E.
Qed.

(** A request to add a torrent that cannot be understood is refused and
    never reaches the service: an unsupported media type with 415; a JSON body
    that is no JSON, or whose magnet is missing, empty or null, with 400; a
    multipart body that cannot be read or has no file with 400. *)
Theorem bad_add_is_refused `{!HttpLaws} q ctype body s :
  let req := mkRequest "POST" ["api"; "v1"; "torrents"] q ctype body in
  let served := api.serve svc (server.mux static) s req in
  let refused st := exists v, served = (Some (json_response st v), s) in
  (mime.media_type ctype ∉ [""; "application/json"; "multipart/form-data"] -> refused 415) /\
  (mime.media_type ctype ∈ [""; "application/json"] ->
     parse body = None \/
     api.RMagnet (fst (decode (set_struct api.request_fields) body (api.mkAddTorrentRequest "" "" ""))) = "" ->
     refused 400) /\
  (mime.media_type ctype = "multipart/form-data" ->
     is_ok (ParseMultipartForm req) = false \/
     (exists f, ParseMultipartForm req = Ok f /\ forall file, ("file", file) ∉ f_files f) ->
     refused 400).
Proof.
  intros req served refused.
  assert (forall st v, api.Add req [] = api.writeJSON st v -> refused st) as Hd.
  { intros st v E. exists v. by apply (serve_direct svc _ _ _ api.Add []); [apply route_add|]. }
  split_and!.
  - intros Hct. eapply Hd. unfold api.Add. cbn [req r_content_type].
    rewrite decide_False by (intros E; apply Hct; rewrite E; a_status).
    rewrite decide_False; [reflexivity|]. intros [E|E]; apply Hct; rewrite E; a_status.
  - intros Hct Hbad. assert (exists e, api.decode_request body = Err e) as [e He].
    { unfold api.decode_request.
      destruct (decode _ body _) as [t failed] eqn:E. destruct failed; [by eexists|].
      destruct Hbad as [Hp|Hm].
      - unfold decode in E. rewrite Hp in E. by injection E as _.
      - cbn [fst] in Hm. unfold api.Validate. destruct (required "magnet" (api.RMagnet t)) eqn:Er; [by eexists|].
        by apply required_some in Er. }
    assert (mime.media_type ctype = "" \/ mime.media_type ctype = "application/json") as Hct'.
    { rewrite !elem_of_cons in Hct. destruct Hct as [?|[?|Hn]]; [auto..|]. by apply elem_of_nil in Hn. }
    eapply Hd. unfold api.Add. cbn [req r_content_type].
    rewrite decide_False by (intros E; rewrite E in Hct'; by destruct Hct').
    rewrite decide_True by done.
    unfold api.addMagnet. cbn [req r_body]. rewrite He. reflexivity.
  - intros Hct Hbad.
    assert (exists m, api.addFile req = api.writeJSON 400 (api.error_response m)) as [m Em].
    { unfold api.addFile. destruct Hbad as [Hp|(f & Hf & Hfile)].
      - destruct (ParseMultipartForm req); [done|]. by eexists.
      - rewrite Hf. unfold FormFile. destruct (find _ (f_files f)) as [[k x]|] eqn:E; [|by eexists].
        apply find_some in E as [Hin Hk]. apply bool_decide_eq_true in Hk. cbn [fst] in Hk. subst k.
        exfalso. apply (Hfile x). by apply list_elem_of_In. }
    eapply Hd. unfold api.Add. cbn [req r_content_type]. by rewrite decide_True.
Qed.

End api.

(** Torrents survive the JSON encoding: what a server writes in its
    responses is decoded by the client library as the same torrents, counts of
    64 bits, instants to the nanosecond and left-out empty fields included, and
    text byte for byte when it is valid UTF-8. *)
Theorem json_preserves_torrents fb t l :
  api.expressible t -> Forall api.expressible l ->
  (exists v, api.torrent_response t = Some v /\
     decode (set_struct (api.torrent_response_fields fb)) (encode v) api.zero_torrent = (api.received t, false)) /\
  (exists v, api.list_response l = Some v /\
     decode (set_struct (api.list_response_fields fb)) (encode v) [] = (map api.received l, false)) /\
  (forallb utf8_valid [api.InfoHash t; api.Magnet t; api.Label t; api.TargetDir t; api.Name t] = true ->
     api.received t = t).
Proof.
  intros Ht Hl. split_and!; [by apply decode_torrent_response|by apply decode_list_response|].
  cbn [forallb]. rewrite !andb_true_iff. intros (H1 & H2 & H3 & H4 & H5 & _).
  unfold api.received. rewrite !sanitize_valid by done. by destruct t.
Qed.

(** ** Witnesses *)

Abbreviation sample_serve := (api.serve (ts_handle dir) (server.mux static0)) (only parsing).

Lemma api_always_answers_witness :
  exists resp s',
    sample_serve world1 (mkRequest "POST" ("api" :: ["v1"; "torrents"; hexA; "pause"]) "" "" "") = (Some resp, s') /\
    is_json resp /\ rs_status resp ∈ statuses /\
    (s' = world1 \/ exists A (c : tsE A), s' = snd (ts_handle dir A c world1)).
Proof.
  apply (api_always_answers (ts_handle dir) static0 "POST" ["v1"; "torrents"; hexA; "pause"] "" "" "" api.Pause [hexA]).
  reflexivity.
Defined.

Definition no_magnet : string := encode (Object (member "label" (of_string "linux"))).

Lemma bad_add_is_refused_witness :
  (exists v, sample_serve world0 (mkRequest "POST" ["api"; "v1"; "torrents"] "" "application/json; charset=utf-8" no_magnet) =
     (Some (json_response 400 v), world0)) /\
  (exists v, sample_serve world0 (mkRequest "POST" ["api"; "v1"; "torrents"] "" "text/plain" "") =
     (Some (json_response 415 v), world0)).
Proof.
  split.
  - destruct (bad_add_is_refused (ts_handle dir) static0 "" "application/json; charset=utf-8" no_magnet world0)
      as (_ & Hjson & _). apply Hjson.
    + apply (bool_decide_unpack _). by vm_compute.
    + right. by vm_compute.
  - destruct (bad_add_is_refused (ts_handle dir) static0 "" "text/plain" "" world0) as (Hct & _ & _).
    apply Hct. apply (bool_decide_unpack _). by vm_compute.
Defined.

Definition sample_torrent : api.Torrent :=
  api.mkTorrent hexA magnetA "linux <&> isos" "/data" true (noon 120000000) (noon 5) "debian" 9223372036854775807 0 3 0.

Lemma json_preserves_torrents_witness :
  exists v, api.torrent_response sample_torrent = Some v /\
    decode (set_struct (api.torrent_response_fields time_fallback)) (encode v) api.zero_torrent = (sample_torrent, false).
Proof.
  destruct (json_preserves_torrents time_fallback sample_torrent []) as ((v & Hv & Hd) & _ & Heq).
  - apply (bool_decide_unpack _). by vm_compute.
  - constructor.
  - exists v. rewrite Heq in Hd by (by vm_compute). by split.
Defined.
