(* ===== verification/UiTheorems.v ===== *)
(** * The web interface: what its pages show and do

    Theorems about the handlers of internal/server/ui in front of any service
    and for any views, and about the helpers the views call. *)

From S2P Require Import Prelude GoErrors Prog GoTime Strconv Infohash FilePath Url World Service Sample Json Http Api ApiFacts HttpClient Ui Server HttpSample Remote.
From Stdlib Require Import ZArith Lia Ascii String.
From stdpp Require Import base gmap strings list.

Local Open Scope Z_scope.
Import json.

(** ** Responses *)

(** A page; when its view fails the status and the text written so far are
    followed by the text of the API's internal error. *)
Definition page (st : Z) (view : string * option error) : Response :=
  mkResponse st {["Content-Type" := "text/html; charset=utf-8"]}
    (fst view +:+ match snd view with
                  | None => ""
                  | Some _ => from_option encode "" (api.error_response "internal server error")
                  end).

(** [http.Error] *)
Definition plain_error (st : Z) (message : string) : Response :=
  mkResponse st (<["X-Content-Type-Options" := "nosniff"]> {["Content-Type" := "text/plain; charset=utf-8"]})
    (message +:+ newline).

Definition redirect (to : string) : Response := mkResponse 303 {["Location" := to]} "".

Section ui.
Context `{HttpEnv} `{ui.Views} {S : Type} (svc : handler tsE S) (static : Handler).

Abbreviation serve := (api.serve svc (server.mux static)) (only parsing).

(** The response the middlewares make of the end of a handler. *)
Definition response_of (p : res unit * hstate S) : option Response * S :=
  (Some (finish (h_writer (match fst p with
                           | Val _ => snd p
                           | Panicked _ => respond 500 (api.error_response "internal server error") (snd p)
                           end))), h_svc (snd p)).

Lemma serve_run s r hd values :
  route_match (server.mux static) (r_method r) (r_path r) = Some (hd, values) ->
  serve s r = response_of (run (http_handle svc) (hd r values) (mkHstate s new_writer [])).
Proof.
  intros Hm. rewrite serve_eq. unfold ServeHTTP. rewrite Hm.
  by destruct (run (http_handle svc) (hd r values) (mkHstate s new_writer [])).
Qed.

Lemma response_render {model} st (view : ui.View model) m s :
  response_of (run (http_handle svc) (ui.render st view m) (mkHstate s new_writer [])) = (Some (page st (view m)), s).
Proof.
  unfold ui.render, page, response_of. destruct (view m) as [text [e|]]; cbn [fst snd].
  - reflexivity.
  - cbn. by rewrite str_app_nil_r.
Qed.

Lemma response_error message st s :
  response_of (run (http_handle svc) (Error message st) (mkHstate s new_writer [])) = (Some (plain_error st message), s).
Proof. unfold response_of, plain_error. cbn. by rewrite str_app_nil_l. Qed.

(** One call of the service at the start of a handler. *)
Lemma response_service {A} (c : tsE A) (k : A -> prog httpE unit) s :
  response_of (run (http_handle svc) (x <- call (Service c);; k x)%prog (mkHstate s new_writer [])) =
  let '(a, s') := svc A c s in
  match a with
  | Val x => response_of (run (http_handle svc) (k x) (mkHstate s' new_writer []))
  | Panicked _ => (Some internal_error, s')
  end.
Proof. cbn [pbind call run http_handle h_svc]. by destruct (svc A c s) as [[x|m] s']. Qed.

Lemma response_nested {A B} (c : tsE A) (g : A -> B) (k : B -> prog httpE unit) s :
  response_of (run (http_handle svc) (y <- (x <- call (Service c);; Ret (g x));; k y)%prog (mkHstate s new_writer [])) =
  let '(a, s') := svc A c s in
  match a with
  | Val x => response_of (run (http_handle svc) (k (g x)) (mkHstate s' new_writer []))
  | Panicked _ => (Some internal_error, s')
  end.
Proof. cbn [pbind call run http_handle h_svc]. by destruct (svc A c s) as [[x|m] s']. Qed.

(** ** Where requests go *)

Lemma route_index : route_match (server.mux static) "GET" ["/"] = Some (ui.List, []).
Proof. reflexivity. Qed.

Lemma route_table : route_match (server.mux static) "GET" ["ui"; "torrents"] = Some (ui.Table, []).
Proof. reflexivity. Qed.

Lemma route_form : route_match (server.mux static) "POST" ["torrents"] = Some (ui.Add, []).
Proof. reflexivity. Qed.

Lemma route_show h : h <> "/" -> h <> "new" ->
  route_match (server.mux static) "GET" ["torrents"; h] = Some (ui.Show, [h]).
Proof.
  intros Hh Hn. apply route_match_some, match_path_lit.
  change (lit_child "torrents" _) with
    [mkRoute "GET" [Lit "new"] false ui.New; mkRoute "GET" [Wild] false ui.Show].
  apply match_path_wild; [|done|done].
  assert (lit_child h [mkRoute "GET" [Lit "new"] false ui.New; mkRoute "GET" [Wild] false ui.Show] = []) as ->; [|done].
  unfold lit_child, descend. cbn [omap list_omap rt_path].
  by rewrite bool_decide_eq_false_2 by congruence.
Qed.

Lemma route_detail h : h <> "/" -> route_match (server.mux static) "GET" ["ui"; "torrents"; h] = Some (ui.Detail, [h]).
Proof. intros Hh. apply route_match_some. do 2 apply match_path_lit. by apply match_path_wild. Qed.

Lemma route_ui_delete h : h <> "/" -> route_match (server.mux static) "DELETE" ["ui"; "torrents"; h] = Some (ui.Delete, [h]).
Proof. intros Hh. apply route_match_some. do 2 apply match_path_lit. by apply match_path_wild. Qed.

Lemma route_ui_pause h : h <> "/" ->
  route_match (server.mux static) "POST" ["ui"; "torrents"; h; "pause"] = Some (ui.Pause, [h]).
Proof. intros Hh. apply route_match_some. do 2 apply match_path_lit. by apply match_path_wild. Qed.

Lemma route_ui_resume h : h <> "/" ->
  route_match (server.mux static) "POST" ["ui"; "torrents"; h; "resume"] = Some (ui.Resume, [h]).
Proof. intros Hh. apply route_match_some. do 2 apply match_path_lit. by apply match_path_wild. Qed.

(** ** The handlers *)

(** A page made of the torrent and, when there is one, of its files. *)
Definition show_page (view : ui.View ui.ShowViewModel) (t : service.Torrent) (h : string) (s : S)
    : option Response * S :=
  let '(b, s') := svc _ (TsFiles h) s in
  (Some (match b with
         | Val files => page 200 (view (ui.mkShowViewModel t (ui.files_or_nil files)))
         | Panicked _ => internal_error
         end), s').

Lemma Show_response h r s :
  response_of (run (http_handle svc) (ui.Show r [h]) (mkHstate s new_writer [])) =
  let '(a, s') := svc _ (TsGet h) s in
  match a with
  | Val (Ok t) => show_page ui.view_Show t h s'
  | Val (Err e) => (Some (if error_is e SvcErrTorrentNotFound then plain_error 404 "torrent not found"
                          else plain_error 500 "failed to load torrent"), s')
  | Panicked _ => (Some internal_error, s')
  end.
Proof.
  unfold ui.Show. rewrite response_service. destruct (svc _ (TsGet _) s) as [[[t|e]|m] s']; [|..|done].
  - rewrite response_service. unfold show_page. cbn [PathValue].
    destruct (svc _ (TsFiles h) s') as [[files|m] s'']; [|done]. by rewrite response_render.
  - by destruct (error_is e SvcErrTorrentNotFound); rewrite response_error.
Qed.

Lemma Detail_response h r s :
  response_of (run (http_handle svc) (ui.Detail r [h]) (mkHstate s new_writer [])) =
  let '(a, s') := svc _ (TsGet h) s in
  match a with
  | Val (Ok t) => show_page ui.view_ShowDetail t h s'
  | Val (Err e) => (Some (plain_error 500 "failed to load torrent"), s')
  | Panicked _ => (Some internal_error, s')
  end.
Proof.
  unfold ui.Detail. rewrite response_service. destruct (svc _ (TsGet _) s) as [[[t|e]|m] s']; [|..|done].
  - rewrite response_service. unfold show_page. cbn [PathValue].
    destruct (svc _ (TsFiles h) s') as [[files|m] s'']; [|done]. by rewrite response_render.
  - by rewrite response_error.
Qed.

(** The detail page shows the service's torrent and files. A torrent that
    does not exist is answered with 404; failing to list the files does not
    hide the torrent; the fragment the page polls shows the same, but takes
    every error for a failure, a torrent that does not exist included. *)
Theorem detail_pages h q ctype body s :
  h <> "/" -> h <> "new" ->
  serve s (mkRequest "GET" ["torrents"; h] q ctype body) =
    (let '(a, s') := svc _ (TsGet h) s in
     match a with
     | Val (Ok t) => show_page ui.view_Show t h s'
     | Val (Err e) => (Some (if error_is e SvcErrTorrentNotFound then plain_error 404 "torrent not found"
                             else plain_error 500 "failed to load torrent"), s')
     | Panicked _ => (Some internal_error, s')
     end) /\
  serve s (mkRequest "GET" ["ui"; "torrents"; h] q ctype body) =
    (let '(a, s') := svc _ (TsGet h) s in
     match a with
     | Val (Ok t) => show_page ui.view_ShowDetail t h s'
     | Val (Err e) => (Some (plain_error 500 "failed to load torrent"), s')
     | Panicked _ => (Some internal_error, s')
     end).
Proof.
  intros Hh Hn. split.
  - rewrite (serve_run _ _ ui.Show [h]) by (by apply route_show). apply Show_response.
  - rewrite (serve_run _ _ ui.Detail [h]) by (by apply route_detail). apply Detail_response.
Qed.

(** The row of the torrent after the action. *)
Definition row_after (h : string) (a : res (result unit)) (s : S) : option Response * S :=
  match a with
  | Val (Ok _) =>
      let '(b, s') := svc _ (TsGet h) s in
      (Some (match b with
             | Val (Ok t) => page 200 (ui.view_TorrentRow t)
             | Val (Err _) => plain_error 500 "failed to load torrent"
             | Panicked _ => internal_error
             end), s')
  | Val (Err _) => (Some (plain_error 500 "failed to toggle torrent"), s)
  | Panicked _ => (Some internal_error, s)
  end.

Lemma toggle_response h (action : string -> tsE (result unit)) s :
  response_of (run (http_handle svc) (ui.toggle [h] action) (mkHstate s new_writer [])) =
  let '(a, s') := svc _ (action h) s in row_after h a s'.
Proof.
  unfold ui.toggle, row_after. rewrite response_service. cbn [PathValue].
  destruct (svc _ (action h) s) as [[[[]|e]|m] s']; [|by rewrite response_error|done].
  rewrite response_service. destruct (svc _ (TsGet h) s') as [[[t|e]|m] s'']; [|..|done].
  - by rewrite response_render.
  - by rewrite response_error.
Qed.

(** The buttons of a row act through the service once and show what it
    reports next: pausing and resuming answer with the row of the torrent as
    it is after the action, deleting asks to delete the files exactly when the
    query says so and answers with nothing. Whatever the error, not found
    included, it is answered with 500. *)
Theorem buttons_act h q ctype body s :
  h <> "/" ->
  serve s (mkRequest "POST" ["ui"; "torrents"; h; "pause"] q ctype body) =
    (let '(a, s') := svc _ (TsPause h) s in row_after h a s') /\
  serve s (mkRequest "POST" ["ui"; "torrents"; h; "resume"] q ctype body) =
    (let '(a, s') := svc _ (TsResume h) s in row_after h a s') /\
  serve s (mkRequest "DELETE" ["ui"; "torrents"; h] q ctype body) =
    (let '(a, s') := svc _ (TsRemove h (bool_decide (url.get (fst (url.ParseQuery q)) "files" = "true"))) s in
     (Some (match a with
            | Val (Ok _) => mkResponse 200 ∅ ""
            | Val (Err _) => plain_error 500 "failed to delete torrent"
            | Panicked _ => internal_error
            end), s')).
Proof.
  intros Hh. split_and!.
  - rewrite (serve_run _ _ ui.Pause [h]) by (by apply route_ui_pause). apply toggle_response.
  - rewrite (serve_run _ _ ui.Resume [h]) by (by apply route_ui_resume). apply toggle_response.
  - rewrite (serve_run _ _ ui.Delete [h]) by (by apply route_ui_delete).
    unfold ui.Delete. rewrite response_service. cbn [PathValue]. unfold QueryGet. cbn [r_query].
    destruct (svc _ (TsRemove h _) s) as [[[[]|e]|m] s']; [done|by rewrite response_error|done].
Qed.

(** ** The form *)

Definition form_error (e : error) : string :=
  if error_is e UiErrMissingMagnet then "magnet URI is required"
  else if error_is e UiErrMissingFile then "a torrent file is required"
  else if error_is e SvcErrInvalidTorrentFile then "invalid torrent file"
  else if error_is e SvcErrTorrentAlreadyExists then "torrent already exists"
  else "failed to add torrent: " +:+ error_text e.

(** The form again, with what was typed and a message. *)
Definition form_again (form : ui.addTorrentForm) (message : string) : Response :=
  page 400 (ui.view_New (ui.mkNewViewModel (ui.Source form) (ui.Magnet form) (ui.Label form) (ui.TargetDir form) message)).

Definition form_reply (form : ui.addTorrentForm) (a : res (result service.Torrent)) : Response :=
  match a with
  | Val (Ok _) => redirect "/"
  | Val (Err e) => form_again form (form_error e)
  | Panicked _ => internal_error
  end.

Lemma response_redirect r s : r_method r = "POST" ->
  response_of (run (http_handle svc) (Redirect r "/" 303) (mkHstate s new_writer [])) = (Some (redirect "/"), s).
Proof. intros E. unfold Redirect. rewrite E. reflexivity. Qed.

(** The end of [Add], on the error of adding. *)
Definition add_end (r : Request) (form : ui.addTorrentForm) (err : option error) : prog httpE unit :=
  match err with
  | None => Redirect r "/" 303
  | Some err => ui.renderNewError form (form_error err)
  end.

Lemma Add_end r f : ParseMultipartForm r = Ok f ->
  ui.Add r [] = (err <- (if decide (ui.Source (ui.form_of f) = "file") then ui.addFile f (ui.form_of f)
                         else ui.addMagnet (ui.form_of f));;
                 match err with
                 | None => Redirect r "/" 303
                 | Some err =>
                     if error_is err UiErrMissingMagnet then ui.renderNewError (ui.form_of f) "magnet URI is required"
                     else if error_is err UiErrMissingFile then ui.renderNewError (ui.form_of f) "a torrent file is required"
                     else if error_is err SvcErrInvalidTorrentFile then ui.renderNewError (ui.form_of f) "invalid torrent file"
                     else if error_is err SvcErrTorrentAlreadyExists then ui.renderNewError (ui.form_of f) "torrent already exists"
                     else ui.renderNewError (ui.form_of f) ("failed to add torrent: " +:+ error_text err)
                 end)%prog.
Proof. intros E. unfold ui.Add. by rewrite E. Qed.

Lemma response_form_error form e s :
  response_of (run (http_handle svc)
    (if error_is e UiErrMissingMagnet then ui.renderNewError form "magnet URI is required"
     else if error_is e UiErrMissingFile then ui.renderNewError form "a torrent file is required"
     else if error_is e SvcErrInvalidTorrentFile then ui.renderNewError form "invalid torrent file"
     else if error_is e SvcErrTorrentAlreadyExists then ui.renderNewError form "torrent already exists"
     else ui.renderNewError form ("failed to add torrent: " +:+ error_text e))
    (mkHstate s new_writer [])) = (Some (form_again form (form_error e)), s).
Proof.
  unfold form_error, form_again.
  destruct (error_is e UiErrMissingMagnet); [apply response_render|].
  destruct (error_is e UiErrMissingFile); [apply response_render|].
  destruct (error_is e SvcErrInvalidTorrentFile); [apply response_render|].
  destruct (error_is e SvcErrTorrentAlreadyExists); apply response_render.
Qed.

(** The form adds what was submitted: one call of the service with the
    file or the magnet, the label and the directory of the form; the browser is
    sent to the list exactly when the service accepted it, and otherwise gets
    the form again, with what was typed and the reason. A form without a file
    or without a magnet does not reach the service. *)
Theorem form_adds_torrents q ctype body f s :
  let r := mkRequest "POST" ["torrents"] q ctype body in
  let form := ui.form_of f in
  let opts := service.mkAddOptions (ui.Label form) (ui.TargetDir form) in
  ParseMultipartForm r = Ok f ->
  serve s r =
    if decide (ui.Source form = "file") then
      match FormFile f "file" with
      | Err _ => (Some (form_again form "a torrent file is required"), s)
      | Ok file => let '(a, s') := svc _ (TsAddFile file opts) s in (Some (form_reply form a), s')
      end
    else if decide (ui.Magnet form = "") then (Some (form_again form "magnet URI is required"), s)
    else let '(a, s') := svc _ (TsAddMagnet (ui.Magnet form) opts) s in (Some (form_reply form a), s').
Proof.
  intros r form opts Hf. rewrite (serve_run _ r ui.Add []) by apply route_form.
  rewrite (Add_end r f Hf). fold form.
  destruct (decide (ui.Source form = "file")) as [Hsrc|Hsrc].
  - unfold ui.addFile. destruct (FormFile f "file") as [file|e].
    + rewrite response_nested. destruct (svc _ _ s) as [[[t|e]|m] s']; cbn [pbind form_reply].
      * by apply response_redirect.
      * apply response_form_error.
      * done.
    + cbn [pbind]. apply response_form_error.
  - unfold ui.addMagnet. destruct (decide (ui.Magnet form = "")) as [Hm|Hm].
    + cbn [pbind]. apply response_form_error.
    + rewrite response_nested. destruct (svc _ _ s) as [[[t|e]|m] s']; cbn [pbind form_reply].
      * by apply response_redirect.
      * apply response_form_error.
      * done.
Qed.

(** When a view fails after the handler has sent the status, the client is
    told success: the middlewares cannot take status 200 back, the text of
    the internal error is appended to the page, and the log records the status
    500 that was never sent. *)
Theorem failed_view_is_sent_as_success h t text e s s1 s2 :
  let r := mkRequest "POST" ["ui"; "torrents"; h; "pause"] "" "" "" in
  h <> "/" -> svc _ (TsPause h) s = (Val (Ok tt), s1) -> svc _ (TsGet h) s1 = (Val (Ok t), s2) ->
  ui.view_TorrentRow t = (text, Some e) ->
  api.serve_logged svc (server.mux static) s r =
    (Some (mkResponse 200 {["Content-Type" := "text/html; charset=utf-8"]}
             (text +:+ from_option encode "" (api.error_response "internal server error"))), s2,
     ["handler panicked: " +:+ error_text e; api.log_text r 500]).
Proof.
  intros r Hh Hp Hg Hv. unfold api.serve_logged, api.Logging, api.Recovery, ServeHTTP.
  assert (route_match (server.mux static) (r_method r) (r_path r) = Some (ui.Pause, [h])) as -> by (by apply route_ui_pause).
  unfold ui.Pause, ui.toggle, ui.render. cbn [PathValue].
  cbn. rewrite Hp. cbn. rewrite Hg. cbn. rewrite Hv. cbn. done.
Qed.

End ui.

(** ** The helpers of the views *)

Section views.
Import views.

Definition int64 (n : Z) : Prop := in_int64 n = true.

(** The loop ends before its fuel: [v] loses ten bits in every round. *)
Lemma scale_spec k : forall fuel v div exp,
  0 < div -> 0 <= v < 2 ^ (10 * (Z.of_nat k + 1)) -> (k < fuel)%nat ->
  exists j, (j <= k)%nat /\ scale fuel v div exp = (div * 2 ^ (10 * Z.of_nat j), (exp + j)%nat) /\
    v / 2 ^ (10 * Z.of_nat j) < unit /\ (j = O \/ unit <= v / 2 ^ (10 * (Z.of_nat j - 1))).
Proof.
  induction k as [|k IH]; intros fuel v div exp Hd Hv Hf; destruct fuel as [|fuel]; [lia| |lia|]; cbn [scale].
  - exists O. change (2 ^ (10 * (Z.of_nat 0 + 1))) with 1024 in Hv. unfold unit.
    rewrite (proj2 (Z.leb_gt 1024 v)) by lia. split_and!; [done| |rewrite Z.div_1_r; lia|by left].
    f_equal; [rewrite Z.mul_1_r; done|lia].
  - unfold unit in *. destruct (Z.leb_spec 1024 v) as [Hge|Hlt].
    + destruct (IH fuel (v / 1024) (div * 1024) (S exp)) as (j & Hj & -> & Hlt & Hge'); [lia| |lia|].
      { split; [apply Z.div_pos; lia|]. apply Z.div_lt_upper_bound; [lia|].
        replace (10 * (Z.of_nat (S k) + 1)) with (10 + 10 * (Z.of_nat k + 1)) in Hv by lia.
        rewrite Z.pow_add_r in Hv by lia. change (2 ^ 10) with 1024 in Hv. lia. }
      assert (2 ^ (10 * Z.of_nat (S j)) = 1024 * 2 ^ (10 * Z.of_nat j)) as Epow.
      { replace (10 * Z.of_nat (S j)) with (10 + 10 * Z.of_nat j) by lia. by rewrite Z.pow_add_r by lia. }
      exists (S j). split_and!; [lia| | |right].
      * f_equal; [rewrite Epow; lia|lia].
      * rewrite Epow, <- Z.div_div by (try apply Z.pow_pos_nonneg; lia). done.
      * destruct Hge' as [-> |Hge'].
        -- change (10 * (Z.of_nat 1 - 1)) with 0. by rewrite Z.div_1_r.
        -- replace (10 * (Z.of_nat (S j) - 1)) with (10 + 10 * (Z.of_nat j - 1)) by lia.
           destruct (decide (j = O)) as [-> |]; [change (2 ^ (10 + 10 * (Z.of_nat 0 - 1))) with 1; rewrite Z.div_1_r; lia|].
           rewrite Z.pow_add_r, <- Z.div_div by (try apply Z.pow_pos_nonneg; lia). done.
    + exists O. split_and!; [lia| |rewrite Z.div_1_r; lia|by left].
      f_equal; [rewrite Z.mul_1_r; done|lia].
Qed.

Lemma round_div_near n d : 0 < d -> 2 * Z.abs (round_div n d * d - n) <= d.
Proof.
  intros Hd. unfold round_div. pose proof (Z.div_mod n d). pose proof (Z.mod_pos_bound n d Hd).
  destruct ((2 * (n mod d) <? d) || _) eqn:E.
  - assert (2 * (n mod d) <= d); [|lia].
    apply orb_true_iff in E as [E|E]; [apply Z.ltb_lt in E; lia|].
    apply andb_true_iff in E as [E _]. apply Z.eqb_eq in E. lia.
  - apply orb_false_iff in E as [E _]. apply Z.ltb_ge in E. lia.
Qed.

Lemma to_float_near n : 0 < n -> 2 ^ 53 * Z.abs (to_float n - n) <= n.
Proof.
  intros Hn. unfold to_float. destruct (Z.leb_spec (Z.log2 n - 52) 0) as [Hk|Hk]; [lia|].
  pose proof (Z.log2_spec n Hn) as [Hlog _].
  replace (Z.log2 n) with (52 + (Z.log2 n - 52)) in Hlog by lia.
  rewrite Z.pow_add_r in Hlog by lia.
  pose proof (round_div_near n (2 ^ (Z.log2 n - 52))) as Hr.
  assert (0 < 2 ^ (Z.log2 n - 52)) by (apply Z.pow_pos_nonneg; lia).
  specialize (Hr ltac:(done)). change (2 ^ 53) with (2 ^ 52 * 2). change (2 ^ 52) with 4503599627370496 in *. lia.
Qed.

(** The prefix of a size and its unit. *)
Lemma unit_of n : unit <= n -> int64 n ->
  exists exp, (exp <= 5)%nat /\ scale 7 (n / unit) unit 0 = (unit ^ (Z.of_nat exp + 1), exp) /\
    unit ^ (Z.of_nat exp + 1) <= n < unit * unit ^ (Z.of_nat exp + 1).
Proof.
  unfold int64, in_int64, between. rewrite andb_true_iff, !Z.leb_le. unfold unit. intros Hge [_ Hn].
  destruct (scale_spec 5 7 (n / 1024) 1024 0) as (j & Hj & Es & Hlt & Hlo); [lia| |lia|].
  { split; [apply Z.div_pos; lia|]. apply Z.div_lt_upper_bound; [lia|]. change (10 * (Z.of_nat 5 + 1)) with 60.
    change (2 ^ 60) with 1152921504606846976. lia. }
  assert (1024 ^ (Z.of_nat j + 1) = 1024 * 2 ^ (10 * Z.of_nat j)) as Ed.
  { rewrite Z.pow_add_r by lia. change 1024 with (2 ^ 10) at 1. rewrite <- Z.pow_mul_r by lia. lia. }
  exists j. rewrite Ed. split_and!; [done|by rewrite Es| |].
  - destruct Hlo as [-> |Hlo]; [by change (2 ^ (10 * Z.of_nat 0)) with 1|].
    destruct (decide (j = O)) as [-> |Hj0]; [by change (2 ^ (10 * Z.of_nat 0)) with 1|].
    replace (10 * Z.of_nat j) with (10 + 10 * (Z.of_nat j - 1)) by lia.
    rewrite Z.pow_add_r by lia. change (2 ^ 10) with 1024.
    assert (0 < 2 ^ (10 * (Z.of_nat j - 1))) by (apply Z.pow_pos_nonneg; lia).
    set (d := 2 ^ (10 * (Z.of_nat j - 1))) in *. rewrite Z.div_div in Hlo by lia.
    pose proof (Z.mul_div_le n (1024 * d) ltac:(lia)).
    assert (1024 * d * 1024 <= 1024 * d * (n / (1024 * d))) by (apply Z.mul_le_mono_nonneg_l; unfold unit in Hlo; lia).
    lia.
  - assert (0 < 2 ^ (10 * Z.of_nat j)) by (apply Z.pow_pos_nonneg; lia).
    set (d := 2 ^ (10 * Z.of_nat j)) in *. unfold unit in Hlt. rewrite Z.div_div in Hlt by lia.
    pose proof (Z.mul_succ_div_gt n (1024 * d) ltac:(lia)).
    assert (1024 * d * Z.succ (n / (1024 * d)) <= 1024 * d * 1024) by (apply Z.mul_le_mono_nonneg_l; lia).
    lia.
Qed.

(** [humanBytes] never indexes out of the string of prefixes on an [int64],
    uses the largest unit that is not larger than the size, and shows a number
    between 1.0 and 1024.0 that is less than a tenth of the unit off, the
    rounding of [float64] included. *)
Theorem humanBytes_accurate n :
  int64 n ->
  (n < unit -> humanBytes n = Some (int_text n +:+ " B")) /\
  (unit <= n -> exists exp p t,
     prefix exp = Some p /\ humanBytes n = Some (tenths_text t +:+ " " +:+ String p "iB") /\
     let div := unit ^ (Z.of_nat exp + 1) in
     div <= n < unit * div /\ Z.abs (t * div - 10 * n) < div /\ 10 <= t <= 10240).
Proof.
  intros Hn. unfold humanBytes. split; intros Hu.
  - by rewrite (proj2 (Z.ltb_lt n unit)).
  - rewrite (proj2 (Z.ltb_ge n unit)) by done.
    destruct (unit_of n Hu Hn) as (exp & Hexp & -> & Hdiv).
    assert (exists p, prefix exp = Some p) as [p Hp] by (do 6 (destruct exp as [|exp]; [by eexists|]); lia).
    rewrite Hp. cbn [mbind option_bind]. set (div := unit ^ (Z.of_nat exp + 1)) in *.
    exists exp, p, (round_div (to_float n * 10) div). do 2 (split; [done|]). cbn zeta.
    assert (0 < div) by (apply Z.pow_pos_nonneg; unfold unit; lia).
    pose proof (round_div_near (to_float n * 10) div ltac:(done)) as Hr.
    pose proof (to_float_near n) as Hf. unfold unit in Hu, Hdiv. specialize (Hf ltac:(lia)).
    change (2 ^ 53) with 9007199254740992 in Hf.
    set (t := round_div (to_float n * 10) div) in *.
    assert (Z.abs (t * div - 10 * n) < div) as Habs by lia.
    split; [done|]. split; [done|]. nia.
Qed.

Lemma humanBytes_accurate_witness : humanBytes 1536 = Some "1.5 KiB".
Proof.
  destruct (humanBytes_accurate 1536) as [_ H]; [reflexivity|].
  destruct H as (exp & p & t & _ & E & _); [unfold unit; lia|]. vm_compute in E |- *. reflexivity.
Defined.
End views.

(** ** Witnesses: the pages in front of the sample server *)

Abbreviation sample_serve := (api.serve (ts_handle dir) (server.mux static0)) (only parsing).

Lemma detail_pages_witness :
  sample_serve world1 (mkRequest "GET" ["torrents"; hexA] "" "" "") =
    (let '(a, s') := ts_handle dir _ (TsGet hexA) world1 in
     match a with
     | Val (Ok t) => show_page (ts_handle dir) ui.view_Show t hexA s'
     | Val (Err e) => (Some (if error_is e SvcErrTorrentNotFound then plain_error 404 "torrent not found"
                             else plain_error 500 "failed to load torrent"), s')
     | Panicked _ => (Some internal_error, s')
     end).
Proof.
  destruct (detail_pages (ts_handle dir) static0 hexA "" "" "" world1) as [Hpage _]; [discriminate..|]. exact Hpage.
Defined.

Lemma buttons_act_witness :
  sample_serve world1 (mkRequest "POST" ["ui"; "torrents"; hexA; "pause"] "" "" "") =
    (let '(a, s') := ts_handle dir _ (TsPause hexA) world1 in row_after (ts_handle dir) hexA a s').
Proof.
  destruct (buttons_act (ts_handle dir) static0 hexA "" "" "" world1) as [Hpause _]; [discriminate|]. exact Hpause.
Defined.

Definition sample_form : Form := mkForm [("magnet", magnetA); ("label", "linux"); ("target_dir", dir)] [].

Lemma form_adds_torrents_witness :
  sample_serve world0 (mkRequest "POST" ["torrents"] "" form_type (snd (write_form sample_form))) =
    (let '(a, s') := ts_handle dir _ (TsAddMagnet magnetA opts0) world0 in
     (Some (form_reply (ui.form_of sample_form) a), s')).
Proof.
  apply (form_adds_torrents (ts_handle dir) static0 "" form_type (snd (write_form sample_form)) sample_form world0).
  by vm_compute.
Defined.

Lemma failed_view_is_sent_as_success_witness :
  exists t s2,
  api.serve_logged (ts_handle dir) (server.mux static0) world1
    (mkRequest "POST" ["ui"; "torrents"; hexA; "pause"] "" "" "") =
    (Some (mkResponse 200 {["Content-Type" := "text/html; charset=utf-8"]}
             (service.Name t +:+ from_option encode "" (api.error_response "internal server error"))), s2,
     ["handler panicked: " +:+ error_text (EOpaque "short write");
      api.log_text (mkRequest "POST" ["ui"; "torrents"; hexA; "pause"] "" "" "") 500]).
Proof.
  assert (exists t, fst (run_service dir (service.Get hexA) world2) = Val (Ok t)) as [t Ht]
    by (eexists; vm_compute; reflexivity).
  exists t, (after (service.Get hexA) world2).
  apply (failed_view_is_sent_as_success (ts_handle dir) static0 hexA t (service.Name t) (EOpaque "short write")
    world1 world2 (after (service.Get hexA) world2)).
  - discriminate.
  - apply (run_after (service.Pause hexA) world1). vm_compute. reflexivity.
  - by apply (run_after (service.Get hexA) world2).
  - reflexivity.
Defined.
