(* ===== verification/ServerTheorems.v ===== *)
(** * The server process: what its start and its end guarantee *)

From S2P Require Import Prelude GoErrors Prog GoTime FilePath World Service Json Http Api Ui Server.
From Stdlib Require Import ZArith Lia Ascii String.
From stdpp Require Import base gmap strings list relations.

Local Open Scope Z_scope.
Import config server.

(** A configuration is accepted exactly when the address and the directory
    are given and the level is one of the four, in any case; every mistake is
    reported, not only the first; and the logger of an accepted configuration
    has the level that was asked for. *)
Theorem Validate_spec c :
  let level := mime.to_lower (LoggingLevel c) in
  (Validate c = None <-> HTTPAddress c <> "" /\ DataDirectory c <> "" /\ level ∈ levels) /\
  (forall err, Validate c = Some err ->
     error_text err = String.concat newline
       ((if decide (HTTPAddress c = "") then ["http address is required"] else []) ++
        (if decide (DataDirectory c = "") then ["data directory is required"] else []) ++
        (if decide (level ∈ levels) then [] else ["invalid log level: " +:+ quote (LoggingLevel c)]))) /\
  (Validate c = None ->
     (newLogger c = LevelDebug <-> level = "debug") /\ (newLogger c = LevelInfo <-> level = "info") /\
     (newLogger c = LevelWarn <-> level = "warn") /\ (newLogger c = LevelError <-> level = "error")).
Proof.
  intros level. unfold Validate, validate_http, validate_data, validate_logging. fold level.
  destruct (decide (HTTPAddress c = "")) as [Ha|Ha], (decide (DataDirectory c = "")) as [Hd|Hd],
    (decide (level ∈ levels)) as [Hl|Hl]; cbn [join_errors omap list_omap id];
    (split; [split; [try discriminate; auto|tauto]|]); (split; [by intros err [= <-]|]); try discriminate.
  intros _. unfold newLogger. fold level. unfold levels in Hl.
  rewrite !elem_of_cons, elem_of_nil in Hl.
  destruct Hl as [->|[->|[->|[->|[]]]]]; by vm_compute.
Qed.

Lemma Validate_spec_witness : newLogger (mkConfig ":7373" "data" "WARN") = LevelWarn.
Proof.
  destruct (Validate_spec (mkConfig ":7373" "data" "WARN")) as (_ & _ & H).
  apply H; reflexivity.
Defined.

(** ** Starting and stopping *)

(** Every run is decided by the answers up to the first failure: split them one
    by one until the run is a value. *)
Ltac run_eval :=
  repeat (cbn -[path.Join dsn error_is decide];
          match goal with E : error_is ?e ?s = _ |- context [error_is ?e ?s] => rewrite E end);
  cbn -[path.Join dsn error_is decide].

Ltac run_value :=
  solve [run_eval; eexists _, _, _; split; [reflexivity|split; [reflexivity|split; [by intros []|]]];
    intros E; first [discriminate E|repeat first [apply list_elem_of_here|apply list_elem_of_further]]].

Ltac run_cases :=
  first
  [ run_value
  | let err := fresh "err" in
    match goal with answers : list (option error) |- _ => destruct answers as [|[err|] answers] end;
    [|destruct (error_is err MigrateErrNoChange) eqn:?, (error_is err HttpErrServerClosed) eqn:?|];
    run_cases ].

(** C40. [Run] opens nothing for an invalid configuration; otherwise it opens
    the database, migrates it and loads the piece cache before it opens the
    torrent client, restores the torrents before it serves, and closes what it
    opened, the client before the database, whichever step fails. It reports
    success only after it has served. *)
Theorem Run_closes_what_it_opened c answers :
  exists r answers' trace,
    run start_handle (Run c) (answers, []) = (Val r, (answers', trace)) /\
    replay Closed trace = Some Closed /\
    (Validate c <> None -> trace = [] /\ r <> None) /\
    (r = None -> EvServe (HTTPAddress c) ∈ trace).
Proof.
  unfold Run. destruct (Validate c) as [err|] eqn:Hv.
  { exists (Some (EWrap "invalid configuration: " err "")), answers, []. done. }
  cbn [check]. unfold NewClient. cbn zeta. destruct (decide (path.Join [DataDirectory c; "downloads"] = "")) as [Hj|Hj].
  all: run_cases.
Qed.

(** When every step succeeds the server keeps its database in "state.db"
    and the data in "downloads" under the configured directory, serves at the
    configured address, and returns what serving ended with: nothing for a
    server that was closed. *)
Theorem Run_serves c ended :
  Validate c = None -> path.Join [DataDirectory c; "downloads"] <> "" ->
  run start_handle (Run c) (repeat None 9 ++ [ended], []) =
  (Val (match ended with
        | Some err => if error_is err HttpErrServerClosed then None else Some err
        | None => None
        end),
   ([], [EvMkdir (DataDirectory c); EvOpenDb (dsn (path.Join [DataDirectory c; "state.db"])); EvMigrated; EvLoaded;
         EvMkdir (path.Join [DataDirectory c; "downloads"]); EvOpenClient (path.Join [DataDirectory c; "downloads"]);
         EvRestored; EvServe (HTTPAddress c); EvCloseClient; EvCloseDb])).
Proof.
  intros Hv Hj. unfold Run. rewrite Hv. cbn [check]. unfold NewClient. cbn zeta. rewrite (decide_False _ _ Hj).
  cbn -[path.Join dsn error_is decide]. destruct ended as [err|]; [|done].
  by destruct (error_is err HttpErrServerClosed).
Qed.

Definition sample_config : Config := DefaultConfig (Ok "/home/me").

Lemma Run_serves_witness :
  fst (run start_handle (Run sample_config) (repeat None 9 ++ [Some (ESentinel HttpErrServerClosed)], [])) = Val None.
Proof. rewrite (Run_serves sample_config); [reflexivity|reflexivity|discriminate]. Defined.

(** ** Shutting down *)

(** What is left to happen: a step of each goroutine and the end of the context. *)
Definition remaining (g : group) : nat :=
  (if g_done g then 0 else 1) +
  match g_serve g with Serving => 1 | ServeReturned => 0 end +
  match g_shutdown g with WaitingForContext => 2 | ShuttingDown => 1 | ShutdownReturned => 0 end.

Lemma returned_spec e g :
  g_serve (returned e g) = g_serve g /\ g_shutdown (returned e g) = g_shutdown g /\
  (g_done g = true -> g_done (returned e g) = true).
Proof. by destruct e. Qed.

Lemma group_step_remaining g g' : group_step g g' -> (remaining g' < remaining g)%nat.
Proof.
  destruct 1 as [g Hd|g e Hs _|g Hd Hw|g Hs Hw|g e Hs _]; unfold remaining; cbn;
    rewrite ?Hd, ?Hs, ?Hw.
  - destruct (g_serve g), (g_shutdown g); lia.
  - destruct (g_done g), (g_shutdown g); lia.
  - destruct (g_done g), (g_serve g); lia.
  - destruct (g_done g), (g_shutdown g); lia.
  - destruct e, (g_done g), (g_serve g); cbn; lia.
Qed.

(** Both goroutines wait for the same context, and [ListenAndServe] never
    returns without an error. *)
Definition group_ok (g : group) : Prop :=
  (g_serve g = ServeReturned -> g_done g = true /\ is_Some (g_err g)) /\
  (g_shutdown g <> WaitingForContext -> g_done g = true).

Lemma group_ok_step g g' : group_step g g' -> group_ok g -> group_ok g'.
Proof.
  unfold group_ok. destruct 1 as [g Hd|g e Hs _|g Hd Hw|g Hs Hw|g e Hs _]; cbn; intros [H1 H2].
  - split; [|done]. intros Hs. by destruct (H1 Hs).
  - split; [|done]. intros _. split; [done|]. by destruct (g_err g); eexists.
  - done.
  - split; [|done]. intros _. split; [done|]. by destruct (g_err g); eexists.
  - assert (g_done g = true) as Hd by (apply H2; by rewrite Hs).
    destruct e as [e|]; cbn; [|done]. split; [|done]. intros Hs'. split; [done|].
    destruct (H1 Hs') as [_ [x ->]]. by eexists.
Qed.

(** The first error of the group stays. *)
Lemma first_error_kept g g' e : rtc group_step g g' -> g_err g = Some e -> g_err g' = Some e.
Proof.
  induction 1 as [|g1 g2 g3 Hs _ IH]; [done|]. intros He. apply IH.
  destruct Hs as [| | | |g1 [e'|]]; cbn; by rewrite ?He.
Qed.

(** C38. The server stops, given that [Shutdown] returns, for which the code
    gives it 30 seconds: once the context has ended, which it has when listening
    has ended, one of the two goroutines can go on until both have returned,
    and they take at most four steps in all. The first error one of them returns
    stays the group's, and when both have returned there is one; [Run] returns
    it, but nothing when it is [http.ErrServerClosed]. *)
Theorem shutdown_terminates g :
  rtc group_step group0 g ->
  (g_serve g = ServeReturned -> g_done g = true) /\
  (g_done g = true -> finished g \/ exists g', group_step g g') /\
  (forall n g', nsteps group_step n g g' -> (n <= 4)%nat) /\
  (forall g' e, rtc group_step g g' -> g_err g = Some e -> g_err g' = Some e) /\
  (finished g -> exists e, g_err g = Some e /\
     run_result g = if error_is e HttpErrServerClosed then None else Some e).
Proof.
  intros Hr. assert (group_ok g) as [H1 H2].
  { revert Hr. apply (rtc_ind_r group_ok); [by split|]. intros g1 g2 _ Hs. by apply group_ok_step. }
  split_and!.
  - intros Hs. by apply H1.
  - intros Hd. destruct (g_shutdown g) eqn:Hw.
    + right. eexists. by apply step_shutdown.
    + right. eexists. by apply (step_shutdown_returns g None).
    + destruct (g_serve g) eqn:Hs; [|by left].
      right. eexists. apply step_listen_closed; [done|by rewrite Hw].
  - intros n g' Hn.
    assert (remaining g <= 4)%nat as Hg.
    { unfold remaining. destruct (g_done g), (g_serve g), (g_shutdown g); lia. }
    assert (forall m a b, nsteps group_step m a b -> (m + remaining b <= remaining a)%nat) as Hm.
    { induction 1 as [|m a b c Hs _ IH]; [done|]. apply group_step_remaining in Hs. lia. }
    apply Hm in Hn. lia.
  - intros g' e. apply first_error_kept.
  - intros [Hs _]. destruct (H1 Hs) as [_ [e He]]. exists e. split; [done|]. unfold run_result. by rewrite He.
Qed.

(** The orderly end: the context ends, [Shutdown] begins, [ListenAndServe]
    returns, [Shutdown] returns. *)
Definition closed_group : group := mkGroup true ServeReturned ShutdownReturned (Some (ESentinel HttpErrServerClosed)).

Lemma orderly_shutdown : rtc group_step group0 closed_group.
Proof.
  eapply rtc_l; [by apply step_cancel|]. cbn.
  eapply rtc_l; [by apply step_shutdown|]. cbn.
  eapply rtc_l; [by apply step_listen_closed|]. cbn.
  eapply rtc_l; [by apply (step_shutdown_returns _ None)|]. cbn. apply rtc_refl.
Qed.

Lemma shutdown_terminates_witness : exists e, g_err closed_group = Some e /\
  run_result closed_group = (if error_is e HttpErrServerClosed then None else Some e) /\ run_result closed_group = None.
Proof.
  destruct (shutdown_terminates closed_group orderly_shutdown) as (_ & _ & _ & _ & H).
  destruct H as (e & He & Hr); [by split|]. exists e. split; [exact He|split; [exact Hr|reflexivity]].
Defined.
