(* ===== verification/CliTheorems.v ===== *)
(** * The commands: what they guarantee

    A command run against a server is the service's operation: it does the same
    to the service, prints the torrents of the answer as JSON that reads back
    to them, prints nothing and exits with status 1 when the service fails. *)

From S2P Require Import Prelude GoErrors Prog GoTime FilePath World Service Sample ServiceTheorems Json JsonIndent Http Api ApiFacts HttpClient Cli Ui Server HttpSample Remote.
From Stdlib Require Import ZArith Lia Ascii String.
From stdpp Require Import base gmap strings list.

Local Open Scope Z_scope.
Import json.

Lemma run_request {S A} (wire : handler wireE S) files (p : prog wireE A) s out :
  run (cli_handle wire files) (request p) (s, out) =
  let '(a, s') := run wire p s in (a, (s', out)).
Proof.
  unfold request. rewrite run_interp. revert s.
  induction p as [A a|A B e k IH|A B q IHq k IH]; intros s; cbn [run call cli_handle]; [done|..].
  - destruct (wire B e s) as [[b|m] s']; [by rewrite IH|done].
  - rewrite IHq. destruct (run wire q s) as [r s']. by rewrite IH.
Qed.

(** ** The printed text *)

(** The torrents JSON can express, and their text as JSON carries it. *)
Definition expressible (t : client.Torrent) : Prop :=
  valid_time (client.CreatedAt t) /\ valid_time (client.UpdatedAt t) /\
  in_int64 (client.Length t) = true /\ in_int64 (client.BytesCompleted t) = true /\
  in_int64 (client.ActivePeers t) = true /\ in_int64 (client.Seeders t) = true.

Definition printed (t : client.Torrent) : client.Torrent :=
  client.mkTorrent (sanitize (client.InfoHash t)) (sanitize (client.Magnet t)) (sanitize (client.Label t))
    (sanitize (client.TargetDir t)) (client.Paused t) (client.CreatedAt t) (client.UpdatedAt t)
    (sanitize (client.Name t)) (client.Length t) (client.BytesCompleted t) (client.ActivePeers t) (client.Seeders t).

(** A Go program that reads the output into a [client.Torrent]. *)
Section fields.
Context (fallback : string -> result time).
Import client.

Definition torrent_fields : fields Torrent :=
  [("InfoHash", field InfoHash (fun x t => mkTorrent x (Magnet t) (Label t) (TargetDir t) (Paused t) (CreatedAt t) (UpdatedAt t) (Name t) (Length t) (BytesCompleted t) (ActivePeers t) (Seeders t)) set_string);
   ("Magnet", field Magnet (fun x t => mkTorrent (InfoHash t) x (Label t) (TargetDir t) (Paused t) (CreatedAt t) (UpdatedAt t) (Name t) (Length t) (BytesCompleted t) (ActivePeers t) (Seeders t)) set_string);
   ("Label", field Label (fun x t => mkTorrent (InfoHash t) (Magnet t) x (TargetDir t) (Paused t) (CreatedAt t) (UpdatedAt t) (Name t) (Length t) (BytesCompleted t) (ActivePeers t) (Seeders t)) set_string);
   ("TargetDir", field TargetDir (fun x t => mkTorrent (InfoHash t) (Magnet t) (Label t) x (Paused t) (CreatedAt t) (UpdatedAt t) (Name t) (Length t) (BytesCompleted t) (ActivePeers t) (Seeders t)) set_string);
   ("Paused", field Paused (fun x t => mkTorrent (InfoHash t) (Magnet t) (Label t) (TargetDir t) x (CreatedAt t) (UpdatedAt t) (Name t) (Length t) (BytesCompleted t) (ActivePeers t) (Seeders t)) set_bool);
   ("CreatedAt", field CreatedAt (fun x t => mkTorrent (InfoHash t) (Magnet t) (Label t) (TargetDir t) (Paused t) x (UpdatedAt t) (Name t) (Length t) (BytesCompleted t) (ActivePeers t) (Seeders t)) (set_time fallback));
   ("UpdatedAt", field UpdatedAt (fun x t => mkTorrent (InfoHash t) (Magnet t) (Label t) (TargetDir t) (Paused t) (CreatedAt t) x (Name t) (Length t) (BytesCompleted t) (ActivePeers t) (Seeders t)) (set_time fallback));
   ("Name", field Name (fun x t => mkTorrent (InfoHash t) (Magnet t) (Label t) (TargetDir t) (Paused t) (CreatedAt t) (UpdatedAt t) x (Length t) (BytesCompleted t) (ActivePeers t) (Seeders t)) set_string);
   ("Length", field Length (fun x t => mkTorrent (InfoHash t) (Magnet t) (Label t) (TargetDir t) (Paused t) (CreatedAt t) (UpdatedAt t) (Name t) x (BytesCompleted t) (ActivePeers t) (Seeders t)) set_int64);
   ("BytesCompleted", field BytesCompleted (fun x t => mkTorrent (InfoHash t) (Magnet t) (Label t) (TargetDir t) (Paused t) (CreatedAt t) (UpdatedAt t) (Name t) (Length t) x (ActivePeers t) (Seeders t)) set_int64);
   ("ActivePeers", field ActivePeers (fun x t => mkTorrent (InfoHash t) (Magnet t) (Label t) (TargetDir t) (Paused t) (CreatedAt t) (UpdatedAt t) (Name t) (Length t) (BytesCompleted t) x (Seeders t)) set_int64);
   ("Seeders", field Seeders (fun x t => mkTorrent (InfoHash t) (Magnet t) (Label t) (TargetDir t) (Paused t) (CreatedAt t) (UpdatedAt t) (Name t) (Length t) (BytesCompleted t) (ActivePeers t) x) set_int64)].

Lemma set_printed t t0 :
  expressible t -> set_members torrent_fields (output.torrent_members t) t0 = (printed t, false).
Proof.
  intros (H1 & H2 & H3 & H4 & H5 & H6). unfold output.torrent_members.
  do 11 (rewrite set_members_app; erewrite api.set_field;
    [|reflexivity|reflexivity
     |intros; first [by apply set_string_of|by apply set_time_of|by apply set_int64_of|reflexivity]];
    cbn iota beta; cbn [InfoHash Magnet Label TargetDir Paused CreatedAt UpdatedAt Name Length BytesCompleted ActivePeers Seeders]).
  erewrite api.set_field; [|reflexivity|reflexivity|intros; by apply set_int64_of].
  done.
Qed.
End fields.

Lemma wf_printed t : expressible t -> wf (Object (output.torrent_members t)) = true.
Proof.
  intros (H1 & H2 & _). unfold output.torrent_members. rewrite !wf_members_app, !andb_true_iff.
  repeat match goal with |- _ /\ _ => split end; apply wf_member; auto with torrents.
Qed.

Lemma depth_printed t : depth (Object (output.torrent_members t)) = 1%N.
Proof. by apply depth_flat_object. Qed.

Lemma torrent_json_printed t : expressible t -> output.torrent_json t = Some (Object (output.torrent_members t)).
Proof. intros (H1 & H2 & _). unfold output.torrent_json. by rewrite !valid_year_ok. Qed.

Lemma torrents_json_printed l : Forall expressible l ->
  output.torrents_json l = Some (Array (map (fun t => Object (output.torrent_members t)) l)).
Proof.
  intros Hl. unfold output.torrents_json.
  enough (mapM output.torrent_json l = Some (map (fun t => Object (output.torrent_members t)) l)) as -> by done.
  induction Hl as [|t l Ht _ IH]; [done|]. cbn [mapM]. by rewrite torrent_json_printed, IH.
Qed.

Lemma depth_printed_list l :
  (depth (Array (map (fun t => Object (output.torrent_members t)) l)) <= max_depth)%N.
Proof.
  cbn [depth]. enough (fold_right N.max 0 (map depth (map (fun t => Object (output.torrent_members t)) l)) <= 1)%N
    by (unfold max_depth; lia).
  induction l as [|t l IH]; [done|]. cbn [map fold_right]. rewrite depth_printed. lia.
Qed.

(** What [add] and [list] print reads back: the text is JSON that decodes,
    into variables of the client library's types, to the torrents that were
    printed, in order; a torrent JSON cannot express is refused instead. *)
Theorem printed_torrents_read_back fb t l :
  (expressible t ->
   exists v, output.torrent_json t = Some v /\
   decode (set_struct (torrent_fields fb)) (encode_indent v) (client.fromAPI api.zero_torrent) = (printed t, false)) /\
  (Forall expressible l ->
   exists v, output.torrents_json l = Some v /\
   decode (set_list (client.fromAPI api.zero_torrent) (set_struct (torrent_fields fb))) (encode_indent v) [] =
     (map printed l, false)) /\
  (api.year_ok (client.CreatedAt t) = false -> output.torrent_json t = None).
Proof.
  split_and!.
  - intros Ht. rewrite torrent_json_printed by done. eexists. split; [done|].
    rewrite decode_encode_indent; [by apply set_printed|by apply wf_printed|by rewrite depth_printed].
  - intros Hl. rewrite torrents_json_printed by done. eexists. split; [done|].
    rewrite decode_encode_indent; [| |apply depth_printed_list].
    + cbn [set_list]. generalize (@nil client.Torrent).
      induction Hl as [|t' l Ht _ IH]; intros old; [done|]. cbn [map set_elems set_struct].
      rewrite set_printed by done. by rewrite IH.
    + cbn [wf]. apply forallb_forall. intros x (t' & <- & Ht)%List.in_map_iff.
      apply wf_printed. rewrite List.Forall_forall in Hl. auto.
  - intros Hy. unfold output.torrent_json. by rewrite Hy.
Qed.

Definition sample_torrent : client.Torrent :=
  client.mkTorrent "aa" "magnet:?xt=urn:btih:aa" "films" "" true zero_time zero_time "a <b>" 4096 1024 2 1.

Lemma printed_torrents_read_back_witness :
  decode (set_struct (torrent_fields time_fallback)) (encode_indent (Object (output.torrent_members sample_torrent)))
    (client.fromAPI api.zero_torrent) = (sample_torrent, false).
Proof.
  destruct (printed_torrents_read_back time_fallback sample_torrent []) as (H & _).
  destruct H as (v & Hv & Hd); [split_and!; vm_compute; done|].
  assert (v = Object (output.torrent_members sample_torrent)) as -> by (revert Hv; vm_compute; congruence).
  exact Hd.
Defined.

(** ** The commands *)

(** What a command returns and prints for the answer of the client library. *)
Definition reported {A} (failure : string) (text : A -> string) (r : result A) : option error * string :=
  match r with
  | Err err => (Some (EWrap failure err ""), "")
  | Ok x => (None, text x)
  end.

Definition torrent_text (t : client.Torrent) : string := encode_indent (Object (output.torrent_members t)).
Definition list_text (l : list client.Torrent) : string :=
  encode_indent (Array (map (fun t => Object (output.torrent_members t)) l)).

(** A torrent that came over the wire can be printed. *)
Lemma remote_expressible t : api.expressible (api.newTorrent t) -> expressible (remote_torrent t).
Proof. intros []. by split_and!. Qed.

Lemma remote_Ok {A B} (f : A -> B) err a x : remote f err a = Ok x -> exists y, a = Val (Ok y) /\ x = f y.
Proof. destruct a as [[y|e]|m]; [|done..]. intros [= <-]. by exists y. Qed.

Section commands.
Context `{Env} `{HttpEnv} `{ui.Views} {S : Type} (svc : handler tsE S) (static : Handler).
Context (url_parse : string -> result string) (files : string -> result (result string)).

Abbreviation wire := (wire_handle svc (server.mux static)) (only parsing).
Abbreviation cli := (run (cli_handle wire files)) (only parsing).

Lemma run_action_cmd address p failure act s out :
  url_parse address = Ok p ->
  cli (action url_parse address failure act) (s, out) =
  let '(a, s') := run wire (act (client.mkClient p)) s in
  match a with
  | Val r => (Val (fst (reported failure (fun _ : unit => "") r)), (s', out))
  | Panicked m => (Panicked m, (s', out))
  end.
Proof.
  intros Hp. unfold action, client.New. rewrite Hp, run_bind, run_request.
  by destruct (run wire _ s) as [[[[]|e]|m] s'].
Qed.

Lemma run_Encode_torrent r (a : res (result service.Torrent)) err s out :
  good_torrent a -> r = remote remote_torrent err a ->
  cli (match r with
       | Err e => Ret (Some (EWrap "failed to add torrent: " e ""))
       | Ok t => output.Encode (output.torrent_json t)
       end) (s, out) =
  let rep := reported "failed to add torrent: " torrent_text r in (Val (fst rep), (s, out +:+ snd rep)).
Proof.
  intros Hgood Hr. destruct r as [t|e]; cbn [run reported fst snd].
  - symmetry in Hr. apply remote_Ok in Hr as (t' & -> & ->). rewrite torrent_json_printed; [done|].
    by apply remote_expressible, Hgood.
  - by rewrite str_app_nil_r.
Qed.

(** A command run against a server does what the service does: [list]
    prints the service's torrents, [delete], [pause] and [resume] call it with
    the same hash and print nothing, and an error of the service, which it
    leaves where the service left it, is the command's and makes its exit
    status 1. *)
Theorem commands_act_on_the_server address p arg del s out :
  url_parse address = Ok p -> p = "" \/ p = "/" -> one_segment arg = true ->
  good_torrents (fst (svc _ TsList s)) ->
  let done_with (a : res (result unit)) (what api_what : string) :=
    fst (reported ("failed to " +:+ what) (fun _ : unit => "")
      (remote id (action_error arg ("failed to " +:+ api_what)) a)) in
  cli (list.RunE url_parse address) (s, out) =
    (let '(a, s') := svc _ TsList s in
     let rep := reported "failed to list torrents: " list_text (remote (map remote_torrent) list_error a) in
     (Val (fst rep), (s', out +:+ snd rep))) /\
  cli (delete.RunE url_parse address del arg) (s, out) =
    (let '(a, s') := svc _ (TsRemove arg del) s in (Val (done_with a "delete torrent: " "remove torrent: "), (s', out))) /\
  cli (pause.RunE url_parse address arg) (s, out) =
    (let '(a, s') := svc _ (TsPause arg) s in (Val (done_with a "pause torrent: " "pause torrent: "), (s', out))) /\
  cli (resume.RunE url_parse address arg) (s, out) =
    (let '(a, s') := svc _ (TsResume arg) s in (Val (done_with a "resume torrent: " "resume torrent: "), (s', out))) /\
  (forall a what api_what, main.exit_status (done_with a what api_what) = match a with Val (Ok _) => 0 | _ => 1 end).
Proof.
  intros Hp Hr Harg Hgood done_with.
  assert (at_root (client.mkClient p)) as Hc by done. split_and!.
  - unfold list.RunE, client.New. rewrite Hp, run_bind, run_request, run_List by done.
    destruct (svc _ TsList s) as [a s'] eqn:E. destruct a as [[l|e]|m]; cbn [run reported fst snd remote];
      [|by rewrite str_app_nil_r..].
    rewrite torrents_json_printed; [done|]. apply Forall_map. eapply Forall_impl; [by apply Hgood|].
    intros t. apply remote_expressible.
  - unfold delete.RunE. rewrite (run_action_cmd _ p) by done. rewrite run_Remove by done.
    by destruct (svc _ (TsRemove arg del) s).
  - unfold pause.RunE. rewrite (run_action_cmd _ p) by done. rewrite run_Pause by done.
    by destruct (svc _ (TsPause arg) s).
  - unfold resume.RunE. rewrite (run_action_cmd _ p) by done. rewrite run_Resume by done.
    by destruct (svc _ (TsResume arg) s).
  - intros a what api_what. unfold done_with. by destruct a as [[]|].
Qed.

(** [add] with a magnet URI is the service's [AddMagnet] and with anything
    else its [AddFile] of the contents of the file; the added torrent is
    printed. A file that cannot be opened or read is reported and nothing is
    sent. *)
Theorem add_adds `{!HttpLaws} address p label dir arg contents err s out :
  url_parse address = Ok p -> p = "" \/ p = "/" ->
  let ts :=
    if String.prefix "magnet:?" arg
    then TsAddMagnet (sanitize arg) (service.mkAddOptions (sanitize label) (sanitize dir))
    else TsAddFile contents (service.mkAddOptions label dir) in
  good_torrent (fst (svc _ ts s)) ->
  (String.prefix "magnet:?" arg = true \/ files arg = Ok (Ok contents) ->
   cli (add.RunE url_parse address label dir arg) (s, out) =
     let '(a, s') := svc _ ts s in
     let rep := reported "failed to add torrent: " torrent_text
       (remote remote_torrent (if String.prefix "magnet:?" arg then add_magnet_error else add_file_error) a) in
     (Val (fst rep), (s', out +:+ snd rep))) /\
  (String.prefix "magnet:?" arg = false -> files arg = Err err ->
   cli (add.RunE url_parse address label dir arg) (s, out) =
     (Val (Some (EWrap "failed to open torrent file: " err "")), (s, out))) /\
  (String.prefix "magnet:?" arg = false -> files arg = Ok (Err err) ->
   cli (add.RunE url_parse address label dir arg) (s, out) =
     (Val (Some (EWrap "failed to add torrent: " (EWrap "failed to read torrent file: " err "") "")), (s, out))).
Proof.
  intros Hp Hr ts Hgood. assert (at_root (client.mkClient p)) as Hc by done.
  unfold add.RunE, client.New. rewrite Hp. subst ts.
  destruct (String.prefix "magnet:?" arg) eqn:Epre; cbn iota in Hgood; split_and!; intros Hcase.
  - assert (arg <> "") as Hne by (by intros ->).
    rewrite run_bind, run_request, run_AddMagnet by done.
    revert Hgood. case (svc _ _ s). intros a s' Hgood. by apply (run_Encode_torrent _ a add_magnet_error).
  - done.
  - done.
  - destruct Hcase as [|Hf]; [done|]. cbn [run pbind call cli_handle]. rewrite Hf.
    rewrite run_bind, run_request, run_AddFile by done.
    revert Hgood. case (svc _ _ s). intros a s' Hgood. by apply (run_Encode_torrent _ a add_file_error).
  - intros Hf. cbn [run pbind call cli_handle]. by rewrite Hf.
  - intros Hf. cbn [run pbind call cli_handle]. rewrite Hf, run_bind, run_request. reflexivity.
Qed.
End commands.

(** ** At concrete inputs *)

Abbreviation sample_ts := (ts_handle dir _) (only parsing).
Abbreviation sample_cli :=
  (run (cli_handle (wire_handle (ts_handle dir) (server.mux static0)) (fun _ => Ok (Ok "d4:infoe")))) (only parsing).

Definition parse0 (address : string) : result string := Ok "".

Lemma commands_act_on_the_server_witness :
  snd (snd (sample_cli (list.RunE parse0 "http://localhost:7373") (world1, ""))) <> "" /\
  sample_cli (pause.RunE parse0 "http://localhost:7373" hexA) (world1, "") =
    (let '(a, s') := sample_ts (TsPause hexA) world1 in
     (Val (fst (reported "failed to pause torrent: " (fun _ : unit => "")
        (remote id (action_error hexA "failed to pause torrent: ") a))), (s', ""))).
Proof.
  destruct (commands_act_on_the_server (ts_handle dir) static0 parse0 (fun _ => Ok (Ok "d4:infoe"))
    "http://localhost:7373" "" hexA true world1 "") as (Hl & _ & Hp & _).
  - reflexivity.
  - by left.
  - by vm_compute.
  - apply good_torrentsb_true. by vm_compute.
  - split; [|exact Hp]. rewrite Hl. vm_compute. discriminate.
Defined.

Lemma add_adds_witness :
  fst (sample_cli (add.RunE parse0 "http://localhost:7373" "linux" "" magnetA) (world0, "")) = Val None.
Proof.
  destruct (add_adds (ts_handle dir) static0 parse0 (fun _ => Ok (Ok "d4:infoe")) "http://localhost:7373" ""
    "linux" "" magnetA "" (EOpaque "") world0 "") as (H & _).
  - reflexivity.
  - by left.
  - apply good_torrentb_true. by vm_compute.
  - rewrite (H (or_introl eq_refl)). vm_compute. reflexivity.
Defined.
