(* ===== verification/PeerProtocol.v ===== *)
(** * The peer wire protocol

    The torrent library's peer_protocol package (under src/licenses): the
    messages two BitTorrent peers exchange, [Message.MarshalBinary] that writes
    one and [Decoder.Decode] that reads one from a stream, the extension bits
    and the handshake a connection starts with. *)

From S2P Require Import Prelude Bytes Prog.
From Stdlib Require Import ZArith Lia Ascii String.
From stdpp Require Import base gmap list.

Local Open Scope Z_scope.

(** The errors of the package and of the readers under it. *)
Inductive perr : Type :=
| EOF
| UnexpectedEOF
| UnknownMessageType (t : Z)
| ReadingMessageLength (inner : perr)
| MessageTooLong
| PieceLongerThanExpected
| ReadingHashes (inner : perr)
| UnhandledMessageType
| ReadingFields (t : Z) (inner : perr)
| UnusedBytes (n t : Z)
| TrailingBytes (n : Z)
| WhileReading (inner : perr)
| UnexpectedProtocol (p : list ascii)
| ErrorWriting (inner : perr).

Module MessageType.
Definition Choke : Z := 0.
Definition Unchoke : Z := 1.
Definition Interested : Z := 2.
Definition NotInterested : Z := 3.
Definition Have : Z := 4.
Definition Bitfield : Z := 5.
Definition Request : Z := 6.
Definition Piece : Z := 7.
Definition Cancel : Z := 8.
Definition Port : Z := 9.
Definition Suggest : Z := 13.
Definition HaveAll : Z := 14.
Definition HaveNone : Z := 15.
Definition Reject : Z := 16.
Definition AllowedFast : Z := 17.
Definition Extended : Z := 20.
Definition HashRequest : Z := 21.
Definition Hashes : Z := 22.
Definition HashReject : Z := 23.

Definition FastExtension (mt : Z) : bool := (Suggest <=? mt) && (mt <=? AllowedFast).
End MessageType.

Module peer_protocol.

(** A union of the fields of all messages; [Integer] is uint32. *)
Record Message : Type := mkMessage {
  PiecesRoot : list ascii;
  Piece : list ascii;
  Bitfield : list bool;
  ExtendedPayload : list ascii;
  Hashes : list (list ascii);
  Index : Z;
  Begin : Z;
  Length : Z;
  BaseLayer : Z;
  ProofLayers : Z;
  Port : Z;
  Type_ : Z;
  ExtendedID : Z;
  Keepalive : bool;
}.

Definition zero_root : list ascii := repeat "000"%char 32.

(** The zero value. *)
Definition zero_message : Message := mkMessage zero_root [] [] [] [] 0 0 0 0 0 0 0 0 false.

Definition set_PiecesRoot x m := mkMessage x (Piece m) (Bitfield m) (ExtendedPayload m) (Hashes m) (Index m) (Begin m) (Length m) (BaseLayer m) (ProofLayers m) (Port m) (Type_ m) (ExtendedID m) (Keepalive m).
Definition set_Piece x m := mkMessage (PiecesRoot m) x (Bitfield m) (ExtendedPayload m) (Hashes m) (Index m) (Begin m) (Length m) (BaseLayer m) (ProofLayers m) (Port m) (Type_ m) (ExtendedID m) (Keepalive m).
Definition set_Bitfield x m := mkMessage (PiecesRoot m) (Piece m) x (ExtendedPayload m) (Hashes m) (Index m) (Begin m) (Length m) (BaseLayer m) (ProofLayers m) (Port m) (Type_ m) (ExtendedID m) (Keepalive m).
Definition set_Extended id p m := mkMessage (PiecesRoot m) (Piece m) (Bitfield m) p (Hashes m) (Index m) (Begin m) (Length m) (BaseLayer m) (ProofLayers m) (Port m) (Type_ m) id (Keepalive m).
Definition set_Hashes x m := mkMessage (PiecesRoot m) (Piece m) (Bitfield m) (ExtendedPayload m) x (Index m) (Begin m) (Length m) (BaseLayer m) (ProofLayers m) (Port m) (Type_ m) (ExtendedID m) (Keepalive m).
Definition set_Index x m := mkMessage (PiecesRoot m) (Piece m) (Bitfield m) (ExtendedPayload m) (Hashes m) x (Begin m) (Length m) (BaseLayer m) (ProofLayers m) (Port m) (Type_ m) (ExtendedID m) (Keepalive m).
Definition set_Begin x m := mkMessage (PiecesRoot m) (Piece m) (Bitfield m) (ExtendedPayload m) (Hashes m) (Index m) x (Length m) (BaseLayer m) (ProofLayers m) (Port m) (Type_ m) (ExtendedID m) (Keepalive m).
Definition set_Length x m := mkMessage (PiecesRoot m) (Piece m) (Bitfield m) (ExtendedPayload m) (Hashes m) (Index m) (Begin m) x (BaseLayer m) (ProofLayers m) (Port m) (Type_ m) (ExtendedID m) (Keepalive m).
Definition set_BaseLayer x m := mkMessage (PiecesRoot m) (Piece m) (Bitfield m) (ExtendedPayload m) (Hashes m) (Index m) (Begin m) (Length m) x (ProofLayers m) (Port m) (Type_ m) (ExtendedID m) (Keepalive m).
Definition set_ProofLayers x m := mkMessage (PiecesRoot m) (Piece m) (Bitfield m) (ExtendedPayload m) (Hashes m) (Index m) (Begin m) (Length m) (BaseLayer m) x (Port m) (Type_ m) (ExtendedID m) (Keepalive m).
Definition set_Port x m := mkMessage (PiecesRoot m) (Piece m) (Bitfield m) (ExtendedPayload m) (Hashes m) (Index m) (Begin m) (Length m) (BaseLayer m) (ProofLayers m) x (Type_ m) (ExtendedID m) (Keepalive m).
Definition set_Type x m := mkMessage (PiecesRoot m) (Piece m) (Bitfield m) (ExtendedPayload m) (Hashes m) (Index m) (Begin m) (Length m) (BaseLayer m) (ProofLayers m) (Port m) x (ExtendedID m) (Keepalive m).
Definition set_Keepalive x m := mkMessage (PiecesRoot m) (Piece m) (Bitfield m) (ExtendedPayload m) (Hashes m) (Index m) (Begin m) (Length m) (BaseLayer m) (ProofLayers m) (Port m) (Type_ m) (ExtendedID m) x.

Definition MakeCancelMessage (piece offset length : Z) : Message :=
  set_Length length (set_Begin offset (set_Index piece (set_Type MessageType.Cancel zero_message))).

Definition uint32 (n : Z) : Z := n mod 2 ^ 32.

(** The piece, the offset and the length a message asks for or carries. *)
Definition RequestSpec (m : Message) : Z * Z * Z :=
  (Index m, Begin m,
   if Type_ m =? MessageType.Piece then uint32 (Z.of_nat (length (Piece m))) else Length m).

(** ** Writing

    A payload is a sequence of writes; the buffers they go to never fail. *)

(** The loop of [marshalBitfield] from bit [i] on. *)
Fixpoint set_bits (i : nat) (bf : list bool) (b : list ascii) : list ascii :=
  match bf with
  | [] => b
  | have :: bf' =>
      set_bits (S i) bf'
        (if have then alter (fun c => of_byte (Z.lor (byte_of c) (Z.shiftl 1 (7 - Z.of_nat (i mod 8))))) (i / 8)%nat b
         else b)
  end.

Definition marshalBitfield (bf : list bool) : list ascii :=
  set_bits 0 bf (repeat "000"%char ((length bf + 7) / 8)).

Definition writeHashCommon (m : Message) : list (list ascii) :=
  PiecesRoot m :: map (be 4) [BaseLayer m; Index m; Length m; ProofLayers m].

(** The switch over the type. *)
Definition is_type (t : Z) (l : list Z) : bool := existsb (Z.eqb t) l.

Definition no_fields : list Z :=
  [MessageType.Choke; MessageType.Unchoke; MessageType.Interested; MessageType.NotInterested;
   MessageType.HaveAll; MessageType.HaveNone].
Definition index_only : list Z := [MessageType.Have; MessageType.AllowedFast; MessageType.Suggest].
Definition requests : list Z := [MessageType.Request; MessageType.Cancel; MessageType.Reject].
Definition hash_requests : list Z := [MessageType.HashRequest; MessageType.HashReject].

Definition writePayloadTo (m : Message) : list (list ascii) * option perr :=
  if Keepalive m then ([], None)
  else
    let t := Type_ m in
    let '(fields, err) :=
      if is_type t no_fields then ([], None)
      else if is_type t index_only then ([be 4 (Index m)], None)
      else if is_type t requests then (map (be 4) [Index m; Begin m; Length m], None)
      else if t =? MessageType.Bitfield then ([marshalBitfield (Bitfield m)], None)
      else if t =? MessageType.Piece then (map (be 4) [Index m; Begin m] ++ [Piece m], None)
      else if t =? MessageType.Extended then ([[of_byte (ExtendedID m)]; ExtendedPayload m], None)
      else if t =? MessageType.Port then ([be 2 (Port m)], None)
      else if is_type t hash_requests then (writeHashCommon m, None)
      else if t =? MessageType.Hashes then (writeHashCommon m ++ Hashes m, None)
      else ([], Some (UnknownMessageType t)) in
    ([of_byte t] :: fields, err).

(** [lengthWriter]: the bytes written, as a uint32. *)
Definition lengthWriter_Write (n : Z) (p : list ascii) : Z := uint32 (n + uint32 (Z.of_nat (length p))).

Definition getPayloadLength (m : Message) : Z * option perr :=
  let '(writes, err) := writePayloadTo m in (fold_left lengthWriter_Write writes 0, err).

Definition WriteTo (m : Message) : list ascii * option perr :=
  let '(length, err) := getPayloadLength m in
  match err with
  | Some e => ([], Some e)
  | None => let '(writes, err) := writePayloadTo m in (be 4 length ++ concat writes, err)
  end.

Definition MarshalBinary (m : Message) : list ascii * option perr := WriteTo m.

(** ** Reading *)

(** The bytes the reader still yields before its end, the buffer the pool hands
    out, and the longest message. *)
Record Decoder : Type := mkDecoder {
  R : list ascii;
  Pool : option (list ascii);
  MaxLength : Z;
}.

(** [decodeReader]: what is left of the message and of the reader. *)
Record decodeReader : Type := mkReader {
  lr_N : Z;
  br : list ascii;
}.

(** [io.ReadFull] of an [expectReader]: all [n] bytes, or what there is and
    [io.ErrUnexpectedEOF]. *)
Definition ReadFull (n : Z) (dr : decodeReader) : list ascii * decodeReader * option perr :=
  if (n <=? lr_N dr) && (n <=? Z.of_nat (length (br dr))) then
    (take (Z.to_nat n) (br dr), mkReader (lr_N dr - n) (drop (Z.to_nat n) (br dr)), None)
  else
    let k := Z.min (lr_N dr) (Z.of_nat (length (br dr))) in
    (take (Z.to_nat k) (br dr), mkReader (lr_N dr - k) (drop (Z.to_nat k) (br dr)), Some UnexpectedEOF).

(** [expectReader.ReadByte] *)
Definition ReadByte (dr : decodeReader) : decodeReader * outcome perr ascii :=
  if lr_N dr <=? 0 then (dr, Err UnexpectedEOF)
  else match br dr with
       | [] => (dr, Err UnexpectedEOF)
       | c :: r => (mkReader (lr_N dr - 1) r, Ok c)
       end.

(** The integers a message is read into, one after the other. *)
Fixpoint readSeq (fields : list (Z -> Message -> Message)) (m : Message) (dr : decodeReader)
    : Message * decodeReader * option perr :=
  match fields with
  | [] => (m, dr, None)
  | set :: fields' =>
      let '(b, dr', err) := ReadFull 4 dr in
      match err with
      | Some e => (m, dr', Some e)
      | None => readSeq fields' (set (of_be b) m) dr'
      end
  end.

(** A buffer of which the first bytes have been read. *)
Definition filled (b buffer : list ascii) : list ascii := b ++ drop (length b) buffer.

Definition zeros (n : Z) : list ascii := repeat "000"%char (Z.to_nat n).

Definition readHashRequest (m : Message) (dr : decodeReader) : Message * decodeReader * option perr :=
  let '(b, dr', err) := ReadFull 32 dr in
  let m' := set_PiecesRoot (filled b (PiecesRoot m)) m in
  match err with
  | Some e => (m', dr', Some e)
  | None => readSeq [set_BaseLayer; set_Index; set_Length; set_ProofLayers] m' dr'
  end.

(** The loop over [numHashes]. *)
Fixpoint readHashes (n : nat) (m : Message) (dr : decodeReader) : Message * decodeReader * option perr :=
  match n with
  | O => (m, dr, None)
  | S n' =>
      let '(b, dr', err) := ReadFull 32 dr in
      match err with
      | Some e => (m, dr', Some (ReadingHashes e))
      | None => readHashes n' (set_Hashes (Hashes m ++ [b]) m) dr'
      end
  end.

Definition unmarshalBitfield (b : list ascii) : list bool :=
  concat (map (fun c => map (fun i => Z.land (Z.shiftr (byte_of c) i) 1 =? 1) [7; 6; 5; 4; 3; 2; 1; 0]) b).

Definition readMessageAfterType (m : Message) (dr : decodeReader) (pool : option (list ascii))
    : Message * decodeReader * option perr :=
  let t := Type_ m in
  if is_type t no_fields then (m, dr, None)
  else if is_type t index_only then readSeq [set_Index] m dr
  else if is_type t requests then readSeq [set_Index; set_Begin; set_Length] m dr
  else if t =? MessageType.Bitfield then
    let n := lr_N dr in
    let '(b, dr', err) := ReadFull n dr in
    (set_Bitfield (unmarshalBitfield (filled b (zeros n))) m, dr', err)
  else if t =? MessageType.Piece then
    let '(m, dr, err) := readSeq [set_Index; set_Begin] m dr in
    match err with
    | Some e => (m, dr, Some e)
    | None =>
        let dataLen := lr_N dr in
        match pool with
        | Some buffer =>
            if Z.of_nat (length buffer) <? dataLen then (set_Piece buffer m, dr, Some PieceLongerThanExpected)
            else let '(b, dr', err) := ReadFull dataLen dr in
                 (set_Piece (filled b (take (Z.to_nat dataLen) buffer)) m, dr', err)
        | None =>
            let '(b, dr', err) := ReadFull dataLen dr in (set_Piece (filled b (zeros dataLen)) m, dr', err)
        end
    end
  else if t =? MessageType.Extended then
    match ReadByte dr with
    | (dr', Err e) => (m, dr', Some e)
    | (dr', Ok c) =>
        let n := lr_N dr' in
        let '(b, dr'', err) := ReadFull n dr' in
        (set_Extended (byte_of c) (filled b (zeros n)) m, dr'', err)
    end
  else if t =? MessageType.Port then
    let '(b, dr', err) := ReadFull 2 dr in
    (match err with None => set_Port (of_be b) m | Some _ => m end, dr', err)
  else if is_type t hash_requests then readHashRequest m dr
  else if t =? MessageType.Hashes then
    let '(m, dr, err) := readHashRequest m dr in
    let numHashes := Z.to_nat ((lr_N dr + 31) / 32) in
    match readHashes numHashes (set_Hashes [] m) dr with
    | (m', dr', None) => (m', dr', match numHashes with O => err | S _ => None end)
    | r => r
    end
  else (m, dr, Some UnhandledMessageType).

(** [Decoder.Decode] into [m]: the message, the decoder afterwards, the error. *)
Definition Decode (d : Decoder) (m : Message) : Message * Decoder * option perr :=
  let rest r := mkDecoder r (Pool d) (MaxLength d) in
  if (length (R d) <? 4)%nat then
    (m, rest [], Some (ReadingMessageLength (match R d with [] => EOF | _ => UnexpectedEOF end)))
  else
    let length := of_be (take 4 (R d)) in
    let r := drop 4 (R d) in
    if MaxLength d <? length then (m, rest r, Some MessageTooLong)
    else if length =? 0 then (set_Keepalive true m, rest r, None)
    else
      match ReadByte (mkReader length r) with
      | (dr, Err e) => (m, rest (br dr), Some e)
      | (dr, Ok c) =>
          let '(m', dr', err) := readMessageAfterType (set_Type (byte_of c) m) dr (Pool d) in
          (m', rest (br dr'),
           match err with
           | Some e => Some (ReadingFields (byte_of c) e)
           | None => if lr_N dr' =? 0 then None else Some (UnusedBytes (lr_N dr') (byte_of c))
           end)
      end.

(** [UnmarshalBinary]: its decoder has no [MaxLength]. The reader buffers the
    first 4096 bytes, and only what it buffered counts as trailing. *)
Definition UnmarshalBinary (m : Message) (b : list ascii) : Message * option perr :=
  let '(m', d, err) := Decode (mkDecoder b None 0) m in
  (m', match err with
       | Some e => Some e
       | None =>
           match take (4096 - (length b - length (R d))) (R d) with
           | [] => None
           | l => Some (TrailingBytes (Z.of_nat (length l)))
           end
       end).

(** ** The handshake *)

(** The eight reserved bytes; a bit that is not there is a panic, [None]. *)
Definition SetBit (pex : list ascii) (bit : nat) (on : bool) : option (list ascii) :=
  if decide (7 < bit / 8)%nat then None
  else
    let mask := Z.shiftl 1 (Z.of_nat (bit mod 8)) in
    Some (alter (fun c => of_byte (if on then Z.lor (byte_of c) mask else Z.ldiff (byte_of c) mask))
            (7 - bit / 8)%nat pex).

Definition GetBit (pex : list ascii) (bit : nat) : option bool :=
  if decide (7 < bit / 8)%nat then None
  else
    c ← pex !! (7 - bit / 8)%nat;
    Some (negb (Z.land (byte_of c) (Z.shiftl 1 (Z.of_nat (bit mod 8))) =? 0)).

Definition NewPeerExtensionBytes (bits : list nat) : option (list ascii) :=
  fold_left (fun ret b => ret ≫= fun pex => SetBit pex b true) bits (Some (repeat "000"%char 8)).

Definition ExtensionBitDht : nat := 0.
Definition ExtensionBitFast : nat := 2.
Definition ExtensionBitV2Upgrade : nat := 4.
Definition ExtensionBitLtep : nat := 20.

Definition SupportsExtended (pex : list ascii) : option bool := GetBit pex ExtensionBitLtep.
Definition SupportsDHT (pex : list ascii) : option bool := GetBit pex ExtensionBitDht.
Definition SupportsFast (pex : list ascii) : option bool := GetBit pex ExtensionBitFast.

Definition Protocol : list ascii := of_byte 19 :: list_ascii_of_string "BitTorrent protocol".

Record HandshakeResult : Type := mkHandshake {
  HPeerExtensionBits : list ascii;
  HHash : list ascii;
  HPeerID : list ascii;
}.

Definition no_result : HandshakeResult := mkHandshake (repeat "000"%char 8) (repeat "000"%char 20) (repeat "000"%char 20).

(** What a handshake calls: [post] hands bytes to the goroutine that writes
    them, [io.ReadFull] of the socket, and the end of the writer, after the
    channel was closed. *)
Inductive hsE : Type -> Type :=
| Post (b : list ascii) : hsE unit
| SockReadFull (n : nat) : hsE (outcome perr (list ascii))
| WriteDone : hsE (option perr).

Local Open Scope prog_scope.

Definition Handshake (ih : option (list ascii)) (peerID extensions : list ascii)
    : prog hsE (HandshakeResult * option perr) :=
  call (Post Protocol);;
  call (Post extensions);;
  match ih with
  | Some h => call (Post h);; call (Post peerID)
  | None => Ret tt
  end;;
  r <- call (SockReadFull 68);;
  match r with
  | Err e => Ret (no_result, Some (WhileReading e))
  | Ok b =>
      let p := take (length Protocol) b in
      if decide (p = Protocol) then
        let b := drop (length p) b in
        let res := mkHandshake (take 8 b) (take 20 (drop 8 b)) (take 20 (drop 28 b)) in
        match ih with
        | None => call (Post (HHash res));; call (Post peerID)
        | Some _ => Ret tt
        end;;
        err <- call WriteDone;;
        Ret (res, match err with Some e => Some (ErrorWriting e) | None => None end)
      else Ret (no_result, Some (UnexpectedProtocol p))
  end.

(** A connection: the bytes that arrive, then its end, and the bytes written. *)
Definition hs_handle (write_err : option perr) : handler hsE (list ascii * list ascii) := fun B e =>
  match e in hsE B return list ascii * list ascii -> res B * (list ascii * list ascii) with
  | Post b => fun '(incoming, sent) => (Val tt, (incoming, sent ++ b))
  | SockReadFull n => fun '(incoming, sent) =>
      if (length incoming <? n)%nat
      then (Val (Err (match incoming with [] => EOF | _ => UnexpectedEOF end)), ([], sent))
      else (Val (Ok (take n incoming)), (drop n incoming, sent))
  | WriteDone => fun st => (Val write_err, st)
  end.
End peer_protocol.
