(* ===== verification/PeerTheorems.v ===== *)
(** * The peer wire protocol: what it guarantees

    A message that is written is read back, whatever follows it in the stream;
    what is read is exactly one message, whose bytes are those the message is
    written with; and the decoder never reads past the message. *)

From S2P Require Import Prelude Bytes Prog PeerProtocol.
From Stdlib Require Import ZArith Lia Ascii String.
From stdpp Require Import base gmap list.

Local Open Scope Z_scope.
Import peer_protocol.

(** ** Bit fields *)

Lemma lor_byte a b : 0 <= a < 256 -> 0 <= b < 256 -> 0 <= Z.lor a b < 256.
Proof.
  intros Ha Hb. split; [by apply Z.lor_nonneg; lia|].
  destruct (decide (Z.lor a b = 0)) as [->|Hne]; [lia|].
  assert (0 < Z.lor a b) by (pose proof (proj2 (Z.lor_nonneg a b)); lia).
  change 256 with (2 ^ 8). apply Z.log2_lt_pow2; [done|]. rewrite Z.log2_lor by lia.
  assert (forall x, 0 <= x < 256 -> Z.log2 x < 8) as Hl.
  { intros x Hx. destruct (decide (x = 0)) as [->|]; [done|]. apply Z.log2_lt_pow2; simpl; lia. }
  pose proof (Hl a Ha). pose proof (Hl b Hb). lia.
Qed.

(** Setting bit [i] of a sequence of bytes. *)
Definition set_bit (i : nat) (b : list ascii) : list ascii :=
  alter (fun c => of_byte (Z.lor (byte_of c) (Z.shiftl 1 (7 - Z.of_nat (i mod 8))))) (i / 8)%nat b.

Lemma bit_set_bit i j b : (i < 8 * length b)%nat -> bit (set_bit i b) j = bit b j || bool_decide (i = j).
Proof.
  intros Hi. unfold bit, set_bit. destruct (decide (i / 8 = j / 8)%nat) as [E|E].
  - rewrite <- E, list_lookup_alter_eq.
    destruct (lookup_lt_is_Some_2 b (i / 8)%nat) as [c ->]; [apply Nat.Div0.div_lt_upper_bound; lia|].
    cbn [fmap option_fmap option_map]. pose proof (byte_of_range c). pose proof (Nat.mod_upper_bound i 8). pose proof (Nat.mod_upper_bound j 8).
    rewrite Z.shiftl_1_l. rewrite byte_of_of_byte.
    + rewrite Z.lor_spec, Z.pow2_bits_eqb by lia. f_equal. apply eq_true_iff_eq.
      rewrite Z.eqb_eq, bool_decide_eq_true. split; [|intros ->; done].
      intros Hm. pose proof (Nat.div_mod i 8). pose proof (Nat.div_mod j 8). lia.
    + apply lor_byte; [done|]. split; [apply Z.pow_nonneg; lia|].
      change 256 with (2 ^ 8). apply Z.pow_lt_mono_r; lia.
  - rewrite list_lookup_alter_ne by done. rewrite bool_decide_eq_false_2, orb_false_r; [done|]. by intros ->.
Qed.

Lemma set_bits_length i bf b : length (set_bits i bf b) = length b.
Proof.
  revert i b. induction bf as [|h bf IH]; intros i b; [done|]. cbn [set_bits]. rewrite IH.
  destruct h; [apply length_alter|done].
Qed.

Lemma bit_set_bits i bf b j : (i + length bf <= 8 * length b)%nat ->
  bit (set_bits i bf b) j = bit b j || (bool_decide (i <= j)%nat && default false (bf !! (j - i)%nat)).
Proof.
  revert i b. induction bf as [|h bf IH]; intros i b Hl; cbn [set_bits length] in *.
  - by rewrite andb_false_r, orb_false_r.
  - rewrite IH by (destruct h; [rewrite length_alter|]; lia).
    assert (bit (if h then set_bit i b else b) j = bit b j || (h && bool_decide (i = j))) as Hb.
    { destruct h; [rewrite bit_set_bit by lia|rewrite orb_false_r]; done. }
    unfold set_bit in Hb. rewrite Hb. destruct (lt_eq_lt_dec i j) as [[Hij| ->]|Hij].
    + rewrite (bool_decide_eq_false_2 (i = j)), !bool_decide_eq_true_2, andb_false_r, orb_false_r by lia.
      by replace (j - i)%nat with (S (j - S i)) by lia.
    + rewrite (bool_decide_eq_true_2 (j = j)), (bool_decide_eq_false_2 (S j <= j)%nat), bool_decide_eq_true_2 by lia.
      rewrite Nat.sub_diag. simpl. by rewrite orb_false_r, andb_true_r.
    + rewrite (bool_decide_eq_false_2 (i = j)), !bool_decide_eq_false_2 by lia.
      by rewrite andb_false_r, !orb_false_r.
Qed.

Lemma bit_zeros n j : bit (repeat "000"%char n) j = false.
Proof.
  unfold bit. destruct (repeat "000"%char n !! (j / 8)%nat) as [c|] eqn:E; [|done].
  apply list_elem_of_lookup_2, list_elem_of_In, List.repeat_spec in E as ->. apply Z.testbit_0_l.
Qed.

Lemma marshalBitfield_length bf : length (marshalBitfield bf) = ((length bf + 7) / 8)%nat.
Proof. unfold marshalBitfield. by rewrite set_bits_length, List.repeat_length. Qed.

Lemma bit_marshalBitfield bf j : bit (marshalBitfield bf) j = default false (bf !! j).
Proof.
  unfold marshalBitfield. rewrite bit_set_bits, bit_zeros.
  - by rewrite bool_decide_eq_true_2, Nat.sub_0_r by lia.
  - rewrite List.repeat_length. pose proof (Nat.div_mod (length bf + 7) 8). pose proof (Nat.mod_upper_bound (length bf + 7) 8). lia.
Qed.

Lemma unmarshalBitfield_cons c b :
  unmarshalBitfield (c :: b) = map (fun i => Z.testbit (byte_of c) i) [7; 6; 5; 4; 3; 2; 1; 0] ++ unmarshalBitfield b.
Proof. unfold unmarshalBitfield. cbn [map concat]. by rewrite !byte_land_one by lia. Qed.

Lemma bit_cons c b j : bit (c :: b) (8 + j) = bit b j.
Proof.
  unfold bit. replace (8 + j)%nat with (1 * 8 + j)%nat by lia.
  rewrite Nat.div_add_l, (Nat.add_comm (1 * 8)), Nat.Div0.mod_add by lia. done.
Qed.

Lemma lookup_unmarshalBitfield b j :
  unmarshalBitfield b !! j = if decide (j < 8 * length b)%nat then Some (bit b j) else None.
Proof.
  revert j. induction b as [|c b IH]; intros j.
  - rewrite decide_False by (simpl; lia). apply lookup_nil.
  - rewrite unmarshalBitfield_cons. destruct (decide (j < 8)%nat) as [Hj|Hj].
    + rewrite lookup_app_l by (simpl; lia). rewrite decide_True by (simpl; lia).
      do 8 (destruct j as [|j]; [done|]). lia.
    + rewrite lookup_app_r by (simpl; lia). cbn [length map].
      assert (bit (c :: b) j = bit b (j - 8)) as -> by (rewrite <- (bit_cons c b); f_equal; lia). rewrite IH.
      by repeat case_decide; try lia.
Qed.

Lemma length_unmarshalBitfield b : length (unmarshalBitfield b) = (8 * length b)%nat.
Proof. induction b as [|c b IH]; [done|]. rewrite unmarshalBitfield_cons, length_app, IH. simpl. lia. Qed.

(** The spare bits of the last byte. *)
Definition padded (bf : list bool) : list bool :=
  bf ++ repeat false (8 * ((length bf + 7) / 8) - length bf).

Lemma unmarshal_marshal bf : unmarshalBitfield (marshalBitfield bf) = padded bf.
Proof.
  apply list_eq. intros j. rewrite lookup_unmarshalBitfield, marshalBitfield_length, bit_marshalBitfield. unfold padded.
  assert (length bf <= 8 * ((length bf + 7) / 8))%nat as Hle.
  { pose proof (Nat.div_mod (length bf + 7) 8). pose proof (Nat.mod_upper_bound (length bf + 7) 8). lia. }
  destruct (decide (j < length bf)%nat) as [Hj|Hj].
  - rewrite decide_True, lookup_app_l by lia. by destruct (lookup_lt_is_Some_2 bf j Hj) as [x ->].
  - rewrite lookup_app_r, (proj2 (lookup_ge_None bf j)) by lia. case_decide as Hlt.
    + symmetry.
      destruct (repeat false (8 * ((length bf + 7) / 8) - length bf) !! (j - length bf)%nat) as [x|] eqn:E.
      * apply list_elem_of_lookup_2, list_elem_of_In, List.repeat_spec in E. by subst.
      * apply lookup_ge_None in E. rewrite List.repeat_length in E. lia.
    + symmetry. apply lookup_ge_None. rewrite List.repeat_length. lia.
Qed.

Lemma marshal_unmarshal b : marshalBitfield (unmarshalBitfield b) = b.
Proof.
  apply bytes_ext.
  - rewrite marshalBitfield_length, length_unmarshalBitfield.
    rewrite (Nat.mul_comm 8), Nat.div_add_l by lia. by rewrite Nat.div_small, Nat.add_0_r by lia.
  - intros j. rewrite bit_marshalBitfield, lookup_unmarshalBitfield. case_decide as Hj; [done|].
    simpl. unfold bit. rewrite (proj2 (lookup_ge_None b (j / 8)%nat)); [done|].
    apply Nat.div_le_lower_bound; lia.
Qed.

(** ** Reading what was written *)

Lemma ReadFull_app n b rest N :
  Z.of_nat (length b) = n -> n <= N ->
  ReadFull n (mkReader N (b ++ rest)) = (b, mkReader (N - n) rest, None).
Proof.
  intros <- Hn. unfold ReadFull. cbn [lr_N br]. rewrite length_app.
  rewrite (proj2 (Z.leb_le _ _) Hn), (proj2 (Z.leb_le _ _)) by lia. cbn [andb].
  by rewrite Nat2Z.id, take_app_length, drop_app_length.
Qed.

Lemma filled_all b buffer : length buffer = length b -> filled b buffer = b.
Proof. intros E. unfold filled. by rewrite <- E, drop_all, app_nil_r. Qed.

Lemma zeros_length n : length (zeros n) = Z.to_nat n.
Proof. apply List.repeat_length. Qed.

Definition u32 (n : Z) : Prop := 0 <= n < 2 ^ 32.

Ltac u32s := repeat (apply Forall_cons_2; [assumption|]); apply Forall_nil_2.

(** Reading integers that were written one after the other. *)
Lemma readSeq_app sets vals m N rest :
  length sets = length vals -> Forall u32 vals -> 4 * Z.of_nat (length vals) <= N ->
  readSeq sets m (mkReader N (concat (map (be 4) vals) ++ rest)) =
  (fold_left (fun m p => fst p (snd p) m) (zip sets vals) m, mkReader (N - 4 * Z.of_nat (length vals)) rest, None).
Proof.
  revert sets m N. induction vals as [|v vals IH]; intros [|set sets] m N Hlen Hv HN; try discriminate Hlen.
  { simpl. by rewrite Z.sub_0_r. }
  inversion_clear Hv as [|?? Hv' Hvs]. cbn [length] in *. rewrite Nat2Z.inj_succ in *.
  cbn [readSeq map concat]. rewrite <- app_assoc, ReadFull_app by (rewrite ?be_length; lia).
  rewrite of_be_be by done. rewrite IH by (done || lia). cbn [zip fold_left fst snd zip_with].
  do 2 f_equal. f_equal. lia.
Qed.

(** The hashes of a message. *)
Lemma readHashes_app hs m N rest :
  Forall (fun h => length h = 32%nat) hs -> 32 * Z.of_nat (length hs) <= N ->
  readHashes (length hs) m (mkReader N (concat hs ++ rest)) =
  (set_Hashes (Hashes m ++ hs) m, mkReader (N - 32 * Z.of_nat (length hs)) rest, None).
Proof.
  intros Hhs. revert m N. induction Hhs as [|h hs Hh Hhs IH]; intros m N HN.
  { cbn [length readHashes concat]. rewrite app_nil_r, Z.mul_0_r, Z.sub_0_r. by destruct m. }
  cbn [length] in *. rewrite Nat2Z.inj_succ in *. cbn [readHashes concat].
  rewrite <- app_assoc, ReadFull_app by lia. rewrite IH by lia. cbn [set_Hashes Hashes].
  rewrite <- app_assoc. cbn [app]. do 2 f_equal. f_equal. lia.
Qed.

(** The messages a Go [Message] can hold. *)
Record wf (m : Message) : Prop := {
  wf_root : length (PiecesRoot m) = 32%nat;
  wf_hashes : Forall (fun h => length h = 32%nat) (Hashes m);
  wf_index : u32 (Index m);
  wf_begin : u32 (Begin m);
  wf_length : u32 (Length m);
  wf_base : u32 (BaseLayer m);
  wf_proof : u32 (ProofLayers m);
  wf_port : 0 <= Port m < 2 ^ 16;
  wf_type : 0 <= Type_ m < 256;
  wf_ext : 0 <= ExtendedID m < 256;
}.

(** The fields a message of its type carries; the other ones are not sent. *)
Definition with_hash_fields (m z : Message) : Message :=
  set_ProofLayers (ProofLayers m) (set_Length (Length m) (set_Index (Index m)
    (set_BaseLayer (BaseLayer m) (set_PiecesRoot (PiecesRoot m) z)))).

Definition carried (m : Message) : Message :=
  if Keepalive m then set_Keepalive true zero_message
  else
    let t := Type_ m in
    let z := set_Type t zero_message in
    if is_type t no_fields then z
    else if is_type t index_only then set_Index (Index m) z
    else if is_type t requests then set_Length (Length m) (set_Begin (Begin m) (set_Index (Index m) z))
    else if t =? MessageType.Bitfield then set_Bitfield (padded (Bitfield m)) z
    else if t =? MessageType.Piece then set_Piece (Piece m) (set_Begin (Begin m) (set_Index (Index m) z))
    else if t =? MessageType.Extended then set_Extended (ExtendedID m) (ExtendedPayload m) z
    else if t =? MessageType.Port then set_Port (Port m) z
    else if is_type t hash_requests then with_hash_fields m z
    else if t =? MessageType.Hashes then set_Hashes (Hashes m) (with_hash_fields m z)
    else z.

(** The buffers of the pool can hold the piece. *)
Definition pool_fits (pool : option (list ascii)) (m : Message) : Prop :=
  match pool with
  | Some buffer => (length (Piece m) <= length buffer)%nat
  | None => True
  end.

Definition fields_of (m : Message) : list (list ascii) := tail (fst (writePayloadTo m)).

Lemma readHashRequest_app m z N rest :
  wf m -> length (PiecesRoot z) = 32%nat -> 48 <= N ->
  readHashRequest z (mkReader N (concat (writeHashCommon m) ++ rest)) =
  (with_hash_fields m z, mkReader (N - 48) rest, None).
Proof.
  intros [] Hz HN. unfold readHashRequest, writeHashCommon. cbn [concat].
  rewrite <- app_assoc, ReadFull_app by (rewrite ?wf_root0; lia).
  rewrite filled_all by (by rewrite Hz). rewrite readSeq_app; [|done|by u32s|simpl; lia].
  cbn [length]. do 2 f_equal. f_equal. lia.
Qed.

Lemma writePayloadTo_fields m writes : Keepalive m = false -> writePayloadTo m = (writes, None) ->
  writes = [of_byte (Type_ m)] :: fields_of m.
Proof.
  unfold fields_of. intros Hk. unfold writePayloadTo. rewrite Hk.
  destruct (if is_type (Type_ m) no_fields then _ else _) as [l e]. intros [= <- ->]. done.
Qed.

Lemma concat_length_cons {A} (x : list A) l : length (concat (x :: l)) = (length x + length (concat l))%nat.
Proof. cbn [concat]. apply length_app. Qed.

Lemma readMessageAfterType_app m writes pool N rest :
  wf m -> Keepalive m = false -> writePayloadTo m = (writes, None) -> pool_fits pool m ->
  N = Z.of_nat (length (concat (fields_of m))) ->
  readMessageAfterType (set_Type (Type_ m) zero_message) (mkReader N (concat (fields_of m) ++ rest)) pool =
  (carried m, mkReader 0 rest, None).
Proof.
  intros Hwf Hk Hw Hpool HN. assert (Hwf' := Hwf). destruct Hwf'.
  unfold fields_of, writePayloadTo in *. unfold carried, readMessageAfterType. rewrite Hk in *.
  cbn [Type_ set_Type zero_message]. set (t := Type_ m) in *.
  destruct (is_type t no_fields); [by rewrite HN|].
  destruct (is_type t index_only).
  { cbn [fst tail] in *. change [be 4 (Index m)] with (map (be 4) [Index m]) in *.
    rewrite readSeq_app; [|done|by u32s|by rewrite HN]. by rewrite HN. }
  destruct (is_type t requests).
  { cbn [fst tail] in *. rewrite readSeq_app; [|done|by u32s|by rewrite HN]. by rewrite HN. }
  destruct (t =? MessageType.Bitfield).
  { cbn [fst tail concat lr_N] in *. rewrite app_nil_r in *. rewrite ReadFull_app by lia.
    rewrite filled_all by (rewrite zeros_length; lia). by rewrite unmarshal_marshal, Z.sub_diag. }
  destruct (t =? MessageType.Piece).
  { cbn [fst tail] in *. rewrite concat_app, length_app in HN. rewrite concat_app, <- app_assoc.
    rewrite readSeq_app; [|done|by u32s|simpl in *; lia].
    cbn [zip fold_left fst snd zip_with lr_N length concat] in *. rewrite app_nil_r in *.
    change (length (concat (map (be 4) [Index m; Begin m]))) with 8%nat in HN.
    replace (N - 4 * Z.of_nat 2) with (Z.of_nat (length (Piece m))) by lia.
    rewrite ReadFull_app, Z.sub_diag by lia. destruct pool as [buffer|]; cbn [pool_fits] in Hpool.
    - rewrite (proj2 (Z.ltb_ge _ _)), Nat2Z.id by lia. rewrite filled_all; [done|]. rewrite length_take. lia.
    - rewrite filled_all; [done|]. rewrite zeros_length. lia. }
  destruct (t =? MessageType.Extended).
  { cbn [fst tail concat app length] in *. rewrite app_nil_r in *. unfold ReadByte. cbn [lr_N br].
    rewrite (proj2 (Z.leb_gt _ _)) by lia. cbn [lr_N]. rewrite ReadFull_app by lia.
    rewrite filled_all by (rewrite zeros_length; lia). rewrite byte_of_of_byte by done.
    replace (N - 1 - (N - 1)) with 0 by lia. done. }
  destruct (t =? MessageType.Port).
  { cbn [fst tail concat] in *. rewrite app_nil_r, be_length in *. rewrite ReadFull_app by (rewrite ?be_length; lia).
    rewrite of_be_be by done. by rewrite HN. }
  destruct (is_type t hash_requests).
  { cbn [fst tail] in *. unfold writeHashCommon in HN. rewrite concat_length_cons, wf_root0 in HN.
    change (length (concat (map (be 4) _))) with 16%nat in HN. rewrite readHashRequest_app by (done || lia).
    by rewrite HN. }
  destruct (t =? MessageType.Hashes); [|done].
  cbn [fst tail] in *. rewrite concat_app, length_app in HN. unfold writeHashCommon in HN.
  rewrite concat_length_cons, wf_root0 in HN. change (length (concat (map (be 4) _))) with 16%nat in HN.
  assert (length (concat (Hashes m)) = 32 * length (Hashes m))%nat as Hh.
  { clear -wf_hashes0. induction wf_hashes0 as [|h hs Hh _ IH]; [done|]. rewrite concat_length_cons, Hh, IH. simpl. lia. }
  rewrite concat_app, <- app_assoc, readHashRequest_app by (done || lia). cbn [lr_N].
  assert (Z.to_nat ((N - 48 + 31) / 32) = length (Hashes m)) as ->.
  { replace (N - 48 + 31) with (31 + Z.of_nat (length (Hashes m)) * 32) by lia.
    rewrite Z.div_add by lia. rewrite Z.div_small by lia. lia. }
  rewrite readHashes_app by (done || lia). replace (N - 48 - 32 * _) with 0 by lia.
  cbn [set_Hashes Hashes app]. by destruct (length (Hashes m)).
Qed.

(** ** The bytes of a message *)

Lemma uint32_mod n k : uint32 (uint32 n + k) = uint32 (n + k).
Proof. unfold uint32. by rewrite Zplus_mod_idemp_l. Qed.

Lemma length_written n ws :
  fold_left lengthWriter_Write ws (uint32 n) = uint32 (n + Z.of_nat (length (concat ws))).
Proof.
  revert n. induction ws as [|w ws IH]; intros n; [by rewrite Z.add_0_r|].
  cbn [fold_left]. unfold lengthWriter_Write at 2. rewrite uint32_mod, (Z.add_comm n), uint32_mod, IH.
  rewrite concat_length_cons. f_equal. lia.
Qed.

Lemma MarshalBinary_writes m writes :
  writePayloadTo m = (writes, None) ->
  MarshalBinary m = (be 4 (uint32 (Z.of_nat (length (concat writes)))) ++ concat writes, None).
Proof.
  intros E. unfold MarshalBinary, WriteTo, getPayloadLength. rewrite E.
  change 0 with (uint32 0) at 1. by rewrite length_written.
Qed.

Lemma MarshalBinary_ok m data : MarshalBinary m = (data, None) ->
  exists writes, writePayloadTo m = (writes, None) /\
  data = be 4 (uint32 (Z.of_nat (length (concat writes)))) ++ concat writes.
Proof.
  destruct (writePayloadTo m) as [writes [e|]] eqn:E.
  - unfold MarshalBinary, WriteTo, getPayloadLength. by rewrite E.
  - rewrite (MarshalBinary_writes m writes E). intros Hm. exists writes. split; [done|]. by apply (f_equal fst) in Hm.
Qed.

Lemma uint32_small n : u32 n -> uint32 n = n.
Proof. intros H. by apply Z.mod_small. Qed.

Lemma uint32_range n : u32 (uint32 n).
Proof. by apply Z.mod_pos_bound. Qed.

(** C35. A message is read back as it was written: from a stream that starts
    with the bytes of a message, the decoder reads the message with the fields
    its type carries and leaves what follows it. *)
Theorem Decode_MarshalBinary m data rest pool max :
  wf m -> MarshalBinary m = (data, None) -> pool_fits pool m ->
  Z.of_nat (length data) - 4 <= max < 2 ^ 32 ->
  Decode (mkDecoder (data ++ rest) pool max) zero_message = (carried m, mkDecoder rest pool max, None).
Proof.
  intros Hwf Hm Hpool Hmax. apply MarshalBinary_ok in Hm as (writes & Hw & ->).
  rewrite length_app, be_length in Hmax. rewrite uint32_small by (split; lia).
  set (n := Z.of_nat (length (concat writes))) in *.
  unfold Decode. cbn [R Pool MaxLength]. rewrite <- app_assoc, length_app, be_length.
  rewrite (proj2 (Nat.ltb_ge _ _)) by lia.
  rewrite take_app_length', drop_app_length' by (by rewrite be_length).
  rewrite of_be_be by (change (256 ^ Z.of_nat 4) with (2 ^ 32); lia).
  rewrite (proj2 (Z.ltb_ge _ _)) by lia. destruct (Keepalive m) eqn:Hk.
  - unfold writePayloadTo in Hw. rewrite Hk in Hw. injection Hw as <-. unfold carried. by rewrite Hk.
  - assert (Hf := writePayloadTo_fields m writes Hk Hw).
    assert (n = 1 + Z.of_nat (length (concat (fields_of m)))) as Hn.
    { subst n. rewrite Hf, concat_length_cons. simpl. lia. }
    rewrite (proj2 (Z.eqb_neq _ _)) by lia. rewrite Hf. cbn [concat app]. unfold ReadByte. cbn [lr_N br].
    rewrite (proj2 (Z.leb_gt _ _)) by lia. rewrite byte_of_of_byte by apply Hwf.
    rewrite (readMessageAfterType_app m writes) by (done || lia). done.
Qed.

(** ** What a read message is *)

Lemma ReadFull_ok n dr b dr' : 0 <= n -> ReadFull n dr = (b, dr', None) ->
  br dr = b ++ br dr' /\ lr_N dr' = lr_N dr - n /\ Z.of_nat (length b) = n.
Proof.
  unfold ReadFull. destruct ((n <=? lr_N dr) && (n <=? Z.of_nat (length (br dr)))) eqn:E; [|done].
  apply andb_true_iff in E as [H1%Z.leb_le H2%Z.leb_le]. intros Hn [= <- <-]. cbn [br lr_N].
  rewrite take_drop, length_take. split_and!; [done..|]. lia.
Qed.

Lemma of_be_u32 b : Z.of_nat (length b) = 4 -> u32 (of_be b).
Proof. intros H. pose proof (of_be_range b) as Hr. by rewrite H in Hr. Qed.

Lemma readSeq_ok sets m dr m' dr' : readSeq sets m dr = (m', dr', None) ->
  exists vals, length vals = length sets /\ Forall u32 vals /\
  br dr = concat (map (be 4) vals) ++ br dr' /\ lr_N dr' = lr_N dr - 4 * Z.of_nat (length vals) /\
  m' = fold_left (fun m p => fst p (snd p) m) (zip sets vals) m.
Proof.
  revert m dr. induction sets as [|set sets IH]; intros m dr; cbn [readSeq].
  - intros [= <- <-]. exists []. split_and!; try done. simpl. lia.
  - destruct (ReadFull 4 dr) as [[b dr1] [e|]] eqn:E; [done|].
    apply ReadFull_ok in E as (E1 & E2 & E3); [|done]. intros (vals & H1 & H2 & H3 & H4 & H5)%IH.
    exists (of_be b :: vals). split_and!.
    + simpl. by rewrite H1.
    + apply Forall_cons_2; [by apply of_be_u32|done].
    + cbn [map concat]. rewrite be_of_be_n by lia. by rewrite E1, H3, app_assoc.
    + cbn [length]. lia.
    + done.
Qed.

Lemma readHashes_ok n m dr m' dr' : readHashes n m dr = (m', dr', None) ->
  exists hs, Forall (fun h => length h = 32%nat) hs /\ br dr = concat hs ++ br dr' /\
  lr_N dr' = lr_N dr - Z.of_nat (length (concat hs)) /\ m' = set_Hashes (Hashes m ++ hs) m.
Proof.
  revert m dr. induction n as [|n IH]; intros m dr; cbn [readHashes].
  - intros [= <- <-]. exists []. split_and!; try done; [simpl; lia|]. rewrite app_nil_r. by destruct m.
  - destruct (ReadFull 32 dr) as [[b dr1] [e|]] eqn:E; [done|].
    apply ReadFull_ok in E as (E1 & E2 & E3); [|done]. intros (hs & H1 & H2 & H3 & ->)%IH.
    exists (b :: hs). split_and!.
    + apply Forall_cons_2; [lia|done].
    + cbn [concat]. by rewrite E1, H2, app_assoc.
    + rewrite concat_length_cons. lia.
    + unfold set_Hashes. cbn. by rewrite <- app_assoc.
Qed.

(** What [readHashRequest] reads are the fields [writeHashCommon] writes. *)
Lemma readHashRequest_ok m dr m' dr' : length (PiecesRoot m) = 32%nat -> readHashRequest m dr = (m', dr', None) ->
  exists root a b c d, length root = 32%nat /\ Forall u32 [a; b; c; d] /\
  br dr = concat (root :: map (be 4) [a; b; c; d]) ++ br dr' /\ lr_N dr' = lr_N dr - 48 /\
  m' = set_ProofLayers d (set_Length c (set_Index b (set_BaseLayer a (set_PiecesRoot root m)))).
Proof.
  intros Hm. unfold readHashRequest. destruct (ReadFull 32 dr) as [[root dr1] [e|]] eqn:E; [done|].
  apply ReadFull_ok in E as (E1 & E2 & E3); [|done].
  rewrite filled_all by lia. intros (vals & H1 & H2 & H3 & H4 & ->)%readSeq_ok.
  destruct vals as [|a [|b [|c [|d [|]]]]]; try discriminate H1.
  exists root, a, b, c, d. split_and!; [lia|done| | |done].
  - rewrite E1, H3. cbn [concat]. by rewrite app_assoc.
  - cbn [length] in H4. lia.
Qed.

(** A read that fails has used up the message or the stream. *)
Lemma ReadFull_fails n dr b dr' e : 0 <= lr_N dr -> ReadFull n dr = (b, dr', Some e) -> lr_N dr' = 0 \/ br dr' = [].
Proof.
  unfold ReadFull. destruct (_ && _); [done|]. intros HN [= <- <- <-]. cbn [lr_N br].
  destruct (Z.min_spec (lr_N dr) (Z.of_nat (length (br dr)))) as [[_ ->]|[_ ->]]; [left; lia|right].
  by rewrite Nat2Z.id, drop_all.
Qed.

Lemma ReadFull_N n dr b dr' err : 0 <= n -> 0 <= lr_N dr -> ReadFull n dr = (b, dr', err) -> 0 <= lr_N dr'.
Proof.
  unfold ReadFull. intros Hn HN. destruct (_ && _) eqn:E; intros [= <- <- <-]; cbn [lr_N]; [|lia].
  apply andb_true_iff in E as [H1%Z.leb_le _]. lia.
Qed.

Lemma readSeq_fails sets m dr m' dr' e : 0 <= lr_N dr -> readSeq sets m dr = (m', dr', Some e) ->
  lr_N dr' = 0 \/ br dr' = [].
Proof.
  revert m dr. induction sets as [|set sets IH]; intros m dr HN; cbn [readSeq]; [done|].
  destruct (ReadFull 4 dr) as [[b dr1] [e'|]] eqn:E.
  - intros [= <- <- <-]. by eapply ReadFull_fails.
  - apply IH. by eapply ReadFull_N, E.
Qed.

Lemma readSeq_N sets m dr m' dr' err : 0 <= lr_N dr -> readSeq sets m dr = (m', dr', err) -> 0 <= lr_N dr'.
Proof.
  revert m dr. induction sets as [|set sets IH]; intros m dr HN; cbn [readSeq]; [by intros [= <- <- <-]|].
  destruct (ReadFull 4 dr) as [[b dr1] err1] eqn:E. apply ReadFull_N in E; [|done|done].
  destruct err1 as [e'|]; [by intros [= <- <- <-]|by apply IH].
Qed.

Lemma readHashRequest_fails m dr m' dr' e : 0 <= lr_N dr -> readHashRequest m dr = (m', dr', Some e) ->
  lr_N dr' = 0 \/ br dr' = [].
Proof.
  intros HN. unfold readHashRequest. destruct (ReadFull 32 dr) as [[b dr1] [e'|]] eqn:E.
  - intros [= <- <- <-]. by eapply ReadFull_fails.
  - apply readSeq_fails. by eapply ReadFull_N, E.
Qed.

(** No hash is read from nothing. *)
Lemma readHashes_nothing n m dr : (lr_N dr = 0 \/ br dr = []) ->
  snd (readHashes (S n) m dr) = Some (ReadingHashes UnexpectedEOF).
Proof.
  intros H. cbn [readHashes]. unfold ReadFull.
  destruct ((32 <=? lr_N dr) && (32 <=? Z.of_nat (length (br dr)))) eqn:E; [|done].
  apply andb_true_iff in E as [H1%Z.leb_le H2%Z.leb_le].
  destruct H as [H|H]; rewrite H in *; [lia|simpl in H2; lia].
Qed.

(** A message that was read into the zero value: it holds what a [Message] can
    hold and is written with the bytes it was read from. *)
Definition read_as (t : Z) (m : Message) (dr dr' : decodeReader) : Prop :=
  wf m /\ exists fields, writePayloadTo m = ([of_byte t] :: fields, None) /\
  br dr = concat fields ++ br dr' /\ lr_N dr = Z.of_nat (length (concat fields)).

Ltac wf_read := split; cbn; try assumption; try done; try (split; [lia|]; lia);
  try (apply Forall_nil_2); try (by apply Z.mod_pos_bound).

Lemma writePayload_cases m fields :
  Keepalive m = false ->
  (if is_type (Type_ m) no_fields then fields = []
   else if is_type (Type_ m) index_only then fields = [be 4 (Index m)]
   else if is_type (Type_ m) requests then fields = map (be 4) [Index m; Begin m; Length m]
   else if Type_ m =? MessageType.Bitfield then fields = [marshalBitfield (Bitfield m)]
   else if Type_ m =? MessageType.Piece then fields = map (be 4) [Index m; Begin m] ++ [Piece m]
   else if Type_ m =? MessageType.Extended then fields = [[of_byte (ExtendedID m)]; ExtendedPayload m]
   else if Type_ m =? MessageType.Port then fields = [be 2 (Port m)]
   else if is_type (Type_ m) hash_requests then fields = writeHashCommon m
   else if Type_ m =? MessageType.Hashes then fields = writeHashCommon m ++ Hashes m
   else False) ->
  writePayloadTo m = ([of_byte (Type_ m)] :: fields, None).
Proof.
  intros Hk. unfold writePayloadTo. rewrite Hk.
  repeat match goal with |- (if ?b then _ else _) -> _ => destruct b; [by intros ->|] end. done.
Qed.

Lemma read_bitfield_ok dr m dr' pool :
  0 <= lr_N dr ->
  readMessageAfterType (set_Type MessageType.Bitfield zero_message) dr pool = (m, dr', None) ->
  read_as MessageType.Bitfield m dr dr'.
Proof.
  intros HN H. unfold readMessageAfterType in H. cbn -[unmarshalBitfield ReadFull filled] in H.
  destruct (ReadFull (lr_N dr) dr) as [[b dr1] err] eqn:E. injection H as <- <- ->.
  apply ReadFull_ok in E as (H1 & H2 & H3); [|done]. rewrite filled_all by (rewrite zeros_length; lia).
  split; [wf_read|]. exists [b]. cbn [concat]. rewrite app_nil_r. split_and!; [|done|lia].
  unfold writePayloadTo. cbn -[marshalBitfield unmarshalBitfield]. by rewrite marshal_unmarshal.
Qed.

Lemma read_piece_ok dr m dr' pool :
  0 <= lr_N dr ->
  readMessageAfterType (set_Type MessageType.Piece zero_message) dr pool = (m, dr', None) ->
  read_as MessageType.Piece m dr dr'.
Proof.
  intros HN H. unfold readMessageAfterType in H. cbn -[readSeq] in H.
  destruct (readSeq _ _ dr) as [[m1 dr1] [e|]] eqn:E; [done|].
  assert (0 <= lr_N dr1) as HN1 by (by eapply readSeq_N).
  apply readSeq_ok in E as (vals & H1 & H2 & H3 & H4 & ->).
  destruct vals as [|a [|b [|]]]; try discriminate H1.
  apply Forall_cons in H2 as [Ha H2]. apply Forall_cons in H2 as [Hb _]. cbn [length] in H4.
  assert (exists p, ReadFull (lr_N dr1) dr1 = (p, dr', None) /\
    (Z.of_nat (length p) = lr_N dr1 ->
     m = set_Piece p (set_Begin b (set_Index a (set_Type MessageType.Piece zero_message))))) as (p & E & Hm).
  { destruct pool as [buffer|].
    - destruct (Z.of_nat (length buffer) <? lr_N dr1) eqn:El; [done|]. apply Z.ltb_ge in El.
      destruct (ReadFull _ dr1) as [[p dr2] err]. injection H as <- <- ->. exists p. split; [done|]. intros Hp.
      by rewrite filled_all by (rewrite length_take; lia).
    - destruct (ReadFull _ dr1) as [[p dr2] err]. injection H as <- <- ->. exists p. split; [done|]. intros Hp.
      by rewrite filled_all by (rewrite zeros_length; lia). }
  apply ReadFull_ok in E as (E1 & E2 & E3); [|done]. rewrite (Hm E3).
  split; [wf_read|]. exists (map (be 4) [a; b] ++ [p]). rewrite !concat_app, length_app. cbn [concat].
  rewrite app_nil_r. split_and!; [done|by rewrite H3, E1, app_assoc|].
  change (length (concat (map (be 4) [a; b]))) with 8%nat. lia.
Qed.

Lemma read_extended_ok dr m dr' pool :
  0 <= lr_N dr ->
  readMessageAfterType (set_Type MessageType.Extended zero_message) dr pool = (m, dr', None) ->
  read_as MessageType.Extended m dr dr'.
Proof.
  intros HN H. unfold readMessageAfterType in H. cbn -[ReadFull filled] in H. unfold ReadByte in H.
  destruct (lr_N dr <=? 0) eqn:E0; [done|]. apply Z.leb_gt in E0.
  destruct (br dr) as [|c r] eqn:Er; [done|]. cbn [lr_N] in H.
  destruct (ReadFull _ _) as [[p dr1] err] eqn:E. injection H as <- <- ->.
  apply ReadFull_ok in E as (E1 & E2 & E3); [|lia]. cbn [br lr_N] in *.
  rewrite filled_all by (rewrite zeros_length; lia). pose proof (byte_of_range c).
  split; [wf_read|]. exists [[c]; p]. cbn [concat app]. rewrite app_nil_r. cbn [length].
  split_and!; [|by rewrite Er, E1|lia]. unfold writePayloadTo. cbn -[of_byte]. by rewrite of_byte_byte_of.
Qed.

Lemma read_port_ok dr m dr' pool :
  readMessageAfterType (set_Type MessageType.Port zero_message) dr pool = (m, dr', None) -> lr_N dr' = 0 ->
  read_as MessageType.Port m dr dr'.
Proof.
  intros H H0. unfold readMessageAfterType in H. cbn -[ReadFull set_Port] in H.
  destruct (ReadFull 2 dr) as [[b dr1] err] eqn:E. injection H as <- <- ->.
  apply ReadFull_ok in E as (E1 & E2 & E3); [|done].
  pose proof (of_be_range b) as Hb. rewrite E3 in Hb. change (256 ^ 2) with (2 ^ 16) in Hb.
  split; [wf_read|]. exists [b]. cbn [concat]. rewrite app_nil_r. split_and!; [|done|lia].
  unfold writePayloadTo. cbn -[be of_be]. by rewrite be_of_be_n by lia.
Qed.

Lemma read_hash_request_ok t dr m dr' :
  0 <= t < 256 -> is_type t hash_requests = true ->
  readHashRequest (set_Type t zero_message) dr = (m, dr', None) -> lr_N dr' = 0 -> read_as t m dr dr'.
Proof.
  intros Ht Hreq H H0. apply readHashRequest_ok in H as (root & a & b & c & d & Hroot & Hs & H1 & H2 & ->); [|done].
  apply Forall_cons in Hs as [Ha Hs]. apply Forall_cons in Hs as [Hb Hs].
  apply Forall_cons in Hs as [Hc Hs]. apply Forall_cons in Hs as [Hd _].
  split; [wf_read|]. exists (root :: map (be 4) [a; b; c; d]). split_and!; [|done|].
  - apply existsb_exists in Hreq as (x & Hx & ->%Z.eqb_eq). by destruct Hx as [<-|[<-|[]]].
  - rewrite concat_length_cons, Hroot. change (length (concat (map (be 4) _))) with 16%nat. lia.
Qed.

Lemma read_hashes_ok dr m dr' pool :
  0 <= lr_N dr ->
  readMessageAfterType (set_Type MessageType.Hashes zero_message) dr pool = (m, dr', None) -> lr_N dr' = 0 ->
  read_as MessageType.Hashes m dr dr'.
Proof.
  intros HN H H0. unfold readMessageAfterType in H. cbn -[readHashRequest readHashes set_Hashes Z.div] in H.
  destruct (readHashRequest _ dr) as [[m1 dr1] err] eqn:E.
  set (n := Z.to_nat ((lr_N dr1 + 31) / 32)) in *.
  destruct (readHashes n (set_Hashes [] m1) dr1) as [[m2 dr2] [e|]] eqn:Eh; [done|].
  injection H as <- <- Herr. destruct err as [e|].
  { apply readHashRequest_fails in E; [|done]. destruct n as [|n']; [done|].
    pose proof (readHashes_nothing n' (set_Hashes [] m1) dr1 E) as Hn. by rewrite Eh in Hn. }
  apply readHashRequest_ok in E as (root & a & b & c & d & Hroot & Hs & H1 & H2 & ->); [|done].
  apply Forall_cons in Hs as [Ha Hs]. apply Forall_cons in Hs as [Hb Hs].
  apply Forall_cons in Hs as [Hc Hs]. apply Forall_cons in Hs as [Hd _].
  apply readHashes_ok in Eh as (hs & Hhs & E1 & E2 & ->).
  split; [wf_read|]. exists ((root :: map (be 4) [a; b; c; d]) ++ hs).
  rewrite concat_app, length_app, concat_length_cons, Hroot.
  change (length (concat (map (be 4) _))) with 16%nat.
  split_and!; [done|by rewrite H1, E1, app_assoc|lia].
Qed.

Lemma readMessageAfterType_ok t dr m dr' pool :
  0 <= t < 256 -> 0 <= lr_N dr ->
  readMessageAfterType (set_Type t zero_message) dr pool = (m, dr', None) -> lr_N dr' = 0 ->
  read_as t m dr dr'.
Proof.
  intros Ht HN H H0. assert (H' := H). revert H. unfold readMessageAfterType. cbn [Type_ set_Type zero_message].
  assert (Hroot : length zero_root = 32%nat) by done.
  destruct (is_type t no_fields) eqn:E0.
  { intros [= <- <-]. split; [wf_read|]. exists []. split_and!; [|done|simpl; lia].
    apply (writePayload_cases (set_Type t zero_message)); [done|]. cbn [Type_ set_Type]. by rewrite E0. }
  destruct (is_type t index_only) eqn:E1.
  { intros (vals & H1 & H2 & H3 & H4 & ->)%readSeq_ok. destruct vals as [|a [|]]; try discriminate H1.
    apply Forall_cons in H2 as [Ha _]. split; [wf_read|]. exists (map (be 4) [a]). cbn [length] in H4.
    split_and!; [|done|simpl; lia]. apply (writePayload_cases (set_Index a (set_Type t zero_message))); [done|].
    cbn [Type_ set_Type set_Index]. by rewrite E0, E1. }
  destruct (is_type t requests) eqn:E2.
  { intros (vals & H1 & H2 & H3 & H4 & ->)%readSeq_ok. destruct vals as [|a [|b [|c [|]]]]; try discriminate H1.
    apply Forall_cons in H2 as [Ha H2]. apply Forall_cons in H2 as [Hb H2]. apply Forall_cons in H2 as [Hc _].
    split; [wf_read|]. exists (map (be 4) [a; b; c]). cbn [length] in H4. split_and!; [|done|simpl; lia].
    apply (writePayload_cases (set_Length c (set_Begin b (set_Index a (set_Type t zero_message))))); [done|].
    cbn [Type_ set_Type set_Index set_Begin set_Length]. by rewrite E0, E1, E2. }
  destruct (t =? MessageType.Bitfield) eqn:E3.
  { apply Z.eqb_eq in E3 as ->. intros _. by eapply read_bitfield_ok. }
  destruct (t =? MessageType.Piece) eqn:E4.
  { apply Z.eqb_eq in E4 as ->. intros _. by eapply read_piece_ok. }
  destruct (t =? MessageType.Extended) eqn:E5.
  { apply Z.eqb_eq in E5 as ->. intros _. by eapply read_extended_ok. }
  destruct (t =? MessageType.Port) eqn:E6.
  { apply Z.eqb_eq in E6 as ->. intros _. by eapply read_port_ok. }
  destruct (is_type t hash_requests) eqn:E7; [intros H; by apply read_hash_request_ok|].
  destruct (t =? MessageType.Hashes) eqn:E8; [|done].
  apply Z.eqb_eq in E8 as ->. intros _. by eapply read_hashes_ok.
Qed.

(** C37. What the decoder accepts is one message and nothing else: the message
    it returns is well formed, its bytes, written again, are exactly those that
    were taken from the stream, and there are no more of them than allowed. *)
Theorem Decode_reads_one_message input pool max m d :
  Decode (mkDecoder input pool max) zero_message = (m, d, None) ->
  wf m /\ exists data, MarshalBinary m = (data, None) /\ input = data ++ R d /\
  4 <= Z.of_nat (length data) <= 4 + max.
Proof.
  unfold Decode. cbn [R Pool MaxLength]. destruct (length input <? 4)%nat eqn:Hlen; [done|].
  apply Nat.ltb_ge in Hlen. set (n := of_be (take 4 input)).
  assert (length (take 4 input) = 4%nat) as Ht by (rewrite length_take; lia).
  assert (u32 n) as Hn by (apply of_be_u32; by rewrite Ht).
  assert (input = be 4 n ++ drop 4 input) as Hin by (unfold n; by rewrite be_of_be_n, take_drop).
  destruct (max <? n) eqn:Hmax; [done|]. apply Z.ltb_ge in Hmax. destruct (n =? 0) eqn:H0.
  { apply Z.eqb_eq in H0. intros [= <- <-]. cbn [R]. split; [wf_read|]. exists (be 4 n).
    rewrite be_length. split_and!; [by rewrite H0|done|lia|unfold u32 in *; lia]. }
  apply Z.eqb_neq in H0. unfold ReadByte. cbn [lr_N br].
  rewrite (proj2 (Z.leb_gt _ _)) by (unfold u32 in *; lia).
  destruct (drop 4 input) as [|c r]; [done|].
  destruct (readMessageAfterType _ _ pool) as [[m' dr'] [e|]] eqn:E; [done|].
  destruct (lr_N dr' =? 0) eqn:HN; [|done]. apply Z.eqb_eq in HN. intros [= <- <-]. cbn [R].
  apply readMessageAfterType_ok in E as (Hwf & fields & Hw & Hbr & Hlr);
    [|apply byte_of_range|cbn [lr_N]; unfold u32 in *; lia|done].
  rewrite of_byte_byte_of in Hw. cbn [br lr_N] in *. split; [done|].
  exists (be 4 n ++ concat ([c] :: fields)). rewrite (MarshalBinary_writes _ _ Hw).
  assert (n = Z.of_nat (length (concat ([c] :: fields)))) as En by (rewrite concat_length_cons; simpl; lia).
  rewrite <- En, (uint32_small n) by done. split_and!; [done| |rewrite length_app, be_length; lia..].
  rewrite Hin, Hbr. cbn [concat app]. by rewrite <- app_assoc.
Qed.

(** ** How much is read *)

Definition consumes (dr dr' : decodeReader) : Prop :=
  exists used, br dr = used ++ br dr' /\ lr_N dr = lr_N dr' + Z.of_nat (length used) /\ 0 <= lr_N dr'.

Lemma consumes_refl dr : 0 <= lr_N dr -> consumes dr dr.
Proof. intros H. exists []. split_and!; [done|simpl; lia|done]. Qed.

Lemma consumes_trans a b c : consumes a b -> consumes b c -> consumes a c.
Proof.
  intros (u & H1 & H2 & H3) (v & H4 & H5 & H6). exists (u ++ v). rewrite H1, H4, app_assoc, length_app.
  split_and!; [done|lia|done].
Qed.

Lemma ReadFull_consumes n dr : 0 <= n -> 0 <= lr_N dr -> consumes dr (snd (fst (ReadFull n dr))).
Proof.
  intros Hn HN. unfold ReadFull. destruct (_ && _) eqn:E; cbn [fst snd].
  - apply andb_true_iff in E as [H1%Z.leb_le H2%Z.leb_le]. exists (take (Z.to_nat n) (br dr)). cbn [br lr_N].
    rewrite take_drop, length_take. split_and!; [done|lia|lia].
  - set (k := Z.min _ _). exists (take (Z.to_nat k) (br dr)). cbn [br lr_N].
    rewrite take_drop, length_take. split_and!; [done|lia|lia].
Qed.

Lemma readSeq_consumes sets m dr : 0 <= lr_N dr -> consumes dr (snd (fst (readSeq sets m dr))).
Proof.
  revert m dr. induction sets as [|set sets IH]; intros m dr HN; cbn [readSeq]; [by apply consumes_refl|].
  pose proof (ReadFull_consumes 4 dr ltac:(lia) HN) as Hc.
  destruct (ReadFull 4 dr) as [[b dr1] [e|]]; [done|]. cbn [fst snd] in Hc.
  eapply consumes_trans; [done|]. apply IH. by destruct Hc as (? & ? & ? & ?).
Qed.

Lemma readHashes_consumes n m dr : 0 <= lr_N dr -> consumes dr (snd (fst (readHashes n m dr))).
Proof.
  revert m dr. induction n as [|n IH]; intros m dr HN; cbn [readHashes]; [by apply consumes_refl|].
  pose proof (ReadFull_consumes 32 dr ltac:(lia) HN) as Hc.
  destruct (ReadFull 32 dr) as [[b dr1] [e|]]; [done|]. cbn [fst snd] in Hc.
  eapply consumes_trans; [done|]. apply IH. by destruct Hc as (? & ? & ? & ?).
Qed.

Lemma readHashRequest_consumes m dr : 0 <= lr_N dr -> consumes dr (snd (fst (readHashRequest m dr))).
Proof.
  intros HN. unfold readHashRequest. pose proof (ReadFull_consumes 32 dr ltac:(lia) HN) as Hc.
  destruct (ReadFull 32 dr) as [[b dr1] [e|]]; [done|]. cbn [fst snd] in Hc.
  eapply consumes_trans; [done|]. apply readSeq_consumes. by destruct Hc as (? & ? & ? & ?).
Qed.

(** Reading the rest of the message, after a first part. *)
Lemma ReadFull_rest_consumes dr : 0 <= lr_N dr -> consumes dr (snd (fst (ReadFull (lr_N dr) dr))).
Proof. intros HN. by apply ReadFull_consumes. Qed.

Lemma readMessageAfterType_consumes m dr pool :
  0 <= lr_N dr -> consumes dr (snd (fst (readMessageAfterType m dr pool))).
Proof.
  intros HN. unfold readMessageAfterType.
  destruct (is_type (Type_ m) no_fields); [by apply consumes_refl|].
  destruct (is_type (Type_ m) index_only); [by apply readSeq_consumes|].
  destruct (is_type (Type_ m) requests); [by apply readSeq_consumes|].
  pose proof (ReadFull_rest_consumes dr HN) as Hrest.
  destruct (Type_ m =? MessageType.Bitfield); [by destruct (ReadFull _ dr) as [[b dr1] err]|].
  destruct (Type_ m =? MessageType.Piece).
  { pose proof (readSeq_consumes [set_Index; set_Begin] m dr HN) as Hc.
    destruct (readSeq _ m dr) as [[m1 dr1] [e|]]; [done|]. cbn [fst snd] in Hc.
    assert (0 <= lr_N dr1) as HN1 by (by destruct Hc as (? & ? & ? & ?)).
    pose proof (ReadFull_rest_consumes dr1 HN1) as Hc1. destruct pool as [buffer|].
    - destruct (_ <? _); [done|]. destruct (ReadFull _ dr1) as [[b dr2] err]. by eapply consumes_trans.
    - destruct (ReadFull _ dr1) as [[b dr2] err]. by eapply consumes_trans. }
  destruct (Type_ m =? MessageType.Extended).
  { unfold ReadByte. destruct (lr_N dr <=? 0) eqn:E0; [by apply consumes_refl|]. apply Z.leb_gt in E0.
    destruct (br dr) as [|c r] eqn:Er; [by apply consumes_refl|].
    pose proof (ReadFull_rest_consumes (mkReader (lr_N dr - 1) r) ltac:(cbn [lr_N]; lia)) as Hc.
    clear Hrest. destruct (ReadFull _ _) as [[b dr1] err]. eapply consumes_trans; [|exact Hc].
    exists [c]. cbn [br lr_N length]. rewrite Er. split_and!; [done|lia|lia]. }
  destruct (Type_ m =? MessageType.Port).
  { pose proof (ReadFull_consumes 2 dr ltac:(lia) HN) as Hc. by destruct (ReadFull 2 dr) as [[b dr1] err]. }
  destruct (is_type (Type_ m) hash_requests); [by apply readHashRequest_consumes|].
  destruct (Type_ m =? MessageType.Hashes); [|by apply consumes_refl].
  pose proof (readHashRequest_consumes m dr HN) as Hc.
  destruct (readHashRequest m dr) as [[m1 dr1] err]. cbn [fst snd] in Hc.
  assert (0 <= lr_N dr1) as HN1 by (by destruct Hc as (? & ? & ? & ?)).
  set (n := Z.to_nat _). pose proof (readHashes_consumes n (set_Hashes [] m1) dr1 HN1) as Hh.
  destruct (readHashes n _ dr1) as [[m2 dr2] [e|]]; by eapply consumes_trans.
Qed.

(** C36. Whatever the peer sends, the decoder never reads past the message its
    length prefix announces, and never more than the longest message allowed:
    an overlong message is refused before any of it is read. *)
Theorem Decode_never_reads_past d m m' d' err :
  Decode d m = (m', d', err) ->
  exists used, R d = used ++ R d' /\ Z.of_nat (length used) <= 4 + Z.max 0 (MaxLength d) /\
  ((4 <= length (R d))%nat -> Z.of_nat (length used) <= 4 + of_be (take 4 (R d))) /\
  (err = Some MessageTooLong -> length used = 4%nat).
Proof.
  unfold Decode. destruct (length (R d) <? 4)%nat eqn:Hlen.
  { apply Nat.ltb_lt in Hlen. intros [= <- <- <-]. exists (R d). cbn [R]. rewrite app_nil_r.
    split_and!; [done|lia|lia|done]. }
  apply Nat.ltb_ge in Hlen. set (n := of_be (take 4 (R d))).
  assert (length (take 4 (R d)) = 4%nat) as Ht by (rewrite length_take; lia).
  assert (u32 n) as Hn by (apply of_be_u32; by rewrite Ht).
  assert (forall r e x, m' = x -> d' = mkDecoder r (Pool d) (MaxLength d) -> err = e ->
    (exists used, drop 4 (R d) = used ++ r /\ Z.of_nat (length used) <= Z.max 0 (MaxLength d) /\
     Z.of_nat (length used) <= n /\ (e = Some MessageTooLong -> used = [])) ->
    exists used, R d = used ++ R d' /\ Z.of_nat (length used) <= 4 + Z.max 0 (MaxLength d) /\
    ((4 <= length (R d))%nat -> Z.of_nat (length used) <= 4 + n) /\
    (err = Some MessageTooLong -> length used = 4%nat)) as Hwrap.
  { intros r e x -> -> -> (used & Hd & H1 & H2 & H3). exists (take 4 (R d) ++ used). cbn [R].
    rewrite <- app_assoc, <- Hd, take_drop, length_app, Ht. split_and!; [done|lia|lia|].
    intros E. by rewrite H3. }
  destruct (MaxLength d <? n) eqn:Hmax; [|apply Z.ltb_ge in Hmax; destruct (n =? 0) eqn:H0].
  - intros [= <- <- <-]. eapply Hwrap; [done..|]. exists []. unfold u32 in Hn. split_and!; [done|simpl; lia..|done].
  - intros [= <- <- <-]. eapply Hwrap; [done..|]. exists []. unfold u32 in Hn. split_and!; [done|simpl; lia..|done].
  - apply Z.eqb_neq in H0. unfold ReadByte. cbn [lr_N br]. unfold u32 in Hn. rewrite (proj2 (Z.leb_gt _ _)) by lia.
    destruct (drop 4 (R d)) as [|c r] eqn:Er.
    + intros [= <- <- <-]. eapply Hwrap; [done..|]. exists []. split_and!; [done|simpl; lia..|done].
    + pose proof (readMessageAfterType_consumes (set_Type (byte_of c) m) (mkReader (n - 1) r) (Pool d)
        ltac:(cbn [lr_N]; lia)) as (used & Hu & HlN & HN').
      destruct (readMessageAfterType _ _ _) as [[m1 dr1] e]. cbn [fst snd br lr_N] in *. intros [= <- <- <-].
      eapply Hwrap; [done..|]. exists (c :: used). cbn [length]. rewrite Hu.
      split_and!; [done|lia..|]. destruct e as [e|]; [done|]. by destruct (lr_N dr1 =? 0).
Qed.

(** [UnmarshalBinary] reads no message but a keepalive: its decoder has a
    [MaxLength] of zero, so the bytes [MarshalBinary] writes for any other
    message are refused as too long. *)
Theorem UnmarshalBinary_refuses_messages m data :
  MarshalBinary m = (data, None) -> Z.of_nat (length data) < 2 ^ 32 ->
  if Keepalive m then UnmarshalBinary zero_message data = (set_Keepalive true zero_message, None)
  else UnmarshalBinary zero_message data = (zero_message, Some MessageTooLong).
Proof.
  intros Hm Hlen. apply MarshalBinary_ok in Hm as (writes & Hw & ->).
  rewrite length_app, be_length in Hlen. rewrite uint32_small by (split; lia).
  set (n := Z.of_nat (length (concat writes))) in *.
  assert (take 4 (be 4 n ++ concat writes) = be 4 n) as Ht by (by rewrite take_app_length' by (by rewrite be_length)).
  assert (of_be (be 4 n) = n) as Hn by (apply of_be_be; change (256 ^ Z.of_nat 4) with (2 ^ 32); lia).
  destruct (Keepalive m) eqn:Hk.
  - unfold writePayloadTo in Hw. rewrite Hk in Hw. by injection Hw as <-.
  - apply writePayloadTo_fields in Hw; [|done].
    assert (0 < n) by (subst n; rewrite Hw, concat_length_cons; simpl; lia).
    unfold UnmarshalBinary, Decode. cbn [R MaxLength]. rewrite Ht, Hn, length_app, be_length.
    rewrite (proj2 (Nat.ltb_ge _ _)) by lia. by rewrite (proj2 (Z.ltb_lt _ _)).
Qed.

(** ** The handshake *)

Lemma land_bit c i : (i < 8)%nat ->
  negb (Z.land (byte_of c) (Z.shiftl 1 (Z.of_nat i)) =? 0) = Z.testbit (byte_of c) (Z.of_nat i).
Proof.
  intros Hi. rewrite Z.shiftl_1_l. destruct (Z.testbit (byte_of c) (Z.of_nat i)) eqn:E.
  - apply negb_true_iff, Z.eqb_neq. intros H0. assert (Z.testbit (Z.land (byte_of c) (2 ^ Z.of_nat i)) (Z.of_nat i) = false)
      as Hf by (by rewrite H0, Z.testbit_0_l).
    by rewrite Z.land_spec, E, Z.pow2_bits_true in Hf by lia.
  - apply negb_false_iff, Z.eqb_eq. apply Z.bits_inj_0. intros n. rewrite Z.land_spec.
    destruct (decide (n = Z.of_nat i)) as [->|]; [by rewrite E|].
    destruct (decide (0 <= n)); [|by rewrite !Z.testbit_neg_r by lia].
    by rewrite Z.pow2_bits_false, andb_false_r by lia.
Qed.

(** Setting or clearing one bit of a byte. *)
Lemma flip_byte c i (on : bool) : (i < 8)%nat ->
  let mask := Z.shiftl 1 (Z.of_nat i) in
  let x := if on then Z.lor (byte_of c) mask else Z.ldiff (byte_of c) mask in
  byte_of (of_byte x) = x /\
  forall j, (j < 8)%nat -> Z.testbit x (Z.of_nat j) = if decide (j = i) then on else Z.testbit (byte_of c) (Z.of_nat j).
Proof.
  intros Hi mask x. pose proof (byte_of_range c) as Hc.
  assert (0 <= mask < 256) as Hm.
  { subst mask. rewrite Z.shiftl_1_l. split; [apply Z.pow_nonneg; lia|].
    change 256 with (2 ^ 8). apply Z.pow_lt_mono_r; lia. }
  split.
  - apply byte_of_of_byte. subst x. destruct on; [by apply lor_byte|].
    enough (0 <= Z.ldiff (byte_of c) mask <= byte_of c) by lia. apply Z.ldiff_le; [lia|].
    apply Z.bits_inj_0. intros n. rewrite !Z.ldiff_spec. by destruct (Z.testbit (byte_of c) n); rewrite ?andb_false_r.
  - intros j Hj. subst x mask. rewrite Z.shiftl_1_l. destruct (decide (j = i)) as [->|Hne]; destruct on.
    + by rewrite Z.lor_spec, Z.pow2_bits_true, orb_true_r by lia.
    + by rewrite Z.ldiff_spec, Z.pow2_bits_true, andb_false_r by lia.
    + by rewrite Z.lor_spec, Z.pow2_bits_false, orb_false_r by lia.
    + by rewrite Z.ldiff_spec, Z.pow2_bits_false, andb_true_r by lia.
Qed.

(** The extension bits are a set of 64 bits: a bit that was set or cleared
    reads as such, the other ones as before; a bit beyond is a panic. *)
Theorem extension_bits_are_a_set pex bit on :
  length pex = 8%nat ->
  ((bit < 64)%nat -> exists pex', SetBit pex bit on = Some pex' /\ length pex' = 8%nat /\
    forall bit', GetBit pex' bit' = if decide (bit' = bit) then Some on else GetBit pex bit') /\
  ((64 <= bit)%nat -> SetBit pex bit on = None /\ GetBit pex bit = None).
Proof.
  intros Hlen. split; intros Hbit.
  - assert (bit / 8 <= 7)%nat as Hdiv by (apply Nat.lt_succ_r, Nat.Div0.div_lt_upper_bound; lia).
    unfold SetBit. rewrite decide_False by lia. eexists. split; [done|]. rewrite length_alter. split; [done|].
    intros bit'. unfold GetBit. destruct (decide (7 < bit' / 8)%nat) as [Hb'|Hb'].
    { rewrite decide_False; [done|]. intros ->. lia. }
    assert (Hi := Nat.mod_upper_bound bit 8 ltac:(lia)). assert (Hi' := Nat.mod_upper_bound bit' 8 ltac:(lia)).
    destruct (decide (bit / 8 = bit' / 8)%nat) as [Ediv|Ediv].
    + rewrite <- Ediv, list_lookup_alter_eq.
      destruct (lookup_lt_is_Some_2 pex (7 - bit / 8)%nat) as [c ->]; [lia|].
      cbn [fmap option_fmap option_map mbind option_bind]. rewrite !land_bit by done.
      destruct (flip_byte c (bit mod 8) on Hi) as [-> Hx]. rewrite Hx by done.
      destruct (decide (bit' = bit)) as [->|Hne]; [by rewrite decide_True|].
      rewrite decide_False; [done|]. intros Hm. apply Hne. pose proof (Nat.div_mod bit 8). pose proof (Nat.div_mod bit' 8). lia.
    + rewrite list_lookup_alter_ne by lia. rewrite decide_False; [done|]. by intros ->.
  - assert (8 <= bit / 8)%nat by (apply Nat.div_le_lower_bound; lia).
    unfold SetBit, GetBit. by rewrite !decide_True by lia.
Qed.

(** What the side that knows the hash sends before it reads anything. *)
Definition hello (h id ext : list ascii) : list ascii := Protocol ++ ext ++ h ++ id.

Lemma take_drop_hello h id ext rest :
  length h = 20%nat -> length id = 20%nat -> length ext = 8%nat ->
  take 68 (hello h id ext ++ rest) = hello h id ext /\ drop 68 (hello h id ext ++ rest) = rest /\
  take (length Protocol) (hello h id ext) = Protocol /\
  drop (length Protocol) (hello h id ext) = ext ++ h ++ id /\
  (length (hello h id ext ++ rest) <? 68)%nat = false.
Proof.
  intros Hh Hid Hext.
  assert (length (hello h id ext) = 68%nat) as Hl.
  { unfold hello. rewrite !length_app, Hh, Hid, Hext. done. }
  split_and!; [by rewrite take_app_length'|by rewrite drop_app_length'|..].
  - unfold hello. by rewrite take_app_length.
  - unfold hello. by rewrite drop_app_length.
  - apply Nat.ltb_ge. rewrite length_app. lia.
Qed.

Lemma split_hello h id ext :
  length h = 20%nat -> length id = 20%nat -> length ext = 8%nat ->
  mkHandshake (take 8 (ext ++ h ++ id)) (take 20 (drop 8 (ext ++ h ++ id))) (take 20 (drop 28 (ext ++ h ++ id))) =
  mkHandshake ext h id.
Proof.
  intros Hh Hid Hext. f_equal.
  - by rewrite take_app_length'.
  - rewrite drop_app_length' by done. by rewrite take_app_length'.
  - rewrite app_assoc, drop_app_length' by (rewrite length_app; lia). by rewrite take_ge by lia.
Qed.

(** Two peers agree: the side that knows the hash sends its whole handshake
    whatever it receives, the other side answers that handshake with its own,
    and each then holds the extensions, the hash and the identity of the other
    and leaves the bytes after the handshake. Anything that does not start
    with the protocol string is refused. *)
Theorem handshakes_agree h idA extA idB extB rest :
  length h = 20%nat -> length idA = 20%nat -> length extA = 8%nat -> length idB = 20%nat -> length extB = 8%nat ->
  let run_hs p incoming := run (hs_handle None) p (incoming, []) in
  let A := Handshake (Some h) idA extA in
  let B := Handshake None idB extB in
  (forall incoming, snd (snd (run_hs A incoming)) = hello h idA extA) /\
  run_hs B (hello h idA extA ++ rest) = (Val (mkHandshake extA h idA, None), (rest, hello h idB extB)) /\
  run_hs A (hello h idB extB ++ rest) = (Val (mkHandshake extB h idB, None), (rest, hello h idA extA)) /\
  (forall incoming, (68 <= length incoming)%nat -> take 20 incoming <> Protocol ->
     exists st, run_hs B incoming = (Val (no_result, Some (UnexpectedProtocol (take 20 incoming))), st)).
Proof.
  intros Hh HidA HextA HidB HextB run_hs A B. subst run_hs A B. cbv beta.
  destruct (take_drop_hello h idA extA rest Hh HidA HextA) as (T1 & D1 & P1 & R1 & L1).
  destruct (take_drop_hello h idB extB rest Hh HidB HextB) as (T2 & D2 & P2 & R2 & L2).
  split_and!.
  - intros incoming. unfold Handshake. cbn -[Nat.ltb Protocol take drop]. unfold hello.
    destruct (length incoming <? 68)%nat; cbn -[Protocol take drop].
    + by rewrite <- !app_assoc.
    + case_decide; cbn -[Protocol take drop]; by rewrite <- !app_assoc.
  - unfold Handshake. cbn -[Nat.ltb Protocol take drop hello]. rewrite L1.
    cbn -[Nat.ltb Protocol take drop hello]. rewrite T1, D1, P1. rewrite decide_True by done.
    cbn -[Nat.ltb Protocol take drop hello]. rewrite R1.
    rewrite split_hello by done. cbn -[Protocol take drop]. unfold hello.
    rewrite drop_app_length' by done. rewrite take_app_length' by done. by rewrite <- !app_assoc.
  - unfold Handshake. cbn -[Nat.ltb Protocol take drop hello]. rewrite L2.
    cbn -[Nat.ltb Protocol take drop hello]. rewrite T2, D2, P2. rewrite decide_True by done.
    cbn -[Nat.ltb Protocol take drop hello]. rewrite R2, split_hello by done. unfold hello. by rewrite <- !app_assoc.
  - intros incoming Hlen Hp. unfold Handshake. cbn -[Nat.ltb Protocol take drop].
    rewrite (proj2 (Nat.ltb_ge _ _)) by done. cbn -[Protocol take drop].
    assert (take (length Protocol) (take 68 incoming) = take 20 incoming) as -> by (by rewrite take_take).
    rewrite decide_False by done. by eexists.
Qed.

(** ** At concrete inputs *)

Definition sample_request : Message :=
  set_Length 16384 (set_Begin 32768 (set_Index 7 (set_Type MessageType.Request zero_message))).

Definition sample_have_field : Message :=
  set_Bitfield [true; false; true; true; false; false; false; false; false; true]
    (set_Type MessageType.Bitfield zero_message).

Lemma wf_sample : wf sample_request.
Proof. split; cbn; try done; try lia; by constructor. Qed.

Lemma wf_sample_field : wf sample_have_field.
Proof. split; cbn; try done; try lia; by constructor. Qed.

Definition sample_data : list ascii := fst (MarshalBinary sample_have_field).

Lemma Decode_MarshalBinary_witness :
  Decode (mkDecoder (sample_data ++ ["!"%char]) None 262144) zero_message =
    (carried sample_have_field, mkDecoder ["!"%char] None 262144, None) /\
  Bitfield (carried sample_have_field) = padded (Bitfield sample_have_field).
Proof.
  split; [|reflexivity].
  apply (Decode_MarshalBinary sample_have_field sample_data ["!"%char] None 262144).
  - apply wf_sample_field.
  - reflexivity.
  - exact I.
  - vm_compute. split; [discriminate|reflexivity].
Defined.

Lemma Decode_reads_one_message_witness :
  wf (carried sample_have_field) /\
  exists data, MarshalBinary (carried sample_have_field) = (data, None) /\ sample_data = data ++ [] /\
  4 <= Z.of_nat (length data) <= 4 + 262144.
Proof.
  apply (Decode_reads_one_message sample_data None 262144 (carried sample_have_field) (mkDecoder [] None 262144)).
  vm_compute. reflexivity.
Defined.

Lemma Decode_never_reads_past_witness :
  exists used, sample_data = used ++ drop 4 sample_data /\ Z.of_nat (length used) <= 4 + Z.max 0 2 /\
  ((4 <= length sample_data)%nat -> Z.of_nat (length used) <= 4 + of_be (take 4 sample_data)) /\
  (Some MessageTooLong = Some MessageTooLong -> length used = 4%nat).
Proof.
  apply (Decode_never_reads_past (mkDecoder sample_data None 2) zero_message zero_message
    (mkDecoder (drop 4 sample_data) None 2) (Some MessageTooLong)).
  vm_compute. reflexivity.
Defined.

Lemma UnmarshalBinary_refuses_messages_witness :
  UnmarshalBinary zero_message (fst (MarshalBinary sample_request)) = (zero_message, Some MessageTooLong).
Proof.
  apply (UnmarshalBinary_refuses_messages sample_request (fst (MarshalBinary sample_request))).
  - reflexivity.
  - vm_compute. reflexivity.
Defined.

Definition no_bits : list ascii := repeat "000"%char 8.

Lemma extension_bits_are_a_set_witness :
  exists pex', SetBit no_bits ExtensionBitLtep true = Some pex' /\ SupportsExtended pex' = Some true /\
    SupportsDHT pex' = Some false.
Proof.
  destruct (extension_bits_are_a_set no_bits ExtensionBitLtep true eq_refl) as [H _].
  destruct H as (pex' & Hs & _ & Hg); [unfold ExtensionBitLtep; lia|].
  exists pex'. split; [exact Hs|]. unfold SupportsExtended, SupportsDHT. rewrite !Hg. split; reflexivity.
Defined.

Definition letters (c : ascii) (n : nat) : list ascii := repeat c n.

Lemma handshakes_agree_witness :
  run (hs_handle None) (Handshake None (letters "b" 20) no_bits) (hello (letters "h" 20) (letters "a" 20) no_bits ++ [], []) =
  (Val (mkHandshake no_bits (letters "h" 20) (letters "a" 20), None),
   ([], hello (letters "h" 20) (letters "b" 20) no_bits)).
Proof.
  destruct (handshakes_agree (letters "h" 20) (letters "a" 20) no_bits (letters "b" 20) no_bits [])
    as (_ & H & _); [reflexivity..|exact H].
Defined.
